(* ===== verification/_CoqProject ===== *)
-Q . S2P
Prelude.v
Contracts.v
K8s.v
Api.v
CoreApi.v
Effects.v
ImagePrepare.v
CreateRequest.v
CircuitBreaker.v
CircuitBreakerProps.v
Retry.v
RetryProps.v
GrpcClient.v
GrpcClientProps.v
Resolver.v
ResolverProps.v
VirtualMachine.v
VirtualMachineSpec.v
VirtualMachineDemo.v
ImageProps.v
CreateRequestProps.v
VirtualMachineProps.v
VirtualMachineProgress.v
GoLib.v
NetIP.v
MigrationApi.v
JobApi.v
Cluster.v
Storage.v
StorageProps.v
TraceSpec.v
MigrationHelpers.v
Migration.v
MigrationSpec.v
MigrationRefine.v
MigrationDemo.v
MigrationProps.v
MigrationTransfer.v
MigrationGuard.v
MigrationStaging.v
Snapshot.v
SnapshotProps.v
Clone.v
CloneProps.v
Utf8.v
ProviderController.v
ProviderControllerProps.v
Adoption.v
AdoptionProps.v
SdkErrors.v
SdkMiddleware.v
SdkServer.v
SdkClient.v
SdkCapabilities.v
SdkMiddlewareProps.v
SdkProps.v
Mock.v
MockProps.v
Json.v
PveApi.v
Proxmox.v
ProxmoxProps.v
Virsh.v
LibvirtDomains.v
GuestAgent.v
LibvirtStorage.v
LibvirtXml.v
Libvirt.v
LibvirtOps.v
LibvirtImage.v
LibvirtServer.v
LibvirtProps.v
LibvirtOpsProps.v
Transfer.v
LibvirtTransfer.v
TransferProps.v
