(* ===== verification/Prelude.v ===== *)
(** * A verification of the VirtRigaud manager

    VirtRigaud is a Kubernetes operator that manages virtual machines on
    several hypervisors.  Custom resources say what should exist; controllers in
    the manager compare them with what the providers report and act through a gRPC
    client, one remote provider process per hypervisor.  This development models
    the Go code of the manager, of the SDK the providers are built with and of three
    providers, and proves what keeps it safe.

    ** The parts and the files

    - [Prelude] (this file): results of Go functions, record update, the type
      [prog] of effectful programs with its runs and weakest preconditions,
      traces, strings, machine integers, and the tactics the other files use.
    - [Contracts]: [internal/providers/contracts], the errors with their
      predicates, and the request and response types.
    - [K8s]: [internal/k8s] and [internal/util/k8s], status conditions.
    - [Api]: the custom resources of [api/infra.virtrigaud.io/v1beta1], with the
      fields the modelled code touches.
    - [Effects]: every call the VirtualMachine controller makes to the API
      server, the providers, the clock and the metrics, with the type of its
      answer; and the third-party libraries it uses, as the class [Libraries] with
      the documented laws [LibrariesOk].
    - [ImagePrepare]: [internal/controller/virtualmachine_image_prepare.go].
    - [CreateRequest]: [internal/controller/cloudinit.go] and the construction of
      the create request in [virtualmachine_controller.go].
    - [VirtualMachine]: the rest of
      [internal/controller/virtualmachine_controller.go]: [Reconcile] and
      everything it calls.  The long body of [reconcileVM] is cut into one
      definition per stage ([reconcileWithImage], [checkLastTask],
      [checkReconfigureTask], [ensureExists], [reconcileExisting]), in the order
      of the source.
    - [CircuitBreaker], [Retry]: [internal/resilience].
    - [GrpcClient]: [internal/transport/grpc/client.go].
    - [Resolver]: [internal/runtime/remote/resolver.go] and the transport set-up of
      [NewClient].
    - [GoLib], [NetIP]: the pieces of Go's library the migration code uses: string
      splitting and trimming, decimal printing, [path/filepath] and [net.IP].
    - [MigrationApi], [JobApi]: the VMMigration, VMSnapshot and VMClone resources and
      the objects of the cluster the migration controller touches.
    - [Cluster]: the calls of the migration, snapshot, clone and adoption
      controllers: API server, providers, the staging volume, the clock and the
      in-process guard of long operations, with the third-party libraries as
      [ClusterLibraries] and their laws.
    - [Storage]: [internal/storage/migration] (backends and transfer modes, NFS
      URLs, the policy for staging hosts, the options sent to providers) and what
      the clean-up uses of [internal/storage].
    - [MigrationHelpers], [Migration]:
      [internal/controller/vmmigration_controller.go], first the functions the phase
      handlers share (validation, claims, mounts, gates, status updates, clean-up),
      then one definition per handler, the deletion and [Reconcile].  Handlers of
      several hundred lines are cut at their numbered steps, as in
      [handleValidatingPhase] into [validate_storage], [power_gate] and
      [validation_complete].
    - [Snapshot], [Clone]: [internal/controller/vmsnapshot_controller.go] and
      [vmclone_controller.go], one definition per handler, with [Reconcile] cut at
      its early returns.
    - [Utf8], [Adoption]: Go strings as sequences of runes, DNS labels, and
      [internal/controller/vmadoption_controller.go]: discovery, the filter, the
      names and the objects made for a machine.
    - [CoreApi], [ProviderController]: Services, Deployments and claims, and
      [internal/controller/provider_controller.go], which runs the providers.
    - [SdkErrors], [SdkMiddleware], [SdkServer], [SdkClient], [SdkCapabilities]:
      [sdk/provider], the other end of the connection: typed errors, the
      interceptors of a provider's server, its TLS configuration as a provider's
      main function ([cmd/provider-libvirt/main.go]) sets it up, the SDK's client and
      the capabilities.
    - [Mock]: [internal/providers/mock/provider.go], the provider without a
      hypervisor: its RPCs and its goroutines over a memory of pointers.
    - [Json]: documents as [encoding/json] decodes them, and the numbers of [strconv].
    - [PveApi], [Proxmox]: the Proxmox VE provider.  [PveApi] is its client
      ([internal/providers/proxmox/pveapi/client.go]: requests, form encoding, the
      reading of answers, the polling of tasks); [Proxmox] is [server.go] with the
      creation of machines around imported disks ([s3import.go]), the quoting of
      shell words ([ssh.go]) and the capabilities.
    - [Virsh], [LibvirtDomains], [GuestAgent], [LibvirtStorage], [LibvirtXml],
      [Libvirt], [LibvirtOps], [LibvirtImage], [LibvirtServer]: the libvirt provider
      ([internal/providers/libvirt]), which runs [virsh] and other programs on the
      host.  [Virsh] is the connection ([virsh.go], [sshhostkey.go]) and the running of
      commands; [LibvirtDomains] the listings of [virsh.go]; [GuestAgent] is
      [guest_agent.go]; [LibvirtStorage] is [storage.go] and [cloudinit.go];
      [LibvirtXml] the definitions of domains ([reconfigure_online.go],
      [domainxml.go], the texts of [provider_virsh.go] and [clone.go]); [Libvirt] and
      [LibvirtOps] the operations of [provider_virsh.go], [disk_expand.go] and
      [clone.go]; [LibvirtImage] is [image.go]; [LibvirtServer] is [server.go] with
      [nfs.go].
    - [Transfer], [LibvirtTransfer]: the data plane of migrations.  [Transfer] is the
      part of [internal/storage] ([pvc.go], [s3.go]) that moves disks into and out of
      staging storage, with the image tool of [internal/diskutil]; [LibvirtTransfer] is
      [s3export.go], [s3import.go] and the disk transfer of [provider_virsh.go] and
      [server.go] of the libvirt provider.

    ** How code becomes a model

    A handler that talks to the outside is a [prog]: a tree whose nodes are calls
    and whose branches are the possible answers.  [runs p tr o] says that [p] can
    make the calls [tr], each paired with its answer, and end in [o]; [wp p Q] says
    that every run satisfies [Q].  The environment is unconstrained: the API server
    and the providers may answer anything at any moment, so a theorem [wp p Q]
    covers conflicts, failures and misbehaving providers.  A nil dereference is the
    node [Crash].  State that the code mutates in place (the fetched object, the
    breaker, the client) is threaded through; what other parties can see of it is
    what the program sends in its update calls.

    The breaker is shared by concurrent callers and each of its methods holds its
    mutex, so [CircuitBreaker] gives it a step relation: arrivals, results of
    admitted calls in any order, calls that panic, resets and the clock.  The
    registry holds pointers into a heap, because clients share the breakers.  The
    resolver's cache is shared in the same way but locked piecewise: each of its
    critical sections is one call, [enact] gives the section's effect on the shared
    state, [runs_alone] is a program undisturbed and [pool_step] the interleaving of
    several.

    The mock provider keeps its machines behind pointers and leaves work to goroutines:
    [Mock] has a memory, sections under the mutex are single calls, and a pool of
    goroutines runs in any order.

    The libvirt provider acts through processes: the call [Exec] has the arguments and
    the environment, and its answer, which is arbitrary, the exit code, what was
    printed and the error.  What the host does is therefore known from what was run
    and how it ended, and its theorems speak of that.

    The migration controller keeps, beside the status of the resource, a marker per
    long operation in a map of the process.  [MigrationGuard] gives the map its
    effect on a schedule, an arbitrary merge of the traces of reconciles that each
    read some copy of the migration, so that its theorem speaks of concurrent
    workers and of outdated caches.

    Programs are total: loops are structural ([retry_loop] counts the attempts
    that are left, [getNetworks] follows the list of references) and
    [wp_runs] relates [wp] and [runs] for all of them.  The one definition with fuel,
    the trimming of encoded spaces in [GoLib], is given the length of its string,
    and every round drops at least a byte.  The Proxmox client polls a task until the
    deadline of the task passes: [WaitForTask] has the number of ticks that fit
    before it, an argument over which every theorem quantifies, and once they are
    used up the deadline is what happens, as in the code; the libvirt provider's wait
    for a guest command is the same.  [int32]
    conversions wrap as in Go; counters that cannot reach their width in practice
    are unbounded integers.  Delays are computed in binary64 with [SpecFloat].

    ** What is proved

    - [VirtualMachineSpec] states what each stage of a reconcile may write and
      return (inductive relations such as [create_spec], [existing_spec],
      [live_spec], [deletion_spec]) and proves that the code refines it, but for one
      case of the deletion ([deletion_orphans]).
    - [VirtualMachineProps] draws the consequences: at most one create per
      reconcile and only when it is due, every change of the hypervisor written down
      in the same reconcile and, once the API server stored that, remembered by the
      next, no change while a task is outstanding, deletion that
      keeps the finalizer while the provider refuses, Ready that is never set
      without a matching description; and the situations in which the controller
      gets stuck or loses track of a machine.
    - [VirtualMachineProgress]: without failures in its way a VM that can be
      created is created.
    - [ImageProps], [CreateRequestProps]: the image gate, the image status, the
      prepared location reaching the create request, networks, cloud-init and
      memory amounts.
    - [CircuitBreakerProps], [RetryProps]: the invariant of the breaker over all
      interleavings, rejection while open, recovery, bounds on probes, tripping,
      the registry; bounds and results of retries, the delays of the predefined
      configurations, and policies over an open breaker.
    - [GrpcClientProps]: the interceptor, the classification of errors and the
      tracking of outstanding tasks.
    - [ResolverProps]: which connections are dialled and handed out, with which
      credentials, under any interleaving; that a resolver used by one goroutine at
      a time accounts for every connection; a connection lost when two race, and a
      breaker shared by Providers of one name in different namespaces.
    - [TraceSpec] is the logic of the migration proofs: [conforms] says that each
      call of a trace was allowed by the calls before it, [guar] that a program
      makes only such calls.
    - [MigrationSpec] is the contract of the migration controller, stated without
      its code: the state machine of the status ([status_step]), what may be written,
      created, exported, imported, deleted, and on which evidence earlier in the same
      reconcile ([allowed]).  [MigrationRefine] proves that every handler, and so
      every reconcile, keeps to it.
    - [MigrationProps] draws the consequences: how often the phase can change, which
      virtual machines are ever deleted, that the export starts from a stopped
      source and over a permitted host, that Ready means a ready target; and four
      places where the controller loses an artifact or an attempt.
      [MigrationTransfer] follows the disk from the import into the target VM and
      an export whose record was lost; [MigrationGuard] shows that an export or
      import completes once under any interleaving; [MigrationStaging] that the
      path staged and the path cleaned up are one.
    - [SnapshotProps], [CloneProps], [AdoptionProps]: the rules of each controller and
      the proof that every reconcile keeps to them.  [lifetime] of [TraceSpec] is a
      sequence of reconciles that each read what was stored last: over it a snapshot
      is taken once and a clone issued once.  A clone that is Ready is bound to the
      machine the provider made, and, composed with the VirtualMachine controller,
      its target is not made a second time.  Adopted names are DNS labels.  Each file
      ends with ways in which the controller departs from its own comments.
    - [ProviderControllerProps]: the rules of the Provider controller, that every
      reconcile keeps to them and none panics, that the pod it deploys is well formed
      and mounts the claims of migrations; and a status that is not withdrawn.
    - [SdkMiddlewareProps]: a request reaches the provider's method once and only when
      it is authenticated.  [SdkProps]: how errors of a provider reach the manager;
      a provider serves plaintext only when told so; the environment and the files
      the Provider controller gives the pod make the two ends of the connection agree
      ([pod_view] is what the kubelet makes of the pod); and the SDK's client, which
      reports an error for calls that succeeded.
    - [StorageProps]: NFS URLs can be taken apart again, and the addresses the host
      policy denies are exactly eight networks.
    - [MockProps]: a task of the mock provider completes under any interleaving of the
      goroutines, and ways in which the mock can go wrong.
    - [ProxmoxProps]: a deletion reported as done was confirmed by the API; one create
      request makes at most one machine and its reply names it; a disk is never
      shrunk; a failed import takes the half-built machine away; descriptions are ones
      the manager accepts; the shell and the form decoding give back what was encoded;
      and network settings that never reach a machine.
    - [LibvirtProps], [LibvirtOpsProps]: the processes that a command of the libvirt
      provider makes and when it is tried again; no process before the host is known; a
      domain is only defined when it is missing, and disks are only removed once their
      domain is gone; the disk that is grown is the one that was found smaller; the room a definition leaves for more
      processors and memory; an image is converted after its digest was checked.
      [lead] and [ends] read the arguments of a process, [only_after] and
      [done_well] say what was run before.
    - [TransferProps]: a disk staged in a file of a claim comes back as it was, over an
      environment whose files work; the libvirt provider converts a disk it got over S3
      only after its sum was compared, and tries last to take the staged file away; the
      sizes given to the image tool are rounded down.
    - [VirtualMachineDemo] and [MigrationDemo] are small clusters on which the
      properties with
      hypotheses are exercised; [DemoLibraries], [DemoGrpc] and [DemoResolver] are
      instances of the third-party interfaces.  [DemoProvider], [DemoMiddleware],
      [DemoSdk], [DemoMock], [DemoProxmox], [DemoLibvirt], [DemoChanges] and [DemoTransfer]
      do the same for the Provider controller, the SDK, the three providers and the data
      plane.

    ** What is not modelled

    Log lines, watch set-up, timeouts of single RPCs and X.509 parsing.
    Uploads and downloads of the staging stores are run by the providers: to the
    migration controller they are single calls.  The accept loop and the shutdown of a
    provider's server, the vSphere driver (it calls govmomi), of the Proxmox provider the
    transfer of disks, the preparation of images and the SSH transport, the VMClass, VMImage, VMNetworkAttachment and VMSet
    controllers, the generated protocol code and the command-line tools are left out.  Fields of custom resources that no modelled
    function reads or writes are not in [Api].  A status update of a VM answers with
    an error or nothing: the code never reads back the object it wrote before it
    returns. *)
From stdpp Require Import base gmap strings list.
From Stdlib Require Import ZArith Lia.

(** ** Results of Go functions

    A Go function returning [(T, error)] is a [result T E]. *)
Inductive result (T E : Type) : Type :=
  | Ok (t : T)
  | Err (e : E).
Arguments Ok {T E} t.
Arguments Err {T E} e.

Definition is_ok {T E} (r : result T E) : bool :=
  match r with Ok _ => true | Err _ => false end.

#[export] Instance result_mret {E} : MRet (fun T => result T E) := fun _ t => Ok t.
#[export] Instance result_mbind {E} : MBind (fun T => result T E) :=
  fun _ _ f r => match r with Ok t => f t | Err e => Err e end.

(** ** Record update

    [r <| f := v |>] is [r] with the field [f] set to [v].  A record type opts in
    by an instance of [Eta] that lists its fields once; the setter of a field is
    found by abstracting that field in the eta-expansion. *)
Class Eta (R : Type) := eta_expand : R -> R.

Class Setter {R T : Type} (f : R -> T) := set_field : T -> R -> R.

Ltac find_setter :=
  lazymatch goal with
  | |- @Setter ?R ?T ?f =>
      let r := fresh "r" in
      let v := fresh "v" in
      refine (fun (v : T) (r : R) => _);
      let e := constr:(eta_expand r) in
      let e := eval cbv [eta_expand] in e in
      let e := match e with
               | ?i r => let h := eval unfold i in (i r) in eval cbv beta in h
               | ?h => h
               end in
      let e := eval pattern (f r) in e in
      lazymatch e with
      | ?body _ => let t := eval cbv beta in (body v) in exact t
      end
  end.

#[export] Hint Extern 1 (Setter _) => find_setter : typeclass_instances.

Declare Scope go_scope.
Delimit Scope go_scope with go.
#[global] Open Scope go_scope.

Notation "r <| f := v |>" := (set_field (f := f) v r)
  (at level 12, left associativity, format "r <| f := v |>") : go_scope.


(** ** Effectful programs

    A handler talks to the outside (API server, provider RPCs, clock, metrics)
    by a finite sequence of calls.  [prog E R A] is the type of such handlers:
    [E] is the type of calls, [R e] the type of the answers to the call [e].
    [Crash] is a Go run-time panic (a nil dereference): the handler stops there
    and the panic is reported to the caller of the reconcile loop. *)
Section Prog.
Context {E : Type} {R : E -> Type}.

Inductive prog (A : Type) : Type :=
  | Ret (a : A)
  | Vis (e : E) (k : R e -> prog A)
  | Crash (why : string).
Arguments Ret {A} a.
Arguments Vis {A} e k.
Arguments Crash {A} why.

Fixpoint prog_bind {A B} (p : prog A) (f : A -> prog B) : prog B :=
  match p with
  | Ret a => f a
  | Vis e k => Vis e (fun r => prog_bind (k r) f)
  | Crash w => Crash w
  end.

#[export] Instance prog_mret : MRet prog := fun _ a => Ret a.
#[export] Instance prog_mbind : MBind prog := fun _ _ f p => prog_bind p f.

Definition trigger (e : E) : prog (R e) := Vis e Ret.

(** A call together with the answer the environment gave. *)
Definition event : Type := { e : E & R e }.
Definition ev (e : E) (r : R e) : event := existT e r.

Inductive outcome (A : Type) : Type :=
  | Done (a : A)
  | Panicked (why : string).
Arguments Done {A} a.
Arguments Panicked {A} why.

(** [runs p tr o]: with answers chosen by some environment, [p] makes the
    calls of [tr] and ends with [o].  The environment is unconstrained: every
    answer of the right type is possible at every call. *)
Fixpoint runs {A} (p : prog A) (tr : list event) (o : outcome A) : Prop :=
  match p with
  | Ret a => tr = [] /\ o = Done a
  | Crash w => tr = [] /\ o = Panicked w
  | Vis e k => exists r tr', tr = ev e r :: tr' /\ runs (k r) tr' o
  end.

(** [wp p Q]: every run of [p] satisfies [Q]. *)
Fixpoint wp {A} (p : prog A) (Q : list event -> outcome A -> Prop) : Prop :=
  match p with
  | Ret a => Q [] (Done a)
  | Crash w => Q [] (Panicked w)
  | Vis e k => forall r, wp (k r) (fun tr => Q (ev e r :: tr))
  end.

Lemma wp_runs {A} (p : prog A) Q :
  wp p Q <-> forall tr o, runs p tr o -> Q tr o.
Proof.
  revert Q; induction p as [a|e k IH|w]; intros Q; cbn.
  - split; [by intros H tr o [-> ->]|eauto].
  - split.
    + intros H tr o (r & tr' & -> & Hr). by apply (proj1 (IH r _) (H r)).
    + intros H r. apply IH. intros tr o Hr. apply H. eauto.
  - split; [by intros H tr o [-> ->]|eauto].
Qed.

Lemma wp_mono {A} (p : prog A) (Q Q' : list event -> outcome A -> Prop) :
  wp p Q -> (forall tr o, Q tr o -> Q' tr o) -> wp p Q'.
Proof. rewrite !wp_runs. eauto. Qed.

Lemma wp_true {A} (p : prog A) : wp p (fun _ _ => True).
Proof. apply wp_runs. done. Qed.

Lemma wp_and {A} (p : prog A) (Q Q' : list event -> outcome A -> Prop) :
  wp p Q -> wp p Q' -> wp p (fun tr o => Q tr o /\ Q' tr o).
Proof. rewrite !wp_runs. eauto. Qed.

Definition bind_post {A B} (f : A -> prog B) (Q : list event -> outcome B -> Prop)
    (tr : list event) (o : outcome A) : Prop :=
  match o with
  | Done a => wp (f a) (fun tr' => Q (tr ++ tr'))
  | Panicked w => Q tr (Panicked w)
  end.

Lemma wp_bind {A B} (p : prog A) (f : A -> prog B) Q :
  wp p (bind_post f Q) -> wp (p ≫= f) Q.
Proof.
  unfold mbind, prog_mbind. revert Q.
  induction p as [a|e k IH|w]; intros Q; cbn; [done| |done].
  intros H r. apply IH. eapply wp_mono; [apply H|].
  intros tr [a|w]; cbn; done.
Qed.

Lemma wp_trigger (e : E) Q : (forall r, Q [ev e r] (Done r)) -> wp (trigger e) Q.
Proof. intros H r. apply H. Qed.

(** Running a program against a concrete environment: a state [W] and an
    answer for each call.  Used to evaluate handlers on concrete inputs. *)
Fixpoint exec {W A} (h : forall e : E, W -> R e * W) (p : prog A) (w : W)
    : list event * outcome A * W :=
  match p with
  | Ret a => ([], Done a, w)
  | Crash why => ([], Panicked why, w)
  | Vis e k =>
      let '(r, w') := h e w in
      let '(tr, o, w'') := exec h (k r) w' in
      (ev e r :: tr, o, w'')
  end.

Lemma exec_runs {W A} (h : forall e : E, W -> R e * W) (p : prog A) w :
  runs p (exec h p w).1.1 (exec h p w).1.2.
Proof.
  revert w; induction p as [a|e k IH|why]; intros w; cbn; [done| |done].
  destruct (h e w) as [r w'] eqn:Hh.
  specialize (IH r w'). destruct (exec h (k r) w') as [[tr o] w'']; cbn in *.
  eauto.
Qed.

(** The monad laws, so that handlers can be re-associated freely. *)
Lemma prog_bind_assoc {A B C} (p : prog A) (f : A -> prog B) (g : B -> prog C) :
  (forall tr o, runs ((p ≫= f) ≫= g) tr o <-> runs (p ≫= (fun a => f a ≫= g)) tr o).
Proof.
  unfold mbind, prog_mbind.
  induction p as [a|e k IH|w]; intros tr o; cbn; [done| |done].
  split; intros (r & tr' & -> & Hr); exists r, tr'; split; [done| |done|]; by apply IH.
Qed.
Lemma runs_bind_inv {A B} (p : prog A) (k : A -> prog B) tr o :
  runs (p ≫= k) tr o ->
  (exists tr1 tr2 a, tr = tr1 ++ tr2 /\ runs p tr1 (Done a) /\ runs (k a) tr2 o)
  \/ (exists w, runs p tr (Panicked w) /\ o = Panicked w).
Proof.
  unfold mbind, prog_mbind. revert tr. induction p as [a|e q IH|w]; intros tr; cbn.
  - intros Hr. left. by exists [], tr, a.
  - intros (r & tr' & -> & Hr).
    destruct (IH r tr' Hr) as [(tr1 & tr2 & a & -> & H1 & H2)|(w & H1 & ->)].
    + left. exists (ev e r :: tr1), tr2, a. split_and!; [done| |done]. eauto.
    + right. exists w. split; [|done]. eauto.
  - intros [-> ->]. right. by exists w.
Qed.

Lemma runs_bind {A B} (p : prog A) (k : A -> prog B) tr1 tr2 a o :
  runs p tr1 (Done a) -> runs (k a) tr2 o -> runs (p ≫= k) (tr1 ++ tr2) o.
Proof.
  unfold mbind, prog_mbind. revert tr1. induction p as [b|e q IH|w]; intros tr1; cbn.
  - by intros [-> [= ->]].
  - intros (r & tr' & -> & Hr) Hk. exists r, (tr' ++ tr2). split; [done|]. by apply IH.
  - by intros [_ [=]].
Qed.

End Prog.
Arguments prog : clear implicits.
Arguments event : clear implicits.
Arguments outcome : clear implicits.
Arguments Ret {E R A} a.
Arguments Vis {E R A} e k.
Arguments Crash {E R A} why.
Arguments Done {A} a.
Arguments Panicked {A} why.

(** ** Tactics for handlers

    [wp_step] follows the shape of a handler: it enters binds, introduces the
    answer of a call and splits on the tests the handler makes. *)
Ltac wp_step :=
  lazymatch goal with
  | |- wp (mbind _ _) _ => apply wp_bind
  | |- @wp ?E ?R _ (trigger ?e) ?Q => refine (@wp_trigger E R e Q _); intro
  | |- wp (Ret _) _ => cbn [wp]
  | |- wp (mret _) _ => cbn [wp mret prog_mret]
  | |- wp (Crash _) _ => cbn [wp]
  | |- wp (match ?x with _ => _ end) _ => destruct x eqn:?
  | |- bind_post _ _ _ _ => cbn [bind_post]
  end.

Ltac wp_steps := repeat (wp_step; cbn beta zeta).

(** Enter a sub-program through its specification. *)
Ltac wp_use H :=
  first [apply wp_bind; eapply wp_mono; [apply H|] | eapply wp_mono; [apply H|]];
  cbn beta.

(** ** Traces

    The calls of a trace that satisfy a test, in order. *)
Definition occurs {E R} (f : E -> bool) (tr : list (event E R)) : bool :=
  existsb (fun x => f (projT1 x)) tr.

Definition calls {E R} (f : E -> bool) (tr : list (event E R)) : list (event E R) :=
  List.filter (fun x => f (projT1 x)) tr.

Section Traces.
Context {E : Type} {R : E -> Type}.
Implicit Types (f : E -> bool) (tr : list (event E R)).

Lemma occurs_app f tr1 tr2 : occurs f (tr1 ++ tr2) = occurs f tr1 || occurs f tr2.
Proof. apply existsb_app. Qed.

Lemma calls_app f tr1 tr2 : calls f (tr1 ++ tr2) = calls f tr1 ++ calls f tr2.
Proof. apply List.filter_app. Qed.

Lemma calls_nil f : calls f ([] : list (event E R)) = [].
Proof. reflexivity. Qed.
Lemma calls_cons f x tr :
  calls f (x :: tr) = if f (projT1 x) then x :: calls f tr else calls f tr.
Proof. reflexivity. Qed.

Lemma occurs_nil f : occurs f ([] : list (event E R)) = false.
Proof. reflexivity. Qed.
Lemma occurs_cons f x tr : occurs f (x :: tr) = f (projT1 x) || occurs f tr.
Proof. reflexivity. Qed.

(** Counting the calls of a kind only needs the calls of a larger kind. *)
Lemma calls_calls f g tr :
  (forall e, f e = true -> g e = true) -> calls f (calls g tr) = calls f tr.
Proof.
  intros Hfg. induction tr as [|x tr IH]; [done|]. rewrite !calls_cons.
  destruct (g (projT1 x)) eqn:Hg; rewrite ?calls_cons.
  - by rewrite IH.
  - destruct (f (projT1 x)) eqn:Hf; [|done]. apply Hfg in Hf. congruence.
Qed.

Lemma occurs_calls f g tr :
  (forall e, f e = true -> g e = true) -> occurs f (calls g tr) = occurs f tr.
Proof.
  intros Hfg. induction tr as [|x tr IH]; [done|]. rewrite calls_cons, occurs_cons.
  destruct (g (projT1 x)) eqn:Hg; rewrite ?occurs_cons, IH; [done|].
  destruct (f (projT1 x)) eqn:Hf; [|done]. apply Hfg in Hf. congruence.
Qed.

Lemma calls_occurs_false f tr : occurs f tr = false -> calls f tr = [].
Proof.
  induction tr as [|x tr IH]; cbn; [done|].
  intros [-> H]%orb_false_iff. by apply IH.
Qed.
End Traces.

(** ** Go values *)

(** A nil-able pointer read with a default ([util.StringValue] and friends). *)
Definition deref {A} (d : A) (p : option A) : A :=
  match p with Some a => a | None => d end.

(** Reading a Go map gives the zero value for a missing key. *)
Definition map_get (m : gmap string string) (k : string) : string :=
  deref "" (m !! k).

(** Conversion of an integer to [int32]: the low 32 bits, signed. *)
Definition to_int32 (z : Z) : Z := ((z + 2 ^ 31) mod 2 ^ 32 - 2 ^ 31)%Z.
Definition maxInt32 : Z := (2 ^ 31 - 1)%Z.

Lemma to_int32_range z : (- 2 ^ 31 <= to_int32 z < 2 ^ 31)%Z.
Proof.
  unfold to_int32. pose proof (Z.mod_pos_bound (z + 2 ^ 31) (2 ^ 32)). lia.
Qed.

Lemma to_int32_id z : (- 2 ^ 31 <= z < 2 ^ 31)%Z -> to_int32 z = z.
Proof. intros H. unfold to_int32. rewrite Z.mod_small; lia. Qed.

(** Instants and durations are nanoseconds. *)
Abbreviation time := Z (only parsing).
Abbreviation duration := Z (only parsing).
Definition millisecond : duration := 1000000%Z.
Definition second : duration := 1000000000%Z.
Definition minute : duration := (60 * second)%Z.

(** ** Strings *)
Definition is_empty (s : string) : bool := bool_decide (s = "").

Lemma is_empty_true s : is_empty s = true <-> s = "".
Proof. apply bool_decide_eq_true. Qed.
Lemma is_empty_false s : is_empty s = false <-> s <> "".
Proof. apply bool_decide_eq_false. Qed.

(** Emptiness tests, as the equalities they decide. *)
Ltac emptiness :=
  repeat match goal with
         | H : negb _ = true |- _ => apply negb_true_iff in H
         | H : negb _ = false |- _ => apply negb_false_iff in H
         | H : is_empty _ = true |- _ => apply is_empty_true in H
         | H : is_empty _ = false |- _ => apply is_empty_false in H
         end.

#[global] Arguments Ascii.eqb : simpl never.

(** [strings.HasPrefix] and [strings.Contains]. *)
Fixpoint has_prefix (s p : string) : bool :=
  match p, s with
  | EmptyString, _ => true
  | String c p', String d s' => Ascii.eqb c d && has_prefix s' p'
  | String _ _, EmptyString => false
  end.

Fixpoint contains (s sub : string) : bool :=
  has_prefix s sub ||
  match s with
  | EmptyString => false
  | String _ s' => contains s' sub
  end.

Section StringApp.
#[local] Arguments String.append !_ _ /.

Lemma has_prefix_app p s : has_prefix (p +:+ s) p = true.
Proof.
  induction p as [|c p IH]; cbn; [by destruct s|].
  by rewrite Ascii.eqb_refl.
Qed.

Lemma contains_app_l p s sub : contains s sub = true -> contains (p +:+ s) sub = true.
Proof.
  intros H. induction p as [|c p IH]; cbn; [done|]. rewrite IH. apply orb_true_r.
Qed.

Lemma has_prefix_app_l s t p : has_prefix s p = true -> has_prefix (s +:+ t) p = true.
Proof.
  revert s; induction p as [|c p IH]; intros [|d s]; cbn; try done.
  - by destruct t.
  - intros [-> H]%andb_true_iff. cbn. by apply IH.
Qed.

Lemma contains_app_r s t sub : contains s sub = true -> contains (s +:+ t) sub = true.
Proof.
  induction s as [|c s IH]; cbn.
  - intros H. rewrite orb_false_r in H. destruct sub; [|done]. by destruct t.
  - intros [H|H]%orb_true_iff.
    + pose proof (has_prefix_app_l (String c s) t sub H) as Hp. cbn in Hp. by rewrite Hp.
    + rewrite IH by done. apply orb_true_r.
Qed.

Lemma string_app_nil_r s : s +:+ "" = s.
Proof. induction s; cbn; congruence. Qed.

Lemma string_app_assoc s t u : s +:+ (t +:+ u) = (s +:+ t) +:+ u.
Proof. induction s; cbn; congruence. Qed.

Lemma string_app_inj_r s t u : s +:+ u = t +:+ u -> s = t.
Proof.
  assert (forall v, String.length (v +:+ u) = (String.length v + String.length u)%nat) as Hlen.
  { induction v as [|c v IH]; cbn; [done|]. by rewrite IH. }
  revert t; induction s as [|c s IH]; intros [|d t]; cbn; intros Heq; [done|..].
  - apply (f_equal String.length) in Heq. cbn in Heq. rewrite Hlen in Heq. lia.
  - apply (f_equal String.length) in Heq. cbn in Heq. rewrite Hlen in Heq. lia.
  - injection Heq as -> Heq. by rewrite (IH t Heq).
Qed.
End StringApp.

(** ** Silence

    [silent f p]: no run of [p] makes a call that satisfies [f]. *)
Definition silent {E R} (f : E -> bool) {A} (p : prog E R A) : Prop :=
  wp p (fun tr _ => occurs f tr = false).

Section Silent.
Context {E : Type} {R : E -> Type} (f : E -> bool).

Lemma silent_Ret {A} (a : A) : silent (R := R) f (Ret a).
Proof. reflexivity. Qed.

Lemma silent_Crash {A} w : silent (R := R) f (Crash (A := A) w).
Proof. reflexivity. Qed.

Lemma silent_trigger e : f e = false -> silent (R := R) f (trigger e).
Proof. intros He. apply wp_trigger. intros r. cbn. by rewrite He. Qed.

Lemma silent_bind {A B} (p : prog E R A) (k : A -> prog E R B) :
  silent f p -> (forall a, silent f (k a)) -> silent f (p ≫= k).
Proof.
  intros Hp Hk. apply wp_bind. eapply wp_mono; [exact Hp|].
  intros tr [a|w] Htr; cbn in *; [|done].
  eapply wp_mono; [apply Hk|]. intros tr' o' Htr'; cbn in *.
  by rewrite occurs_app, Htr, Htr'.
Qed.

Lemma silent_calls {A} (p : prog E R A) :
  silent f p -> wp p (fun tr _ => calls f tr = []).
Proof. intros H. eapply wp_mono; [exact H|]. intros tr o. apply calls_occurs_false. Qed.

(** A silent call in front of, or behind, a program does not change the calls
    that are counted. *)
Lemma wp_bind_silent {A B} (p : prog E R A) (k : A -> prog E R B)
    (P : list (event E R) -> outcome B -> Prop) :
  silent f p ->
  wp p (fun tr o => match o with
                    | Done a => wp (k a) (fun tr' o' => calls f tr = [] -> P (tr ++ tr') o')
                    | Panicked w => calls f tr = [] -> P tr (Panicked w)
                    end) ->
  wp (p ≫= k) P.
Proof.
  intros Hs Hk. apply wp_bind.
  eapply wp_mono; [apply (wp_and _ _ _ (silent_calls p Hs) Hk)|].
  intros tr [a|w] [Hc H]; cbn in *; [|by apply H].
  eapply wp_mono; [exact H|]. cbn. intros tr' o' H'. by apply H'.
Qed.
End Silent.

Create HintDb silent.
#[export] Hint Resolve silent_Ret silent_Crash : silent.

(** The type of a call's answer is convertible to what the handler expects, so
    the lemma is applied with its call given. *)
Ltac silent_trigger :=
  lazymatch goal with
  | |- @silent ?E ?R ?f _ (trigger ?e) => refine (@silent_trigger E R f e _); first [assumption | reflexivity]
  end.
#[export] Hint Extern 1 (silent _ (trigger _)) => silent_trigger : silent.

Ltac silent_step :=
  lazymatch goal with
  | |- silent _ (mbind _ _) => apply silent_bind; [|intro]
  | |- silent _ (match ?x with _ => _ end) => destruct x eqn:?
  | |- silent _ _ => solve [eauto with silent]
  end.

(** Decide that a handler never makes a given kind of call. *)
Ltac solve_silent := intros; cbn beta zeta; repeat (silent_step; cbn beta zeta).
