(* ===== verification/Contracts.v ===== *)
(** * Contracts: the manager-side provider contract

    Models [internal/providers/contracts]: the error taxonomy every provider
    call reports in (errors.go), the request and response types (types.go,
    provider.go, image.go) and Go's [error] values as the controllers see them. *)
From S2P Require Import Prelude.
From stdpp Require Import base gmap strings list.
From Stdlib Require Import ZArith Lia.

(** ** Errors *)
Inductive ErrorType :=
  | ErrorTypeNotFound
  | ErrorTypeInvalidSpec
  | ErrorTypeRetryable
  | ErrorTypeUnauthorized
  | ErrorTypeNotSupported
  | ErrorTypeRateLimit
  | ErrorTypeUnavailable
  | ErrorTypeTimeout
  | ErrorTypeQuotaExceeded
  | ErrorTypeConflict.

#[export] Instance ErrorType_eq_dec : EqDecision ErrorType.
Proof. solve_decision. Defined.

Definition ErrorType_string (t : ErrorType) : string :=
  match t with
  | ErrorTypeNotFound => "NotFound"
  | ErrorTypeInvalidSpec => "InvalidSpec"
  | ErrorTypeRetryable => "Retryable"
  | ErrorTypeUnauthorized => "Unauthorized"
  | ErrorTypeNotSupported => "NotSupported"
  | ErrorTypeRateLimit => "RateLimit"
  | ErrorTypeUnavailable => "Unavailable"
  | ErrorTypeTimeout => "Timeout"
  | ErrorTypeQuotaExceeded => "QuotaExceeded"
  | ErrorTypeConflict => "Conflict"
  end.

(** Kubernetes API errors are produced by the API machinery.  The controllers
    only ask the library how it classifies them and print them, so the answers
    to those questions are the error's data. *)
Record ApiError := mkApiError {
  api_is_not_found : bool;
  api_is_conflict : bool;
  api_is_already_exists : bool;
  api_message : string
}.

(** A Go [error].  [ProviderError] is [*contracts.ProviderError], [EApi] an API
    machinery error, [EWrap p e] is [fmt.Errorf("p: %w", e)], [ENew m] an error
    made by [errors.New] or [fmt.Errorf] without [%w], [ESentinel m] a
    package-level error variable that is compared by identity. *)
Inductive goerror :=
  | ProviderError (Type_ : ErrorType) (Message : string) (Cause : option goerror) (Retryable : bool)
  | EApi (e : ApiError)
  | EWrap (prefix : string) (inner : goerror)
  | ENew (msg : string)
  | ESentinel (msg : string).

Definition res (T : Type) : Type := result T goerror.

(** [error.Error()]; for a [ProviderError] see [ProviderError.Error]. *)
Fixpoint Error (e : goerror) : string :=
  match e with
  | ProviderError t m (Some c) _ =>
      ErrorType_string t +:+ ": " +:+ m +:+ " (caused by: " +:+ Error c +:+ ")"
  | ProviderError t m None _ => ErrorType_string t +:+ ": " +:+ m
  | EApi a => api_message a
  | EWrap p e' => p +:+ ": " +:+ Error e'
  | ENew m | ESentinel m => m
  end.

(** [errors.Unwrap]: a [ProviderError] unwraps to its cause. *)
Definition Unwrap (e : goerror) : option goerror :=
  match e with
  | ProviderError _ _ c _ => c
  | EWrap _ e' => Some e'
  | EApi _ | ENew _ | ESentinel _ => None
  end.

(** [errors.As(err, &pe)] for [pe *ProviderError]: the first provider error on
    the unwrap chain, here as its type. *)
Fixpoint as_provider_error (e : goerror) : option ErrorType :=
  match e with
  | ProviderError t _ _ _ => Some t
  | EWrap _ e' => as_provider_error e'
  | EApi _ | ENew _ | ESentinel _ => None
  end.

(** [apierrors.IsNotFound] and [IsConflict] look for the API status on the
    unwrap chain; the classification of the status is the library's. *)
Fixpoint as_api_error (e : goerror) : option ApiError :=
  match e with
  | EApi a => Some a
  | EWrap _ e' => as_api_error e'
  | ProviderError _ _ (Some c) _ => as_api_error c
  | ProviderError _ _ None _ | ENew _ | ESentinel _ => None
  end.

Definition api_IsNotFound (e : goerror) : bool :=
  match as_api_error e with Some a => api_is_not_found a | None => false end.
Definition api_IsConflict (e : goerror) : bool :=
  match as_api_error e with Some a => api_is_conflict a | None => false end.
Definition api_IsAlreadyExists (e : goerror) : bool :=
  match as_api_error e with Some a => api_is_already_exists a | None => false end.

(** [errors.Is(err, sentinel)]. *)
Fixpoint errors_Is (e : goerror) (sentinel : string) : bool :=
  match e with
  | ESentinel m => bool_decide (m = sentinel)
  | EWrap _ e' => errors_Is e' sentinel
  | ProviderError _ _ (Some c) _ => errors_Is c sentinel
  | ProviderError _ _ None _ | EApi _ | ENew _ => false
  end.

(** [ProviderError.IsRetryable]. *)
Definition ProviderError_IsRetryable (t : ErrorType) (retryable : bool) : bool :=
  retryable || bool_decide (t = ErrorTypeRetryable)
  || bool_decide (t = ErrorTypeUnavailable) || bool_decide (t = ErrorTypeTimeout)
  || bool_decide (t = ErrorTypeRateLimit).

(** [contracts.IsNotFound]. *)
Definition IsNotFound (e : goerror) : bool :=
  match as_provider_error e with
  | Some t => bool_decide (t = ErrorTypeNotFound)
  | None => false
  end.

Definition NewNotFoundError (m : string) (c : option goerror) : goerror :=
  ProviderError ErrorTypeNotFound m c false.
Definition NewInvalidSpecError (m : string) (c : option goerror) : goerror :=
  ProviderError ErrorTypeInvalidSpec m c false.
Definition NewRetryableError (m : string) (c : option goerror) : goerror :=
  ProviderError ErrorTypeRetryable m c true.
Definition NewUnauthorizedError (m : string) (c : option goerror) : goerror :=
  ProviderError ErrorTypeUnauthorized m c false.
Definition NewNotSupportedError (m : string) : goerror :=
  ProviderError ErrorTypeNotSupported m None false.
Definition NewRateLimitError (m : string) (c : option goerror) : goerror :=
  ProviderError ErrorTypeRateLimit m c true.
Definition NewUnavailableError (m : string) (c : option goerror) : goerror :=
  ProviderError ErrorTypeUnavailable m c true.
Definition NewTimeoutError (m : string) (c : option goerror) : goerror :=
  ProviderError ErrorTypeTimeout m c true.
Definition NewQuotaExceededError (m : string) (c : option goerror) : goerror :=
  ProviderError ErrorTypeQuotaExceeded m c false.
Definition NewConflictError (m : string) (c : option goerror) : goerror :=
  ProviderError ErrorTypeConflict m c false.

(** Wrapping an error any number of times keeps it visible to [IsNotFound]. *)
Fixpoint wrap_all (ps : list string) (e : goerror) : goerror :=
  match ps with [] => e | p :: ps' => EWrap p (wrap_all ps' e) end.

Lemma IsNotFound_wrap_all ps e : IsNotFound (wrap_all ps e) = IsNotFound e.
Proof. induction ps as [|p ps IH]; cbn; [done|]. exact IH. Qed.

(** ** Requests and responses *)
Inductive PowerOp :=
  | PowerOpOn | PowerOpOff | PowerOpReboot | PowerOpShutdownGraceful.

#[export] Instance PowerOp_eq_dec : EqDecision PowerOp.
Proof. solve_decision. Defined.

Definition PowerOp_string (op : PowerOp) : string :=
  match op with
  | PowerOpOn => "On" | PowerOpOff => "Off"
  | PowerOpReboot => "Reboot" | PowerOpShutdownGraceful => "ShutdownGraceful"
  end.

(** The power states a provider may report ([contracts.PowerState]). *)
Definition PowerStateOn : string := "On".
Definition PowerStateOff : string := "Off".
Definition PowerStateSuspended : string := "Suspended".
Definition PowerStateUnknown : string := "Unknown".

Record PerformanceProfile := {
  LatencySensitivity : string;
  CPUHotAddEnabled : bool;
  MemoryHotAddEnabled : bool;
  VirtualizationBasedSecurity : bool;
  NestedVirtualization : bool;
  HyperThreadingPolicy : string
}.

Record SecurityProfile := {
  SecureBoot : bool;
  TPMEnabled : bool;
  TPMVersion : string;
  VTDEnabled : bool;
  EncryptionEnabled : bool;
  KeyProvider : string;
  RequireEncryption : bool
}.

Record ResourceLimits := {
  CPULimit : option Z;
  CPUReservation : option Z;
  MemoryLimitMiB : option Z;
  MemoryReservationMiB : option Z;
  CPUShares : option Z
}.

Record DiskDefaults := { dd_Type : string; dd_SizeGiB : Z }.

Record VMClass := {
  CPU : Z;
  MemoryMiB : Z;
  Firmware : string;
  class_DiskDefaults : option DiskDefaults;
  GuestToolsPolicy : string;
  ExtraConfig : gmap string string;
  class_PerformanceProfile : option PerformanceProfile;
  class_SecurityProfile : option SecurityProfile;
  class_ResourceLimits : option ResourceLimits
}.

Record VMImage := mkVMImage {
  TemplateName : string;
  Path : string;
  URL : string;
  Format : string;
  Checksum : string;
  ChecksumType : string
}.
#[export] Instance VMImage_eta : Eta VMImage := fun r =>
  mkVMImage (TemplateName r) (Path r) (URL r) (Format r) (Checksum r) (ChecksumType r).

Record NetworkAttachment := mkNetworkAttachment {
  na_Name : string;
  Portgroup : string;
  NetworkName : string;
  Bridge : string;
  VLAN : Z;
  Model : string;
  MacAddress : string;
  IPPolicy : string;
  StaticIP : string;
  Prefix : Z;
  Gateway : string;
  DNS : string;
  PCISlotNumber : option Z
}.
#[export] Instance NetworkAttachment_eta : Eta NetworkAttachment := fun r =>
  mkNetworkAttachment (na_Name r) (Portgroup r) (NetworkName r) (Bridge r) (VLAN r) (Model r)
    (MacAddress r) (IPPolicy r) (StaticIP r) (Prefix r) (Gateway r) (DNS r) (PCISlotNumber r).

Record DiskSpec := mkDiskSpec { SizeGiB : Z; disk_Type : string; disk_Name : string }.

Record UserData := mkUserData { CloudInitData : string; ud_Type : string }.
Record MetaData := mkMetaData { MetaDataYAML : string }.
Record Placement := mkPlacement {
  Datastore : string; StoragePod : string; Cluster : string; Folder : string; Host : string
}.

Record CreateRequest := mkCreateRequest {
  req_Name : string;
  req_Class : VMClass;
  req_Image : VMImage;
  req_Networks : list NetworkAttachment;
  req_Disks : list DiskSpec;
  req_UserData : option UserData;
  req_MetaData : option MetaData;
  req_Placement : option Placement;
  req_Tags : list string
}.

Record CreateResponse := mkCreateResponse { resp_ID : string; resp_TaskRef : string }.

Record DescribeResponse := mkDescribeResponse {
  Exists : bool;
  desc_PowerState : string;
  IPs : list string;
  ConsoleURL : string;
  ProviderRaw : gmap string string
}.

Record ImagePrepareRequest := mkImagePrepareRequest {
  ImageJSON : string; TargetName : string; StorageHint : string
}.
Record ImagePrepareResponse := mkImagePrepareResponse {
  ipr_TaskRef : string; PreparedImageID : string; PreparedImagePath : string
}.

(** ** Tasks, snapshots and disks *)
Record TaskRef := mkTaskRef { task_ID : string; task_Provider : string; task_Type : string }.
Record contracts_TaskStatus := mkTaskStatus { ts_IsCompleted : bool; ts_Error : string; ts_Message : string }.

Record SnapshotCreateRequest := mkSnapshotCreateRequest {
  snap_VmId : string; snap_NameHint : string; snap_Description : string;
  snap_IncludeMemory : bool; snap_Quiesce : bool
}.
Record SnapshotCreateResponse := mkSnapshotCreateResponse {
  snap_SnapshotId : string; snap_Task : option TaskRef
}.

Record ExportDiskRequest := mkExportDiskRequest {
  exp_VmId : string; exp_DiskId : string; exp_SnapshotId : string; exp_DestinationURL : string;
  exp_Format : string; exp_Compress : bool; exp_Credentials : gmap string string;
  exp_BackendType : string; exp_TransferMode : string; exp_StorageOptionsJSON : string
}.
Record ExportDiskResponse := mkExportDiskResponse {
  exp_ExportId : string; exp_TaskRef : string; exp_EstimatedSizeBytes : Z; exp_Checksum : string
}.
Record ImportDiskRequest := mkImportDiskRequest {
  imp_SourceURL : string; imp_StorageHint : string; imp_Format : string; imp_TargetName : string;
  imp_VerifyChecksum : bool; imp_ExpectedChecksum : string; imp_Credentials : gmap string string;
  imp_BackendType : string; imp_TransferMode : string; imp_StorageOptionsJSON : string
}.
Record ImportDiskResponse := mkImportDiskResponse {
  imp_DiskId : string; imp_Path : string; imp_TaskRef : string; imp_ActualSizeBytes : Z;
  imp_Checksum : string
}.

Record Capabilities := mkCapabilities {
  SupportsReconfigureOnline : bool; SupportsDiskExpansionOnline : bool;
  SupportsSnapshots : bool; SupportsMemorySnapshots : bool; SupportsLinkedClones : bool;
  SupportsImageImport : bool; SupportedDiskTypes : list string;
  SupportedNetworkTypes : list string; SupportsDiskExport : bool; SupportsDiskImport : bool;
  SupportedExportFormats : list string; SupportedImportFormats : list string;
  SupportsExportCompression : bool; SupportedExportBackends : list string;
  SupportedImportBackends : list string; SupportedTransferModes : list string
}.

(** ** Cloning and discovery *)
Record CloneRequest := mkCloneRequest {
  clq_SourceVmID : string; clq_TargetName : string; clq_Linked : bool;
  clq_ClassJSON : string; clq_PlacementJSON : string; clq_CustomizeJSON : string
}.
Record CloneResponse := mkCloneResponse { clr_TargetVmID : string; clr_TaskRef : string }.

(** [contracts.DiskInfo] and [contracts.NetworkInfo]; the CPU count is an
    [int32], the memory an [int64]. *)
Record DiskInfo := mkDiskInfo {
  dki_ID : string; dki_Path : string; dki_SizeGiB : Z; dki_Format : string
}.
Record NetworkInfo := mkNetworkInfo { nwi_Name : string; nwi_MAC : string; nwi_IPAddress : string }.
Record VMInfo := mkVMInfo {
  info_ID : string; info_Name : string; info_PowerState : string; info_IPs : list string;
  info_CPU : Z; info_MemoryMiB : Z; info_Disks : list DiskInfo; info_Networks : list NetworkInfo;
  info_ProviderRaw : gmap string string
}.
