(* ===== verification/K8s.v ===== *)
(** * K8s: status conditions and finalizers

    Models [internal/k8s] (conditions.go, finalizers.go) and
    [internal/util/k8s/conditions.go].  Both packages keep the conditions of a
    resource as a list; the VirtualMachine controller uses the first, the
    VMMigration controller the second.  The finalizer helpers go through
    [controllerutil], which is a parameter. *)
From S2P Require Import Prelude Contracts.
From stdpp Require Import base gmap strings list.
From Stdlib Require Import ZArith Lia.

Inductive ConditionStatus := ConditionTrue | ConditionFalse | ConditionUnknown.

#[export] Instance ConditionStatus_eq_dec : EqDecision ConditionStatus.
Proof. solve_decision. Defined.

(** [metav1.Condition]. *)
Record Condition := mkCondition {
  Type_ : string;
  Status : ConditionStatus;
  Reason : string;
  Message : string;
  LastTransitionTime : time;
  ObservedGeneration : Z
}.
#[export] Instance Condition_eta : Eta Condition := fun c =>
  mkCondition (Type_ c) (Status c) (Reason c) (Message c) (LastTransitionTime c)
    (ObservedGeneration c).

(** ** Lookup, shared by both packages *)
Definition GetCondition (conds : list Condition) (t : string) : option Condition :=
  List.find (fun c => bool_decide (Type_ c = t)) conds.

Definition has_status (conds : list Condition) (t : string) (s : ConditionStatus) : bool :=
  match GetCondition conds t with
  | Some c => bool_decide (Status c = s)
  | None => false
  end.

Definition IsConditionTrue (conds : list Condition) (t : string) : bool :=
  has_status conds t ConditionTrue.
Definition IsConditionFalse (conds : list Condition) (t : string) : bool :=
  has_status conds t ConditionFalse.
Definition IsConditionUnknown (conds : list Condition) (t : string) : bool :=
  has_status conds t ConditionUnknown.

(** Condition types and reasons of [internal/k8s/conditions.go]. *)
Definition ConditionReady : string := "Ready".
Definition ConditionProvisioning : string := "Provisioning".
Definition ConditionReconfiguring : string := "Reconfiguring".
Definition ConditionError : string := "Error".
Definition ConditionHealthy : string := "Healthy".
Definition ReasonReconcileSuccess : string := "ReconcileSuccess".
Definition ReasonProviderError : string := "ProviderError".
Definition ReasonCreating : string := "Creating".
Definition ReasonUpdating : string := "Updating".
Definition ReasonWaitingForDependencies : string := "WaitingForDependencies".
Definition ReasonTaskInProgress : string := "TaskInProgress".

(** At most one condition per type: what a list of conditions is meant to be. *)
Definition conditions_wf (conds : list Condition) : Prop := NoDup (Type_ <$> conds).

(** ** [internal/k8s.SetCondition]

    [now] is the clock when the new condition is built, [now'] the clock when a
    changed condition is stamped again. *)
Fixpoint SetCondition (now now' : time) (conds : list Condition)
    (t : string) (s : ConditionStatus) (reason msg : string) : list Condition :=
  match conds with
  | [] => [mkCondition t s reason msg now 0]
  | existing :: rest =>
      if bool_decide (Type_ existing = t) then
        (if negb (bool_decide (Status existing = s)) || negb (bool_decide (Reason existing = reason))
         then mkCondition t s reason msg now' 0
         else mkCondition t s reason msg (LastTransitionTime existing) 0) :: rest
      else existing :: SetCondition now now' rest t s reason msg
  end.

(** [internal/util/k8s.SetCondition]: a condition is rewritten only when its
    status, reason or message changes, and counts its changes in
    [ObservedGeneration]. *)
Fixpoint util_SetCondition (now : time) (conds : list Condition)
    (t : string) (s : ConditionStatus) (reason msg : string) : list Condition :=
  match conds with
  | [] => [mkCondition t s reason msg now 1]
  | c :: rest =>
      if bool_decide (Type_ c = t) then
        (if negb (bool_decide (Status c = s)) || negb (bool_decide (Reason c = reason))
            || negb (bool_decide (Message c = msg))
         then mkCondition (Type_ c) s reason msg now (ObservedGeneration c + 1)
         else c) :: rest
      else c :: util_SetCondition now rest t s reason msg
  end.

(** [internal/util/k8s.RemoveCondition]. *)
Fixpoint util_RemoveCondition (conds : list Condition) (t : string) : list Condition :=
  match conds with
  | [] => []
  | c :: rest => if bool_decide (Type_ c = t) then rest else c :: util_RemoveCondition rest t
  end.

(** ** Lemmas *)
Lemma GetCondition_cons c conds t :
  GetCondition (c :: conds) t =
    if bool_decide (Type_ c = t) then Some c else GetCondition conds t.
Proof. reflexivity. Qed.

Lemma GetCondition_Some conds t c :
  GetCondition conds t = Some c -> c ∈ conds /\ Type_ c = t.
Proof.
  induction conds as [|c' conds IH]; [done|]. rewrite GetCondition_cons.
  case_bool_decide as Hc.
  - intros [= <-]. split; [left|done].
  - intros H. destruct (IH H). split; [by right|done].
Qed.

Lemma GetCondition_None conds t :
  GetCondition conds t = None <-> t ∉ Type_ <$> conds.
Proof.
  induction conds as [|c conds IH]; [cbn; split; [intros _; apply not_elem_of_nil|done]|].
  rewrite GetCondition_cons, fmap_cons, not_elem_of_cons.
  case_bool_decide; intuition congruence.
Qed.

Section SetConditionLemmas.
Context (now now' : time) (t : string) (s : ConditionStatus) (reason msg : string).

(** The written condition, as a function of the one already there. *)
Definition written (old : option Condition) : Condition :=
  match old with
  | None => mkCondition t s reason msg now 0
  | Some c =>
      mkCondition t s reason msg
        (if negb (bool_decide (Status c = s)) || negb (bool_decide (Reason c = reason))
         then now' else LastTransitionTime c) 0
  end.

Lemma GetCondition_SetCondition conds :
  GetCondition (SetCondition now now' conds t s reason msg) t =
    Some (written (GetCondition conds t)).
Proof.
  induction conds as [|c conds IH]; cbn [SetCondition].
  - rewrite GetCondition_cons; cbn. by rewrite bool_decide_eq_true_2.
  - rewrite GetCondition_cons. case_bool_decide as Hc.
    + rewrite GetCondition_cons.
      destruct (_ || _) eqn:Hch; cbn [Type_]; rewrite bool_decide_eq_true_2 by done;
        cbn [written]; by rewrite Hch.
    + rewrite GetCondition_cons. by rewrite bool_decide_eq_false_2.
Qed.

Lemma GetCondition_SetCondition_ne conds t' :
  t' <> t -> GetCondition (SetCondition now now' conds t s reason msg) t' = GetCondition conds t'.
Proof.
  intros Hne. induction conds as [|c conds IH]; cbn [SetCondition].
  - rewrite GetCondition_cons; cbn. by rewrite bool_decide_eq_false_2.
  - rewrite GetCondition_cons. case_bool_decide as Hc.
    + rewrite GetCondition_cons.
      rewrite (bool_decide_eq_false_2 (Type_ c = t')) by congruence.
      destruct (_ || _); cbn [Type_]; by rewrite bool_decide_eq_false_2 by congruence.
    + rewrite GetCondition_cons. by rewrite IH.
Qed.

Lemma SetCondition_types conds :
  Type_ <$> SetCondition now now' conds t s reason msg =
    if bool_decide (t ∈ Type_ <$> conds) then Type_ <$> conds else (Type_ <$> conds) ++ [t].
Proof.
  induction conds as [|c conds IH]; cbn [SetCondition].
  - rewrite bool_decide_eq_false_2; [done|apply not_elem_of_nil].
  - destruct (bool_decide_reflect (Type_ c = t)) as [Hc|Hc].
    + rewrite !fmap_cons, (bool_decide_eq_true_2 (t ∈ _)) by (rewrite Hc; left).
      destruct (_ || _); cbn; by rewrite Hc.
    + rewrite !fmap_cons, IH.
      destruct (decide (t ∈ Type_ <$> conds)).
      * rewrite !bool_decide_eq_true_2; [done|by right|done].
      * rewrite !bool_decide_eq_false_2; [done| |done].
        rewrite not_elem_of_cons. by split; [intros ->|].
Qed.

Lemma SetCondition_wf conds :
  conditions_wf conds -> conditions_wf (SetCondition now now' conds t s reason msg).
Proof.
  unfold conditions_wf. rewrite SetCondition_types. intros H.
  case_bool_decide as Hin; [done|].
  apply NoDup_app. split; [done|]. split; [|apply NoDup_singleton].
  intros x Hx ->%list_elem_of_singleton. done.
Qed.

Lemma SetCondition_status conds s' :
  has_status (SetCondition now now' conds t s reason msg) t s' = bool_decide (s = s').
Proof.
  unfold has_status. rewrite GetCondition_SetCondition.
  by destruct (GetCondition conds t).
Qed.
End SetConditionLemmas.

Lemma SetCondition_not_true now now' conds t s reason msg :
  s <> ConditionTrue ->
  IsConditionTrue (SetCondition now now' conds t s reason msg) t = false.
Proof.
  intros Hs. unfold IsConditionTrue. rewrite SetCondition_status. by apply bool_decide_eq_false.
Qed.

Lemma SetCondition_true now now' conds t reason msg :
  IsConditionTrue (SetCondition now now' conds t ConditionTrue reason msg) t = true.
Proof. unfold IsConditionTrue. by rewrite SetCondition_status. Qed.

Lemma has_status_SetCondition_ne now now' conds t s reason msg t' s' :
  t' <> t ->
  has_status (SetCondition now now' conds t s reason msg) t' s' = has_status conds t' s'.
Proof. intros Ht. unfold has_status. by rewrite GetCondition_SetCondition_ne. Qed.
