(* ===== verification/Api.v ===== *)
(** * Api: the custom resources the controllers read and write

    Models the types of [api/infra.virtrigaud.io/v1beta1] that the modelled
    controllers consult.  Every field a modelled function reads or writes is
    here under its Go name (prefixed by its struct); the fields no modelled
    function touches are left out.  A pointer field is an [option], a
    [resource.Quantity] is the number its [Value()] returns. *)
From S2P Require Import Prelude Contracts K8s.
From stdpp Require Import base gmap strings list.
From Stdlib Require Import ZArith.

(** [types.NamespacedName]. *)
Record NamespacedName := mkKey { key_Namespace : string; key_Name : string }.
#[export] Instance NamespacedName_eq_dec : EqDecision NamespacedName.
Proof. solve_decision. Defined.

(** [ctrl.Result]. *)
Record Result := mkResult { Requeue : bool; RequeueAfter : duration }.
Definition no_result : Result := mkResult false 0.
Definition requeue_now : Result := mkResult true 0.
Definition requeue_after (d : duration) : Result := mkResult false d.

Module v1beta1.

(** [metav1.ObjectMeta].  [meta_DeletionTimestamp] is [None] when nil. *)
Record ObjectMeta := mkObjectMeta {
  meta_Name : string;
  meta_Namespace : string;
  meta_UID : string;
  meta_Generation : Z;
  meta_ResourceVersion : string;
  meta_Labels : gmap string string;
  meta_Annotations : gmap string string;
  meta_Finalizers : list string;
  meta_CreationTimestamp : option time;
  meta_DeletionTimestamp : option time
}.
#[export] Instance ObjectMeta_eta : Eta ObjectMeta := fun r =>
  mkObjectMeta (meta_Name r) (meta_Namespace r) (meta_UID r) (meta_Generation r)
    (meta_ResourceVersion r) (meta_Labels r) (meta_Annotations r) (meta_Finalizers r)
    (meta_CreationTimestamp r) (meta_DeletionTimestamp r).

Record ObjectRef := mkObjectRef { ref_Name : string; ref_Namespace : string }.
Record LocalObjectReference := mkLocalRef { lref_Name : string }.

(** ** VirtualMachine *)
Definition VirtualMachineFinalizer : string := "virtualmachine.infra.virtrigaud.io/finalizer".

(** [PowerState]: an open string type whose CRD enum is the three constants. *)
Definition PowerStateOn : string := "On".
Definition PowerStateOff : string := "Off".
Definition PowerStateOffGraceful : string := "OffGraceful".

Record VMNetworkRef := mkVMNetworkRef {
  vnr_Name : string;
  vnr_NetworkRef : option ObjectRef;
  vnr_IPAddress : string;
  vnr_Prefix : Z;
  vnr_Gateway : string;
  vnr_DNS : string
}.

Record DiskSpec := mkDiskSpec { ds_Name : string; ds_SizeGiB : Z; ds_Type : string }.

Record ImportedDiskRef := mkImportedDiskRef {
  id_DiskID : string;
  id_Path : string;
  id_Format : string;
  id_Source : string;
  id_MigrationRef : option LocalObjectReference
}.

Record CloudInit := mkCloudInit {
  ci_Inline : string; ci_SecretRef : option LocalObjectReference
}.
Record UserData := mkUserData { ud_CloudInit : option CloudInit }.
Record CloudInitMetaData := mkCloudInitMetaData {
  cim_Inline : string; cim_SecretRef : option LocalObjectReference
}.
Record MetaData := mkMetaData { md_CloudInit : option CloudInitMetaData }.
Record Placement := mkPlacement {
  pl_Cluster : string; pl_Host : string; pl_Datastore : string; pl_StoragePod : string;
  pl_Folder : string; pl_ResourcePool : string
}.

Record VirtualMachineResources := mkVMResources {
  vr_CPU : option Z; vr_MemoryMiB : option Z
}.
#[export] Instance VirtualMachineResources_eta : Eta VirtualMachineResources := fun r =>
  mkVMResources (vr_CPU r) (vr_MemoryMiB r).

Record VirtualMachineSpec := mkVMSpec {
  spec_ProviderRef : ObjectRef;
  spec_ClassRef : ObjectRef;
  spec_ImageRef : option ObjectRef;
  spec_ImportedDisk : option ImportedDiskRef;
  spec_Networks : list VMNetworkRef;
  spec_Disks : list DiskSpec;
  spec_UserData : option UserData;
  spec_MetaData : option MetaData;
  spec_Placement : option Placement;
  spec_PowerState : string;
  spec_Tags : list string;
  spec_Resources : option VirtualMachineResources;
  spec_PlacementRef : option LocalObjectReference
}.
#[export] Instance VirtualMachineSpec_eta : Eta VirtualMachineSpec := fun r =>
  mkVMSpec (spec_ProviderRef r) (spec_ClassRef r) (spec_ImageRef r) (spec_ImportedDisk r)
    (spec_Networks r) (spec_Disks r) (spec_UserData r) (spec_MetaData r) (spec_Placement r)
    (spec_PowerState r) (spec_Tags r) (spec_Resources r) (spec_PlacementRef r).

Inductive VirtualMachinePhase :=
  | VirtualMachinePhaseUnset
  | VirtualMachinePhasePending
  | VirtualMachinePhaseProvisioning
  | VirtualMachinePhaseRunning
  | VirtualMachinePhaseStopped
  | VirtualMachinePhaseReconfiguring
  | VirtualMachinePhaseDeleting
  | VirtualMachinePhaseFailed.

Record VirtualMachineStatus := mkVMStatus {
  status_ID : string;
  status_PowerState : string;
  status_IPs : list string;
  status_ConsoleURL : string;
  status_Conditions : list Condition;
  status_ObservedGeneration : Z;
  status_LastTaskRef : string;
  status_Provider : gmap string string;
  status_ReconfigureTaskRef : string;
  status_LastReconfigureTime : option time;
  status_CurrentResources : option VirtualMachineResources;
  status_Phase : VirtualMachinePhase
}.
#[export] Instance VirtualMachineStatus_eta : Eta VirtualMachineStatus := fun r =>
  mkVMStatus (status_ID r) (status_PowerState r) (status_IPs r) (status_ConsoleURL r)
    (status_Conditions r) (status_ObservedGeneration r) (status_LastTaskRef r)
    (status_Provider r) (status_ReconfigureTaskRef r) (status_LastReconfigureTime r)
    (status_CurrentResources r) (status_Phase r).

Record VirtualMachine := mkVM {
  vm_meta : ObjectMeta;
  vm_Spec : VirtualMachineSpec;
  vm_Status : VirtualMachineStatus
}.
#[export] Instance VirtualMachine_eta : Eta VirtualMachine := fun r =>
  mkVM (vm_meta r) (vm_Spec r) (vm_Status r).

(** ** VMClass *)
Record EncryptionPolicy := mkEncryptionPolicy {
  ep_Enabled : bool; ep_KeyProvider : string; ep_RequireEncryption : bool
}.
Record SecurityProfile := mkSecurityProfile {
  sp_SecureBoot : bool; sp_TPMEnabled : bool; sp_TPMVersion : string; sp_VTDEnabled : bool;
  sp_EncryptionPolicy : option EncryptionPolicy
}.
Record PerformanceProfile := mkPerformanceProfile {
  pp_LatencySensitivity : string; pp_CPUHotAddEnabled : bool; pp_MemoryHotAddEnabled : bool;
  pp_VirtualizationBasedSecurity : bool; pp_NestedVirtualization : bool;
  pp_HyperThreadingPolicy : string
}.
Record VMResourceLimits := mkVMResourceLimits {
  rl_CPULimit : option Z; rl_CPUReservation : option Z;
  rl_MemoryLimit : option Z; rl_MemoryReservation : option Z; rl_CPUShares : option Z
}.
Record DiskDefaults := mkDiskDefaults { dd_Type : string; dd_Size : Z }.
Record VMClassSpec := mkVMClassSpec {
  cls_CPU : Z;
  cls_Memory : Z;
  cls_Firmware : string;
  cls_DiskDefaults : option DiskDefaults;
  cls_GuestToolsPolicy : string;
  cls_ExtraConfig : gmap string string;
  cls_ResourceLimits : option VMResourceLimits;
  cls_PerformanceProfile : option PerformanceProfile;
  cls_SecurityProfile : option SecurityProfile
}.
Record VMClass := mkVMClass { class_meta : ObjectMeta; class_Spec : VMClassSpec }.

(** ** VMImage *)
Record ContentLibraryRef := mkContentLibraryRef {
  cl_Library : string; cl_Item : string; cl_Version : string
}.
Record VSphereImageSource := mkVSphereImageSource {
  vs_TemplateName : string; vs_ContentLibrary : option ContentLibraryRef;
  vs_OVAURL : string; vs_Checksum : string; vs_ChecksumType : string
}.
Record LibvirtImageSource := mkLibvirtImageSource {
  lv_Path : string; lv_URL : string; lv_Format : string; lv_Checksum : string;
  lv_ChecksumType : string
}.
Record ProxmoxImageSource := mkProxmoxImageSource {
  px_TemplateID : option Z; px_TemplateName : string
}.
Record ImageSource := mkImageSource {
  src_VSphere : option VSphereImageSource;
  src_Libvirt : option LibvirtImageSource;
  src_Proxmox : option ProxmoxImageSource
}.

(** [ImageMissingAction]; the empty string is an unset field. *)
Definition ImageMissingActionImport : string := "Import".
Definition ImageMissingActionFail : string := "Fail".
Definition ImageMissingActionWait : string := "Wait".

Record ImagePrepare := mkImagePrepare { ip_OnMissing : string }.
Record VMImageSpec := mkVMImageSpec {
  img_Source : ImageSource; img_Prepare : option ImagePrepare
}.

Inductive ImagePhase :=
  | ImagePhaseUnset | ImagePhasePending | ImagePhaseDownloading | ImagePhaseImporting
  | ImagePhaseConverting | ImagePhaseOptimizing | ImagePhaseReady | ImagePhaseFailed.

Record ProviderImageStatus := mkProviderImageStatus {
  pis_Available : bool; pis_ID : string; pis_Path : string;
  pis_LastUpdated : option time; pis_Message : string
}.
#[export] Instance ProviderImageStatus_eta : Eta ProviderImageStatus := fun r =>
  mkProviderImageStatus (pis_Available r) (pis_ID r) (pis_Path r) (pis_LastUpdated r)
    (pis_Message r).

Record VMImageStatus := mkVMImageStatus {
  ims_Ready : bool;
  ims_Phase : ImagePhase;
  ims_Message : string;
  ims_AvailableOn : list string;
  ims_Conditions : list Condition;
  ims_LastPrepareTime : option time;
  ims_PrepareTaskRef : string;
  ims_ProviderStatus : gmap string ProviderImageStatus
}.
#[export] Instance VMImageStatus_eta : Eta VMImageStatus := fun r =>
  mkVMImageStatus (ims_Ready r) (ims_Phase r) (ims_Message r) (ims_AvailableOn r)
    (ims_Conditions r) (ims_LastPrepareTime r) (ims_PrepareTaskRef r) (ims_ProviderStatus r).

Definition VMImageConditionReady : string := "Ready".
Definition VMImageConditionImporting : string := "Importing".

Record VMImage := mkVMImage {
  image_meta : ObjectMeta; image_Spec : VMImageSpec; image_Status : VMImageStatus
}.
#[export] Instance VMImage_eta : Eta VMImage := fun r =>
  mkVMImage (image_meta r) (image_Spec r) (image_Status r).

(** ** VMNetworkAttachment *)
Record VSphereNetworkConfig := mkVSphereNetworkConfig {
  vsn_Portgroup : string;
  vsn_VLAN : option (option Z);  (* VLANConfig, of which only VlanID is read *)
  vsn_PCISlotNumber : option Z
}.
Record LibvirtNetworkConfig := mkLibvirtNetworkConfig {
  lvn_NetworkName : string;
  lvn_Bridge : option string;    (* BridgeConfig, of which only Name is read *)
  lvn_Model : string
}.
Record ProxmoxNetworkConfig := mkProxmoxNetworkConfig {
  pxn_Bridge : string; pxn_Model : string; pxn_VLANTag : option Z
}.
Record VMNetworkAttachment := mkVMNetworkAttachment {
  net_VSphere : option VSphereNetworkConfig;
  net_Libvirt : option LibvirtNetworkConfig;
  net_Proxmox : option ProxmoxNetworkConfig
}.

(** ** Values of the core API that a Provider carries

    Quantities, affinities and tolerations are opaque to the controllers, which pass
    them on: they are kept in their encoded form. *)
Record ResourceRequirements := mkResourceRequirements {
  rr_Requests : gmap string string; rr_Limits : gmap string string
}.
(** [ev_FieldPath] is [ValueFrom.FieldRef.FieldPath], when [ValueFrom] is set. *)
Record EnvVar := mkEnvVar { ev_Name : string; ev_Value : string; ev_FieldPath : option string }.
Record SecurityContext := mkSecurityContext {
  sec_RunAsNonRoot : option bool; sec_RunAsUser : option Z; sec_ReadOnlyRootFilesystem : option bool;
  sec_AllowPrivilegeEscalation : option bool; sec_Drop : list string
}.

(** ** Provider *)
Definition ProviderTypeLibvirt : string := "libvirt".
Definition RuntimeModeRemote : string := "Remote".
Definition ProviderRuntimePhasePending : string := "Pending".
Definition ProviderRuntimePhaseRunning : string := "Running".
Definition ProviderRuntimePhaseFailed : string := "Failed".

Record ProviderRuntimeStatus := mkProviderRuntimeStatus {
  rt_Mode : string; rt_Phase : string; rt_Endpoint : string;
  rt_ServiceRef : option LocalObjectReference; rt_Message : string
}.
#[export] Instance ProviderRuntimeStatus_eta : Eta ProviderRuntimeStatus := fun r =>
  mkProviderRuntimeStatus (rt_Mode r) (rt_Phase r) (rt_Endpoint r) (rt_ServiceRef r) (rt_Message r).
Record ReportedCapabilities := mkReportedCapabilities {
  cap_SupportsReconfigureOnline : bool; cap_SupportsDiskExpansionOnline : bool;
  cap_SupportsSnapshots : bool; cap_SupportsMemorySnapshots : bool; cap_SupportsLinkedClones : bool;
  cap_SupportsImageImport : bool; cap_SupportedDiskTypes : list string;
  cap_SupportedNetworkTypes : list string; cap_SupportsDiskExport : bool; cap_SupportsDiskImport : bool;
  cap_SupportedExportFormats : list string; cap_SupportedImportFormats : list string;
  cap_SupportsExportCompression : bool; cap_SupportedExportBackends : list string;
  cap_SupportedImportBackends : list string; cap_SupportedTransferModes : list string
}.
(** The counts are [int32]. *)
Record ProviderAdoptionStatus := mkProviderAdoptionStatus {
  pas_LastDiscoveryTime : option time;
  pas_DiscoveredVMs : Z;
  pas_AdoptedVMs : Z;
  pas_FailedAdoptions : Z;
  pas_Message : string
}.
#[export] Instance ProviderAdoptionStatus_eta : Eta ProviderAdoptionStatus := fun r =>
  mkProviderAdoptionStatus (pas_LastDiscoveryTime r) (pas_DiscoveredVMs r) (pas_AdoptedVMs r)
    (pas_FailedAdoptions r) (pas_Message r).
Record ProviderStatus := mkProviderStatus {
  ps_Healthy : bool;
  ps_LastHealthCheck : option time;
  ps_Runtime : option ProviderRuntimeStatus;
  ps_Conditions : list Condition;
  ps_ObservedGeneration : Z;
  ps_ReportedCapabilities : option ReportedCapabilities;
  ps_ConnectedVMs : Z;
  ps_Adoption : option ProviderAdoptionStatus
}.
#[export] Instance ProviderStatus_eta : Eta ProviderStatus := fun r =>
  mkProviderStatus (ps_Healthy r) (ps_LastHealthCheck r) (ps_Runtime r) (ps_Conditions r)
    (ps_ObservedGeneration r) (ps_ReportedCapabilities r) (ps_ConnectedVMs r) (ps_Adoption r).
Record ProviderTLSSpec := mkProviderTLSSpec {
  tls_Enabled : bool;
  tls_SecretRef : option LocalObjectReference;
  tls_InsecureSkipVerify : bool
}.
Record ProviderServiceSpec := mkProviderServiceSpec { svc_Port : Z; svc_TLS : option ProviderTLSSpec }.
Record ProviderRuntimeSpec := mkProviderRuntimeSpec {
  rts_Image : string;
  rts_ImagePullPolicy : string;
  rts_Replicas : option Z;
  rts_Service : option ProviderServiceSpec;
  rts_Resources : option ResourceRequirements;
  rts_NodeSelector : gmap string string;
  rts_Tolerations : list string;
  rts_Affinity : option string;
  rts_SecurityContext : option SecurityContext;
  rts_LogLevel : string;
  rts_LogFormat : string;
  rts_Env : list EnvVar
}.
Record ProviderDefaults := mkProviderDefaults {
  pd_Datastore : string; pd_StoragePod : string; pd_Cluster : string; pd_Folder : string
}.
Record ProviderSpec := mkProviderSpec {
  psp_Type : string;
  psp_Endpoint : string;
  psp_CredentialSecretRef : ObjectRef;
  psp_InsecureSkipVerify : bool;
  psp_Defaults : option ProviderDefaults;
  psp_Runtime : option ProviderRuntimeSpec
}.
Record Provider := mkProvider {
  provider_meta : ObjectMeta; provider_Spec : ProviderSpec; provider_Status : ProviderStatus
}.
#[export] Instance Provider_eta : Eta Provider := fun r =>
  mkProvider (provider_meta r) (provider_Spec r) (provider_Status r).
Definition provider_Name (p : Provider) : string := meta_Name (provider_meta p).
Definition provider_Namespace (p : Provider) : string := meta_Namespace (provider_meta p).
Definition provider_Type (p : Provider) : string := psp_Type (provider_Spec p).
Definition provider_Runtime (p : Provider) : option ProviderRuntimeSpec := psp_Runtime (provider_Spec p).

(** A Provider of which only the type and the runtime are given, and an empty
    status. *)
Definition bare_spec (type : string) (runtime : option ProviderRuntimeSpec) : ProviderSpec :=
  mkProviderSpec type "" (mkObjectRef "" "") false None runtime.
Definition no_provider_status : ProviderStatus := mkProviderStatus false None None [] 0 None 0 None.

(** [corev1.Secret]: its name and data. *)
Record Secret := mkSecret { secret_Name : string; secret_Data : gmap string string }.

End v1beta1.
