(* ===== verification/CoreApi.v ===== *)
(** * CoreApi: objects of the core and apps API groups

    The fields of claims, services, pods and deployments that the Provider and
    migration controllers read or write. *)
From S2P Require Import Prelude K8s Api.
From stdpp Require Import base gmap strings list.
From Stdlib Require Import ZArith.
Import v1beta1.

(** A quantity is opaque to the controllers, which only pass it on. *)
Record PersistentVolumeClaim := mkPVC {
  pvc_meta : ObjectMeta;
  pvc_StorageClassName : string;
  pvc_AccessModes : list string;
  pvc_Storage : Z
}.

(** [VolumeSource]: a secret, a claim or an empty directory with its medium and
    size limit; [SourceOther] is one of the many the controllers do not use. *)
Inductive VolumeSource :=
  | SourceSecret (secretName : string)
  | SourceClaim (claimName : string)
  | SourceEmptyDir (medium : string) (sizeLimit : option string)
  | SourceOther.
Record Volume := mkVolume { vol_Name : string; vol_Source : VolumeSource }.
Record VolumeMount := mkVolumeMount { mnt_Name : string; mnt_MountPath : string; mnt_ReadOnly : bool }.

(** The claim a volume binds, if it binds one. *)
Definition volume_claim (v : Volume) : option string :=
  match vol_Source v with SourceClaim c => Some c | _ => None end.

(** Ports are [int32]. *)
Record ContainerPort := mkContainerPort { cp_Name : string; cp_ContainerPort : Z; cp_Protocol : string }.
(** A probe by HTTP GET, the only kind used. *)
Record Probe := mkProbe {
  probe_Path : string; probe_Port : Z; probe_InitialDelaySeconds : Z; probe_PeriodSeconds : Z
}.
Record Container := mkContainer {
  ctr_Name : string; ctr_Image : string; ctr_ImagePullPolicy : string; ctr_Args : list string;
  ctr_Env : list EnvVar; ctr_Resources : ResourceRequirements; ctr_VolumeMounts : list VolumeMount;
  ctr_SecurityContext : option SecurityContext; ctr_Ports : list ContainerPort;
  ctr_LivenessProbe : option Probe; ctr_ReadinessProbe : option Probe; ctr_PreStop : list string
}.
Record PodSpec := mkPodSpec {
  pod_Containers : list Container; podspec_Volumes : list Volume; pod_NodeSelector : gmap string string;
  pod_Tolerations : list string; pod_Affinity : option string; pod_RestartPolicy : string;
  pod_TerminationGracePeriodSeconds : option Z
}.
Record PodTemplateSpec := mkPodTemplateSpec { pt_Labels : gmap string string; pt_Spec : PodSpec }.

Record Deployment := mkDeployment {
  dep_meta : ObjectMeta;
  dep_Replicas : option Z;
  dep_MatchLabels : gmap string string;
  dep_Template : PodTemplateSpec;
  dep_UpdatedReplicas : Z;   (* Status *)
  dep_ReadyReplicas : Z
}.
#[export] Instance Deployment_eta : Eta Deployment := fun r =>
  mkDeployment (dep_meta r) (dep_Replicas r) (dep_MatchLabels r) (dep_Template r)
    (dep_UpdatedReplicas r) (dep_ReadyReplicas r).
(** The claims its pods bind. *)
Definition dep_Volumes (d : Deployment) : list (option string) :=
  volume_claim <$> podspec_Volumes (pt_Spec (dep_Template d)).

Record Pod := mkPod {
  pod_DeletionTimestamp : option time;
  pod_Volumes : list (option string);      (* the claims they bind *)
  pod_Phase : string;
  pod_Conditions : list (string * string)  (* type and status *)
}.

Record ServicePort := mkServicePort { sp_Name : string; sp_Port : Z; sp_TargetPort : Z; sp_Protocol : string }.
Record Service := mkService {
  svc_meta : ObjectMeta; svc_Type : string; svc_Selector : gmap string string; svc_Ports : list ServicePort
}.
#[export] Instance Service_eta : Eta Service := fun r =>
  mkService (svc_meta r) (svc_Type r) (svc_Selector r) (svc_Ports r).
