(* ===== verification/Effects.v ===== *)
(** * Effects: what the VirtualMachine controller asks of its environment

    One constructor of [call] per interaction of
    [internal/controller/virtualmachine_controller.go] and
    [virtualmachine_image_prepare.go] with the outside: API server requests,
    provider resolution and provider RPCs, the clock and the metrics.  Log
    lines are not modelled.  [answer c] is the type of what comes back. *)
From S2P Require Import Prelude Contracts K8s Api.
From stdpp Require Import base gmap strings list.
From Stdlib Require Import ZArith.
Import v1beta1.

(** A resolved provider client: [inst_ImagePreparer] and
    [inst_CapabilityReporter] say whether its dynamic type implements the optional
    interfaces [contracts.ImagePreparer] and [contracts.CapabilityReporter]. *)
Record ProviderInstance := mkInstance {
  inst_Name : string;
  inst_ImagePreparer : bool;
  inst_CapabilityReporter : bool;
  inst_Cloner : bool
}.

Inductive call :=
  (* client.Client *)
  | GetVM (key : NamespacedName)
  | GetProviderCR (key : NamespacedName)
  | GetVMClass (key : NamespacedName)
  | GetVMImage (key : NamespacedName)
  | GetVMNetworkAttachment (key : NamespacedName)
  | GetSecret (key : NamespacedName)
  | UpdateVM (vm : VirtualMachine)
  | StatusUpdateVM (vm : VirtualMachine)
  | StatusUpdateVMImage (img : v1beta1.VMImage)
  (* ProviderResolver *)
  | ResolveProvider (p : Provider)
  (* contracts.Provider *)
  | ProviderCreate (i : ProviderInstance) (req : CreateRequest)
  | ProviderDelete (i : ProviderInstance) (id : string)
  | ProviderPower (i : ProviderInstance) (id : string) (op : PowerOp)
  | ProviderReconfigure (i : ProviderInstance) (id : string) (desired : CreateRequest)
  | ProviderDescribe (i : ProviderInstance) (id : string)
  | ProviderIsTaskComplete (i : ProviderInstance) (taskRef : string)
  | ProviderPrepareImage (i : ProviderInstance) (req : ImagePrepareRequest)
  (* clock and metrics *)
  | Now
  | RecordError (reason : string)
  | RecordIPDiscovery (providerType : string).

(** An update request answers with the error it returned, if any; an update of
    an image's status also decodes the stored object into its argument. *)
Definition answer (c : call) : Type :=
  match c with
  | GetVM _ => res VirtualMachine
  | GetProviderCR _ => res Provider
  | GetVMClass _ => res v1beta1.VMClass
  | GetVMImage _ => res v1beta1.VMImage
  | GetVMNetworkAttachment _ => res VMNetworkAttachment
  | GetSecret _ => res Secret
  | UpdateVM _ | StatusUpdateVM _ => option goerror
  | StatusUpdateVMImage _ => res v1beta1.VMImage
  | ResolveProvider _ => res ProviderInstance
  | ProviderCreate _ _ => res CreateResponse
  | ProviderDelete _ _ | ProviderPower _ _ _ | ProviderReconfigure _ _ _ => res string
  | ProviderDescribe _ _ => res DescribeResponse
  | ProviderIsTaskComplete _ _ => res bool
  | ProviderPrepareImage _ _ => res ImagePrepareResponse
  | Now => time
  | RecordError _ | RecordIPDiscovery _ => unit
  end.

Abbreviation M := (prog call answer).
Abbreviation trace := (list (event call answer)).

Abbreviation do_ := (trigger (E := call) (R := answer)).

(** The provider RPCs that change the hypervisor. *)
Definition is_create (c : call) : bool :=
  match c with ProviderCreate _ _ => true | _ => false end.
Definition is_delete (c : call) : bool :=
  match c with ProviderDelete _ _ => true | _ => false end.
Definition is_power (c : call) : bool :=
  match c with ProviderPower _ _ _ => true | _ => false end.
Definition is_reconfigure (c : call) : bool :=
  match c with ProviderReconfigure _ _ _ => true | _ => false end.
Definition is_prepare (c : call) : bool :=
  match c with ProviderPrepareImage _ _ => true | _ => false end.
Definition is_update (c : call) : bool :=
  match c with UpdateVM _ => true | _ => false end.
Definition is_status_update (c : call) : bool :=
  match c with StatusUpdateVM _ => true | _ => false end.
Definition is_image_write (c : call) : bool :=
  match c with StatusUpdateVMImage _ => true | _ => false end.
Definition mutates_hypervisor (c : call) : bool :=
  is_create c || is_delete c || is_power c || is_reconfigure c.

(** ** Third-party code the controller calls

    [controllerutil], [meta.SetStatusCondition], [retry.RetryOnConflict] and
    the JSON encoder are not part of the repository: they are parameters, and
    [LibrariesOk] collects the documented behaviour the theorems rely on. *)
Class Libraries := {
  ContainsFinalizer : list string -> string -> bool;
  AddFinalizer : list string -> string -> list string;
  RemoveFinalizer : list string -> string -> list string;
  SetStatusCondition : time -> list Condition -> Condition -> list Condition;
  RetryOnConflict : forall (E : Type) (R : E -> Type) A, prog E R (res A) -> prog E R (res A);
  json_Marshal : v1beta1.VMImageSpec -> res string;
  fmt_q : string -> string
}.
Arguments RetryOnConflict {_ E R A} _.

(** The attempts of [RetryOnConflict] before its last one: each ended in a
    conflict and was abandoned. *)
Inductive conflict_attempts {E : Type} {R : E -> Type} {A} (f : prog E R (res A))
    : list (event E R) -> Prop :=
  | attempts_nil : conflict_attempts f []
  | attempts_cons tr e tr' :
      runs f tr (Done (Err e)) -> api_IsConflict e = true ->
      conflict_attempts f tr' -> conflict_attempts f (tr ++ tr').

Class LibrariesOk `{Libraries} : Prop := {
  contains_add l f : ContainsFinalizer (AddFinalizer l f) f = true;
  contains_remove l f : ContainsFinalizer (RemoveFinalizer l f) f = false;
  contains_remove_ne l f g : f <> g -> ContainsFinalizer (RemoveFinalizer l f) g = ContainsFinalizer l g;
  set_status_condition_get now conds c :
    exists c', GetCondition (SetStatusCondition now conds c) (Type_ c) = Some c'
      /\ Status c' = Status c /\ Reason c' = Reason c /\ Message c' = Message c;
  (* RetryOnConflict runs the function again only after a conflict, and reports
     what its last run reported *)
  retry_on_conflict_spec (E : Type) (R : E -> Type) A (f : prog E R (res A)) tr o :
    runs (RetryOnConflict f) tr o ->
    exists tr1 tr2, tr = tr1 ++ tr2 /\ conflict_attempts f tr1 /\ runs f tr2 o
}.

(** A run of the retried function that always satisfies an invariant of its
    trace and a postcondition gives them for the retry loop. *)
Section Retry.
Context {E : Type} {R : E -> Type}.

Lemma wp_RetryOnConflict `{LibrariesOk} {A} (f : prog E R (res A))
    (Q : list (event E R) -> outcome (res A) -> Prop) :
  (forall tr1 tr2 o, conflict_attempts f tr1 -> runs f tr2 o -> Q (tr1 ++ tr2) o) ->
  wp (RetryOnConflict f) Q.
Proof.
  intros HQ. apply wp_runs. intros tr o Hr.
  destruct (retry_on_conflict_spec E R A f tr o Hr) as (tr1 & tr2 & -> & H1 & H2). by apply HQ.
Qed.

Lemma conflict_attempts_silent (f : E -> bool) {A} (p : prog E R (res A)) tr :
  silent f p -> conflict_attempts p tr -> occurs f tr = false.
Proof.
  intros Hp. induction 1 as [|tr e tr' Hr _ _ IH]; [done|].
  rewrite occurs_app, IH. rewrite (proj1 (wp_runs p _) Hp tr _ Hr). done.
Qed.

Lemma silent_RetryOnConflict `{LibrariesOk} (f : E -> bool) {A} (p : prog E R (res A)) :
  silent f p -> silent f (RetryOnConflict p).
Proof.
  intros Hp. apply wp_RetryOnConflict. intros tr1 tr2 o H1 H2.
  rewrite occurs_app, (conflict_attempts_silent f p tr1 Hp H1).
  apply (proj1 (wp_runs p _) Hp tr2 o H2).
Qed.
End Retry.
#[export] Hint Extern 2 (silent _ (RetryOnConflict _)) =>
  apply silent_RetryOnConflict; solve_silent : silent.

(** ** An instance of the parameters

    Plain lists for the finalizers and conditions, and a retry loop that gives
    up after [steps] conflicts. *)
Module DemoLibraries.
Fixpoint retry {E : Type} {R : E -> Type} (steps : nat) {A} (f : prog E R (res A)) : prog E R (res A) :=
  r ← f;
  match r with
  | Err e =>
      if api_IsConflict e then
        match steps with
        | O => Ret (Err e)
        | S n => retry n f
        end
      else Ret (Err e)
  | Ok a => Ret (Ok a)
  end.

Fixpoint set_cond (now : time) (conds : list Condition) (c : Condition) : list Condition :=
  match conds with
  | [] => [c <| LastTransitionTime := now |>]
  | d :: rest =>
      if bool_decide (Type_ d = Type_ c)
      then (if bool_decide (Status d = Status c)
            then c <| LastTransitionTime := LastTransitionTime d |>
            else c <| LastTransitionTime := now |>) :: rest
      else d :: set_cond now rest c
  end.

#[export] Instance libs : Libraries := {|
  ContainsFinalizer l f := bool_decide (f ∈ l);
  AddFinalizer l f := if bool_decide (f ∈ l) then l else l ++ [f];
  RemoveFinalizer l f := List.filter (fun g => negb (bool_decide (g = f))) l;
  SetStatusCondition := set_cond;
  RetryOnConflict E R A f := retry 5 f;
  json_Marshal s := Ok "{}";
  fmt_q s := s
|}.

Lemma retry_spec {E : Type} {R : E -> Type} A steps (f : prog E R (res A)) tr o :
  runs (retry steps f) tr o ->
  exists tr1 tr2, tr = tr1 ++ tr2 /\ conflict_attempts f tr1 /\ runs f tr2 o.
Proof.
  revert tr. induction steps as [|n IH]; intros tr Hr; cbn [retry] in Hr;
    apply runs_bind_inv in Hr as [(tr1 & tr2 & r & -> & H1 & H2)|(w & H1 & ->)];
    try (by exists [], tr; split_and!; [|constructor|]).
  all: destruct r as [a|e]; [|destruct (api_IsConflict e) eqn:He].
  all: try (destruct H2 as [-> ->]; exists [], tr1; split_and!;
            [by rewrite app_nil_r|constructor|done]).
  apply IH in H2 as (tr3 & tr4 & -> & H3 & H4).
  exists (tr1 ++ tr3), tr4. split_and!; [by rewrite app_assoc| |done].
  by apply attempts_cons with e.
Qed.

#[export] Instance libs_ok : LibrariesOk.
Proof.
  constructor;
    cbn [ContainsFinalizer AddFinalizer RemoveFinalizer SetStatusCondition RetryOnConflict libs].
  - intros l f. apply bool_decide_eq_true.
    destruct (bool_decide_reflect (f ∈ l)); [done|]. apply elem_of_app. right. by left.
  - intros l f. apply bool_decide_eq_false. rewrite list_elem_of_In, List.filter_In.
    intros [_ Hf]. by rewrite bool_decide_eq_true_2 in Hf.
  - intros l f g Hne. apply bool_decide_ext. rewrite !list_elem_of_In, List.filter_In.
    rewrite bool_decide_eq_false_2 by done. cbn. tauto.
  - intros now conds c. induction conds as [|d conds IH]; cbn [set_cond].
    + exists (c <| LastTransitionTime := now |>). split; [|done].
      rewrite GetCondition_cons, bool_decide_eq_true_2; done.
    + destruct (bool_decide_reflect (Type_ d = Type_ c)) as [Hd|Hd].
      * case_bool_decide; eexists; (split; [|split; [|split]]);
          try (rewrite GetCondition_cons, bool_decide_eq_true_2 by done; reflexivity); done.
      * rewrite GetCondition_cons, bool_decide_eq_false_2 by done. exact IH.
  - intros E R A f tr o. apply retry_spec.
Qed.
End DemoLibraries.
