(* ===== verification/ImagePrepare.v ===== *)
(** * ImagePrepare: lazy image preparation

    Models [internal/controller/virtualmachine_image_prepare.go]: before a VM is
    created, [EnsureImageOnProvider] makes sure the image it references has been
    imported on its provider, recording the progress on the VMImage status. *)
From S2P Require Import Prelude Contracts K8s Api Effects.
From stdpp Require Import base gmap strings list.
From Stdlib Require Import ZArith Lia.
Import v1beta1.

Definition imageReasonImporting : string := "Importing".
Definition imageReasonPrepared : string := "Prepared".
Definition imageReasonMissingOnProvider : string := "MissingOnProvider".
Definition imageReasonWaitingForImage : string := "WaitingForImage".

(** The sentinel returned when the VM must wait for its image. *)
Definition errImagePrepareHold_msg : string := "image prepare: holding VM create".
Definition errImagePrepareHold : goerror := ESentinel errImagePrepareHold_msg.

Definition imagePrepareRequeueAfter : duration := (5 * second)%Z.

Definition imageEnsureResultToReconcile : Result := requeue_after imagePrepareRequeueAfter.

Definition providerAdvertisesImageImport (p : Provider) : bool :=
  match ps_ReportedCapabilities (provider_Status p) with
  | Some caps => cap_SupportsImageImport caps
  | None => false
  end.

Definition imageMissingAction (img : v1beta1.VMImage) : string :=
  match img_Prepare (image_Spec img) with
  | None => ImageMissingActionImport
  | Some p => if is_empty (ip_OnMissing p) then ImageMissingActionImport else ip_OnMissing p
  end.

Definition imageSourceNeedsPrepare (img : v1beta1.VMImage) : bool :=
  let src := img_Source (image_Spec img) in
  match src_Libvirt src with
  | Some l => negb (is_empty (lv_URL l)) || is_empty (lv_Path l)
  | None =>
      match src_VSphere src with
      | Some v =>
          if negb (is_empty (vs_OVAURL v)) then true
          else is_empty (vs_TemplateName v)
               && match vs_ContentLibrary v with None => true | Some _ => false end
      | None =>
          match src_Proxmox src with
          | Some p => match px_TemplateID p with None => true | Some _ => false end
                      && is_empty (px_TemplateName p)
          | None => true
          end
      end
  end.

Definition appendDedup (l : list string) (s : string) : list string :=
  if bool_decide (s ∈ l) then l else l ++ [s].

Section ImagePrepare.
Context `{Libraries}.

(** [writeImageStatus]: re-read the image, apply [mutate], write the status
    back; on success the committed status is mirrored on the caller's copy. *)
Definition writeImageStatus (vmImage : v1beta1.VMImage)
    (mutate : v1beta1.VMImage -> M v1beta1.VMImage) : M (res v1beta1.VMImage) :=
  let key := mkKey (meta_Namespace (image_meta vmImage)) (meta_Name (image_meta vmImage)) in
  r ← RetryOnConflict
        (g ← do_ (GetVMImage key);
         match g with
         | Err getErr => Ret (Err getErr)
         | Ok latest =>
             latest ← mutate latest;
             do_ (StatusUpdateVMImage latest)
         end);
  match r with
  | Err err =>
      Ret (Err (EWrap ("update VMImage " +:+ meta_Name (image_meta vmImage) +:+ " status") err))
  | Ok latest =>
      Ret (Ok (vmImage <| image_Status := image_Status latest |>
                       <| image_meta := image_meta vmImage
                            <| meta_ResourceVersion := meta_ResourceVersion (image_meta latest) |> |>))
  end.

(** [meta.SetStatusCondition] on the image's conditions; the library reads the
    clock for the transition time. *)
Definition set_image_condition (img : v1beta1.VMImage)
    (t : string) (s : ConditionStatus) (reason msg : string) : M v1beta1.VMImage :=
  now ← do_ Now;
  let c := mkCondition t s reason msg 0 (meta_Generation (image_meta img)) in
  Ret (img <| image_Status := image_Status img
         <| ims_Conditions := SetStatusCondition now (ims_Conditions (image_Status img)) c |> |>).

Definition markImagePreparing (vmImage : v1beta1.VMImage) : M (res v1beta1.VMImage) :=
  writeImageStatus vmImage (fun img =>
    let img := img <| image_Status := image_Status img
                        <| ims_Phase := ImagePhaseImporting |> <| ims_Ready := false |> |> in
    set_image_condition img VMImageConditionImporting ConditionTrue imageReasonImporting
      "image import in progress").

(** Go reads a missing map entry as the zero value. *)
Definition zeroProviderImageStatus : ProviderImageStatus :=
  mkProviderImageStatus false "" "" None "".

Definition provider_status (img : v1beta1.VMImage) (providerName : string) : ProviderImageStatus :=
  deref zeroProviderImageStatus (ims_ProviderStatus (image_Status img) !! providerName).

(** The status fields [markImagePrepared] writes, at clock [now]. *)
Definition prepared_status (now : time) (st : VMImageStatus) (providerName id path : string)
    : VMImageStatus :=
  let ps := deref zeroProviderImageStatus (ims_ProviderStatus st !! providerName) in
  let ps := ps <| pis_Available := true |> <| pis_LastUpdated := Some now |>
               <| pis_Message := "image prepared" |> in
  let ps := if negb (is_empty id) then ps <| pis_ID := id |> else ps in
  let ps := if negb (is_empty path) then ps <| pis_Path := path |> else ps in
  st <| ims_ProviderStatus := <[providerName := ps]> (ims_ProviderStatus st) |>
     <| ims_AvailableOn := appendDedup (ims_AvailableOn st) providerName |>
     <| ims_PrepareTaskRef := "" |>
     <| ims_Ready := true |>
     <| ims_Phase := ImagePhaseReady |>
     <| ims_Message := "" |>
     <| ims_LastPrepareTime := Some now |>.

Definition markImagePrepared (vmImage : v1beta1.VMImage) (providerName id path : string)
    : M (res v1beta1.VMImage) :=
  writeImageStatus vmImage (fun img =>
    now ← do_ Now;
    let img := img <| image_Status := prepared_status now (image_Status img) providerName id path |> in
    img ← set_image_condition img VMImageConditionReady ConditionTrue imageReasonPrepared
            ("image prepared on provider " +:+ fmt_q providerName);
    set_image_condition img VMImageConditionImporting ConditionFalse imageReasonPrepared
      "image import complete").

(** The write that holds a VM whose image may not be imported. *)
Definition hold_image (vmImage : v1beta1.VMImage) (phase : ImagePhase) (reason msg : string)
    : M (res v1beta1.VMImage) :=
  writeImageStatus vmImage (fun img =>
    let img := img <| image_Status := image_Status img
                        <| ims_Ready := false |> <| ims_Phase := phase |>
                        <| ims_Message := msg |> |> in
    set_image_condition img VMImageConditionReady ConditionFalse reason msg).

(** The status fields written when an asynchronous import has started. *)
Definition importing_status (now : time) (st : VMImageStatus) (providerName msg : string)
    (resp : ImagePrepareResponse) : VMImageStatus :=
  let st := st <| ims_PrepareTaskRef := ipr_TaskRef resp |>
               <| ims_Phase := ImagePhaseImporting |>
               <| ims_Ready := false |>
               <| ims_Message := msg |>
               <| ims_LastPrepareTime := Some now |> in
  if negb (is_empty (PreparedImageID resp)) || negb (is_empty (PreparedImagePath resp)) then
    let ps := deref zeroProviderImageStatus (ims_ProviderStatus st !! providerName) in
    let ps := ps <| pis_Available := false |>
                 <| pis_ID := PreparedImageID resp |>
                 <| pis_Path := PreparedImagePath resp |>
                 <| pis_LastUpdated := Some now |>
                 <| pis_Message := "image import in progress" |> in
    st <| ims_ProviderStatus := <[providerName := ps]> (ims_ProviderStatus st) |>
  else st.

Definition record_import_started (vmImage : v1beta1.VMImage) (providerName : string)
    (resp : ImagePrepareResponse) : M (res v1beta1.VMImage) :=
  writeImageStatus vmImage (fun img =>
    let msg := "importing image into provider " +:+ fmt_q providerName in
    now ← do_ Now;
    let st := importing_status now (image_Status img) providerName msg resp in
    set_image_condition (img <| image_Status := st |>) VMImageConditionImporting ConditionTrue
      imageReasonImporting msg).

(** What [EnsureImageOnProvider] returns, with the image as it left it. *)
Inductive ensure_result :=
  | EnsureProceed      (* (false, nil) *)
  | EnsureRequeue      (* (true, nil) *)
  | EnsureError (e : goerror).  (* (false, err) *)

(** Poll the outstanding prepare task, or trigger a prepare. *)
Definition poll_prepare_task (vmImage : v1beta1.VMImage) (providerName : string)
    (inst : ProviderInstance) : M (ensure_result * v1beta1.VMImage) :=
  let ref := ims_PrepareTaskRef (image_Status vmImage) in
  d ← do_ (ProviderIsTaskComplete inst ref);
  match d with
  | Err terr => Ret (EnsureError (EWrap ("check image prepare task " +:+ ref) terr), vmImage)
  | Ok false =>
      w ← markImagePreparing vmImage;
      match w with
      | Err werr => Ret (EnsureError werr, vmImage)
      | Ok vmImage => Ret (EnsureRequeue, vmImage)
      end
  | Ok true =>
      w ← markImagePrepared vmImage providerName "" "";
      match w with
      | Err werr => Ret (EnsureError werr, vmImage)
      | Ok vmImage => Ret (EnsureProceed, vmImage)
      end
  end.

Definition trigger_prepare (vmImage : v1beta1.VMImage) (providerName : string)
    (inst : ProviderInstance) : M (ensure_result * v1beta1.VMImage) :=
  let name := meta_Name (image_meta vmImage) in
  match json_Marshal (image_Spec vmImage) with
  | Err jerr =>
      Ret (EnsureError (EWrap ("marshal VMImage " +:+ name +:+ " spec for prepare") jerr), vmImage)
  | Ok imageJSON =>
      p ← do_ (ProviderPrepareImage inst (mkImagePrepareRequest imageJSON name ""));
      match p with
      | Err perr =>
          Ret (EnsureError (EWrap ("prepare image " +:+ name +:+ " on provider " +:+ providerName) perr),
               vmImage)
      | Ok resp =>
          if negb (is_empty (ipr_TaskRef resp)) then
            w ← record_import_started vmImage providerName resp;
            match w with
            | Err werr => Ret (EnsureError werr, vmImage)
            | Ok vmImage => Ret (EnsureRequeue, vmImage)
            end
          else
            w ← markImagePrepared vmImage providerName (PreparedImageID resp) (PreparedImagePath resp);
            match w with
            | Err werr => Ret (EnsureError werr, vmImage)
            | Ok vmImage => Ret (EnsureProceed, vmImage)
            end
      end
  end.

(** The part of [EnsureImageOnProvider] after its skips: honour
    Prepare.OnMissing, then poll or trigger. *)
Definition ensure_missing (vmImage : v1beta1.VMImage) (providerName : string)
    (inst : ProviderInstance) : M (ensure_result * v1beta1.VMImage) :=
  let action := imageMissingAction vmImage in
  if bool_decide (action = ImageMissingActionFail) then
    w ← hold_image vmImage ImagePhaseFailed imageReasonMissingOnProvider
          ("image not available on provider " +:+ fmt_q providerName +:+ " and Prepare.OnMissing=Fail");
    match w with
    | Err werr => Ret (EnsureError werr, vmImage)
    | Ok vmImage => Ret (EnsureError errImagePrepareHold, vmImage)
    end
  else if bool_decide (action = ImageMissingActionWait) then
    w ← hold_image vmImage ImagePhasePending imageReasonWaitingForImage
          ("image not available on provider " +:+ fmt_q providerName
             +:+ "; waiting (Prepare.OnMissing=Wait)");
    match w with
    | Err werr => Ret (EnsureError werr, vmImage)
    | Ok vmImage => Ret (EnsureError errImagePrepareHold, vmImage)
    end
  else if negb (is_empty (ims_PrepareTaskRef (image_Status vmImage))) then
    poll_prepare_task vmImage providerName inst
  else trigger_prepare vmImage providerName inst.

(** Nothing has to be prepared: no image reference, a provider that does not
    import, an image already available there, or a reference-style source. *)
Definition prepare_not_needed (vm : VirtualMachine) (vmImage : option v1beta1.VMImage)
    (provider : Provider) (inst : ProviderInstance) : bool :=
  match spec_ImageRef (vm_Spec vm), vmImage with
  | Some _, Some img =>
      negb (inst_ImagePreparer inst)
      || negb (providerAdvertisesImageImport provider)
      || match ims_ProviderStatus (image_Status img) !! provider_Name provider with
         | Some ps => pis_Available ps
         | None => false
         end
      || negb (imageSourceNeedsPrepare img)
  | _, _ => true
  end.

Definition EnsureImageOnProvider (vm : VirtualMachine) (vmImage : option v1beta1.VMImage)
    (provider : Provider) (inst : ProviderInstance) : M (ensure_result * option v1beta1.VMImage) :=
  match vmImage with
  | Some img =>
      if prepare_not_needed vm vmImage provider inst then Ret (EnsureProceed, vmImage)
      else
        r ← ensure_missing img (provider_Name provider) inst;
        Ret (r.1, Some r.2)
  | None => Ret (EnsureProceed, None)
  end.
End ImagePrepare.
