(* ===== verification/CreateRequest.v ===== *)
(** * CreateRequest: from a VirtualMachine and its dependencies to a provider request

    Models [buildCreateRequest] and [overrideImageWithPreparedLocation] of
    [internal/controller/virtualmachine_controller.go] and
    [internal/controller/cloudinit.go]. *)
From S2P Require Import Prelude Contracts K8s Api Effects ImagePrepare.
From stdpp Require Import base gmap strings list pretty.
From Stdlib Require Import ZArith Lia.
Import v1beta1.
Import Contracts.

(** ** cloudinit.go *)
Definition newline : string := String (Ascii.ascii_of_nat 10) EmptyString.
Definition dquote : string := String (Ascii.ascii_of_nat 34) EmptyString.

Definition cloudInitBoundary : string := "VIRTRIGAUD_CLOUD_INIT_BOUNDARY".

(** The value under the first of [keys] the secret has. *)
Fixpoint first_key (keys : list string) (data : gmap string string) : option string :=
  match keys with
  | [] => None
  | k :: ks => match data !! k with Some v => Some v | None => first_key ks data end
  end.

Definition cloudInitKeys : list string := ["userdata"; "user-data"; "cloud-init"; "cloud-config"].
Definition metaDataKeys : list string := ["metadata"; "meta-data"; "meta_data"].

(** Go's [%v] of a list of strings. *)
Fixpoint join (sep : string) (l : list string) : string :=
  match l with
  | [] => ""
  | [s] => s
  | s :: l' => s +:+ sep +:+ join sep l'
  end.
Definition fmt_v_list (l : list string) : string := "[" +:+ join " " l +:+ "]".

Definition part_header : string :=
  newline +:+ "--" +:+ cloudInitBoundary +:+ newline
  +:+ "Content-Type: text/cloud-config; charset=" +:+ dquote +:+ "utf-8" +:+ dquote +:+ newline
  +:+ newline.

Fixpoint write_parts (parts : list string) : string :=
  match parts with
  | [] => ""
  | part :: rest => part_header +:+ part +:+ newline +:+ write_parts rest
  end.

Definition mergeCloudConfigParts (parts : list string) : string :=
  "Content-Type: multipart/mixed; boundary=" +:+ dquote +:+ cloudInitBoundary +:+ dquote +:+ newline
  +:+ "MIME-Version: 1.0" +:+ newline
  +:+ write_parts parts
  +:+ newline +:+ "--" +:+ cloudInitBoundary +:+ "--" +:+ newline.

Section CloudInit.
Context `{Libraries}.

Definition extractCloudInitFromSecret (s : Secret) : res string :=
  match first_key cloudInitKeys (secret_Data s) with
  | Some v => Ok v
  | None => Err (ENew ("secret " +:+ fmt_q (secret_Name s)
                  +:+ " contains no recognised cloud-init key; accepted keys: "
                  +:+ fmt_v_list cloudInitKeys))
  end.

Definition extractMetaDataFromSecret (s : Secret) : res string :=
  match first_key metaDataKeys (secret_Data s) with
  | Some v => Ok v
  | None => Err (ENew ("secret " +:+ fmt_q (secret_Name s)
                  +:+ " contains no recognised metadata key; accepted keys: "
                  +:+ fmt_v_list metaDataKeys))
  end.

Definition inline_part (s : string) : list string := if is_empty s then [] else [s].

Definition resolveCloudInitUserData (namespace : string) (ci : CloudInit) : M (res string) :=
  let parts := inline_part (ci_Inline ci) in
  let finish (parts : list string) : res string :=
    match parts with
    | [] => Ok ""
    | [p] => Ok p
    | _ => Ok (mergeCloudConfigParts parts)
    end in
  match ci_SecretRef ci with
  | None => Ret (finish parts)
  | Some ref =>
      g ← do_ (GetSecret (mkKey namespace (lref_Name ref)));
      match g with
      | Err err => Ret (Err (EWrap ("fetching cloud-init secret " +:+ fmt_q (lref_Name ref)) err))
      | Ok secret =>
          match extractCloudInitFromSecret secret with
          | Err err => Ret (Err err)
          | Ok data => Ret (finish (parts ++ [data]))
          end
      end
  end.

Definition resolveCloudInitMetaData (namespace : string) (m : CloudInitMetaData) : M (res string) :=
  let parts := inline_part (cim_Inline m) in
  match cim_SecretRef m with
  | None => Ret (Ok (join newline parts))
  | Some ref =>
      g ← do_ (GetSecret (mkKey namespace (lref_Name ref)));
      match g with
      | Err err => Ret (Err (EWrap ("fetching metadata secret " +:+ fmt_q (lref_Name ref)) err))
      | Ok secret =>
          match extractMetaDataFromSecret secret with
          | Err err => Ret (Err err)
          | Ok data => Ret (Ok (join newline (parts ++ [data])))
          end
      end
  end.
End CloudInit.

(** ** The class *)
Definition mib : Z := (1024 * 1024)%Z.
Definition gib : Z := (1024 * 1024 * 1024)%Z.

(** A memory limit in bytes as an [int32] number of MiB, clamped at the top. *)
Definition clamp_mib (bytes : Z) : Z :=
  let m := Z.quot bytes mib in
  to_int32 (if (m >? maxInt32)%Z then maxInt32 else m).

Definition convert_limits (l : VMResourceLimits) : ResourceLimits :=
  {| CPULimit := rl_CPULimit l;
     CPUReservation := rl_CPUReservation l;
     MemoryLimitMiB := clamp_mib <$> rl_MemoryLimit l;
     MemoryReservationMiB := clamp_mib <$> rl_MemoryReservation l;
     CPUShares := rl_CPUShares l |}.

Definition convert_security (s : v1beta1.SecurityProfile) : SecurityProfile :=
  {| SecureBoot := sp_SecureBoot s;
     TPMEnabled := sp_TPMEnabled s;
     TPMVersion := sp_TPMVersion s;
     VTDEnabled := sp_VTDEnabled s;
     EncryptionEnabled :=
       match sp_EncryptionPolicy s with Some e => ep_Enabled e | None => false end;
     KeyProvider :=
       match sp_EncryptionPolicy s with Some e => ep_KeyProvider e | None => "" end;
     RequireEncryption :=
       match sp_EncryptionPolicy s with Some e => ep_RequireEncryption e | None => false end |}.

Definition convert_performance (p : v1beta1.PerformanceProfile) : PerformanceProfile :=
  {| LatencySensitivity := pp_LatencySensitivity p;
     CPUHotAddEnabled := pp_CPUHotAddEnabled p;
     MemoryHotAddEnabled := pp_MemoryHotAddEnabled p;
     VirtualizationBasedSecurity := pp_VirtualizationBasedSecurity p;
     NestedVirtualization := pp_NestedVirtualization p;
     HyperThreadingPolicy := pp_HyperThreadingPolicy p |}.

Definition convert_disk_defaults (d : v1beta1.DiskDefaults) : DiskDefaults :=
  {| Contracts.dd_Type := v1beta1.dd_Type d; dd_SizeGiB := to_int32 (Z.quot (dd_Size d) gib) |}.

Definition convert_class (c : VMClassSpec) : VMClass :=
  {| CPU := cls_CPU c;
     MemoryMiB := to_int32 (Z.quot (cls_Memory c) mib);
     Firmware := cls_Firmware c;
     class_DiskDefaults := convert_disk_defaults <$> cls_DiskDefaults c;
     GuestToolsPolicy := cls_GuestToolsPolicy c;
     ExtraConfig := cls_ExtraConfig c;
     class_PerformanceProfile := convert_performance <$> cls_PerformanceProfile c;
     class_SecurityProfile := convert_security <$> cls_SecurityProfile c;
     class_ResourceLimits := convert_limits <$> cls_ResourceLimits c |}.

(** ** The image *)
Definition zeroImage : VMImage := mkVMImage "" "" "" "" "" "".

Definition convert_imported_disk (disk : ImportedDiskRef) : VMImage :=
  let format := if is_empty (id_Format disk) then "qcow2" else id_Format disk in
  let diskPath :=
    if is_empty (id_Path disk)
    then "/var/lib/libvirt/images/" +:+ id_DiskID disk +:+ "." +:+ format
    else id_Path disk in
  zeroImage <| Path := diskPath |> <| Format := format |> <| ChecksumType := "sha256" |>.

(** Set a field only when the source gives a value. *)
Definition or_keep (s old : string) : string := if is_empty s then old else s.

Definition image_from_vsphere (image : VMImage) (v : VSphereImageSource) : VMImage :=
  image <| TemplateName := vs_TemplateName v |>
        <| URL := vs_OVAURL v |>
        <| Checksum := or_keep (vs_Checksum v) (Checksum image) |>
        <| ChecksumType := or_keep (vs_ChecksumType v) (ChecksumType image) |>.

Definition image_from_libvirt (image : VMImage) (l : LibvirtImageSource) : VMImage :=
  image <| Path := lv_Path l |>
        <| URL := lv_URL l |>
        <| Format := lv_Format l |>
        <| Checksum := or_keep (lv_Checksum l) (Checksum image) |>
        <| ChecksumType := or_keep (lv_ChecksumType l) (ChecksumType image) |>.

Definition image_from_proxmox (image : VMImage) (p : ProxmoxImageSource) : VMImage :=
  match px_TemplateID p with
  | Some id => image <| TemplateName := pretty id |>
  | None =>
      if is_empty (px_TemplateName p) then image
      else image <| TemplateName := px_TemplateName p |>
  end.

Definition on_some {A B} (f : A -> B -> A) (o : option B) (a : A) : A :=
  match o with Some b => f a b | None => a end.

(** [overrideImageWithPreparedLocation]: the image with the prepared location,
    and whether it was used. *)
Definition overrideImageWithPreparedLocation (image : VMImage) (vmImage : v1beta1.VMImage)
    (providerName : string) : VMImage * bool :=
  match ims_ProviderStatus (image_Status vmImage) !! providerName with
  | None => (image, false)
  | Some ps =>
      if negb (pis_Available ps) then (image, false)
      else
        let src := img_Source (image_Spec vmImage) in
        match src_Libvirt src with
        | Some _ =>
            if is_empty (pis_Path ps) then (image, false)
            else (image <| Path := pis_Path ps |> <| URL := "" |>, true)
        | None =>
            match src_VSphere src with
            | Some _ =>
                if is_empty (pis_ID ps) then (image, false)
                else (image <| TemplateName := pis_ID ps |> <| URL := "" |>, true)
            | None =>
                match src_Proxmox src with
                | Some _ =>
                    if is_empty (pis_ID ps) then (image, false)
                    else (image <| TemplateName := pis_ID ps |>, true)
                | None => (image, false)
                end
            end
        end
  end.

Definition convert_template (vmImage : v1beta1.VMImage) (providerName : string) : VMImage :=
  let src := img_Source (image_Spec vmImage) in
  let image := zeroImage <| Format := "template" |> <| ChecksumType := "sha256" |> in
  let image := on_some image_from_vsphere (src_VSphere src) image in
  let image := on_some image_from_libvirt (src_Libvirt src) image in
  let image := on_some image_from_proxmox (src_Proxmox src) image in
  (overrideImageWithPreparedLocation image vmImage providerName).1.

Definition convert_image (vm : VirtualMachine) (vmImage : option v1beta1.VMImage)
    (providerName : string) : VMImage :=
  match spec_ImportedDisk (vm_Spec vm) with
  | Some disk => convert_imported_disk disk
  | None =>
      match vmImage with
      | Some img => convert_template img providerName
      | None => zeroImage
      end
  end.

(** ** Networks and disks *)
Definition attach_vsphere (a : NetworkAttachment) (n : VSphereNetworkConfig) : NetworkAttachment :=
  let a := a <| NetworkName := vsn_Portgroup n |> in
  let a := match vsn_VLAN n with
           | Some (Some id) => a <| VLAN := id |>
           | _ => a
           end in
  match vsn_PCISlotNumber n with
  | Some s => a <| PCISlotNumber := Some s |>
  | None => a
  end.

Definition attach_libvirt (a : NetworkAttachment) (n : LibvirtNetworkConfig) : NetworkAttachment :=
  let a := a <| NetworkName := lvn_NetworkName n |> in
  let a := match lvn_Bridge n with Some b => a <| Bridge := b |> | None => a end in
  a <| Model := lvn_Model n |>.

Definition attach_proxmox (a : NetworkAttachment) (n : ProxmoxNetworkConfig) : NetworkAttachment :=
  let a := a <| Bridge := pxn_Bridge n |> <| Model := pxn_Model n |> in
  match pxn_VLANTag n with Some v => a <| VLAN := v |> | None => a end.

Definition convert_network (netRef : VMNetworkRef) (net : option VMNetworkAttachment)
    : NetworkAttachment :=
  let attachment :=
    mkNetworkAttachment (vnr_Name netRef) "" "" "" 0 "" "" "" (vnr_IPAddress netRef)
      (vnr_Prefix netRef) (vnr_Gateway netRef) (vnr_DNS netRef) None in
  match vnr_NetworkRef netRef, net with
  | Some _, Some net =>
      on_some attach_proxmox (net_Proxmox net)
        (on_some attach_libvirt (net_Libvirt net)
           (on_some attach_vsphere (net_VSphere net) attachment))
  | _, _ => attachment
  end.

(** [networks[i]] for [i < len(networks)], nil otherwise. *)
Fixpoint convert_networks (refs : list VMNetworkRef) (nets : list (option VMNetworkAttachment))
    : list NetworkAttachment :=
  match refs with
  | [] => []
  | r :: refs' =>
      match nets with
      | [] => convert_network r None :: convert_networks refs' []
      | n :: nets' => convert_network r n :: convert_networks refs' nets'
      end
  end.

Definition convert_disk (d : v1beta1.DiskSpec) : DiskSpec :=
  mkDiskSpec (ds_SizeGiB d) (ds_Type d) (ds_Name d).

Definition convert_placement (p : v1beta1.Placement) : Placement :=
  mkPlacement (pl_Datastore p) (pl_StoragePod p) (pl_Cluster p) (pl_Folder p) "".

Section Build.
Context `{Libraries}.

Definition resolve_user_data (vm : VirtualMachine) : M (res (option UserData)) :=
  match spec_UserData (vm_Spec vm) ≫= ud_CloudInit with
  | None => Ret (Ok None)
  | Some ci =>
      d ← resolveCloudInitUserData (meta_Namespace (vm_meta vm)) ci;
      match d with
      | Err err => Ret (Err (EWrap "resolving cloud-init user data" err))
      | Ok data => Ret (Ok (if is_empty data then None else Some (mkUserData data "cloud-init")))
      end
  end.

Definition resolve_meta_data (vm : VirtualMachine) : M (res (option MetaData)) :=
  match spec_MetaData (vm_Spec vm) ≫= md_CloudInit with
  | None => Ret (Ok None)
  | Some m =>
      d ← resolveCloudInitMetaData (meta_Namespace (vm_meta vm)) m;
      match d with
      | Err err => Ret (Err (EWrap "resolving cloud-init metadata" err))
      | Ok data => Ret (Ok (if is_empty data then None else Some (mkMetaData data)))
      end
  end.

Definition buildCreateRequest (vm : VirtualMachine) (providerName : string)
    (vmClass : v1beta1.VMClass) (vmImage : option v1beta1.VMImage)
    (networks : list (option VMNetworkAttachment)) : M (res CreateRequest) :=
  u ← resolve_user_data vm;
  match u with
  | Err err => Ret (Err err)
  | Ok userData =>
      m ← resolve_meta_data vm;
      match m with
      | Err err => Ret (Err err)
      | Ok metaData =>
          Ret (Ok (mkCreateRequest
            (meta_Name (vm_meta vm))
            (convert_class (class_Spec vmClass))
            (convert_image vm vmImage providerName)
            (convert_networks (spec_Networks (vm_Spec vm)) networks)
            (convert_disk <$> spec_Disks (vm_Spec vm))
            userData metaData
            (convert_placement <$> spec_Placement (vm_Spec vm))
            (spec_Tags (vm_Spec vm))))
      end
  end.
End Build.
