(* ===== verification/CircuitBreaker.v ===== *)
(** * CircuitBreaker: the circuit breaker and its registry

    Models [internal/resilience/circuitbreaker.go].  Each method of a breaker
    runs under its mutex, so an execution is a sequence of whole methods; the
    calls a breaker has admitted run outside the lock and report their result
    later, in any order. *)
From S2P Require Import Prelude Contracts.
From stdpp Require Import base gmap strings list.
From Stdlib Require Import ZArith Lia SpecFloat.
#[local] Open Scope Z_scope.

Inductive State := StateClosed | StateHalfOpen | StateOpen.
#[export] Instance State_eq_dec : EqDecision State.
Proof. solve_decision. Defined.

Definition State_String (s : State) : string :=
  match s with
  | StateClosed => "closed"
  | StateHalfOpen => "half-open"
  | StateOpen => "open"
  end.

Record Config := mkConfig {
  FailureThreshold : Z;
  ResetTimeout : duration;
  HalfOpenMaxCalls : Z
}.

Definition DefaultConfig : Config := mkConfig 10 (60 * second) 3.

(** The gauge and the counter a breaker exports: [SetState] writes the gauge
    (0 closed, 1 half-open, 2 open), [RecordFailure] counts. *)
Record CircuitBreakerMetrics := mkMetrics { gauge : Z; failures_total : Z }.
#[export] Instance CircuitBreakerMetrics_eta : Eta CircuitBreakerMetrics := fun r =>
  mkMetrics (gauge r) (failures_total r).

Definition CircuitBreakerClosed : Z := 0.
Definition CircuitBreakerHalfOpen : Z := 1.
Definition CircuitBreakerOpen : Z := 2.

(** [lastFailureTime] is [None] while it is the zero time; a breaker that is
    open has failed, so the zero time is never compared with the timeout. *)
Record CircuitBreaker := mkBreaker {
  config : Config;
  state : State;
  failures : Z;
  lastFailureTime : option time;
  halfOpenCalls : Z;
  metrics : CircuitBreakerMetrics;
  cb_name : string
}.
#[export] Instance CircuitBreaker_eta : Eta CircuitBreaker := fun r =>
  mkBreaker (config r) (state r) (failures r) (lastFailureTime r) (halfOpenCalls r) (metrics r)
    (cb_name r).

Definition SetState (cb : CircuitBreaker) (v : Z) : CircuitBreaker :=
  cb <| metrics := metrics cb <| gauge := v |> |>.

(** [metrics.NewCircuitBreakerMetrics] looks the series up by its labels, so a
    counter that exists already goes on from [counted]. *)
Definition NewCircuitBreaker (name : string) (cfg : option Config) (counted : Z) : CircuitBreaker :=
  let cfg := deref DefaultConfig cfg in
  SetState (mkBreaker cfg StateClosed 0 None 0 (mkMetrics 0 counted) name) CircuitBreakerClosed.

Definition transitionToClosed (cb : CircuitBreaker) : CircuitBreaker :=
  SetState (cb <| state := StateClosed |> <| failures := 0 |> <| halfOpenCalls := 0 |>)
    CircuitBreakerClosed.

Definition transitionToOpen (cb : CircuitBreaker) : CircuitBreaker :=
  SetState (cb <| state := StateOpen |> <| halfOpenCalls := 0 |>) CircuitBreakerOpen.

Definition transitionToHalfOpen (cb : CircuitBreaker) : CircuitBreaker :=
  SetState (cb <| state := StateHalfOpen |> <| halfOpenCalls := 0 |>) CircuitBreakerHalfOpen.

(** [time.Since(cb.lastFailureTime) <= cb.config.ResetTimeout]. *)
Definition still_open (now : time) (cb : CircuitBreaker) : bool :=
  match lastFailureTime cb with
  | Some t => now - t <=? ResetTimeout (config cb)
  | None => false
  end.

(** The half-open branch of [allowCall]. *)
Definition admit_half_open (cb : CircuitBreaker) : bool * CircuitBreaker :=
  if halfOpenCalls cb <? HalfOpenMaxCalls (config cb)
  then (true, cb <| halfOpenCalls := halfOpenCalls cb + 1 |>)
  else (false, cb).

Definition allowCall (now : time) (cb : CircuitBreaker) : bool * CircuitBreaker :=
  match state cb with
  | StateClosed => (true, cb)
  | StateOpen =>
      if still_open now cb then (false, cb)
      else admit_half_open (transitionToHalfOpen cb)
  | StateHalfOpen => admit_half_open cb
  end.

Definition recordFailure (now : time) (cb : CircuitBreaker) : CircuitBreaker :=
  let cb := cb <| failures := failures cb + 1 |> <| lastFailureTime := Some now |>
               <| metrics := metrics cb
                    <| failures_total := failures_total (metrics cb) + 1 |> |> in
  match state cb with
  | StateClosed =>
      if FailureThreshold (config cb) <=? failures cb then transitionToOpen cb else cb
  | StateHalfOpen => transitionToOpen cb
  | StateOpen => cb
  end.

Definition recordSuccess (cb : CircuitBreaker) : CircuitBreaker :=
  match state cb with
  | StateHalfOpen =>
      if HalfOpenMaxCalls (config cb) <=? halfOpenCalls cb then transitionToClosed cb else cb
  | StateClosed => cb <| failures := 0 |>
  | StateOpen => cb
  end.

Definition recordResult (now : time) (err : option goerror) (cb : CircuitBreaker) : CircuitBreaker :=
  match err with
  | Some _ => recordFailure now cb
  | None => recordSuccess cb
  end.

Definition Reset (cb : CircuitBreaker) : CircuitBreaker := transitionToClosed cb.

Definition GetState (cb : CircuitBreaker) : State := state cb.
Definition GetFailures (cb : CircuitBreaker) : Z := failures cb.

(** ** [Call]

    What the package asks of the outside: the clock, the protected function
    (a [RetryFunc] is also given the number of its attempt), a random number in
    [0,1) and the wait between two attempts, which answers with the error of the
    context when that is done first. *)
Inductive cb_call :=
  | Clock
  | Invoke
  | InvokeAttempt (attempt : Z)
  | Random
  | Wait (d : duration).
Definition cb_answer (c : cb_call) : Type :=
  match c with
  | Clock => time
  | Invoke | InvokeAttempt _ | Wait _ => option goerror
  | Random => spec_float
  end.
Abbreviation CM := (prog cb_call cb_answer).

Definition rejected (cb : CircuitBreaker) : goerror :=
  NewUnavailableError ("circuit breaker " +:+ cb_name cb +:+ " is open") None.

(** One [Call] that no other call overlaps.  The function also leaves a value
    for its caller, which is [zero] when it was not run. *)
Definition CallWith {X} (cb : CircuitBreaker) (fn : CM (option goerror * X)) (zero : X)
    : CM (option goerror * X * CircuitBreaker) :=
  now ← trigger (E := cb_call) (R := cb_answer) Clock;
  let '(allowed, cb) := allowCall now cb in
  if negb allowed then Ret (Some (rejected cb), zero, cb)
  else
    r ← fn;
    let '(err, x) := r in
    now ← trigger (E := cb_call) (R := cb_answer) Clock;
    Ret (err, x, recordResult now err cb).

(** [Call] with the protected function of the caller. *)
Definition Call (cb : CircuitBreaker) : CM (option goerror * CircuitBreaker) :=
  r ← CallWith cb (err ← trigger (E := cb_call) (R := cb_answer) Invoke; Ret (err, tt)) tt;
  Ret (r.1.1, r.2).

(** ** Concurrent executions

    [inflight] counts the admitted calls that have not reported yet; the clock
    only moves forward.  [Lose] is an admitted call whose function panicked:
    [Call] does not record a result for it. *)
Record system := mkSystem { breaker : CircuitBreaker; inflight : nat; now_ : time }.

Inductive action :=
  | Tick (d : duration)
  | Arrive
  | Report (err : option goerror)
  | Lose
  | ResetAll.

Inductive step : system -> action -> system -> Prop :=
  | step_tick cb n t d :
      0 <= d -> step (mkSystem cb n t) (Tick d) (mkSystem cb n (t + d))
  | step_arrive cb n t :
      step (mkSystem cb n t) Arrive
        (mkSystem (allowCall t cb).2 (if (allowCall t cb).1 then S n else n) t)
  | step_report cb n t err :
      step (mkSystem cb (S n) t) (Report err) (mkSystem (recordResult t err cb) n t)
  | step_lose cb n t :
      step (mkSystem cb (S n) t) Lose (mkSystem cb n t)
  | step_reset cb n t :
      step (mkSystem cb n t) ResetAll (mkSystem (Reset cb) n t).

Inductive steps : system -> list action -> system -> Prop :=
  | steps_nil s : steps s [] s
  | steps_cons s a s' l s'' : step s a s' -> steps s' l s'' -> steps s (a :: l) s''.

Definition initial (name : string) (cfg : Config) (counted : Z) (t : time) : system :=
  mkSystem (NewCircuitBreaker name (Some cfg) counted) 0 t.

Definition reachable (cfg : Config) (s : system) : Prop :=
  exists name counted t l, steps (initial name cfg counted t) l s.

(** ** Registry

    A registry maps keys to pointers; the breakers themselves live in a heap
    shared with the clients that hold the pointers. *)
Abbreviation loc := nat (only parsing).
Abbreviation heap := (gmap nat CircuitBreaker) (only parsing).

Record Registry := mkRegistry { breakers : gmap string loc; reg_config : Config }.
#[export] Instance Registry_eta : Eta Registry := fun r => mkRegistry (breakers r) (reg_config r).

Definition NewRegistry (cfg : option Config) : Registry := mkRegistry ∅ (deref DefaultConfig cfg).

Definition registry_key (name providerType provider : string) : string :=
  providerType +:+ ":" +:+ provider +:+ ":" +:+ name.

Definition Get (r : Registry) (name providerType provider : string) : option loc :=
  breakers r !! registry_key name providerType provider.

(** The pointer found or made, and the registry and heap afterwards.  The
    second look-up under the write lock makes it one atomic step. *)
Definition GetOrCreate (r : Registry) (h : heap) (name providerType provider : string) (counted : Z)
    : loc * Registry * heap :=
  let key := registry_key name providerType provider in
  match breakers r !! key with
  | Some breaker => (breaker, r, h)
  | None =>
      let breaker := fresh (dom h) in
      (breaker, r <| breakers := <[key := breaker]> (breakers r) |>,
       <[breaker := NewCircuitBreaker name (Some (reg_config r)) counted]> h)
  end.

Definition Remove (r : Registry) (name providerType provider : string) : Registry :=
  r <| breakers := delete (registry_key name providerType provider) (breakers r) |>.

(** [List] copies the map of pointers. *)
Definition List_ (r : Registry) : gmap string loc := breakers r.

(** [Reset] collects the pointers, then resets each breaker. *)
Definition Registry_Reset (r : Registry) (h : heap) : heap :=
  foldr (alter Reset) h (map_to_list (breakers r)).*2.
