(* ===== verification/CircuitBreakerProps.v ===== *)
(** * CircuitBreakerProps: the properties of the circuit breaker *)
From S2P Require Import Prelude Contracts CircuitBreaker.
From stdpp Require Import base gmap strings list.
From Stdlib Require Import ZArith Lia.
#[local] Open Scope Z_scope.

Definition state_code (s : State) : Z :=
  match s with
  | StateClosed => CircuitBreakerClosed
  | StateHalfOpen => CircuitBreakerHalfOpen
  | StateOpen => CircuitBreakerOpen
  end.

(** What holds of a breaker between any two of its methods, at clock [t]. *)
Record breaker_ok (cfg : Config) (t : time) (cb : CircuitBreaker) : Prop := {
  ok_config : config cb = cfg;
  ok_calls : 0 <= halfOpenCalls cb <= Z.max 0 (HalfOpenMaxCalls cfg);
  ok_half_open : 0 < halfOpenCalls cb -> state cb = StateHalfOpen;
  ok_failures : 0 <= failures cb;
  ok_closed : state cb = StateClosed -> failures cb = 0 \/ failures cb < FailureThreshold cfg;
  ok_open : state cb = StateOpen -> is_Some (lastFailureTime cb);
  ok_last : forall u, lastFailureTime cb = Some u -> u <= t;
  ok_gauge : gauge (metrics cb) = state_code (state cb)
}.

(** While a half-open breaker admits no more calls, one it admitted is still to
    report. *)
Definition probes_pending (s : system) : Prop :=
  state (breaker s) = StateHalfOpen ->
  HalfOpenMaxCalls (config (breaker s)) <= halfOpenCalls (breaker s) -> (1 <= inflight s)%nat.

Ltac breaker_cases :=
  repeat match goal with
         | |- context [match state ?cb with _ => _ end] => destruct (state cb) eqn:?
         | |- context [if ?b then _ else _] => destruct b eqn:?
         end.

(** Split the record and let arithmetic finish. *)
Ltac breaker_solve :=
  repeat match goal with
         | H : (_ <=? _) = true |- _ => apply Z.leb_le in H
         | H : (_ <=? _) = false |- _ => apply Z.leb_gt in H
         | H : (_ <? _) = true |- _ => apply Z.ltb_lt in H
         | H : (_ <? _) = false |- _ => apply Z.ltb_ge in H
         end;
  constructor; cbn in *; intros;
  repeat match goal with
         | H : Some _ = Some _ |- _ => injection H as <-
         | H : ?x = ?y -> _, E : ?x = ?y |- _ => specialize (H E)
         end;
  first [done | by eauto | by eexists | congruence | lia
        | by match goal with H : state _ = _ |- _ => rewrite H end | naive_solver lia].

Lemma admit_half_open_ok cfg t cb :
  breaker_ok cfg t cb -> state cb = StateHalfOpen -> breaker_ok cfg t (admit_half_open cb).2.
Proof.
  intros [] Hs. unfold admit_half_open. breaker_cases; [|done]. subst cfg. breaker_solve.
Qed.

Lemma allowCall_ok cfg t cb : breaker_ok cfg t cb -> breaker_ok cfg t (allowCall t cb).2.
Proof.
  intros Hok. unfold allowCall. breaker_cases; try done; apply admit_half_open_ok; try done.
  destruct Hok. subst cfg. breaker_solve.
Qed.

Lemma recordResult_ok cfg t err cb : breaker_ok cfg t cb -> breaker_ok cfg t (recordResult t err cb).
Proof.
  intros []. subst cfg. unfold recordResult, recordFailure, recordSuccess. destruct err; cbn.
  - breaker_cases; breaker_solve.
  - breaker_cases; breaker_solve.
Qed.

Lemma Reset_ok cfg t cb : breaker_ok cfg t cb -> breaker_ok cfg t (Reset cb).
Proof. intros []. subst cfg. unfold Reset. breaker_solve. Qed.

Lemma breaker_ok_later cfg t d cb : 0 <= d -> breaker_ok cfg t cb -> breaker_ok cfg (t + d) cb.
Proof.
  intros Hd [? ? ? ? ? ? Hl ?]. constructor; try done. intros u Hu. specialize (Hl u Hu). lia.
Qed.

Lemma step_ok cfg s a s' :
  step s a s' -> breaker_ok cfg (now_ s) (breaker s) -> breaker_ok cfg (now_ s') (breaker s').
Proof.
  destruct 1; cbn; eauto using allowCall_ok, recordResult_ok, Reset_ok, breaker_ok_later.
Qed.

Lemma steps_ok cfg s l s' :
  steps s l s' -> breaker_ok cfg (now_ s) (breaker s) -> breaker_ok cfg (now_ s') (breaker s').
Proof. induction 1; eauto using step_ok. Qed.

Lemma initial_ok name cfg counted t : breaker_ok cfg t (breaker (initial name cfg counted t)).
Proof. unfold initial, NewCircuitBreaker. breaker_solve. Qed.

Lemma step_pending s a s' :
  step s a s' -> a <> Lose -> 0 < HalfOpenMaxCalls (config (breaker s)) ->
  probes_pending s -> probes_pending s'.
Proof.
  unfold probes_pending.
  destruct 1 as [| cb n t | cb n t err | |]; cbn; intros Hl Hm Hp; try done.
  - unfold allowCall, admit_half_open. breaker_cases; cbn; intros; try congruence; try lia; by auto.
  - unfold recordResult, recordFailure, recordSuccess. destruct err; cbn; breaker_cases; cbn;
      intros; try congruence; apply Z.leb_gt in Heqb; lia.
Qed.

Lemma step_config s a s' : step s a s' -> config (breaker s') = config (breaker s).
Proof.
  destruct 1 as [| | cb n t [e|]| |]; cbn; try done;
    unfold allowCall, admit_half_open, recordFailure, recordSuccess; by breaker_cases.
Qed.

Lemma steps_pending s l s' :
  steps s l s' -> Lose ∉ l -> 0 < HalfOpenMaxCalls (config (breaker s)) ->
  probes_pending s -> probes_pending s'.
Proof.
  induction 1 as [|s a s' l s'' Hs _ IH]; [done|]. rewrite not_elem_of_cons. intros [Ha Hl] Hm Hp.
  apply IH; [done|by rewrite (step_config _ _ _ Hs)|]. by eapply step_pending.
Qed.

(** ** Safety *)

(** C29.  In every state a breaker can reach, through any interleaving of
    arriving calls, reported results, lost calls, resets and the passing of
    time: half-open calls stay within the configured maximum and are zero unless
    the breaker is half-open, a closed breaker is below its failure threshold, an
    open breaker has a failure on record that is not in the future, and the
    exported gauge shows the breaker's state. *)
Theorem breaker_invariant cfg s : reachable cfg s -> breaker_ok cfg (now_ s) (breaker s).
Proof.
  intros (name & counted & t & l & Hs). eapply steps_ok; [exact Hs|]. apply initial_ok.
Qed.

(** An execution, for the witnesses. *)
Definition one_strike : Config := mkConfig 1 (60 * second) 2.
Definition outage : goerror := NewUnavailableError "connection refused" None.

Ltac run_steps :=
  repeat (eapply steps_cons; [econstructor; vm_compute; discriminate|]);
  vm_compute; apply steps_nil.

Definition tripped : system := Eval vm_compute in
  mkSystem (recordResult 5 (Some outage) (NewCircuitBreaker "rpc" (Some one_strike) 0)) 0 5.

Lemma tripped_steps :
  steps (initial "rpc" one_strike 0 5) [Arrive; Report (Some outage)] tripped.
Proof. run_steps. Defined.

Lemma breaker_invariant_witness :
  state (breaker tripped) = StateOpen /\ gauge (metrics (breaker tripped)) = 2.
Proof.
  split; [reflexivity|].
  apply (breaker_invariant one_strike tripped).
  exists "rpc", 0, 5, [Arrive; Report (Some outage)]. exact tripped_steps.
Defined.

(** A failure never moves back the end of the open period. *)
Lemma open_period_step s a s' t0 t :
  step s a s' -> a <> ResetAll -> state (breaker s) = StateOpen ->
  lastFailureTime (breaker s) = Some t -> t0 <= t <= now_ s ->
  now_ s' - t0 <= ResetTimeout (config (breaker s)) ->
  state (breaker s') = StateOpen /\ (inflight s' <= inflight s)%nat
  /\ exists t', lastFailureTime (breaker s') = Some t' /\ t0 <= t' <= now_ s'.
Proof.
  destruct 1 as [| cb n u | cb n u [e|] | |]; cbn; intros Ha Hs Hl Ht Hn; try done.
  - split_and!; [done|lia|]. exists t. split; [done|lia].
  - unfold allowCall, still_open. rewrite Hs, Hl.
    assert (u - t <=? ResetTimeout (config cb) = true) as -> by (apply Z.leb_le; lia).
    cbn. split_and!; [done|lia|]. by exists t.
  - unfold recordFailure. cbn. rewrite Hs. cbn. split_and!; [done|lia|]. exists u. split; [done|lia].
  - unfold recordSuccess. rewrite Hs. split_and!; [done|lia|]. by exists t.
  - split_and!; [done|lia|]. by exists t.
Qed.

Lemma steps_clock s l s' : steps s l s' -> now_ s <= now_ s'.
Proof.
  induction 1 as [|s a s' l s'' Hs _ IH]; [lia|]. destruct Hs; cbn in *; lia.
Qed.

Lemma open_period s l s' t0 t :
  steps s l s' -> ResetAll ∉ l -> state (breaker s) = StateOpen ->
  lastFailureTime (breaker s) = Some t -> t0 <= t <= now_ s ->
  now_ s' - t0 <= ResetTimeout (config (breaker s)) ->
  state (breaker s') = StateOpen /\ (inflight s' <= inflight s)%nat
  /\ exists t', lastFailureTime (breaker s') = Some t' /\ t0 <= t' <= now_ s'.
Proof.
  intros Hs. revert t. induction Hs as [|s a s' l s'' Hs Hrest IH]; intros t Hr Ho Hl Ht Hn.
  { split_and!; [done|lia|]. by exists t. }
  apply not_elem_of_cons in Hr as [Ha Hr]. pose proof (steps_clock _ _ _ Hrest).
  destruct (open_period_step _ _ _ t0 t Hs ltac:(done) Ho Hl Ht) as (Ho' & Hi & t' & Hl' & Ht').
  { lia. }
  destruct (IH t' Hr Ho' Hl' Ht') as (Ho'' & Hi' & Hlast).
  { by rewrite (step_config _ _ _ Hs). }
  split_and!; [done|lia|done].
Qed.

(** An open breaker rejects every call until its reset timeout has passed:
    whatever happens in between (arrivals, late results of earlier calls, lost
    calls), short of a reset, the breaker stays open, admits nothing and goes on
    rejecting. *)
Theorem open_breaker_rejects cfg s l s' t :
  reachable cfg s -> state (breaker s) = StateOpen -> lastFailureTime (breaker s) = Some t ->
  steps s l s' -> ResetAll ∉ l -> now_ s' - t <= ResetTimeout cfg ->
  state (breaker s') = StateOpen /\ (inflight s' <= inflight s)%nat
  /\ (allowCall (now_ s') (breaker s')).1 = false.
Proof.
  intros (name & counted & t1 & l1 & H1) Ho Hl Hs Hr Hn.
  pose proof (steps_ok cfg _ _ _ H1 (initial_ok _ _ _ _)) as [Hcfg _ _ _ _ _ Hlast _].
  pose proof (Hlast t Hl) as Ht. rewrite <- Hcfg in Hn.
  destruct (open_period _ _ _ t t Hs Hr Ho Hl ltac:(lia) Hn) as (Ho' & Hi & t' & Hl' & Ht').
  split_and!; [done|done|]. unfold allowCall, still_open. rewrite Ho', Hl'.
  assert (config (breaker s') = config (breaker s)) as Hc.
  { clear -Hs. induction Hs as [|s a s' l s'' Hst _ IH]; [done|].
    by rewrite IH, (step_config _ _ _ Hst). }
  rewrite Hc. assert (_ <=? _ = true) as -> by (apply Z.leb_le; lia). done.
Qed.

(** ** Liveness *)

(** A breaker whose maximum of half-open calls is positive never wedges:
    in every reachable state in which each admitted call has reported its result
    (none was lost) and the reset timeout has passed since the last failure, the
    next call is admitted. *)
Theorem breaker_recovers name cfg counted t0 l s :
  steps (initial name cfg counted t0) l s -> Lose ∉ l -> 0 < HalfOpenMaxCalls cfg ->
  inflight s = 0%nat ->
  (forall t, lastFailureTime (breaker s) = Some t -> ResetTimeout cfg < now_ s - t) ->
  (allowCall (now_ s) (breaker s)).1 = true.
Proof.
  intros Hs Hl Hm Hi Ht.
  pose proof (steps_ok cfg _ _ _ Hs (initial_ok _ _ _ _)) as [Hcfg _ _ _ _ Hopen _ _].
  assert (probes_pending s) as Hp by (by eapply steps_pending).
  unfold probes_pending in Hp. rewrite Hcfg, Hi in Hp.
  unfold allowCall, admit_half_open, still_open. destruct (state (breaker s)) eqn:Hst; [done|..].
  - rewrite Hcfg. destruct (Z.ltb_spec (halfOpenCalls (breaker s)) (HalfOpenMaxCalls cfg)); [done|].
    specialize (Hp eq_refl ltac:(lia)). lia.
  - destruct (Hopen eq_refl) as [t Hlast]. rewrite Hlast, Hcfg. specialize (Ht t Hlast).
    assert (_ <=? _ = false) as -> by (apply Z.leb_gt; lia). cbn. rewrite Hcfg.
    by assert (0 <? _ = true) as -> by (apply Z.ltb_lt; lia).
Qed.

(** A half-open breaker that has given out its calls and waits for none. *)
Definition wedged (s : system) : Prop :=
  state (breaker s) = StateHalfOpen
  /\ HalfOpenMaxCalls (config (breaker s)) <= halfOpenCalls (breaker s) /\ inflight s = 0%nat.

Lemma wedged_step s a s' : step s a s' -> a <> ResetAll -> wedged s -> wedged s'.
Proof.
  unfold wedged. destruct 1 as [| cb n u | cb n u e | |]; cbn; intros Ha (Hs & Hc & Hi); try done.
  unfold allowCall, admit_half_open. rewrite Hs.
  assert (_ <? _ = false) as -> by (apply Z.ltb_ge; lia). done.
Qed.

(** The two ways a breaker wedges: when its maximum of half-open calls is
    not positive, or when the functions of all its half-open calls panic (their
    results are never recorded), it stays half-open and rejects every later call,
    however much time passes, until it is reset. *)
Theorem wedged_breaker_stays_wedged s l s' :
  wedged s -> steps s l s' -> ResetAll ∉ l ->
  wedged s' /\ (allowCall (now_ s') (breaker s')).1 = false.
Proof.
  intros Hw Hs Hr. assert (wedged s') as Hw'.
  { revert Hr Hw. induction Hs as [|s a s' l s'' Hst _ IH]; [done|].
    rewrite not_elem_of_cons. intros [Ha Hr] Hw. apply IH; [done|]. by eapply wedged_step. }
  split; [done|]. destruct Hw' as (Hst & Hc & _). unfold allowCall, admit_half_open. rewrite Hst.
  by assert (_ <? _ = false) as -> by (apply Z.ltb_ge; lia).
Qed.

(** Both half-open calls of [tripped] panicked. *)
Definition panicked : system := Eval vm_compute in
  mkSystem (allowCall (5 + 61 * second) (allowCall (5 + 61 * second) (breaker tripped)).2).2
    0 (5 + 61 * second).

Lemma panicked_steps :
  steps tripped [Tick (61 * second); Arrive; Arrive; Lose; Lose] panicked.
Proof. run_steps. Defined.

(** ** Probing *)
Definition probing_action (a : action) : Prop :=
  match a with Tick _ | Arrive => True | _ => False end.

Lemma probe_step cfg base s a s' :
  step s a s' -> probing_action a -> config (breaker s) = cfg ->
  (state (breaker s) = StateOpen /\ inflight s = base)
  \/ (state (breaker s) = StateHalfOpen /\ 0 <= halfOpenCalls (breaker s) <= Z.max 0 (HalfOpenMaxCalls cfg)
      /\ Z.of_nat (inflight s) = Z.of_nat base + halfOpenCalls (breaker s)) ->
  (state (breaker s') = StateOpen /\ inflight s' = base)
  \/ (state (breaker s') = StateHalfOpen /\ 0 <= halfOpenCalls (breaker s') <= Z.max 0 (HalfOpenMaxCalls cfg)
      /\ Z.of_nat (inflight s') = Z.of_nat base + halfOpenCalls (breaker s')).
Proof.
  destruct 1 as [| cb n u | | |]; cbn; try done. intros _ <-. unfold allowCall, admit_half_open.
  intros [[Hs ->]|(Hs & Hc & Hn)]; rewrite Hs.
  - destruct (still_open u cb); [by left|]. cbn.
    destruct (Z.ltb_spec 0 (HalfOpenMaxCalls (config cb))); right; cbn; split_and!; try done; lia.
  - destruct (Z.ltb_spec (halfOpenCalls cb) (HalfOpenMaxCalls (config cb))); right; cbn;
      split_and!; try done; lia.
Qed.

(** Between two results, an open breaker lets at most the configured
    maximum of half-open calls through, however many arrive and whenever they
    do. *)
Theorem probes_are_bounded s l s' :
  state (breaker s) = StateOpen -> steps s l s' -> Forall probing_action l ->
  Z.of_nat (inflight s') <= Z.of_nat (inflight s) + Z.max 0 (HalfOpenMaxCalls (config (breaker s))).
Proof.
  intros Ho Hs Hl. remember (config (breaker s)) as cfg eqn:Hcfg. symmetry in Hcfg.
  assert ((state (breaker s) = StateOpen /\ inflight s = inflight s)
    \/ (state (breaker s) = StateHalfOpen /\ 0 <= halfOpenCalls (breaker s) <= Z.max 0 (HalfOpenMaxCalls cfg)
      /\ Z.of_nat (inflight s) = Z.of_nat (inflight s) + halfOpenCalls (breaker s))) as Hinv by auto.
  revert Hinv. generalize (inflight s) at 2 4 5. clear Ho. intros base Hinv. revert Hcfg Hinv.
  induction Hs as [s|s a s' l s'' Hst _ IH]; intros Hcfg Hinv.
  - destruct Hinv as [[_ ->]|(_ & Hc & ->)]; lia.
  - apply Forall_cons in Hl as [Ha Hl]. apply IH; [done|by rewrite (step_config _ _ _ Hst)|].
    by eapply probe_step.
Qed.

(** ** Tripping and closing *)
Definition fail_all (ts : list time) (cb : CircuitBreaker) : CircuitBreaker :=
  foldl (fun cb t => recordFailure t cb) cb ts.

Lemma fail_open ts cb : state cb = StateOpen -> state (fail_all ts cb) = StateOpen.
Proof.
  revert cb. induction ts as [|t ts IH]; intros cb Ho; cbn; [done|]. apply IH.
  unfold recordFailure. cbn. by rewrite Ho.
Qed.

Lemma fail_closed ts cb :
  state cb = StateClosed -> 0 <= failures cb < FailureThreshold (config cb) ->
  state (fail_all ts cb)
  = if failures cb + Z.of_nat (length ts) <? FailureThreshold (config cb)
    then StateClosed else StateOpen.
Proof.
  revert cb. induction ts as [|t ts IH]; intros cb Hc Hf; cbn [fail_all foldl length].
  - rewrite Hc. by assert (_ <? _ = true) as -> by (apply Z.ltb_lt; lia).
  - change (foldl _ ?c ts) with (fail_all ts c).
    unfold recordFailure at 1. cbn. rewrite Hc.
    destruct (Z.leb_spec (FailureThreshold (config cb)) (failures cb + 1)).
    + rewrite fail_open by done. by assert (_ <? _ = false) as -> by (apply Z.ltb_ge; lia).
    + rewrite IH; [|done|cbn; lia]. cbn -[Z.of_nat].
      by replace (failures cb + 1 + Z.of_nat (length ts))
        with (failures cb + Z.of_nat (S (length ts))) by lia.
Qed.

(** A closed breaker trips exactly at its threshold: after a success has
    cleared the count, n consecutive failures leave it closed when n is below the
    threshold and open from the threshold on. *)
Theorem breaker_trips_at_threshold cb ts :
  state cb = StateClosed -> 0 < FailureThreshold (config cb) ->
  state (fail_all ts (recordSuccess cb))
  = if Z.of_nat (length ts) <? FailureThreshold (config cb) then StateClosed else StateOpen.
Proof.
  intros Hc Ht. unfold recordSuccess. rewrite Hc.
  rewrite (fail_closed ts (cb <| failures := 0 |>)); [reflexivity|done|cbn; lia].
Qed.

(** Arrivals at one half-open breaker, at one instant. *)
Definition arrive_all (n : nat) (t : time) (cb : CircuitBreaker) : CircuitBreaker :=
  Nat.iter n (fun cb => (allowCall t cb).2) cb.

Lemma arrive_half_open n t cb :
  state cb = StateHalfOpen -> 0 <= halfOpenCalls cb ->
  halfOpenCalls cb + Z.of_nat n <= HalfOpenMaxCalls (config cb) ->
  state (arrive_all n t cb) = StateHalfOpen
  /\ halfOpenCalls (arrive_all n t cb) = halfOpenCalls cb + Z.of_nat n
  /\ config (arrive_all n t cb) = config cb.
Proof.
  intros Hs H0. induction n as [|n IH]; intros Hn; [split_and!; [done|cbn; lia|done]|].
  destruct IH as (IH1 & IH2 & IH3); [lia|]. cbn [arrive_all Nat.iter nat_rect] in *.
  change (nat_rect _ cb _ n) with (arrive_all n t cb). unfold allowCall, admit_half_open.
  rewrite IH1, IH3. assert (_ <? _ = true) as -> by (apply Z.ltb_lt; lia).
  cbn. rewrite IH2. split_and!; [done|lia|done].
Qed.

(** When all the half-open calls are in flight at once, the first success
    closes the breaker, while the other probes have not reported: closing does
    not wait for all of them to succeed. A first failure opens it again. *)
Theorem first_result_decides cb t t' m :
  state cb = StateHalfOpen -> halfOpenCalls cb = 0 ->
  HalfOpenMaxCalls (config cb) = Z.of_nat m -> (2 <= m)%nat ->
  state (recordResult t' None (arrive_all m t cb)) = StateClosed
  /\ state (recordResult t' None (arrive_all (m - 1) t cb)) = StateHalfOpen
  /\ forall e, state (recordResult t' (Some e) (arrive_all m t cb)) = StateOpen.
Proof.
  intros Hs H0 Hm Hge.
  destruct (arrive_half_open m t cb) as (Ha & Hb & Hc); [done|lia|lia|].
  destruct (arrive_half_open (m - 1) t cb) as (Ha' & Hb' & Hc'); [done|lia|lia|].
  unfold recordResult, recordSuccess, recordFailure. cbn. rewrite Ha, Hb, Hc, Ha', Hb', Hc', H0, Hm.
  assert (_ <=? 0 + Z.of_nat m = true) as -> by (apply Z.leb_le; lia).
  assert (_ <=? 0 + Z.of_nat (m - 1) = false) as -> by (apply Z.leb_gt; lia).
  by split_and!.
Qed.

(** ** [Call] *)
Definition invocation (x : event cb_call cb_answer) : option (option goerror) :=
  match projT1 x as c return cb_answer c -> option (option goerror) with
  | Invoke => fun r => Some r
  | _ => fun _ => None
  end (projT2 x).

Definition invocations (tr : list (event cb_call cb_answer)) : list (option goerror) :=
  omap invocation tr.

(** [Call] runs the protected function once when the breaker admits the
    call, returning its error unchanged and recording its result; when the breaker
    rejects the call the function is not run and the error is the retryable
    unavailable error. It always returns. *)
Theorem call_runs_once_or_rejects cb :
  wp (Call cb) (fun tr o =>
    exists t err cb', o = Done (err, cb')
    /\ ((allowCall t cb).1 = true /\ invocations tr = [err]
          /\ (exists t', cb' = recordResult t' err (allowCall t cb).2)
        \/ (allowCall t cb).1 = false /\ invocations tr = []
          /\ err = Some (rejected (allowCall t cb).2) /\ cb' = (allowCall t cb).2)).
Proof.
  unfold Call. apply wp_bind. unfold CallWith. do 2 wp_step. cbn [bind_post].
  destruct (allowCall r cb) as [[|] cb1] eqn:Ha; cbn [negb].
  - wp_steps. exists r, r0. eexists. split; [done|]. left. rewrite Ha. cbn. by eauto.
  - wp_steps. exists r. do 2 eexists. split; [done|]. right. by rewrite Ha.
Qed.

(** ** The registry *)
Lemma GetOrCreate_spec r h name pt p counted l r' h' :
  GetOrCreate r h name pt p counted = (l, r', h') ->
  breakers r' !! registry_key name pt p = Some l
  /\ reg_config r' = reg_config r
  /\ (forall k, k <> registry_key name pt p -> breakers r' !! k = breakers r !! k)
  /\ (forall l0, is_Some (h !! l0) -> h' !! l0 = h !! l0)
  /\ (breakers r !! registry_key name pt p = None -> h !! l = None
        /\ h' !! l = Some (NewCircuitBreaker name (Some (reg_config r)) counted)).
Proof.
  unfold GetOrCreate. destruct (breakers r !! _) as [l1|] eqn:Hk; intros [= <- <- <-].
  { split_and!; done. }
  assert (h !! fresh (dom h) = None) as Hf by (apply not_elem_of_dom, is_fresh).
  cbn [breakers reg_config set_field]. split_and!.
  - apply lookup_insert_eq.
  - done.
  - intros k Hne. by rewrite lookup_insert_ne.
  - intros l0 [cb Hl]. rewrite lookup_insert_ne; [done|]. intros <-. congruence.
  - intros _. split; [done|]. apply lookup_insert_eq.
Qed.

Lemma GetOrCreate_keeps r h name pt p counted l r' h' k l0 :
  GetOrCreate r h name pt p counted = (l, r', h') -> breakers r !! k = Some l0 -> breakers r' !! k = Some l0.
Proof.
  unfold GetOrCreate. destruct (breakers r !! registry_key name pt p) as [l1|] eqn:Hk;
    intros [= <- <- <-]; [done|]. intros Hl0. cbn. rewrite lookup_insert_ne; [done|]. congruence.
Qed.

(** A registry hands out one breaker per key: asking again for the same
    name, provider type and provider gives the same pointer and changes nothing,
    the breakers of other keys and every breaker already in the heap are left as
    they are, and after a removal the next request makes a new, closed breaker
    under a pointer no one holds. *)
Theorem registry_shares_breakers r h name pt p counted counted' l r' h' :
  GetOrCreate r h name pt p counted = (l, r', h') ->
  GetOrCreate r' h' name pt p counted' = (l, r', h')
  /\ Get r' name pt p = Some l
  /\ (forall l0, is_Some (h !! l0) -> h' !! l0 = h !! l0)
  /\ (forall l2 r2 h2, GetOrCreate (Remove r' name pt p) h' name pt p counted' = (l2, r2, h2) ->
        h' !! l2 = None /\ exists cb, h2 !! l2 = Some cb /\ state cb = StateClosed).
Proof.
  intros Hg. destruct (GetOrCreate_spec _ _ _ _ _ _ _ _ _ Hg) as (Hl & _ & _ & Hh & _).
  split_and!; [|done|done|].
  - unfold GetOrCreate. by rewrite Hl.
  - intros l2 r2 h2 Hg2. destruct (GetOrCreate_spec _ _ _ _ _ _ _ _ _ Hg2) as (_ & _ & _ & _ & Hnew).
    destruct Hnew as [Hf Hn]; [apply lookup_delete_eq|]. split; [done|]. by eexists.
Qed.

