(* ===== verification/Retry.v ===== *)
(** * Retry: retries with exponential backoff

    Models [internal/resilience/retry.go].  The delays are computed in IEEE
    binary64, as the code does, with [SpecFloat]; [math.Pow] is Go's algorithm
    for a non-negative integer exponent. *)
From S2P Require Import Prelude Contracts CircuitBreaker.
From stdpp Require Import base gmap strings list.
From Stdlib Require Import ZArith Lia SpecFloat.
#[local] Open Scope Z_scope.

(** ** binary64 *)
Definition f64_mul : spec_float -> spec_float -> spec_float := SFmul 53 1024.
Definition f64_add : spec_float -> spec_float -> spec_float := SFadd 53 1024.
Definition f64_of_Z (z : Z) : spec_float := binary_normalize 53 1024 z 0 false.

(** The float literals of the source. *)
Definition f64_one : spec_float := f64_of_Z 1.
Definition f64_half : spec_float := S754_finite false (2 ^ 52) (-53).
Definition f64_tenth : spec_float := S754_finite false 7205759403792794 (-56).

(** The integer part of a finite float. *)
Definition f64_trunc (f : spec_float) : option Z :=
  match f with
  | S754_zero _ => Some 0
  | S754_finite s m e =>
      let v := if 0 <=? e then Z.pos m * 2 ^ e else Z.pos m / 2 ^ (- e) in
      Some (if s then - v else v)
  | S754_infinity _ | S754_nan => None
  end.

(** The loop of Go's [math.Pow] over the bits of the exponent [i]: the answer is
    [a1 * 2^ae]. *)
Fixpoint pow_loop (i : positive) (a1 : spec_float) (ae : Z) (x1 : spec_float) (xe : Z)
    : spec_float * Z :=
  if (xe <? - 2 ^ 12) || (2 ^ 12 <? xe) then (a1, ae + xe)
  else
    let next (i' : positive) (a1 : spec_float) (ae : Z) :=
      let x1 := f64_mul x1 x1 in
      let xe := 2 * xe in
      if SFltb x1 f64_half then pow_loop i' a1 ae (f64_add x1 x1) (xe - 1)
      else pow_loop i' a1 ae x1 xe in
    match i with
    | xH => (f64_mul a1 x1, ae + xe)
    | xO i' => next i' a1 ae
    | xI i' => next i' (f64_mul a1 x1) (ae + xe)
    end.

(** [math.Pow(x, float64(n))] for [0 <= n]. *)
Definition math_Pow (x : spec_float) (n : Z) : spec_float :=
  if (n =? 0) || SFeqb x f64_one then f64_one
  else if n =? 1 then x
  else
    match n, x with
    | Zpos i, S754_zero s => S754_zero (s && Z.odd n)
    | Zpos i, S754_infinity s => S754_infinity (s && Z.odd n)
    | Zpos i, S754_finite _ _ _ =>
        let '(x1, xe) := SFfrexp 53 1024 x in
        let '(a1, ae) := pow_loop i f64_one 0 x1 xe in
        SFldexp 53 1024 a1 ae
    | _, _ => S754_nan
    end.

(** ** Configuration *)
Record RetryConfig := mkRetryConfig {
  MaxAttempts : Z;
  BaseDelay : duration;
  MaxDelay : duration;
  Multiplier : spec_float;
  Jitter : bool
}.

Definition DefaultRetryConfig : RetryConfig :=
  mkRetryConfig 5 (500 * millisecond) (30 * second) (f64_of_Z 2) true.
Definition AggressiveRetryConfig : RetryConfig :=
  mkRetryConfig 10 (100 * millisecond) (10 * second) (S754_finite false (3 * 2 ^ 51) (-52)) true.
Definition ConservativeRetryConfig : RetryConfig :=
  mkRetryConfig 3 (1 * second) (60 * second) (f64_of_Z 3) true.
Definition NoRetryConfig : RetryConfig :=
  mkRetryConfig 1 0 0 f64_one false.

(** [IsRetryable]: a type assertion, so only the outermost error counts. *)
Definition IsRetryable (err : option goerror) : bool :=
  match err with
  | Some (ProviderError t _ _ retryable) => ProviderError_IsRetryable t retryable
  | _ => false
  end.

Section Retry.

(** What the conversion of a float outside of [int64] gives is left to the
    implementation of the language. *)
Context (int64_of_wild : spec_float -> Z).

(** [time.Duration(f)]. *)
Definition Duration (f : spec_float) : duration :=
  match f64_trunc f with
  | Some z => if (- 2 ^ 63 <=? z) && (z <? 2 ^ 63) then z else int64_of_wild f
  | None => int64_of_wild f
  end.

(** [calculateDelay], given the random number. *)
Definition delay_for (config : RetryConfig) (attempt : Z) (rand : spec_float) : duration :=
  let delay := f64_mul (f64_of_Z (BaseDelay config)) (math_Pow (Multiplier config) attempt) in
  let delay := if MaxDelay config <? Duration delay then f64_of_Z (MaxDelay config) else delay in
  let delay := if Jitter config
               then f64_add delay (f64_mul (f64_mul delay f64_tenth) rand)
               else delay in
  Duration delay.

Definition calculateDelay (config : RetryConfig) (attempt : Z) : CM duration :=
  if Jitter config then
    r ← trigger (E := cb_call) (R := cb_answer) Random;
    Ret (delay_for config attempt r)
  else Ret (delay_for config attempt (S754_zero false)).

(** A function that can be retried, with the state it shares with its caller. *)
Definition RetryFunc (S : Type) : Type := Z -> S -> CM (option goerror * S).

(** The loop of [Retry]; [remaining] is [config.MaxAttempts - attempt]. *)
Fixpoint retry_loop {S} (config : RetryConfig) (fn : RetryFunc S) (remaining : nat) (attempt : Z)
    (lastErr : option goerror) (s : S) : CM (option goerror * S) :=
  match remaining with
  | O => Ret (lastErr, s)
  | Datatypes.S remaining' =>
      r ← fn attempt s;
      let '(err, s) := r in
      match err with
      | None => Ret (None, s)
      | Some e =>
          if negb (IsRetryable (Some e)) then Ret (Some e, s)
          else if attempt =? MaxAttempts config - 1 then Ret (Some e, s)
          else
            delay ← calculateDelay config attempt;
            w ← trigger (E := cb_call) (R := cb_answer) (Wait delay);
            match w with
            | Some ctxErr => Ret (Some ctxErr, s)
            | None => retry_loop config fn remaining' (attempt + 1) (Some e) s
            end
      end
  end.

Definition Retry {S} (config : option RetryConfig) (fn : RetryFunc S) (s : S)
    : CM (option goerror * S) :=
  let config := deref DefaultRetryConfig config in
  retry_loop config fn (Z.to_nat (MaxAttempts config)) 0 None s.

(** ** RetryableCall and Policy *)
Record RetryableCall := mkRetryableCall { rc_config : RetryConfig; rc_name : string }.

Definition NewRetryableCall (name : string) (config : option RetryConfig) : RetryableCall :=
  mkRetryableCall (deref DefaultRetryConfig config) name.

Definition Execute {S} (rc : RetryableCall) (fn : RetryFunc S) (s : S) : CM (option goerror * S) :=
  Retry (Some (rc_config rc)) fn s.

(** Every attempt goes through the breaker, whose state is threaded. *)
Definition ExecuteWithCircuitBreaker (rc : RetryableCall) (circuitBreaker : CircuitBreaker)
    : CM (option goerror * CircuitBreaker) :=
  Execute rc (fun _ cb => Call cb) circuitBreaker.

Record Policy := mkPolicy {
  retryConfig : RetryConfig;
  circuitBreaker : option CircuitBreaker;
  policy_name : string
}.
#[export] Instance Policy_eta : Eta Policy := fun r =>
  mkPolicy (retryConfig r) (circuitBreaker r) (policy_name r).

Definition NewPolicy (name : string) (config : option RetryConfig) (cb : option CircuitBreaker)
    : Policy := mkPolicy (deref DefaultRetryConfig config) cb name.

(** The protected function, without a breaker. *)
Definition invoke_plain {S} : RetryFunc S := fun _ s =>
  err ← trigger (E := cb_call) (R := cb_answer) Invoke; Ret (err, s).

Definition Policy_Execute (p : Policy) : CM (option goerror * Policy) :=
  let retryableCall := NewRetryableCall (policy_name p) (Some (retryConfig p)) in
  match circuitBreaker p with
  | Some cb =>
      r ← ExecuteWithCircuitBreaker retryableCall cb;
      Ret (r.1, p <| circuitBreaker := Some r.2 |>)
  | None => Execute retryableCall invoke_plain p
  end.

Record PolicyBuilder := mkPolicyBuilder {
  pb_name : string; pb_retryConfig : option RetryConfig; pb_circuitBreaker : option CircuitBreaker
}.
#[export] Instance PolicyBuilder_eta : Eta PolicyBuilder := fun r =>
  mkPolicyBuilder (pb_name r) (pb_retryConfig r) (pb_circuitBreaker r).

Definition NewPolicyBuilder (name : string) : PolicyBuilder := mkPolicyBuilder name None None.
Definition WithRetry (pb : PolicyBuilder) (config : option RetryConfig) : PolicyBuilder :=
  pb <| pb_retryConfig := config |>.
Definition WithCircuitBreaker (pb : PolicyBuilder) (cb : option CircuitBreaker) : PolicyBuilder :=
  pb <| pb_circuitBreaker := cb |>.
Definition Build (pb : PolicyBuilder) : Policy :=
  NewPolicy (pb_name pb) (pb_retryConfig pb) (pb_circuitBreaker pb).
End Retry.
