(* ===== verification/RetryProps.v ===== *)
(** * RetryProps: the properties of retries *)
From S2P Require Import Prelude Contracts CircuitBreaker CircuitBreakerProps Retry.
From stdpp Require Import base gmap strings list.
From Stdlib Require Import ZArith Lia SpecFloat.
#[local] Open Scope Z_scope.

(** The attempts a run made, with their results. *)
Definition attempt_of (x : event cb_call cb_answer) : option (Z * option goerror) :=
  match projT1 x as c return cb_answer c -> option (Z * option goerror) with
  | InvokeAttempt a => fun r => Some (a, r)
  | _ => fun _ => None
  end (projT2 x).
Definition attempts (tr : list (event cb_call cb_answer)) : list (Z * option goerror) :=
  omap attempt_of tr.

Lemma attempts_app tr1 tr2 : attempts (tr1 ++ tr2) = attempts tr1 ++ attempts tr2.
Proof. apply omap_app. Qed.

(** The protected function itself, given the number of its attempt. *)
Definition plain : RetryFunc unit := fun attempt s =>
  err ← trigger (E := cb_call) (R := cb_answer) (InvokeAttempt attempt); Ret (err, s).

Lemma wp_plain a Q :
  (forall r, Q [ev (InvokeAttempt a) r] (Done (r, tt))) -> wp (plain a tt) Q.
Proof. intros HQ. unfold plain. wp_step. wp_step. cbn. apply HQ. Qed.

(** What a retry that starts at attempt [a] with [n] attempts left may do: the
    results of its attempts, and what it returns. *)
Inductive retry_spec (max : Z) : Z -> nat -> option goerror -> list (Z * option goerror) ->
    option goerror -> Prop :=
  | retry_exhausted a last : retry_spec max a 0 last [] last
  | retry_succeeded a n last : retry_spec max a (S n) last [(a, None)] None
  | retry_permanent a n last e :
      IsRetryable (Some e) = false -> retry_spec max a (S n) last [(a, Some e)] (Some e)
  | retry_last a n last e :
      IsRetryable (Some e) = true -> a = max - 1 ->
      retry_spec max a (S n) last [(a, Some e)] (Some e)
  | retry_cancelled a n last e ctxErr :
      IsRetryable (Some e) = true -> a <> max - 1 ->
      retry_spec max a (S n) last [(a, Some e)] (Some ctxErr)
  | retry_again a n last e rest res :
      IsRetryable (Some e) = true -> a <> max - 1 ->
      retry_spec max (a + 1) n (Some e) rest res ->
      retry_spec max a (S n) last ((a, Some e) :: rest) res.

Section Spec.
Context (int64_of_wild : spec_float -> Z).

Lemma retry_loop_spec config n a last :
  wp (retry_loop int64_of_wild config plain n a last tt) (fun tr o =>
    exists res, o = Done (res, tt) /\ retry_spec (MaxAttempts config) a n last (attempts tr) res).
Proof.
  revert a last. induction n as [|n IH]; intros a last; cbn [retry_loop].
  { cbn. eexists. split; [done|]. constructor. }
  apply wp_bind, wp_plain. intros r. cbn [bind_post wp]. destruct r as [e|]; cbn [app].
  2:{ cbn. eexists. split; [done|]. constructor. }
  destruct (IsRetryable (Some e)) eqn:He; cbn [negb].
  2:{ cbn. eexists. split; [done|]. by constructor. }
  destruct (Z.eqb_spec a (MaxAttempts config - 1)) as [Ha|Ha].
  { cbn. eexists. split; [done|]. by apply retry_last. }
  apply wp_bind. eapply wp_mono with (Q := fun tr o => attempts tr = [] /\ exists d, o = Done d).
  { unfold calculateDelay. destruct (Jitter config); wp_steps; cbn; eauto. }
  intros tr o [Htr [d ->]]. cbn [bind_post]. do 2 wp_step. cbn [bind_post].
  destruct r as [ctxErr|].
  - cbn [wp]. eexists. split; [done|]. rewrite app_nil_r. cbn [app].
    change (attempts (ev (InvokeAttempt a) (Some e) :: ?l)) with ((a, Some e) :: attempts l).
    rewrite attempts_app, Htr. by apply retry_cancelled.
  - eapply wp_mono; [apply IH|]. cbn beta. intros tr' o (res & -> & Hs). eexists. split; [done|].
    cbn [app]. change (attempts (ev (InvokeAttempt a) (Some e) :: ?l)) with ((a, Some e) :: attempts l).
    rewrite attempts_app, Htr. by apply retry_again.
Qed.
End Spec.

Lemma retry_spec_numbered max a n last l res :
  retry_spec max a n last l res ->
  (length l <= n)%nat /\ l.*1 = (fun i => a + Z.of_nat i) <$> seq 0 (length l).
Proof.
  induction 1 as [| | | | |a n last e rest res _ _ _ [IH1 IH2]]; cbn [length fmap list_fmap fst seq];
    try (split; [lia|try done; f_equal; lia]).
  split; [lia|]. rewrite IH2. f_equal; [lia|].
  rewrite <- fmap_S_seq, <- list_fmap_compose. apply list_fmap_ext. intros i x _. cbn. lia.
Qed.

(** How the attempts of a retry end. *)
Lemma retry_spec_ends max a n last l res :
  retry_spec max a n last l res ->
  (l = [] /\ n = 0%nat /\ res = last)
  \/ exists before e, l = before ++ [(a + Z.of_nat (length before), e)]
       /\ Forall (fun x => IsRetryable x.2 = true) before
       /\ (res = e /\ (IsRetryable e = false \/ a + Z.of_nat (length l) = max \/ length l = n)
           \/ IsRetryable e = true /\ res <> None).
Proof.
  induction 1 as [a last|a n last|a n last e He|a n last e He Ha|a n last e c He Ha
                 |a n last e rest res He Ha Hs IH].
  - by left.
  - right. exists [], None. cbn. split_and!; [by rewrite Z.add_0_r|constructor|by auto].
  - right. exists [], (Some e). cbn. split_and!; [by rewrite Z.add_0_r|constructor|by auto].
  - right. exists [], (Some e). cbn. split_and!; [by rewrite Z.add_0_r|constructor|].
    left. split; [done|]. right. left. lia.
  - right. exists [], (Some e). cbn. split_and!; [by rewrite Z.add_0_r|constructor|]. by right.
  - right. destruct IH as [(-> & -> & ->)|(before & e' & -> & Hb & Hres)].
    + exists [], (Some e). cbn. split_and!; [by rewrite Z.add_0_r|constructor|]. by auto.
    + exists ((a, Some e) :: before), e'. split_and!.
      * cbn [app length]. by replace (a + Z.of_nat (S (length before)))
          with (a + 1 + Z.of_nat (length before)) by lia.
      * by constructor.
      * destruct Hres as [(-> & Hc)|Hc]; [left; split; [done|]|by right].
        destruct Hc as [Hc|[Hc|Hc]]; [by left|right; left|right; right]; revert Hc;
          rewrite ?length_app; cbn [app length]; rewrite ?length_app; cbn [length]; lia.
Qed.

(** [Retry] with a positive limit calls its function at least once and at
    most the limit, numbering the attempts 0, 1, 2, ... without gaps; it goes on
    only after an error that is retryable; and it returns the result of its last
    attempt, a success, a permanent error or the error of the last attempt
    allowed, unless the context ended the wait after a retryable error. *)
Theorem retry_is_bounded int64_of_wild config :
  0 < MaxAttempts config ->
  wp (Retry int64_of_wild (Some config) plain tt) (fun tr o =>
    exists before e res,
      o = Done (res, tt)
      /\ attempts tr = before ++ [(Z.of_nat (length before), e)]
      /\ (attempts tr).*1 = Z.of_nat <$> seq 0 (length (attempts tr))
      /\ Z.of_nat (length (attempts tr)) <= MaxAttempts config
      /\ Forall (fun x => IsRetryable x.2 = true) before
      /\ (res = e /\ (IsRetryable e = false \/ Z.of_nat (length (attempts tr)) = MaxAttempts config)
          \/ IsRetryable e = true /\ res <> None)).
Proof.
  intros Hm. eapply wp_mono; [apply retry_loop_spec|]. cbn [deref]. intros tr o (res & -> & Hs).
  destruct (retry_spec_numbered _ _ _ _ _ _ Hs) as [Hlen Hnum].
  destruct (retry_spec_ends _ _ _ _ _ _ Hs) as [(_ & Hn & _)|(before & e & Hl & Hb & Hres)]; [lia|].
  exists before, e, res. split_and!; [done|by rewrite Hl|by rewrite Hnum|lia|done|].
  destruct Hres as [(-> & Hc)|Hc]; [left; split; [done|]|by right].
  destruct Hc as [Hc|[Hc|Hc]]; [by left|right; lia..].
Qed.

(** A function that fails twice, then works. *)
Definition flaky (c : cb_call) (w : nat) : cb_answer c * nat :=
  match c return cb_answer c * nat with
  | Clock => (0, w)
  | Invoke => (None, w)
  | InvokeAttempt _ => match w with O => (None, w) | S w' => (Some outage, w') end
  | Random => (S754_zero false, w)
  | Wait _ => (None, w)
  end.

(** With a limit that is not positive, [Retry] reports success without
    having called its function. *)
Theorem retry_without_attempts_succeeds int64_of_wild {S} config (fn : RetryFunc S) s :
  MaxAttempts config <= 0 -> Retry int64_of_wild (Some config) fn s = Ret (None, s).
Proof. intros Hm. unfold Retry. cbn [deref]. by replace (Z.to_nat (MaxAttempts config)) with 0%nat by lia. Qed.

(** ** Delays *)
Definition schedule (wild : spec_float -> Z) (config : RetryConfig) (r : spec_float) : list Z :=
  (fun i => delay_for wild config (Z.of_nat i) r) <$> seq 0 (Z.to_nat (MaxAttempts config) - 1).

(** The largest float below one. *)
Definition f64_almost_one : spec_float := S754_finite false (2 ^ 53 - 1) (-53).

(** The waits of the predefined configurations, in nanoseconds: without
    jitter they grow by the multiplier from the base delay and never pass the
    maximum delay; at the largest jitter each is at most ten percent longer.
    They do not depend on how the implementation converts floats that are out of
    range. *)
Theorem preset_schedules wild :
  schedule wild DefaultRetryConfig (S754_zero false)
    = [500 * millisecond; 1 * second; 2 * second; 4 * second]
  /\ schedule wild ConservativeRetryConfig (S754_zero false) = [1 * second; 3 * second]
  /\ schedule wild AggressiveRetryConfig (S754_zero false)
    = [100000000; 150000000; 225000000; 337500000; 506250000; 759375000; 1139062500; 1708593750;
       2562890625]
  /\ schedule wild NoRetryConfig (S754_zero false) = []
  /\ Forall (fun c => Forall2 (fun d d' => d <= d' /\ 10 * d' <= 11 * d + 10 /\ d <= MaxDelay c)
                (schedule wild c (S754_zero false)) (schedule wild c f64_almost_one))
       [DefaultRetryConfig; ConservativeRetryConfig; AggressiveRetryConfig].
Proof.
  split_and!; [vm_compute; reflexivity..|].
  eapply bool_decide_eq_true_1. vm_compute. reflexivity.
Qed.

(** The cap on the delay is lost once the uncapped delay no longer fits
    [int64]: where the conversion of such a float gives a value not above the
    maximum delay (on amd64 it is the least [int64]), attempt 35 of the default
    configuration waits for that value instead of the maximum delay. *)
Theorem backoff_cap_is_lost_on_overflow wild :
  wild (f64_of_Z (500 * millisecond * 2 ^ 35)) <= MaxDelay DefaultRetryConfig ->
  delay_for wild (mkRetryConfig 50 (500 * millisecond) (30 * second) (f64_of_Z 2) false) 34
      (S754_zero false) = 30 * second
  /\ delay_for wild (mkRetryConfig 50 (500 * millisecond) (30 * second) (f64_of_Z 2) false) 35
      (S754_zero false) = wild (f64_of_Z (500 * millisecond * 2 ^ 35)).
Proof.
  intros Hw. split; [vm_compute; reflexivity|].
  assert (f64_mul (f64_of_Z (500 * millisecond)) (math_Pow (f64_of_Z 2) 35)
          = f64_of_Z (500 * millisecond * 2 ^ 35)) as He by (vm_compute; reflexivity).
  assert (Duration wild (f64_of_Z (500 * millisecond * 2 ^ 35))
          = wild (f64_of_Z (500 * millisecond * 2 ^ 35))) as Hd by (vm_compute; reflexivity).
  unfold delay_for. cbn [BaseDelay Multiplier MaxDelay Jitter]. cbv zeta.
  rewrite He, Hd. change (MaxDelay DefaultRetryConfig) with (30 * second) in Hw.
  assert (_ <? _ = false) as -> by (apply Z.ltb_ge; exact Hw). exact Hd.
Qed.

(** ** Policies *)
Definition clock_of (x : event cb_call cb_answer) : option time :=
  match projT1 x as c return cb_answer c -> option time with
  | Clock => fun r => Some r
  | _ => fun _ => None
  end (projT2 x).
Definition clocks (tr : list (event cb_call cb_answer)) : list time := omap clock_of tr.

Lemma clocks_app tr1 tr2 : clocks (tr1 ++ tr2) = clocks tr1 ++ clocks tr2.
Proof. apply omap_app. Qed.
Lemma invocations_app tr1 tr2 : invocations (tr1 ++ tr2) = invocations tr1 ++ invocations tr2.
Proof. apply omap_app. Qed.

(** Every instant read lies in the open period of [cb]. *)
Definition within (cb : CircuitBreaker) (tr : list (event cb_call cb_answer)) : Prop :=
  forall t', t' ∈ clocks tr -> still_open t' cb = true.

Lemma within_app cb tr1 tr2 : within cb (tr1 ++ tr2) -> within cb tr1 /\ within cb tr2.
Proof.
  unfold within. rewrite clocks_app. intros Hw.
  split; intros t' Ht; apply Hw, elem_of_app; auto.
Qed.

Lemma open_call cb :
  state cb = StateOpen ->
  wp (Call cb) (fun tr o => within cb tr -> invocations tr = [] /\ o = Done (Some (rejected cb), cb)).
Proof.
  intros Ho. unfold Call. apply wp_bind. unfold CallWith. do 2 wp_step. cbn [bind_post].
  unfold allowCall. rewrite Ho.
  destruct (still_open r cb) eqn:Hs; cbn [negb].
  { by wp_steps. }
  destruct (admit_half_open _) as [a cb'].
  destruct a; wp_steps; intros Hw; specialize (Hw r ltac:(by left)); congruence.
Qed.

Lemma open_loop wild config n a last cb :
  state cb = StateOpen -> (n <> 0%nat \/ last <> None) ->
  wp (retry_loop wild config (fun _ cb => Call cb) n a last cb) (fun tr o =>
    within cb tr -> invocations tr = [] /\ exists e, o = Done (Some e, cb)).
Proof.
  intros Ho. revert a last. induction n as [|n IH]; intros a last Hl; cbn [retry_loop].
  { cbn. intros _. split; [done|]. destruct last as [e|]; [by eexists|by destruct Hl]. }
  wp_use open_call; [done|]. intros tr o Hc.
  destruct o as [[err cb']|w]; cbn [bind_post].
  2:{ intros Hw. by destruct (Hc Hw) as [_ [=]]. }
  set (rest := match err with Some e => _ | None => _ end).
  assert (err = Some (rejected cb) -> cb' = cb -> wp rest (fun tr' o => within cb tr' ->
    invocations tr' = [] /\ exists e, o = Done (Some e, cb))) as Hrest.
  { intros -> ->. unfold rest. cbn [IsRetryable rejected NewUnavailableError].
    destruct (negb _); [cbn; by eauto|]. destruct (a =? _); [cbn; by eauto|].
    apply wp_bind. eapply wp_mono with (Q := fun tr o => invocations tr = [] /\ exists d, o = Done d).
    { unfold calculateDelay. destruct (Jitter config); wp_steps; cbn; eauto. }
    intros tr1 o [Htr1 [d ->]]. cbn [bind_post]. do 2 wp_step. cbn [bind_post].
    destruct r as [c|].
    - cbn [wp]. intros _. rewrite !invocations_app, Htr1. cbn. by eauto.
    - eapply wp_mono; [apply IH; by right|]. cbn beta. intros tr2 o Hi Hw.
      apply within_app in Hw as [_ Hw]. cbn [app] in *.
      destruct (Hi ltac:(intros t' Ht; apply Hw; exact Ht)) as [Hi1 Hi2].
      rewrite invocations_app, Htr1. split; [exact Hi1|done]. }
  apply wp_runs. intros tr' o Hr Hw. apply within_app in Hw as [Hw1 Hw2].
  destruct (Hc Hw1) as [Hi [= -> ->]]. rewrite invocations_app, Hi.
  exact (proj1 (wp_runs _ _) (Hrest eq_refl eq_refl) tr' o Hr Hw2).
Qed.

(** A policy whose breaker is open never runs the protected function: as
    long as every reading of the clock falls in the breaker's open period, all the
    attempts of the retry are rejected, the policy returns an error, and the
    breaker is as it was. *)
Theorem open_policy_never_invokes wild p cb :
  circuitBreaker p = Some cb -> state cb = StateOpen -> 0 < MaxAttempts (retryConfig p) ->
  wp (Policy_Execute wild p) (fun tr o =>
    within cb tr -> invocations tr = [] /\ exists e p', o = Done (Some e, p')
      /\ circuitBreaker p' = Some cb).
Proof.
  intros Hcb Ho Hm. unfold Policy_Execute. rewrite Hcb.
  unfold ExecuteWithCircuitBreaker, Execute, Retry, NewRetryableCall. cbn [deref rc_config].
  wp_use open_loop; [done|left; lia|]. intros tr [[err cb']|w] Hi; cbn [bind_post].
  - cbn [wp]. rewrite app_nil_r. intros Hw. destruct (Hi Hw) as [Hi1 [e [= -> ->]]].
    split; [done|]. do 2 eexists. by split.
  - intros Hw. by destruct (Hi Hw) as [_ [e [=]]].
Qed.

