(* ===== verification/GrpcClient.v ===== *)
(** * GrpcClient: the provider client of the manager

    Models [internal/transport/grpc/client.go]: the circuit-breaker
    interceptor every RPC goes through, the translation of gRPC errors, the
    tracking of outstanding tasks and the RPC methods the VirtualMachine
    controller calls.  The gRPC status library and the JSON codec are
    parameters. *)
From S2P Require Import Prelude Contracts CircuitBreaker.
From stdpp Require Import base gmap strings list.
From Stdlib Require Import ZArith Lia.
#[local] Open Scope Z_scope.
Import Contracts.

(** [google.golang.org/grpc/codes.Code]. *)
Inductive code :=
  | OK | Canceled | Unknown | InvalidArgument | DeadlineExceeded | NotFound | AlreadyExists
  | PermissionDenied | ResourceExhausted | FailedPrecondition | Aborted | OutOfRange
  | Unimplemented | Internal | Unavailable | DataLoss | Unauthenticated.
#[export] Instance code_eq_dec : EqDecision code.
Proof. solve_decision. Defined.

Class GrpcLibrary := {
  FromError : goerror -> option (code * string);  (* status.FromError, Code and Message *)
  Errorf : code -> string -> goerror;             (* status.Errorf *)
  marshal_class : VMClass -> res string;
  marshal_image : VMImage -> res string;
  marshal_networks : list NetworkAttachment -> res string;
  marshal_disks : list DiskSpec -> res string;
  marshal_placement : Placement -> res string;
  marshal_request : CreateRequest -> res string;
  parse_raw : string -> res (gmap string string)  (* json.Unmarshal, values printed by %v *)
}.

(** What is documented of the status library. *)
Class GrpcLibraryOk `{GrpcLibrary} : Prop := {
  from_errorf c m : c <> OK -> FromError (Errorf c m) = Some (c, m);
  errorf_not_provider c m : as_provider_error (Errorf c m) = None
}.

Section Errors.
Context `{GrpcLibrary}.

(** [status.Code]: OK for nil, Unknown for an error that is not a status. *)
Definition status_Code (err : option goerror) : code :=
  match err with
  | None => OK
  | Some e => match FromError e with Some (c, _) => c | None => Unknown end
  end.

Definition isInfraFailure (err : option goerror) : bool :=
  match err with
  | None => false
  | Some _ =>
      match status_Code err with
      | Unavailable | DeadlineExceeded | Internal | Unknown => true
      | _ => false
      end
  end.

Definition mapGRPCError (operation : string) (err : goerror) : goerror :=
  match FromError err with
  | None => EWrap (operation +:+ " failed") err
  | Some (c, msg) =>
      match c with
      | NotFound => NewNotFoundError (operation +:+ ": " +:+ msg) (Some err)
      | InvalidArgument => NewInvalidSpecError (operation +:+ ": " +:+ msg) (Some err)
      | Unavailable | DeadlineExceeded => NewRetryableError (operation +:+ ": " +:+ msg) (Some err)
      | _ => ENew (operation +:+ " failed: " +:+ msg)
      end
  end.

(** [providerCircuitBreakerInterceptor]: the invoker is the protected function;
    its error leaves the breaker out of band. *)
Definition providerCircuitBreakerInterceptor (cb : CircuitBreaker)
    : CM (option goerror * CircuitBreaker) :=
  r ← CallWith cb
        (invokerErr ← trigger (E := cb_call) (R := cb_answer) Invoke;
         Ret (if isInfraFailure invokerErr then invokerErr else None, invokerErr)) None;
  let '(cbErr, invokerErr, cb) := r in
  match cbErr, invokerErr with
  | Some e, None => Ret (Some (Errorf Unavailable ("circuit breaker open: " +:+ Error e)), cb)
  | _, _ => Ret (invokerErr, cb)
  end.
End Errors.

(** ** The client *)

(** [inflightTasks] is the set of tasks started and not seen done, [gauge_set]
    the value last pushed to the inflight gauge, [vm_ops] the operations counted,
    with their outcome; [tasks_on] says whether the task metrics are there. *)
Record Client := mkClient {
  tasks_on : bool;
  inflightTasks : gset string;
  gauge_set : Z;
  vm_ops : list (string * bool)
}.
#[export] Instance Client_eta : Eta Client := fun r =>
  mkClient (tasks_on r) (inflightTasks r) (gauge_set r) (vm_ops r).

(** The state [NewClient] builds. *)
Definition NewClient : Client := mkClient true ∅ 0 [].

Definition recordVMOp {A} (c : Client) (op : string) (r : res A) : Client :=
  c <| vm_ops := vm_ops c ++ [(op, is_ok r)] |>.

Definition push_gauge (c : Client) : Client :=
  c <| gauge_set := Z.of_nat (size (inflightTasks c)) |>.

Definition trackTaskStart (c : Client) (taskID : string) : Client :=
  if negb (tasks_on c) || is_empty taskID then c
  else if bool_decide (taskID ∈ inflightTasks c) then c
  else push_gauge (c <| inflightTasks := {[taskID]} ∪ inflightTasks c |>).

Definition trackTaskDone (c : Client) (taskID : string) : Client :=
  if negb (tasks_on c) || is_empty taskID then c
  else if negb (bool_decide (taskID ∈ inflightTasks c)) then c
  else push_gauge (c <| inflightTasks := inflightTasks c ∖ {[taskID]} |>).

(** ** Messages *)
Inductive wire_PowerOp :=
  | POWER_OP_UNSPECIFIED | POWER_OP_ON | POWER_OP_OFF | POWER_OP_REBOOT
  | POWER_OP_SHUTDOWN_GRACEFUL.

Record wire_CreateRequest := mkWireCreate {
  w_Name : string; w_ClassJson : string; w_ImageJson : string; w_NetworksJson : string;
  w_DisksJson : string; w_UserData : string; w_MetaData : string; w_PlacementJson : string;
  w_Tags : list string
}.

(** A message that carries an optional task reference. *)
Record wire_Task := mkWireTask { w_Id : string; w_Task : option string }.
Record wire_Describe := mkWireDescribe {
  w_Exists : bool; w_PowerState : string; w_Ips : list string; w_ConsoleUrl : string;
  w_ProviderRawJson : string
}.
Record wire_TaskStatus := mkWireTaskStatus { w_Done : bool; w_Error : string }.
Record wire_Validate := mkWireValidate { w_Ok : bool; w_Message : string }.
Record wire_ImagePrepare := mkWireImagePrepare {
  w_PreparedImageId : string; w_PreparedImagePath : string; w_PrepareTask : option string
}.

Inductive rpc :=
  | RpcValidate
  | RpcCreate (req : wire_CreateRequest)
  | RpcDelete (id : string)
  | RpcPower (id : string) (op : wire_PowerOp) (gracefulTimeoutSeconds : Z)
  | RpcReconfigure (id desiredJson : string)
  | RpcDescribe (id : string)
  | RpcTaskStatus (task : string)
  | RpcImagePrepare (imageJson targetName storageHint : string)
  | RpcSnapshotCreate (vmId nameHint description : string) (includeMemory : bool)
  | RpcSnapshotDelete (vmId snapshotId : string)
  | RpcSnapshotRevert (vmId snapshotId : string).

(** What an RPC answers.  The identifier of a [wire_Task] is the new machine or
    snapshot, and is empty for the RPCs that only return a task. *)
Definition reply (r : rpc) : Type :=
  match r with
  | RpcValidate => res wire_Validate
  | RpcDescribe _ => res wire_Describe
  | RpcTaskStatus _ => res wire_TaskStatus
  | RpcImagePrepare _ _ _ => res wire_ImagePrepare
  | _ => res wire_Task
  end.
Abbreviation RM := (prog rpc reply).
Abbreviation send := (trigger (E := rpc) (R := reply)).

Definition convertPowerOp (op : PowerOp) : wire_PowerOp :=
  match op with
  | PowerOpOn => POWER_OP_ON
  | PowerOpOff => POWER_OP_OFF
  | PowerOpReboot => POWER_OP_REBOOT
  | PowerOpShutdownGraceful => POWER_OP_SHUTDOWN_GRACEFUL
  end.

Section Client.
Context `{GrpcLibrary}.

(** A component is left out of the request when it cannot be encoded. *)
Definition or_empty (r : res string) : string := match r with Ok s => s | Err _ => "" end.

Definition convertCreateRequest (req : CreateRequest) : wire_CreateRequest :=
  mkWireCreate (req_Name req)
    (or_empty (marshal_class (req_Class req)))
    (or_empty (marshal_image (req_Image req)))
    (or_empty (marshal_networks (req_Networks req)))
    (or_empty (marshal_disks (req_Disks req)))
    (match req_UserData req with Some u => CloudInitData u | None => "" end)
    (match req_MetaData req with Some m => MetaDataYAML m | None => "" end)
    (match req_Placement req with Some p => or_empty (marshal_placement p) | None => "" end)
    (req_Tags req).

(** The task of a response: its reference, and the client that tracks it. *)
Definition task_of (c : Client) (task : option string) : string * Client :=
  match task with
  | Some id => (id, trackTaskStart c id)
  | None => ("", c)
  end.

(** The end of an RPC that returns just a task. *)
Definition task_reply (c : Client) (operation : string) (r : res wire_Task) : res string * Client :=
  match r with
  | Err err => (Err (mapGRPCError operation err), c)
  | Ok resp => let '(ref, c) := task_of c (w_Task resp) in (Ok ref, c)
  end.

Definition Validate (c : Client) : RM (res unit * Client) :=
  r ← send RpcValidate;
  match r with
  | Err err => Ret (Err (mapGRPCError "validate" err), c)
  | Ok resp =>
      if negb (w_Ok resp) then Ret (Err (ENew ("provider validation failed: " +:+ w_Message resp)), c)
      else Ret (Ok tt, c)
  end.

Definition Client_Create (c : Client) (req : CreateRequest) : RM (res CreateResponse * Client) :=
  r ← send (RpcCreate (convertCreateRequest req));
  let '(out, c) :=
    match r with
    | Err err => (Err (mapGRPCError "create" err), c)
    | Ok resp => let '(ref, c) := task_of c (w_Task resp) in (Ok (mkCreateResponse (w_Id resp) ref), c)
    end in
  Ret (out, recordVMOp c "Create" out).

Definition Client_Delete (c : Client) (id : string) : RM (res string * Client) :=
  r ← send (RpcDelete id);
  let '(out, c) := task_reply c "delete" r in
  Ret (out, recordVMOp c "Delete" out).

Definition Client_Power (c : Client) (id : string) (op : PowerOp) : RM (res string * Client) :=
  let timeout := if bool_decide (op = PowerOpShutdownGraceful) then 60 else 0 in
  r ← send (RpcPower id (convertPowerOp op) timeout);
  let '(out, c) := task_reply c "power" r in
  Ret (out, recordVMOp c "Power" out).

Definition Client_Reconfigure (c : Client) (id : string) (desired : CreateRequest)
    : RM (res string * Client) :=
  match marshal_request desired with
  | Err err =>
      let out := Err (EWrap "failed to marshal desired configuration" err) in
      Ret (out, recordVMOp c "Reconfigure" out)
  | Ok desiredJSON =>
      r ← send (RpcReconfigure id desiredJSON);
      let '(out, c) := task_reply c "reconfigure" r in
      Ret (out, recordVMOp c "Reconfigure" out)
  end.

Definition Client_Describe (c : Client) (id : string) : RM (res DescribeResponse * Client) :=
  r ← send (RpcDescribe id);
  let out :=
    match r with
    | Err err => Err (mapGRPCError "describe" err)
    | Ok resp =>
        let providerRaw :=
          if is_empty (w_ProviderRawJson resp) then ∅
          else match parse_raw (w_ProviderRawJson resp) with
               | Err err => {["parseError" := Error err]}
               | Ok m => m
               end in
        Ok (mkDescribeResponse (w_Exists resp) (w_PowerState resp) (w_Ips resp)
              (w_ConsoleUrl resp) providerRaw)
    end in
  Ret (out, recordVMOp c "Describe" out).

(** [IsTaskComplete]: a task that failed is done, and its failure is an error. *)
Definition IsTaskComplete (c : Client) (taskRef : string) : RM (bool * option goerror * Client) :=
  r ← send (RpcTaskStatus taskRef);
  match r with
  | Err err => Ret (false, Some (mapGRPCError "taskStatus" err), c)
  | Ok resp =>
      if negb (is_empty (w_Error resp)) then
        Ret (true, Some (ENew ("task failed: " +:+ w_Error resp)), trackTaskDone c taskRef)
      else
        let c := if w_Done resp then trackTaskDone c taskRef else c in
        Ret (w_Done resp, None, c)
  end.

Definition TaskStatus (c : Client) (taskRef : string) : RM (res wire_TaskStatus * Client) :=
  r ← send (RpcTaskStatus taskRef);
  match r with
  | Err err => Ret (Err (mapGRPCError "taskStatus" err), c)
  | Ok resp =>
      let c := if w_Done resp || negb (is_empty (w_Error resp)) then trackTaskDone c taskRef else c in
      Ret (Ok resp, c)
  end.

Definition PrepareImage (c : Client) (req : ImagePrepareRequest)
    : RM (res ImagePrepareResponse * Client) :=
  r ← send (RpcImagePrepare (ImageJSON req) (TargetName req) (StorageHint req));
  match r with
  | Err err => Ret (Err (mapGRPCError "image prepare" err), c)
  | Ok resp =>
      let '(ref, c) := task_of c (w_PrepareTask resp) in
      Ret (Ok (mkImagePrepareResponse ref (w_PreparedImageId resp) (w_PreparedImagePath resp)), c)
  end.

(** The snapshot's identifier and its task, if any. *)
Definition SnapshotCreate (c : Client) (vmId nameHint description : string) (includeMemory : bool)
    : RM (res (string * option string) * Client) :=
  r ← send (RpcSnapshotCreate vmId nameHint description includeMemory);
  match r with
  | Err err => Ret (Err (mapGRPCError "snapshotCreate" err), c)
  | Ok resp => Ret (Ok (w_Id resp, w_Task resp), (task_of c (w_Task resp)).2)
  end.

Definition SnapshotDelete (c : Client) (vmId snapshotId : string) : RM (res string * Client) :=
  r ← send (RpcSnapshotDelete vmId snapshotId);
  Ret (task_reply c "snapshotDelete" r).

Definition SnapshotRevert (c : Client) (vmId snapshotId : string) : RM (res string * Client) :=
  r ← send (RpcSnapshotRevert vmId snapshotId);
  Ret (task_reply c "snapshotRevert" r).
End Client.
