(* ===== verification/GrpcClientProps.v ===== *)
(** * GrpcClientProps: the properties of the provider client *)
From S2P Require Import Prelude Contracts CircuitBreaker CircuitBreakerProps Retry GrpcClient.
From stdpp Require Import base gmap strings list.
From Stdlib Require Import ZArith Lia SpecFloat.
#[local] Open Scope Z_scope.
Import Contracts.

(** ** An instance of the libraries *)
Module DemoGrpc.
Definition all_codes : list (string * code) :=
  [("Canceled", Canceled); ("Unknown", Unknown); ("InvalidArgument", InvalidArgument);
   ("DeadlineExceeded", DeadlineExceeded); ("NotFound", NotFound); ("AlreadyExists", AlreadyExists);
   ("PermissionDenied", PermissionDenied); ("ResourceExhausted", ResourceExhausted);
   ("FailedPrecondition", FailedPrecondition); ("Aborted", Aborted); ("OutOfRange", OutOfRange);
   ("Unimplemented", Unimplemented); ("Internal", Internal); ("Unavailable", Unavailable);
   ("DataLoss", DataLoss); ("Unauthenticated", Unauthenticated)].

Definition code_name (c : code) : string :=
  default "OK" (fst <$> List.find (fun p => bool_decide (p.2 = c)) all_codes).
Definition code_of (n : string) : option code :=
  snd <$> List.find (fun p => bool_decide (p.1 = n)) all_codes.

#[export] Instance grpc : GrpcLibrary := {|
  FromError e := match e with
                 | EWrap n (ENew m) => (fun c => (c, m)) <$> code_of n
                 | _ => None
                 end;
  Errorf c m := EWrap (code_name c) (ENew m);
  marshal_class _ := Ok "{}"; marshal_image _ := Ok "{}"; marshal_networks _ := Ok "[]";
  marshal_disks _ := Ok "[]"; marshal_placement _ := Ok "{}"; marshal_request _ := Ok "{}";
  parse_raw _ := Ok ∅
|}.

#[export] Instance grpc_ok : GrpcLibraryOk.
Proof. constructor; [by intros [] m|done]. Qed.
End DemoGrpc.

Section Props.
Context `{GrpcLibraryOk}.

(** ** Errors *)

(** The classification the controllers act on: an RPC error is seen as
    not-found exactly when its status code is NotFound, and as retryable exactly
    when the code is Unavailable or DeadlineExceeded; every other status reaches
    the controller as an error of no class. *)
Theorem grpc_errors_are_classified operation err c m :
  FromError err = Some (c, m) ->
  (IsNotFound (mapGRPCError operation err) = true <-> c = NotFound)
  /\ (IsRetryable (Some (mapGRPCError operation err)) = true <-> c = Unavailable \/ c = DeadlineExceeded)
  /\ (as_provider_error (mapGRPCError operation err) = Some ErrorTypeInvalidSpec <-> c = InvalidArgument).
Proof.
  intros Hc. unfold mapGRPCError. rewrite Hc. clear Hc. destruct c; vm_compute; intuition congruence.
Qed.

(** ** The breaker interceptor *)

(** The interceptor is transparent and classifies: when the breaker admits
    the RPC it is sent once and its error is returned unchanged, while the breaker
    records a failure only for an infrastructure error (Unavailable,
    DeadlineExceeded, Internal, Unknown) and a success for every other outcome;
    when the breaker rejects the RPC nothing is sent and the caller gets an error
    that the client maps to a retryable one. *)
Theorem interceptor_is_transparent cb operation :
  wp (providerCircuitBreakerInterceptor cb) (fun tr o =>
    exists t err cb', o = Done (err, cb')
    /\ ((allowCall t cb).1 = true /\ invocations tr = [err]
          /\ (exists t', cb' = recordResult t' (if isInfraFailure err then err else None)
                                 (allowCall t cb).2)
        \/ (allowCall t cb).1 = false /\ invocations tr = [] /\ cb' = (allowCall t cb).2
          /\ exists e, err = Some e /\ IsRetryable (Some (mapGRPCError operation e)) = true)).
Proof.
  unfold providerCircuitBreakerInterceptor. apply wp_bind. unfold CallWith. do 2 wp_step.
  cbn [bind_post]. destruct (allowCall r cb) as [[|] cb1] eqn:Ha; cbn [negb].
  - do 5 wp_step. cbn [bind_post wp]. do 2 wp_step. cbn [bind_post wp].
    destruct r0 as [e|]; cbn [isInfraFailure].
    + destruct (match status_Code (Some e) with
                | Unavailable | DeadlineExceeded | Internal | Unknown => true
                | _ => false
                end) eqn:Hi; wp_steps; exists r, (Some e); eexists; (split; [done|]);
        left; rewrite Ha; (split; [done|]); (split; [done|]); eexists; cbn [isInfraFailure];
        rewrite Hi; done.
    + wp_steps. exists r, None. eexists. split; [done|]. left. rewrite Ha.
      split; [done|]. split; [done|]. by eexists.
  - wp_steps. exists r. do 2 eexists. split; [done|]. right. rewrite Ha.
    split_and!; [done|done|done|]. eexists. split; [done|].
    unfold mapGRPCError. by rewrite from_errorf.
Qed.

(** The statuses a poll returned. *)
Definition task_status (x : event rpc reply) : option wire_TaskStatus :=
  match projT1 x as r return reply r -> option wire_TaskStatus with
  | RpcTaskStatus _ => fun a => match a with Ok st => Some st | Err _ => None end
  | _ => fun _ => None
  end (projT2 x).
Definition task_statuses (tr : list (event rpc reply)) : list wire_TaskStatus := omap task_status tr.

(** ** Outstanding tasks *)
Inductive client_op :=
  | OpValidate
  | OpCreate (req : CreateRequest)
  | OpDelete (id : string)
  | OpPower (id : string) (op : PowerOp)
  | OpReconfigure (id : string) (desired : CreateRequest)
  | OpDescribe (id : string)
  | OpIsTaskComplete (ref : string)
  | OpTaskStatus (ref : string)
  | OpPrepareImage (req : ImagePrepareRequest)
  | OpSnapshotCreate (vmId nameHint description : string) (includeMemory : bool)
  | OpSnapshotDelete (vmId snapshotId : string)
  | OpSnapshotRevert (vmId snapshotId : string).

(** The client after an operation. *)
Definition perform (op : client_op) (c : Client) : RM Client :=
  match op with
  | OpValidate => r ← Validate c; Ret r.2
  | OpCreate req => r ← Client_Create c req; Ret r.2
  | OpDelete id => r ← Client_Delete c id; Ret r.2
  | OpPower id op => r ← Client_Power c id op; Ret r.2
  | OpReconfigure id desired => r ← Client_Reconfigure c id desired; Ret r.2
  | OpDescribe id => r ← Client_Describe c id; Ret r.2
  | OpIsTaskComplete ref => r ← IsTaskComplete c ref; Ret r.2
  | OpTaskStatus ref => r ← TaskStatus c ref; Ret r.2
  | OpPrepareImage req => r ← PrepareImage c req; Ret r.2
  | OpSnapshotCreate v n d m => r ← SnapshotCreate c v n d m; Ret r.2
  | OpSnapshotDelete v s => r ← SnapshotDelete c v s; Ret r.2
  | OpSnapshotRevert v s => r ← SnapshotRevert c v s; Ret r.2
  end.

Fixpoint perform_all (ops : list client_op) (c : Client) : RM Client :=
  match ops with
  | [] => Ret c
  | op :: ops' => c ← perform op c; perform_all ops' c
  end.

(** The tasks the exchanged messages leave outstanding: those a response
    started, less those a status reported done or failed. *)
Definition started (S : gset string) (task : option string) : gset string :=
  match task with
  | Some id => if is_empty id then S else {[id]} ∪ S
  | None => S
  end.

Definition task_effect (S : gset string) (x : event rpc reply) : gset string :=
  match projT1 x as r return reply r -> gset string with
  | RpcTaskStatus t => fun a =>
      match a with
      | Ok st => if w_Done st || negb (is_empty (w_Error st)) then S ∖ {[t]} else S
      | Err _ => S
      end
  | RpcValidate | RpcDescribe _ => fun _ => S
  | RpcImagePrepare _ _ _ => fun a => match a with Ok r => started S (w_PrepareTask r) | Err _ => S end
  | RpcCreate _ | RpcDelete _ | RpcPower _ _ _ | RpcReconfigure _ _ | RpcSnapshotCreate _ _ _ _
  | RpcSnapshotDelete _ _ | RpcSnapshotRevert _ _ =>
      fun a => match a with Ok r => started S (w_Task r) | Err _ => S end
  end (projT2 x).

Definition outstanding (S : gset string) (tr : list (event rpc reply)) : gset string :=
  foldl task_effect S tr.

(** A client whose gauge shows its set, which holds real task references. *)
Record client_ok (c : Client) : Prop := {
  client_on : tasks_on c = true;
  client_gauge : gauge_set c = Z.of_nat (size (inflightTasks c));
  client_named : "" ∉ inflightTasks c
}.

Lemma trackTaskStart_ok c task :
  client_ok c -> client_ok (task_of c task).2 /\ inflightTasks (task_of c task).2 = started (inflightTasks c) task.
Proof.
  intros [Hon Hg Hn]. destruct task as [id|]; cbn; [|done]. unfold trackTaskStart. rewrite Hon. cbn [negb orb].
  destruct (is_empty id) eqn:Hid; [done|]. case_bool_decide as Hin.
  - split; [done|]. set_solver.
  - split; [|done]. constructor; cbn; [done|done|]. apply is_empty_false in Hid. set_solver.
Qed.

Lemma trackTaskDone_ok c t :
  client_ok c -> client_ok (trackTaskDone c t) /\ inflightTasks (trackTaskDone c t) = inflightTasks c ∖ {[t]}.
Proof.
  intros [Hon Hg Hn]. unfold trackTaskDone. rewrite Hon. cbn [negb orb].
  destruct (is_empty t) eqn:Ht.
  { apply is_empty_true in Ht as ->. split; [done|]. set_solver. }
  case_bool_decide as Hin; cbn [negb]; [|split; [done|]; set_solver].
  split; [|done]. constructor; cbn; [done|done|]. set_solver.
Qed.

Lemma recordVMOp_ok {A} c op (r : res A) :
  client_ok c -> client_ok (recordVMOp c op r).
Proof. intros []. by constructor. Qed.

(** An operation leaves a sound client, with the tasks its messages leave. *)
Definition tracked (S : gset string) (tr : list (event rpc reply)) (o : outcome Client) : Prop :=
  exists c', o = Done c' /\ client_ok c' /\ inflightTasks c' = outstanding S tr.

Lemma task_reply_ok c operation (r : res wire_Task) :
  client_ok c ->
  client_ok (task_reply c operation r).2
  /\ inflightTasks (task_reply c operation r).2
     = match r with Ok w => started (inflightTasks c) (w_Task w) | Err _ => inflightTasks c end.
Proof.
  intros Hc. destruct r as [w|e]; [|done]. unfold task_reply.
  pose proof (trackTaskStart_ok c (w_Task w) Hc). by destruct (task_of c (w_Task w)).
Qed.

Lemma perform_tracked op c :
  client_ok c -> wp (perform op c) (tracked (inflightTasks c)).
Proof.
  intros Hc. unfold tracked.
  destruct op; cbn [perform]; unfold Validate, Client_Create, Client_Delete, Client_Power,
    Client_Reconfigure, Client_Describe, IsTaskComplete, TaskStatus, PrepareImage, SnapshotCreate,
    SnapshotDelete, SnapshotRevert.
  all: try destruct (marshal_request _).
  all: repeat (wp_step; cbn beta zeta); try (by eexists).
  all: cbn [app outstanding foldl task_effect projT1 projT2 ev].
  all: eexists; (split; [reflexivity|]); cbn [snd].
  all: repeat match goal with
         | Hp : task_reply ?c ?op ?r = (_, _) |- _ =>
             pose proof (task_reply_ok c op r Hc) as [? ?]; rewrite Hp in *; cbn [snd] in *; clear Hp
         | Hp : task_of ?c ?t = (_, _) |- _ =>
             pose proof (trackTaskStart_ok c t Hc) as [? ?]; rewrite Hp in *; cbn [snd] in *; clear Hp
         | |- context [trackTaskDone ?c ?t] =>
             lazymatch goal with
             | _ : client_ok (trackTaskDone c t) |- _ => fail
             | _ => pose proof (trackTaskDone_ok c t Hc) as [? ?]
             end
         | Heqb : is_empty _ = _ |- _ => rewrite Heqb in *
         end.
  all: try (split; [first [done|by apply recordVMOp_ok]|done]).
  - destruct r as [w|e]; [|by injection Heqp as <- <-; split; [apply recordVMOp_ok|]].
    pose proof (trackTaskStart_ok c (w_Task w) Hc) as [? ?].
    destruct (task_of c (w_Task w)). injection Heqp as <- <-. by split; [apply recordVMOp_ok|].
  - rewrite Heqb, orb_true_r. by split.
  - rewrite Heqb, orb_false_r. by destruct (w_Done t).
  - by destruct (w_Done t || _).
  - by apply trackTaskStart_ok.
  - by apply task_reply_ok.
  - by apply task_reply_ok.
Qed.

(** After any sequence of operations, with any replies of the provider,
    the client's set of tasks is exactly the set the exchanged messages leave
    outstanding (started by a response, not yet reported done or failed), and the
    inflight gauge shows its size; polling a finished or an unknown task again
    changes nothing. *)
Theorem client_tracks_outstanding_tasks ops c :
  client_ok c ->
  wp (perform_all ops c) (fun tr o =>
    exists c', o = Done c' /\ inflightTasks c' = outstanding (inflightTasks c) tr
      /\ gauge_set c' = Z.of_nat (size (outstanding (inflightTasks c) tr))).
Proof.
  revert c. induction ops as [|op ops IH]; intros c Hc; cbn [perform_all].
  { cbn. exists c. split_and!; [done|done|apply Hc]. }
  wp_use perform_tracked; [done|]. intros tr o (c1 & -> & Hc1 & Hi). cbn [bind_post].
  eapply wp_mono; [by apply IH|]. cbn beta. intros tr' o' (c' & -> & Hi' & Hg').
  exists c'. unfold outstanding in *. rewrite foldl_app, <- Hi. by split_and!.
Qed.

(** A task that failed is never reported complete to the controllers: every
    poll of it answers with an error, whatever its done flag says. *)
Theorem failed_task_is_an_error c ref :
  wp (IsTaskComplete c ref) (fun tr o =>
    forall st, task_statuses tr = [st] -> w_Error st <> "" ->
      exists c', o = Done (true, Some (ENew ("task failed: " +:+ w_Error st)), c')).
Proof.
  unfold IsTaskComplete. wp_step. wp_step. destruct r as [st|e]; cbn [bind_post].
  - destruct (is_empty (w_Error st)) eqn:He; cbn [negb wp]; intros st' [= <-] Hne; emptiness; [done|].
    by eexists.
  - by intros st'.
Qed.
End Props.

(** ** On concrete replies *)
Import DemoGrpc.

(** A provider that answers every request with the task [t-1], and then says it
    is done. *)
Definition obliging (r : rpc) (w : unit) : reply r * unit :=
  match r return reply r * unit with
  | RpcValidate => (Ok (mkWireValidate true ""), tt)
  | RpcDescribe _ => (Ok (mkWireDescribe true "On" [] "" ""), tt)
  | RpcTaskStatus _ => (Ok (mkWireTaskStatus true ""), tt)
  | RpcImagePrepare _ _ _ => (Ok (mkWireImagePrepare "" "" (Some "t-1")), tt)
  | RpcCreate _ | RpcDelete _ | RpcPower _ _ _ | RpcReconfigure _ _ | RpcSnapshotCreate _ _ _ _
  | RpcSnapshotDelete _ _ | RpcSnapshotRevert _ _ => (Ok (mkWireTask "vm-1" (Some "t-1")), tt)
  end.

Lemma NewClient_ok : client_ok NewClient.
Proof. constructor; [done|done|]. set_solver. Qed.

