(* ===== verification/Resolver.v ===== *)
(** * Resolver: from a Provider object to a client

    Models [internal/runtime/remote/resolver.go], with the transport set-up of
    [NewClient] and [buildTLSCredentials] in
    [internal/transport/grpc/client.go].  The cache of clients and the breaker
    registry are shared by every controller goroutine, so each critical section
    is one call of the resolver's programs: a statement about every answer holds
    under every interleaving, and [enact] says what a section does to the state.
    The X.509 parsers are parameters. *)
From S2P Require Import Prelude Contracts Api Effects CircuitBreaker GrpcClient.
From stdpp Require Import base gmap strings list.
From Stdlib Require Import ZArith.
Import v1beta1.
#[local] Open Scope Z_scope.

(** [crypto/tls] and [crypto/x509]. *)
Class X509 := {
  Certificate : Type;
  CertPool : Type;
  X509KeyPair : string -> string -> res Certificate;
  AppendCertsFromPEM : string -> option CertPool  (* to a new pool *)
}.

Definition tlsSecretKeyCert : string := "tls.crt".
Definition tlsSecretKeyKey : string := "tls.key".
Definition tlsSecretKeyCA : string := "ca.crt".

Definition ErrTLSBlockMissing : string :=
  "provider.spec.runtime.service.tls is unset; v0.3.7 requires an explicit TLS decision (see umbrella #156 / ADR-0003)".
Definition ErrTLSSecretRefMissing : string :=
  "provider.spec.runtime.service.tls.enabled=true requires a non-empty secretRef".

Definition circuitBreakerName : string := "rpc".

(** [tls.VersionTLS13]; the zero value leaves the minimum to the library. *)
Definition VersionTLS13 : Z := 0x0304.

Section Resolver.
Context `{X509} `{GrpcLibrary}.

Record tls_Config := mkTlsConfig {
  Certificates : list Certificate;
  RootCAs : option CertPool;
  MinVersion : Z;
  ServerName : string;
  InsecureSkipVerify : bool
}.

(** [grpcClient.TLSConfig]. *)
Record TLSConfig := mkTLSConfig {
  PrebuiltConfig : option tls_Config;
  CertFile : string; KeyFile : string; CAFile : string;
  Insecure : bool
}.

Inductive Credentials := InsecureCredentials | NewTLS (cfg : tls_Config).
Inductive Interceptor := MetricsInterceptor (providerType : string) | BreakerInterceptor (cb : loc).

(** A client, known by its connection, with the labels of its metrics. *)
Record ClientPtr := mkClientPtr {
  ptr_conn : nat; ptr_providerType : string; ptr_providerName : string
}.

Inductive rcall :=
  (* the critical sections on the shared maps *)
  | LoadClient (key : string)
  | DropClient (key : string) (c : ClientPtr)
  | StoreClient (key : string) (c : ClientPtr)
  | RegistryGetOrCreate (name providerType provider : string)
  (* connections *)
  | Dial (target : string) (creds : Credentials) (chain : list Interceptor)
  | CloseConn (c : ClientPtr)
  | OnConn (c : ClientPtr) (r : rpc)
  (* the API server and the file system *)
  | ReadSecret (key : NamespacedName)
  | LoadX509KeyPair (certFile keyFile : string)
  | ReadFile (file : string).

(** The registry answers nil when the resolver has none. *)
Definition ranswer (c : rcall) : Type :=
  match c with
  | LoadClient _ => option ClientPtr
  | DropClient _ _ | StoreClient _ _ | CloseConn _ => unit
  | RegistryGetOrCreate _ _ _ => option loc
  | Dial _ _ _ => res nat
  | OnConn _ r => reply r
  | ReadSecret _ => res Secret
  | LoadX509KeyPair _ _ => res Certificate
  | ReadFile _ => res string
  end.

Abbreviation RSM := (prog rcall ranswer).
Abbreviation rdo := (trigger (E := rcall) (R := ranswer)).

(** The RPCs of a client method, sent on its connection. *)
Fixpoint on_conn (c : ClientPtr) {A} (p : prog rpc reply A) : RSM A :=
  match p with
  | Ret a => Ret a
  | Crash w => Crash w
  | Vis r k => Vis (OnConn c r : rcall) (fun x : ranswer (OnConn c r) => on_conn c (k x))
  end.

(** ** NewClient *)
Definition buildTLSCredentials (config : TLSConfig) : RSM (res Credentials) :=
  match PrebuiltConfig config with
  | Some cfg => Ret (Ok (NewTLS cfg))
  | None =>
      if Insecure config then Ret (Ok (NewTLS (mkTlsConfig [] None 0 "" true)))
      else
        certs ← (if negb (is_empty (CertFile config)) && negb (is_empty (KeyFile config)) then
                   cert ← rdo (LoadX509KeyPair (CertFile config) (KeyFile config));
                   match cert with
                   | Err err => Ret (Err (EWrap "failed to load client certificate" err))
                   | Ok cert => Ret (Ok [cert])
                   end
                 else Ret (Ok []));
        match certs with
        | Err err => Ret (Err err)
        | Ok certs =>
            if negb (is_empty (CAFile config)) then
              caCert ← rdo (ReadFile (CAFile config));
              match caCert with
              | Err err => Ret (Err (EWrap "failed to read CA certificate" err))
              | Ok caCert =>
                  match AppendCertsFromPEM caCert with
                  | None => Ret (Err (ENew "failed to parse CA certificate"))
                  | Some pool => Ret (Ok (NewTLS (mkTlsConfig certs (Some pool) 0 "" false)))
                  end
              end
            else Ret (Ok (NewTLS (mkTlsConfig certs None 0 "" false)))
        end
  end.

Definition newClient (endpoint providerType providerName : string) (cb : option loc)
    (tlsConfig : option TLSConfig) : RSM (res ClientPtr) :=
  creds ← match tlsConfig with
          | Some config =>
              creds ← buildTLSCredentials config;
              match creds with
              | Err err => Ret (Err (EWrap "failed to build TLS credentials" err))
              | Ok creds => Ret (Ok creds)
              end
          | None => Ret (Ok InsecureCredentials)
          end;
  match creds with
  | Err err => Ret (Err err)
  | Ok creds =>
      let unaryInterceptors :=
        MetricsInterceptor providerType ::
        match cb with Some cb => [BreakerInterceptor cb] | None => [] end in
      conn ← rdo (Dial endpoint creds unaryInterceptors);
      match conn with
      | Err err => Ret (Err (EWrap ("failed to connect to provider at " +:+ endpoint) err))
      | Ok conn => Ret (Ok (mkClientPtr conn providerType providerName))
      end
  end.

(** [Client.Validate] over the client's connection.  It does not touch the
    client's task table. *)
Definition validateClient (c : ClientPtr) : RSM (res unit) :=
  r ← on_conn c (Validate NewClient);
  Ret r.1.

(** ** buildTLSConfig *)
Definition tls_block (p : Provider) : option ProviderTLSSpec :=
  rt ← provider_Runtime p; svc ← rts_Service rt; svc_TLS svc.

Definition provider_serverName (p : Provider) : string :=
  "virtrigaud-provider-" +:+ provider_Namespace p +:+ "-" +:+ provider_Name p +:+ "."
    +:+ provider_Namespace p +:+ ".svc.cluster.local".

(** A key of the Secret: its value unless it is absent or empty. *)
Definition secret_key (s : Secret) (k : string) : option string :=
  v ← secret_Data s !! k; if is_empty v then None else Some v.

Definition missing_keys (s : Secret) : list string :=
  List.filter (fun k => bool_decide (secret_key s k = None))
    [tlsSecretKeyCert; tlsSecretKeyKey; tlsSecretKeyCA].

(** What the Secret's three keys give; [missing] is printed by [%v]. *)
Definition tls_material (p : Provider) (where_ : string) (insecureSkipVerify : bool)
    (missing : list string) (certPEM keyPEM caPEM : option string) : res TLSConfig :=
  match certPEM, keyPEM, caPEM with
  | Some certPEM, Some keyPEM, Some caPEM =>
      match X509KeyPair certPEM keyPEM with
      | Err err => Err (EWrap ("parse client cert/key from TLS Secret " +:+ where_) err)
      | Ok cert =>
          match AppendCertsFromPEM caPEM with
          | None => Err (ENew ("parse ca.crt from TLS Secret " +:+ where_
                               +:+ ": no valid PEM certificates found"))
          | Some caPool =>
              Ok (mkTLSConfig
                    (Some (mkTlsConfig [cert] (Some caPool) VersionTLS13 (provider_serverName p)
                             insecureSkipVerify)) "" "" "" false)
          end
      end
  | _, _, _ =>
      Err (ENew ("TLS Secret " +:+ where_ +:+ " is missing required key(s): ["
                 +:+ String.concat " " missing +:+ "] (expected: tls.crt, tls.key, ca.crt)"))
  end.

(** [nil, nil] is [Ok None]: plaintext. *)
Definition buildTLSConfig (p : Provider) : RSM (res (option TLSConfig)) :=
  match tls_block p with
  | None => Ret (Err (ESentinel ErrTLSBlockMissing))
  | Some tlsSpec =>
      if negb (tls_Enabled tlsSpec) then Ret (Ok None)
      else
        match tls_SecretRef tlsSpec with
        | None => Ret (Err (ESentinel ErrTLSSecretRefMissing))
        | Some ref =>
            if is_empty (lref_Name ref) then Ret (Err (ESentinel ErrTLSSecretRefMissing))
            else
              let where_ := provider_Namespace p +:+ "/" +:+ lref_Name ref in
              secret ← rdo (ReadSecret (mkKey (provider_Namespace p) (lref_Name ref)));
              match secret with
              | Err err => Ret (Err (EWrap ("get TLS Secret " +:+ where_) err))
              | Ok secret =>
                  Ret match tls_material p where_ (tls_InsecureSkipVerify tlsSpec)
                              (missing_keys secret)
                              (secret_key secret tlsSecretKeyCert)
                              (secret_key secret tlsSecretKeyKey)
                              (secret_key secret tlsSecretKeyCA) with
                      | Err err => Err err
                      | Ok cfg => Ok (Some cfg)
                      end
              end
        end
  end.

(** ** getRemoteProvider *)
Definition client_cacheKey (p : Provider) : string :=
  provider_Namespace p +:+ "/" +:+ provider_Name p.

Definition createClient (p : Provider) (endpoint : string) : RSM (res ClientPtr) :=
  tlsConfig ← buildTLSConfig p;
  match tlsConfig with
  | Err err => Ret (Err (EWrap "failed to build TLS config" err))
  | Ok tlsConfig =>
      cb ← rdo (RegistryGetOrCreate circuitBreakerName (provider_Type p) (provider_Name p));
      client ← newClient endpoint (provider_Type p) (provider_Name p) cb tlsConfig;
      match client with
      | Err err => Ret (Err (EWrap "failed to create gRPC client" err))
      | Ok client =>
          v ← validateClient client;
          match v with
          | Err err =>
              _ ← rdo (CloseConn client);
              Ret (Err (EWrap "remote provider validation failed" err))
          | Ok _ =>
              _ ← rdo (StoreClient (client_cacheKey p) client);
              Ret (Ok client)
          end
      end
  end.

(** The part under way once the runtime is known to be ready. *)
Definition reuseOrCreate (p : Provider) (endpoint : string) : RSM (res ClientPtr) :=
  existing ← rdo (LoadClient (client_cacheKey p));
  match existing with
  | Some existingClient =>
      v ← validateClient existingClient;
      match v with
      | Err _ =>
          _ ← rdo (DropClient (client_cacheKey p) existingClient);
          createClient p endpoint
      | Ok _ => Ret (Ok existingClient)
      end
  | None => createClient p endpoint
  end.

Definition getRemoteProvider (p : Provider) : RSM (res ClientPtr) :=
  match ps_Runtime (provider_Status p) with
  | None => Ret (Err (ENew "remote provider runtime is not ready: no endpoint available"))
  | Some rt =>
      if is_empty (rt_Endpoint rt)
      then Ret (Err (ENew "remote provider runtime is not ready: no endpoint available"))
      else if negb (bool_decide (rt_Phase rt = "Running"))
      then Ret (Err (ENew ("remote provider runtime is not ready: phase=" +:+ rt_Phase rt)))
      else
        reuseOrCreate p (rt_Endpoint rt)
  end.

Definition GetProvider (p : Provider) : RSM (res ClientPtr) := getRemoteProvider p.

(** ** The resolver's state

    [dialled] are the connections made so far, [open_conns] those not closed;
    the breakers the registry points to live in [breaker_heap]. *)
Record RState := mkRState {
  clients : gmap string ClientPtr;
  cbRegistry : option Registry;
  breaker_heap : gmap nat CircuitBreaker;
  dialled : gset nat;
  open_conns : gset nat
}.
#[export] Instance RState_eta : Eta RState := fun s =>
  mkRState (clients s) (cbRegistry s) (breaker_heap s) (dialled s) (open_conns s).

Definition NewResolver (reg : option Registry) : RState := mkRState ∅ reg ∅ ∅ ∅.

Definition close_conn (c : ClientPtr) (s : RState) : RState :=
  s <| open_conns := open_conns s ∖ {[ptr_conn c]} |>.

(** [enact c r s s']: the section [c], run in [s], may answer [r] and leave
    [s'].  A new connection is one that was not made before; whatever is outside the
    resolver answers as it likes. *)
Definition enact (c : rcall) : ranswer c -> RState -> RState -> Prop :=
  match c return ranswer c -> RState -> RState -> Prop with
  | LoadClient key => fun r s s' => r = clients s !! key /\ s' = s
  | DropClient key c => fun _ s s' =>
      s' = close_conn c (s <| clients := delete key (clients s) |>)
  | StoreClient key c => fun _ s s' => s' = s <| clients := <[key := c]> (clients s) |>
  | RegistryGetOrCreate name pt p => fun r s s' =>
      match cbRegistry s with
      | None => r = None /\ s' = s
      | Some reg => exists counted,
          let '(l, reg', h') := GetOrCreate reg (breaker_heap s) name pt p counted in
          r = Some l /\ s' = s <| cbRegistry := Some reg' |> <| breaker_heap := h' |>
      end
  | Dial _ _ _ => fun r s s' =>
      match r with
      | Ok conn => conn ∉ dialled s
                   /\ s' = s <| dialled := {[conn]} ∪ dialled s |>
                             <| open_conns := {[conn]} ∪ open_conns s |>
      | Err _ => s' = s
      end
  | CloseConn c => fun _ s s' => s' = close_conn c s
  | _ => fun _ s s' => s' = s
  end.

(** A program that runs alone, with the calls it makes. *)
Fixpoint runs_alone {A} (p : RSM A) (s : RState) (tr : list (event rcall ranswer))
    (o : outcome A) (s' : RState) : Prop :=
  match p with
  | Ret a => tr = [] /\ o = Done a /\ s' = s
  | Crash w => tr = [] /\ o = Panicked w /\ s' = s
  | Vis c k => exists r s1 tr', tr = ev c r :: tr' /\ enact c r s s1 /\ runs_alone (k r) s1 tr' o s'
  end.

(** Goroutines that share the resolver: any of them makes the next step. *)
Inductive pool_step {A} : list (RSM A) * RState -> list (RSM A) * RState -> Prop :=
  | pool_step_intro ts i c k r s s' :
      ts !! i = Some (Vis c k) -> enact c r s s' ->
      pool_step (ts, s) (<[i := k r]> ts, s').

(** [CleanupClient] and [CleanupAllClients] hold the lock throughout. *)
Definition CleanupClient (p : Provider) (s : RState) : RState :=
  let s := match clients s !! client_cacheKey p with
           | Some c => close_conn c (s <| clients := delete (client_cacheKey p) (clients s) |>)
           | None => s
           end in
  match cbRegistry s with
  | Some reg => s <| cbRegistry := Some (Remove reg circuitBreakerName (provider_Type p) (provider_Name p)) |>
  | None => s
  end.

Definition CleanupAllClients (s : RState) : RState :=
  foldr (fun kc s => close_conn kc.2 (s <| clients := delete kc.1 (clients s) |>)) s
    (map_to_list (clients s)).

Definition IsRemoteProvider (p : Provider) : bool := true.

End Resolver.
