(* ===== verification/ResolverProps.v ===== *)
(** * ResolverProps: what the provider resolver guarantees

    Which connections are made and handed out, whatever the other goroutines
    do; that a resolver used by one goroutine at a time never loses track of a
    connection; and two ways in which resolvers shared by goroutines or by
    Providers of the same name fall short. *)
From S2P Require Import Prelude Contracts Api Effects CircuitBreaker CircuitBreakerProps GrpcClient GrpcClientProps Resolver.
From stdpp Require Import base gmap strings list relations.
From Stdlib Require Import ZArith Lia.
Import v1beta1.
#[local] Open Scope Z_scope.

Section Props.
Context `{X509} `{GrpcLibrary}.
Abbreviation rtrace := (list (event rcall ranswer)).

(** ** What every run guarantees *)

Definition runtime_ready (p : Provider) (endpoint : string) : Prop :=
  exists rt, ps_Runtime (provider_Status p) = Some rt /\ rt_Phase rt = "Running"
    /\ rt_Endpoint rt = endpoint /\ endpoint <> "".

(** The credentials the Provider's TLS block asks for: none at all only on an
    explicit opt-out, else TLS 1.3 with the material of the Secret that was read
    in the Provider's namespace. *)
Definition credentials_for (p : Provider) (tr : rtrace) (creds : Credentials) : Prop :=
  exists t, tls_block p = Some t /\
  if tls_Enabled t then
    exists ref secret certPEM keyPEM caPEM cert pool,
      tls_SecretRef t = Some ref
      /\ ev (ReadSecret (mkKey (provider_Namespace p) (lref_Name ref))) (Ok secret) ∈ tr
      /\ secret_Data secret !! tlsSecretKeyCert = Some certPEM
      /\ secret_Data secret !! tlsSecretKeyKey = Some keyPEM
      /\ secret_Data secret !! tlsSecretKeyCA = Some caPEM
      /\ X509KeyPair certPEM keyPEM = Ok cert /\ AppendCertsFromPEM caPEM = Some pool
      /\ creds = NewTLS (mkTlsConfig [cert] (Some pool) VersionTLS13 (provider_serverName p)
                           (tls_InsecureSkipVerify t))
  else creds = InsecureCredentials.

Definition validated (c : ClientPtr) (tr : rtrace) : Prop :=
  exists resp, w_Ok resp = true /\ ev (OnConn c RpcValidate) (Ok resp) ∈ tr.

(** A dial of the trace went to the endpoint with the right credentials. *)
Definition dials_ok (p : Provider) (endpoint : string) (tr : rtrace) : Prop :=
  forall target creds chain r, ev (Dial target creds chain) r ∈ tr ->
    target = endpoint /\ credentials_for p tr creds.

Lemma credentials_mono p tr tr' creds :
  (forall x, x ∈ tr -> x ∈ tr') -> credentials_for p tr creds -> credentials_for p tr' creds.
Proof.
  intros Hin (t & Ht & Hc). exists t. split; [done|]. destruct (tls_Enabled t); [|done].
  destruct Hc as (ref & sec & a & b & c & d & e & H1 & H2 & Hrest).
  exists ref, sec, a, b, c, d, e. split_and!; [done|by apply Hin|apply Hrest..].
Qed.

Lemma wp_validateClient c (Q : rtrace -> outcome (res unit) -> Prop) :
  (forall resp, w_Ok resp = true -> Q [ev (OnConn c RpcValidate) (Ok resp)] (Done (Ok tt))) ->
  (forall r err, Q [ev (OnConn c RpcValidate) r] (Done (Err err))) ->
  wp (validateClient c) Q.
Proof.
  intros Hok Herr. apply wp_bind. cbn. intros [resp|err]; cbn.
  - destruct (w_Ok resp) eqn:Hw; cbn; [by apply Hok|]. apply Herr.
  - apply Herr.
Qed.

Lemma secret_key_Some s k v : secret_key s k = Some v -> secret_Data s !! k = Some v /\ v <> "".
Proof.
  unfold secret_key. destruct (secret_Data s !! k) as [w|]; cbn; [|done].
  destruct (is_empty w) eqn:Hw; [done|]. intros [= ->]. emptiness. done.
Qed.

Lemma wp_buildTLSConfig p :
  wp (buildTLSConfig p) (fun tr o =>
    (forall t c ch r, ev (Dial t c ch) r ∉ tr)
    /\ match o with
       | Done (Ok None) => exists t, tls_block p = Some t /\ tls_Enabled t = false
       | Done (Ok (Some cfg)) => exists tc, PrebuiltConfig cfg = Some tc /\ credentials_for p tr (NewTLS tc)
       | Done (Err e) => tls_block p = None -> errors_Is e ErrTLSBlockMissing = true
       | Panicked _ => False
       end).
Proof.
  unfold buildTLSConfig. destruct (tls_block p) as [t|] eqn:Ht; cbn.
  2:{ split; [by intros ???? ?%not_elem_of_nil|done]. }
  assert (forall (x : event rcall ranswer), x ∉ []) as Hnil by (intros x; apply not_elem_of_nil).
  destruct (tls_Enabled t) eqn:Hen; cbn; [|by split; [|exists t]].
  destruct (tls_SecretRef t) as [ref|] eqn:Href; cbn; [|done].
  destruct (is_empty (lref_Name ref)); cbn; [done|].
  intros [secret|err]; cbn.
  2:{ split; [|done]. intros ???? [=]%list_elem_of_singleton. }
  split; [by intros ???? [=]%list_elem_of_singleton|].
  unfold tls_material.
  destruct (secret_key secret tlsSecretKeyCert) as [cert|] eqn:H1; [|done].
  destruct (secret_key secret tlsSecretKeyKey) as [key|] eqn:H2; [|done].
  destruct (secret_key secret tlsSecretKeyCA) as [ca|] eqn:H3; [|done].
  destruct (X509KeyPair cert key) as [pair|] eqn:H4; [|done].
  destruct (AppendCertsFromPEM ca) as [pool|] eqn:H5; [|done].
  apply secret_key_Some in H1, H2, H3. destruct_and!.
  eexists. split; [done|]. exists t. split; [done|]. rewrite Hen.
  exists ref, secret, cert, key, ca, pair, pool. split_and!; try done. by apply list_elem_of_singleton.
Qed.

(** A client made from what [buildTLSConfig] returned takes one dial. *)
Definition creds_of (cfg : option TLSConfig) : option Credentials :=
  match cfg with None => Some InsecureCredentials | Some c => NewTLS <$> PrebuiltConfig c end.

Lemma wp_newClient endpoint pt name cb cfg creds (Q : rtrace -> outcome (res ClientPtr) -> Prop) :
  creds_of cfg = Some creds ->
  (let chain := MetricsInterceptor pt :: match cb with Some cb => [BreakerInterceptor cb] | None => [] end in
   (forall conn, Q [ev (Dial endpoint creds chain) (Ok conn)] (Done (Ok (mkClientPtr conn pt name))))
   /\ (forall err, Q [ev (Dial endpoint creds chain) (Err err)]
                     (Done (Err (EWrap ("failed to connect to provider at " +:+ endpoint) err))))) ->
  wp (newClient endpoint pt name cb cfg) Q.
Proof.
  intros Hc [Hok Herr]. unfold newClient.
  destruct cfg as [c|]; cbn in Hc; [|injection Hc as <-; cbn; intros [conn|err]; [apply Hok|apply Herr]].
  unfold buildTLSCredentials. destruct (PrebuiltConfig c) as [tc|]; [|done]. injection Hc as <-.
  cbn. intros [conn|err]; [apply Hok|apply Herr].
Qed.

(** The promise of one resolution, on every run of it. *)
Definition resolution_ok (p : Provider) (endpoint : string) (tr : rtrace)
    (o : outcome (res ClientPtr)) : Prop :=
  dials_ok p endpoint tr
  /\ match o with
     | Done (Ok c) =>
         validated c tr
         /\ (ev (LoadClient (client_cacheKey p)) (Some c) ∈ tr
             \/ exists creds chain, ev (Dial endpoint creds chain) (Ok (ptr_conn c)) ∈ tr
                /\ ev (StoreClient (client_cacheKey p) c) tt ∈ tr)
     | Done (Err e) => tls_block p = None -> errors_Is e ErrTLSBlockMissing = true
     | Panicked _ => False
     end.

(** Calls made before, none of them a dial, keep the promise. *)
Lemma resolution_ok_app p endpoint tr tr' o :
  (forall t c ch r, ev (Dial t c ch) r ∉ tr) ->
  resolution_ok p endpoint tr' o -> resolution_ok p endpoint (tr ++ tr') o.
Proof.
  intros Hno [Hd Ho].
  assert (forall x, x ∈ tr' -> x ∈ tr ++ tr') as Hin by (intros x Hx; apply elem_of_app; by right).
  split.
  - intros t c ch r [Hx|Hx]%elem_of_app; [by apply Hno in Hx|].
    destruct (Hd t c ch r Hx) as [-> Hc]. split; [done|]. by eapply credentials_mono.
  - destruct o as [[c|e]|w]; [|done|done]. destruct Ho as [(resp & Hw & Hv) Hc]. split.
    + exists resp. eauto.
    + destruct Hc as [Hc|(creds & chain & H1 & H2)]; [left; eauto|right; eauto 6].
Qed.

Lemma validateClient_no_dial c :
  wp (validateClient c) (fun tr _ => forall t k ch r, ev (Dial t k ch) r ∉ tr).
Proof.
  apply wp_validateClient; intros; by intros [=]%list_elem_of_singleton.
Qed.

Lemma wp_createClient p endpoint :
  wp (createClient p endpoint) (resolution_ok p endpoint).
Proof.
  unfold createClient. wp_use (wp_buildTLSConfig p). intros tr [[cfg|e]|w] [Hno Ho]; cbn [bind_post]; [|split|done].
  2:{ rewrite app_nil_r. intros t c ch r Hx. by apply Hno in Hx. }
  2:{ done. }
  wp_step. wp_step. rename r into cb. cbn [bind_post].
  assert (exists creds, creds_of cfg = Some creds /\ credentials_for p tr creds) as (creds & Hcr & Hcf).
  { destruct cfg as [cfg|].
    - destruct Ho as (tc & Htc & Hc). exists (NewTLS tc). cbn. by rewrite Htc.
    - exists InsecureCredentials. split; [done|]. destruct Ho as (t & Ht & He). exists t. by rewrite He. }
  apply wp_bind, (wp_newClient _ _ _ _ _ creds); [done|]. cbn zeta.
  set (chain := MetricsInterceptor _ :: _).
  assert (forall r tr', (forall t c ch r, ev (Dial t c ch) r ∉ tr') ->
            dials_ok p endpoint (tr ++ ev (RegistryGetOrCreate circuitBreakerName (provider_Type p) (provider_Name p)) cb
                                  :: ev (Dial endpoint creds chain) r :: tr')) as Hdial.
  { intros r tr' Hno' t c ch r' [Hx|[Hx|[Hx|Hx]%elem_of_cons]%elem_of_cons]%elem_of_app;
      [by apply Hno in Hx|discriminate Hx| |by apply Hno' in Hx].
    injection Hx as -> -> _ _. split; [done|]. eapply credentials_mono; [|done].
    intros x Hx. apply elem_of_app. by left. }
  split; [intros conn|intros err]; cbn [bind_post].
  2:{ split; [apply (Hdial (Err err)); intros; apply not_elem_of_nil|].
      destruct Hcf as (t & Ht & _). congruence. }
  apply wp_bind, wp_validateClient; [intros resp Hw|intros r err]; cbn; intros []; cbn.
  - split; [apply (Hdial (Ok conn)); intros; set_solver|].
    split; [exists resp; split; [done|]; set_solver|]. right. exists creds, chain. cbn. set_solver.
  - split; [apply (Hdial (Ok conn)); intros; set_solver|].
    destruct Hcf as (t & Ht & _). congruence.
Qed.

(** A resolution either finds the runtime ready or does nothing. *)
Lemma GetProvider_cases p :
  (exists endpoint, runtime_ready p endpoint /\ GetProvider p = reuseOrCreate p endpoint)
  \/ ((forall endpoint, ~ runtime_ready p endpoint) /\ exists e, GetProvider p = Ret (Err e)).
Proof.
  unfold GetProvider, getRemoteProvider, runtime_ready.
  destruct (ps_Runtime (provider_Status p)) as [rt|] eqn:Hrt; [|right; split; [naive_solver|eauto]].
  destruct (is_empty (rt_Endpoint rt)) eqn:Hep; emptiness; [right; split; [naive_solver|eauto]|].
  case_bool_decide as Hph; cbn [negb]; [left; eauto 7|right; split; [naive_solver|eauto]].
Qed.

Lemma wp_reuseOrCreate p endpoint :
  wp (reuseOrCreate p endpoint) (resolution_ok p endpoint).
Proof.
  unfold reuseOrCreate.
  wp_step. wp_step. cbn [bind_post]. destruct r as [c|].
  2:{ wp_use wp_createClient. intros tr o Hr. apply (resolution_ok_app _ _ [_]); [|done]. set_solver. }
  wp_step. apply wp_validateClient; [intros resp Hw|intros r err]; cbn [bind_post].
  - cbn. split; [intros ????; set_solver|]. split; [exists resp; set_solver|left; set_solver].
  - wp_step. wp_step. cbn [bind_post]. wp_use wp_createClient. intros tr o Hr.
    apply (resolution_ok_app _ _ [_; _; _]); [set_solver|done].
Qed.

(** C30.  Every resolution, under any interleaving with other goroutines and
    whatever the cluster answers: unless the Provider's runtime is Running with
    an endpoint nothing is called and an error comes back; a connection is only
    dialled to that endpoint, in the clear only when the Provider's TLS block
    says [enabled: false], and otherwise with a floor of TLS 1.3, the Service's
    name, the Secret of the Provider's own namespace and the Provider's own
    choice of verification; the client handed out answered a validation in this
    very call and was cached under the Provider's key before or is now; a
    Provider without a TLS block that gets an error gets [ErrTLSBlockMissing];
    and nothing panics. *)
Theorem resolver_secures_connections p tr o :
  runs (GetProvider p) tr o ->
  (exists endpoint, runtime_ready p endpoint /\ resolution_ok p endpoint tr o)
  \/ ((forall endpoint, ~ runtime_ready p endpoint) /\ tr = [] /\ exists e, o = Done (Err e)).
Proof.
  destruct (GetProvider_cases p) as [(endpoint & Hready & ->)|[Hnot [e ->]]].
  - intros Hr. left. exists endpoint. split; [done|].
    by apply (proj1 (wp_runs _ _) (wp_reuseOrCreate p endpoint)).
  - intros [-> ->]. right. eauto.
Qed.

(** ** A resolver used by one goroutine at a time

    [wps p s Q]: every run of [p] alone, from the state [s], ends in [Q]. *)
Fixpoint wps {A} (p : prog rcall ranswer A) (s : RState)
    (Q : rtrace -> outcome A -> RState -> Prop) : Prop :=
  match p with
  | Ret a => Q [] (Done a) s
  | Crash w => Q [] (Panicked w) s
  | Vis c k => forall r s1, enact c r s s1 -> wps (k r) s1 (fun tr => Q (ev c r :: tr))
  end.

Lemma wps_runs {A} (p : prog rcall ranswer A) s Q :
  wps p s Q <-> forall tr o s', runs_alone p s tr o s' -> Q tr o s'.
Proof.
  revert s Q; induction p as [a|c k IH|w]; intros s Q; cbn.
  - split; [by intros HQ tr o s' (-> & -> & ->)|auto].
  - split.
    + intros HQ tr o s' (r & s1 & tr' & -> & Hc & Hr). by apply (proj1 (IH r s1 _) (HQ r s1 Hc)).
    + intros HQ r s1 Hc. apply IH. intros tr o s' Hr. apply HQ. eauto 7.
  - split; [by intros HQ tr o s' (-> & -> & ->)|auto].
Qed.

Lemma wps_mono {A} (p : prog rcall ranswer A) s (Q Q' : rtrace -> outcome A -> RState -> Prop) :
  wps p s Q -> (forall tr o s', Q tr o s' -> Q' tr o s') -> wps p s Q'.
Proof. rewrite !wps_runs. eauto. Qed.

Lemma wps_bind {A B} (p : prog rcall ranswer A) (f : A -> prog rcall ranswer B) s Q :
  wps p s (fun tr o s1 => match o with
                          | Done a => wps (f a) s1 (fun tr' => Q (tr ++ tr'))
                          | Panicked w => Q tr (Panicked w) s1
                          end) ->
  wps (p ≫= f) s Q.
Proof.
  unfold mbind, prog_mbind. revert s Q.
  induction p as [a|c k IH|w]; intros s Q; cbn; [done| |done].
  intros HQ r s1 Hc. apply IH. eapply wps_mono; [by apply HQ|]. by intros tr [].
Qed.

(** What runs alone is a run. *)
Lemma runs_alone_runs {A} (p : prog rcall ranswer A) s tr o s' :
  runs_alone p s tr o s' -> runs p tr o.
Proof.
  revert s tr; induction p as [a|c k IH|w]; intros s tr; cbn.
  - by intros (-> & -> & _).
  - intros (r & s1 & tr' & -> & _ & Hr). exists r, tr'. split; [done|]. by eapply IH.
  - by intros (-> & -> & _).
Qed.

(** The connections of the cached clients. *)
Definition cached (s : RState) : gset nat := map_img (ptr_conn <$> clients s).

Lemma elem_of_cached s conn :
  conn ∈ cached s <-> exists key c, clients s !! key = Some c /\ ptr_conn c = conn.
Proof.
  unfold cached. rewrite elem_of_map_img. setoid_rewrite lookup_fmap_Some. naive_solver.
Qed.

(** The cache is exact but for [extra]: every other open connection belongs to
    one cached client, and every cached client is open. *)
Record cache_exact (extra : gset nat) (s : RState) : Prop := {
  exact_open : open_conns s = extra ∪ cached s;
  exact_extra : extra ## cached s;
  exact_inj key1 key2 c1 c2 : clients s !! key1 = Some c1 -> clients s !! key2 = Some c2 ->
    ptr_conn c1 = ptr_conn c2 -> key1 = key2;
  exact_dialled : open_conns s ⊆ dialled s
}.

(** States that agree on the cache and the connections. *)
Lemma cache_exact_ext extra s s' :
  clients s' = clients s -> open_conns s' = open_conns s -> dialled s' = dialled s ->
  cache_exact extra s -> cache_exact extra s'.
Proof.
  intros Hc Ho Hd []. constructor; unfold cached; rewrite ?Hc, ?Ho, ?Hd; done.
Qed.

Lemma cached_delete s key c :
  clients s !! key = Some c -> cache_exact ∅ s ->
  cached (s <| clients := delete key (clients s) |>) = cached s ∖ {[ptr_conn c]}.
Proof.
  intros Hk Hs. apply set_eq. intros conn. rewrite elem_of_difference, !elem_of_cached, elem_of_singleton.
  cbn. setoid_rewrite lookup_delete_Some. split.
  - intros (k & c' & [Hne Hk'] & <-). split; [eauto|]. intros Heq.
    apply Hne. by eapply (exact_inj ∅ s Hs).
  - intros [(k & c' & Hk' & <-) Hne]. exists k, c'. split_and!; [|done|done]. intros ->. congruence.
Qed.

(** Dropping a cached client. *)
Lemma cache_exact_drop s key c :
  clients s !! key = Some c -> cache_exact ∅ s ->
  cache_exact ∅ (close_conn c (s <| clients := delete key (clients s) |>)).
Proof.
  intros Hk Hs. pose proof (cached_delete s key c Hk Hs) as Hd.
  constructor; cbn.
  - rewrite (exact_open _ _ Hs). unfold cached in *; cbn in *. set_solver.
  - set_solver.
  - intros key1 key2 c1 c2 [_ H1]%lookup_delete_Some [_ H2]%lookup_delete_Some.
    by eapply (exact_inj ∅ s Hs).
  - pose proof (exact_dialled _ _ Hs). set_solver.
Qed.

Lemma cache_exact_dial s conn :
  conn ∉ dialled s -> cache_exact ∅ s ->
  cache_exact {[conn]} (s <| dialled := {[conn]} ∪ dialled s |> <| open_conns := {[conn]} ∪ open_conns s |>).
Proof.
  intros Hn Hs. pose proof (exact_dialled _ _ Hs) as Hd. pose proof (exact_open _ _ Hs) as Ho.
  constructor; cbn; [unfold cached in *; cbn; set_solver..| |set_solver].
  apply (exact_inj _ _ Hs).
Qed.

Lemma cache_exact_close s c :
  cache_exact {[ptr_conn c]} s -> cache_exact ∅ (close_conn c s).
Proof.
  intros Hs. pose proof (exact_dialled _ _ Hs) as Hd. pose proof (exact_open _ _ Hs) as Ho.
  pose proof (exact_extra _ _ Hs) as He.
  constructor; cbn; [unfold cached in *; cbn; set_solver|set_solver| |set_solver].
  apply (exact_inj _ _ Hs).
Qed.

Lemma cache_exact_store s key c :
  clients s !! key = None -> cache_exact {[ptr_conn c]} s ->
  cache_exact ∅ (s <| clients := <[key := c]> (clients s) |>).
Proof.
  intros Hk Hs. pose proof (exact_open _ _ Hs) as Ho. pose proof (exact_extra _ _ Hs) as He.
  assert (forall k c', clients s !! k = Some c' -> ptr_conn c' <> ptr_conn c) as Hfresh.
  { intros k c' Hk' Heq. apply (He (ptr_conn c)); [set_solver|]. apply elem_of_cached. eauto. }
  constructor; cbn.
  - rewrite Ho. unfold cached; cbn. rewrite fmap_insert, map_img_insert_notin_L; [set_solver|].
    by rewrite lookup_fmap, Hk.
  - set_solver.
  - intros key1 key2 c1 c2 [[-> ->]|[_ H1]]%lookup_insert_Some [[-> ->]|[_ H2]]%lookup_insert_Some Heq.
    + done.
    + by destruct (Hfresh _ _ H2).
    + by destruct (Hfresh _ _ H1).
    + by eapply (exact_inj _ _ Hs).
  - apply (exact_dialled _ _ Hs).
Qed.

(** The calls that concern the resolver's own state. *)
Definition touches_state (c : rcall) : bool :=
  match c with
  | OnConn _ _ | ReadSecret _ | LoadX509KeyPair _ _ | ReadFile _ => false
  | _ => true
  end.

Lemma wps_external {A} (p : prog rcall ranswer A) s :
  silent touches_state p -> wps p s (fun tr _ s' => s' = s /\ occurs touches_state tr = false).
Proof.
  intros Hp. apply wps_runs. intros tr o s' Hr.
  assert (occurs touches_state tr = false) as Ht.
  { apply (proj1 (wp_runs p _) Hp tr o). by eapply runs_alone_runs. }
  split; [|done]. clear Hp. revert s tr Hr Ht.
  induction p as [a|c k IH|w]; intros s tr; cbn; [by intros (-> & -> & ->)| |by intros (-> & -> & ->)].
  intros (r & s1 & tr' & -> & Hc & Hr). rewrite occurs_cons. intros [Ht Ht']%orb_false_iff.
  cbn in Ht. rewrite (IH r s1 tr' Hr Ht'). by destruct c.
Qed.

Lemma silent_on_conn c {A} (p : prog rpc reply A) : silent touches_state (on_conn c p).
Proof.
  induction p as [a|r k IH|w]; [done| |done]. intros x. eapply wp_mono; [apply IH|].
  intros tr o Ht. by rewrite occurs_cons, Ht.
Qed.
Hint Resolve silent_on_conn : silent.

Lemma silent_validateClient c : silent touches_state (validateClient c).
Proof. unfold validateClient. solve_silent. Qed.
Lemma silent_buildTLSConfig p : silent touches_state (buildTLSConfig p).
Proof. unfold buildTLSConfig. solve_silent. Qed.
Lemma silent_buildTLSCredentials cfg : silent touches_state (buildTLSCredentials cfg).
Proof. unfold buildTLSCredentials. solve_silent. Qed.

(** The breaker the registry holds for a Provider, and the one a dial used. *)
Definition registered (s : RState) (p : Provider) (l : loc) : Prop :=
  exists reg, cbRegistry s = Some reg /\ Get reg circuitBreakerName (provider_Type p) (provider_Name p) = Some l.

Definition dialled_with (tr : rtrace) (l : loc) : Prop :=
  exists target creds chain r, ev (Dial target creds chain) r ∈ tr /\ BreakerInterceptor l ∈ chain.

Definition keeps_breakers (s s' : RState) : Prop :=
  forall p l, registered s p l -> registered s' p l.

Instance keeps_breakers_preorder : PreOrder keeps_breakers.
Proof. split; [by intros s p l|]. intros s1 s2 s3 H12 H23 p l Hl. by apply H23, H12. Qed.

Lemma dialled_with_silent tr l : occurs touches_state tr = false -> ~ dialled_with tr l.
Proof.
  intros Ht (t & c & ch & r & Hin & _).
  induction tr as [|x tr IH]; [by apply not_elem_of_nil in Hin|].
  rewrite occurs_cons in Ht. apply orb_false_iff in Ht as [Hx Ht].
  apply elem_of_cons in Hin as [<-|Hin]; [done|]. by apply IH.
Qed.

Lemma dialled_with_app tr1 tr2 l :
  dialled_with (tr1 ++ tr2) l <-> dialled_with tr1 l \/ dialled_with tr2 l.
Proof. unfold dialled_with. setoid_rewrite elem_of_app. naive_solver. Qed.

Lemma dialled_with_cons x tr l :
  dialled_with (x :: tr) l <-> dialled_with [x] l \/ dialled_with tr l.
Proof. apply (dialled_with_app [x]). Qed.

(** A registry request answers with the breaker it leaves registered. *)
Lemma enact_registry p r s s' :
  enact (RegistryGetOrCreate circuitBreakerName (provider_Type p) (provider_Name p)) r s s' ->
  clients s' = clients s /\ open_conns s' = open_conns s /\ dialled s' = dialled s
  /\ keeps_breakers s s' /\ forall l, r = Some l -> registered s' p l.
Proof.
  cbn. destruct (cbRegistry s) as [reg|] eqn:Hreg; [|intros [-> ->]; by split_and!].
  intros [counted Hc].
  destruct (GetOrCreate reg (breaker_heap s) circuitBreakerName (provider_Type p) (provider_Name p) counted)
    as [[l reg'] h'] eqn:Hg.
  destruct Hc as [-> ->]. split_and!; try done.
  - intros q l' (reg0 & Hreg0 & Hl'). rewrite Hreg in Hreg0. injection Hreg0 as <-.
    exists reg'. split; [done|]. by eapply GetOrCreate_keeps.
  - intros l' [= <-]. exists reg'. split; [done|]. by eapply GetOrCreate_spec.
Qed.

(** One resolution by a goroutine that runs alone. *)
Definition lone_post (p : Provider) (s : RState) (tr : rtrace) (o : outcome (res ClientPtr))
    (s' : RState) : Prop :=
  cache_exact ∅ s'
  /\ (forall key, key <> client_cacheKey p -> clients s' !! key = clients s !! key)
  /\ keeps_breakers s s'
  /\ (forall l, dialled_with tr l -> registered s' p l)
  /\ match o with
     | Done (Ok c) => clients s' !! client_cacheKey p = Some c
     | Done (Err _) => clients s' !! client_cacheKey p = None
     | Panicked _ => True
     end.

Lemma wps_newClient endpoint pt name cb cfg s :
  cache_exact ∅ s ->
  wps (newClient endpoint pt name cb cfg) s (fun tr o s' =>
    clients s' = clients s /\ cbRegistry s' = cbRegistry s
    /\ (forall l, dialled_with tr l -> cb = Some l)
    /\ match o with
       | Done (Ok c) => cache_exact {[ptr_conn c]} s'
       | _ => cache_exact ∅ s'
       end).
Proof.
  intros Hs. unfold newClient. apply wps_bind.
  apply (wps_mono _ _ (fun tr _ s' => s' = s /\ occurs touches_state tr = false)).
  { apply wps_external. destruct cfg as [cfg|]; [|done].
    apply silent_bind; [apply silent_buildTLSCredentials|]. intros [creds|e]; done. }
  intros tr [[creds|e]|w] s' [-> Ht]; cbn.
  2,3: split_and!; try done; intros l Hl; rewrite ?app_nil_r in Hl; by apply dialled_with_silent in Hl.
  assert (forall r l, dialled_with (tr ++ [ev (Dial endpoint creds
            (MetricsInterceptor pt :: match cb with Some cb => [BreakerInterceptor cb] | None => [] end)) r]) l ->
            cb = Some l) as Hd.
  { intros r l [Hl|Hl]%dialled_with_app; [by apply dialled_with_silent in Hl|].
    destruct Hl as (t & c & ch & r' & [= -> -> -> _]%list_elem_of_singleton & Hin).
    destruct cb as [l'|]; set_solver. }
  intros [conn|err] s1; cbn.
  - intros [Hn ->]. split_and!; [done|done|apply (Hd (Ok conn))|]. by apply cache_exact_dial.
  - intros ->. split_and!; [done|done|apply (Hd (Err err))|done].
Qed.

Lemma wps_validateClient c s :
  wps (validateClient c) s (fun tr o s' =>
    s' = s /\ occurs touches_state tr = false /\ exists v, o = Done v).
Proof.
  apply wps_bind. cbn. intros [resp|err] s' ->; cbn; [destruct (negb (w_Ok resp)); cbn|]; eauto.
Qed.

Lemma not_dialled_with_nil l : ~ dialled_with [] l.
Proof. by intros (? & ? & ? & ? & ?%not_elem_of_nil & _). Qed.

Lemma not_dialled_with_snoc tr x l :
  occurs touches_state tr = false -> (forall t c ch r, x <> ev (Dial t c ch) r) ->
  ~ dialled_with (tr ++ [x]) l.
Proof.
  intros Ht Hx [Hl|(t & c & ch & r & Hl%list_elem_of_singleton & _)]%dialled_with_app.
  - by apply dialled_with_silent in Hl.
  - by apply (Hx t c ch r).
Qed.

(** After a registry request every dial goes through the registered breaker. *)
Lemma dial_registered p cb s1 s3 tr tr2 tr3 l :
  (forall l, cb = Some l -> registered s1 p l) -> cbRegistry s3 = cbRegistry s1 ->
  occurs touches_state tr = false -> (forall l, dialled_with tr2 l -> cb = Some l) ->
  ~ dialled_with tr3 l ->
  dialled_with (tr ++ ev (RegistryGetOrCreate circuitBreakerName (provider_Type p) (provider_Name p)) cb
                :: tr2 ++ tr3) l ->
  registered s3 p l.
Proof.
  intros Hreg Hr Ht Hd Hno. rewrite dialled_with_app, dialled_with_cons, dialled_with_app.
  intros [Hl|[(? & ? & ? & ? & [=]%list_elem_of_singleton & _)|[Hl|Hl]]]; [|apply Hd, Hreg in Hl|done].
  - by apply dialled_with_silent in Hl.
  - destruct Hl as (reg & Hr' & Hl'). exists reg. by rewrite Hr.
Qed.

Lemma wps_createClient p endpoint s :
  cache_exact ∅ s -> clients s !! client_cacheKey p = None ->
  wps (createClient p endpoint) s (lone_post p s).
Proof.
  intros Hs Hk. unfold createClient. apply wps_bind.
  eapply wps_mono; [apply wps_external, silent_buildTLSConfig|].
  intros tr [[cfg|e]|w] s' [-> Ht]; cbn beta iota.
  2,3: split_and!; try done; intros l Hl; rewrite ?app_nil_r in Hl; by apply dialled_with_silent in Hl.
  intros cb s1 Hcb. destruct (enact_registry p cb s s1 Hcb) as (Hc1 & Ho1 & Hd1 & Hkeep & Hreg).
  assert (cache_exact ∅ s1) as Hs1 by (by eapply cache_exact_ext).
  apply wps_bind. eapply wps_mono; [by apply wps_newClient|].
  intros tr2 o s2 (Hc2 & Hr2 & Hd & Ho). cbn beta.
  assert (clients s2 = clients s) as Hc by congruence.
  assert (forall s3, cbRegistry s3 = cbRegistry s1 -> keeps_breakers s s3) as Hkeep3.
  { intros s3 Hr q l (reg & Hreg' & Hl)%Hkeep. exists reg. by rewrite Hr. }
  pose proof (fun s3 tr3 l Hr => dial_registered p cb s1 s3 tr tr2 tr3 l Hreg Hr Ht Hd) as Hdial.
  destruct o as [[c|e]|w]; cbn beta iota.
  2,3: split_and!; [done|intros key _; by rewrite Hc|by apply Hkeep3| |by rewrite ?Hc].
  2: intros l; by apply (Hdial s2 [] l), not_dialled_with_nil.
  2: intros l; specialize (Hdial s2 [] l); rewrite app_nil_r in Hdial; by apply Hdial, not_dialled_with_nil.
  apply wps_bind. eapply wps_mono; [apply wps_validateClient|].
  intros tr3 o3 s3 (-> & Ht3 & [v|e] & ->); cbn beta iota; intros [] s4 ->; (split_and!; [|cbn; intros key Hne|by apply Hkeep3|intros l|cbn]).
  - apply cache_exact_store; [by rewrite Hc|done].
  - rewrite lookup_insert_ne by done. by rewrite Hc.
  - by apply (Hdial _ (tr3 ++ [_]) l Hr2), not_dialled_with_snoc.
  - apply lookup_insert_eq.
  - by apply cache_exact_close.
  - by rewrite Hc.
  - by apply (Hdial _ (tr3 ++ [_]) l Hr2), not_dialled_with_snoc.
  - by rewrite Hc.
Qed.

Lemma wps_reuseOrCreate p endpoint s :
  cache_exact ∅ s -> wps (reuseOrCreate p endpoint) s (lone_post p s).
Proof.
  intros Hs. unfold reuseOrCreate. intros r s1 [-> ->]. cbn beta.
  destruct (clients s !! client_cacheKey p) as [c|] eqn:Hc.
  2:{ eapply wps_mono; [by apply wps_createClient|]. intros tr o s' (H1 & H2 & H3 & H4 & H5).
      split_and!; try done. intros l [(? & ? & ? & ? & [=]%list_elem_of_singleton & _)|Hl]%dialled_with_cons.
      by apply H4. }
  apply wps_bind. eapply wps_mono; [apply wps_validateClient|].
  intros tr1 o1 s1 (-> & Ht & [v|e] & ->); cbn beta iota.
  - split_and!; try done. intros l [(? & ? & ? & ? & [=]%list_elem_of_singleton & _)|Hl]%dialled_with_cons.
    rewrite app_nil_r in Hl. by apply dialled_with_silent in Hl.
  - intros [] s1 ->. eapply wps_mono.
    { apply wps_createClient; [by apply cache_exact_drop|]. apply lookup_delete_eq. }
    intros tr o s' (H1 & H2 & H3 & H4 & H5). split_and!; [done| |done| |done].
    + intros key Hne. rewrite H2 by done. by apply lookup_delete_ne.
    + intros l Hl. apply dialled_with_cons in Hl as [(? & ? & ? & ? & [=]%list_elem_of_singleton & _)|Hl].
      rewrite cons_middle, app_assoc in Hl.
      apply dialled_with_app in Hl as [Hl|Hl]; [|by apply H4].
      by apply not_dialled_with_snoc in Hl.
Qed.

(** ** Cleanup *)
Lemma cleanup_all_step l s :
  let s' := foldr (fun kc s => close_conn kc.2 (s <| clients := delete kc.1 (clients s) |>)) s l in
  (forall key, clients s' !! key = if decide (key ∈ l.*1) then None else clients s !! key)
  /\ open_conns s' = open_conns s ∖ list_to_set (ptr_conn <$> l.*2)
  /\ dialled s' = dialled s /\ cbRegistry s' = cbRegistry s.
Proof.
  induction l as [|[k c] l (IH1 & IH2 & IH3 & IH4)]; cbn -[decide]; [by split_and!; [|set_solver|..]|].
  split_and!; [|set_solver|done|done].
  intros key. destruct (decide (key = k)) as [->|Hne].
  - rewrite lookup_delete_eq. by rewrite decide_True by set_solver.
  - rewrite lookup_delete_ne, IH1 by done.
    destruct (decide (key ∈ l.*1)); [by rewrite decide_True by set_solver|by rewrite decide_False by set_solver].
Qed.

Lemma CleanupAllClients_spec s :
  cache_exact ∅ s -> clients (CleanupAllClients s) = ∅ /\ open_conns (CleanupAllClients s) = ∅.
Proof.
  intros Hs. unfold CleanupAllClients.
  destruct (cleanup_all_step (map_to_list (clients s)) s) as (Hc & Ho & _). split.
  - apply map_empty. intros key. rewrite Hc. case_decide as Hin; [done|].
    apply eq_None_not_Some. intros [c Hk]. apply Hin, list_elem_of_fmap. exists (key, c).
    split; [done|]. by apply elem_of_map_to_list.
  - rewrite Ho, (exact_open _ _ Hs). apply subseteq_empty_difference_L.
    intros conn. rewrite elem_of_union. intros [|(key & c & Hk & <-)%elem_of_cached]; [done|].
    apply elem_of_list_to_set, list_elem_of_fmap. exists c. split; [done|].
    apply list_elem_of_fmap. exists (key, c). split; [done|]. by apply elem_of_map_to_list.
Qed.

Lemma cache_exact_CleanupClient p s :
  cache_exact ∅ s ->
  cache_exact ∅ (CleanupClient p s) /\ clients (CleanupClient p s) !! client_cacheKey p = None.
Proof.
  intros Hs. unfold CleanupClient.
  assert (forall s1, clients s1 !! client_cacheKey p = None -> cache_exact ∅ s1 ->
    let s2 := match cbRegistry s1 with
              | Some reg => s1 <| cbRegistry := Some (Remove reg circuitBreakerName (provider_Type p) (provider_Name p)) |>
              | None => s1
              end in cache_exact ∅ s2 /\ clients s2 !! client_cacheKey p = None) as Hreg.
  { intros s1 Hk Hs1. destruct (cbRegistry s1); split; try done. by apply (cache_exact_ext ∅ s1). }
  destruct (clients s !! client_cacheKey p) as [c|] eqn:Hc; apply Hreg; try done.
  - apply lookup_delete_eq.
  - by apply cache_exact_drop.
Qed.

(** What a lone goroutine may do with a resolver, one operation at a time. *)
Inductive lone_step : RState -> RState -> Prop :=
  | lone_resolve p s tr o s' : runs_alone (GetProvider p) s tr o s' -> lone_step s s'
  | lone_cleanup p s : lone_step s (CleanupClient p s)
  | lone_cleanup_all s : lone_step s (CleanupAllClients s).

Lemma lone_GetProvider p s tr o s' :
  runs_alone (GetProvider p) s tr o s' -> cache_exact ∅ s ->
  ((forall endpoint, ~ runtime_ready p endpoint) /\ tr = [] /\ s' = s) \/ lone_post p s tr o s'.
Proof.
  destruct (GetProvider_cases p) as [(endpoint & _ & ->)|[Hnot [e ->]]].
  - intros Hr Hs. right. revert tr o s' Hr. apply wps_runs. by apply wps_reuseOrCreate.
  - intros (-> & -> & ->). by left.
Qed.

Lemma cache_exact_lone reg s :
  rtc lone_step (NewResolver reg) s -> cache_exact ∅ s.
Proof.
  assert (cache_exact ∅ (NewResolver reg)) as Hnew.
  { constructor; cbn; [unfold cached; cbn; by rewrite fmap_empty, map_img_empty_L|set_solver|done|set_solver]. }
  intros Hs. revert Hnew. generalize (NewResolver reg) Hs. clear Hs reg.
  induction 1 as [|s0 s1 s2 Hstep _ IH]; [done|]. intros Hs. apply IH. clear IH.
  destruct Hstep as [p s tr o s' Hr|p s|s].
  - destruct (lone_GetProvider p s tr o s' Hr Hs) as [(_ & _ & ->)|[He _]]; done.
  - by apply cache_exact_CleanupClient.
  - destruct (CleanupAllClients_spec s Hs) as [Hc Ho].
    constructor; rewrite ?Hc, ?Ho; unfold cached; rewrite ?Hc, ?fmap_empty, ?map_img_empty_L; set_solver.
Qed.

(** A resolver that one goroutine at a time resolves Providers with and
    cleans up never loses a connection: the open connections are exactly those of
    the cached clients, one per Provider; a resolution leaves the clients of other
    Providers alone and, when the Provider is ready, caches exactly the client it
    returns, open, or none on an error; cleaning a Provider up forgets its client
    only; and cleaning everything up closes every connection ever made. *)
Theorem lone_resolver_tracks_connections reg s :
  rtc lone_step (NewResolver reg) s ->
  (forall conn, conn ∈ open_conns s <-> exists key c, clients s !! key = Some c /\ ptr_conn c = conn)
  /\ (forall p tr o s', runs_alone (GetProvider p) s tr o s' ->
        (forall key, key <> client_cacheKey p -> clients s' !! key = clients s !! key)
        /\ match o with
           | Done (Ok c) => clients s' !! client_cacheKey p = Some c /\ ptr_conn c ∈ open_conns s'
           | Done (Err _) => (exists endpoint, runtime_ready p endpoint) -> clients s' !! client_cacheKey p = None
           | Panicked _ => False
           end)
  /\ (forall p, clients (CleanupClient p s) = delete (client_cacheKey p) (clients s))
  /\ clients (CleanupAllClients s) = ∅ /\ open_conns (CleanupAllClients s) = ∅.
Proof.
  intros Hs%cache_exact_lone. split_and!.
  - intros conn. rewrite (exact_open _ _ Hs), <- elem_of_cached. set_solver.
  - intros p tr o s' Hr. pose proof (runs_alone_runs _ _ _ _ _ Hr) as Hrun.
    destruct (GetProvider_cases p) as [(endpoint & Hready & Heq)|[Hnot [e Heq]]].
    + destruct (lone_GetProvider p s tr o s' Hr Hs) as [(Hnot & _)|(He & Hf & _ & _ & Ho)].
      { by destruct (Hnot endpoint). }
      rewrite Heq in Hrun.
      destruct (proj1 (wp_runs _ _) (wp_reuseOrCreate p endpoint) _ _ Hrun) as [_ Hno].
      split; [done|]. destruct o as [[c|e]|w]; [|done|done]. split; [done|].
      rewrite (exact_open _ _ He). apply elem_of_union_r, elem_of_cached. eauto.
    + rewrite Heq in Hr. destruct Hr as (-> & -> & ->). split; [done|].
      intros [endpoint Hready]. by destruct (Hnot endpoint).
  - intros p. unfold CleanupClient. destruct (clients s !! client_cacheKey p) eqn:Hc.
    + cbn. by destruct (cbRegistry s).
    + rewrite (delete_id (clients s)) by done. by destruct (cbRegistry s).
  - by apply CleanupAllClients_spec.
  - by apply CleanupAllClients_spec.
Qed.

(** ** Where sharing falls short *)

(** The breaker of a Provider is found by its type and its name without its
    namespace, while its client is cached under both: two Providers of the same
    type and name in different namespaces have separate clients that go through
    one and the same breaker, and cleaning one Provider up takes the breaker of
    the other out of the registry. *)
Theorem namesakes_share_a_breaker p1 p2 reg s tr1 o1 s1 tr2 o2 s2 l1 l2 :
  provider_Type p1 = provider_Type p2 -> provider_Name p1 = provider_Name p2 ->
  provider_Namespace p1 <> provider_Namespace p2 ->
  rtc lone_step (NewResolver reg) s ->
  runs_alone (GetProvider p1) s tr1 o1 s1 -> runs_alone (GetProvider p2) s1 tr2 o2 s2 ->
  dialled_with tr1 l1 -> dialled_with tr2 l2 ->
  client_cacheKey p1 <> client_cacheKey p2 /\ l1 = l2
  /\ registered s2 p2 l2 /\ forall l, ~ registered (CleanupClient p1 s2) p2 l.
Proof.
  intros Ht Hn Hns Hs%cache_exact_lone Hr1 Hr2 Hl1 Hl2.
  destruct (lone_GetProvider p1 s tr1 o1 s1 Hr1 Hs) as [(_ & -> & _)|(Hs1 & _ & _ & Hreg1 & _)].
  { by apply not_dialled_with_nil in Hl1. }
  destruct (lone_GetProvider p2 s1 tr2 o2 s2 Hr2 Hs1) as [(_ & -> & _)|(Hs2 & _ & Hkeep & Hreg2 & _)].
  { by apply not_dialled_with_nil in Hl2. }
  pose proof (Hkeep _ _ (Hreg1 l1 Hl1)) as (ra & Ha & Hla).
  destruct (Hreg2 l2 Hl2) as (rb & Hb & Hlb). rewrite Ht, Hn in Hla. split_and!.
  - unfold client_cacheKey. rewrite Hn. intros Heq%string_app_inj_r. done.
  - congruence.
  - by exists rb.
  - intros l (rc & Hrc & Hlc). unfold CleanupClient, Get in *.
    assert (forall s', cbRegistry s' = Some rb ->
      cbRegistry (match cbRegistry s' with
        | Some reg => s' <| cbRegistry := Some (Remove reg circuitBreakerName (provider_Type p1) (provider_Name p1)) |>
        | None => s' end) = Some (Remove rb circuitBreakerName (provider_Type p1) (provider_Name p1))) as Hrm.
    { intros s' ->. done. }
    rewrite Hrm in Hrc by (by destruct (clients s2 !! client_cacheKey p1)).
    injection Hrc as <-. rewrite Ht, Hn in Hlc. cbn in Hlc. by rewrite lookup_delete_eq in Hlc.
Qed.

(** A goroutine of the pool may run to its end undisturbed. *)
Lemma pool_runs_alone {A} (ts : list (prog rcall ranswer A)) i q s tr a s' :
  ts !! i = Some q -> runs_alone q s tr (Done a) s' ->
  rtc pool_step (ts, s) (<[i := Ret a]> ts, s').
Proof.
  revert ts s tr. induction q as [b|c k IH|w]; intros ts s tr Hi; cbn.
  - intros (_ & [= ->] & ->). by rewrite list_insert_id.
  - intros (r & s1 & tr' & -> & Hc & Hr).
    eapply rtc_l; [by eapply pool_step_intro|].
    rewrite <- (list_insert_insert_eq ts i (Ret a) (k r)). eapply IH; [|done].
    apply list_lookup_insert_eq. by eapply lookup_lt_Some.
  - by intros (_ & [=] & _).
Qed.

Definition plaintext (p : Provider) : Prop := exists t, tls_block p = Some t /\ tls_Enabled t = false.

(** A plaintext Provider that answers its validation gets a client from any
    state, on a connection of its own. *)
Lemma createClient_succeeds p endpoint s conn :
  plaintext p -> conn ∉ dialled s ->
  let c := mkClientPtr conn (provider_Type p) (provider_Name p) in
  exists tr s', runs_alone (createClient p endpoint) s tr (Done (Ok c)) s'
    /\ clients s' = <[client_cacheKey p := c]> (clients s)
    /\ open_conns s' = {[conn]} ∪ open_conns s /\ dialled s' = {[conn]} ∪ dialled s
    /\ (is_Some (cbRegistry s) -> is_Some (cbRegistry s') /\ exists l, dialled_with tr l).
Proof.
  intros (t & Ht & He) Hn c. unfold createClient, buildTLSConfig. rewrite Ht, He. cbn.
  assert (exists cb s1, enact (RegistryGetOrCreate circuitBreakerName (provider_Type p) (provider_Name p)) cb s s1
            /\ (is_Some (cbRegistry s) -> is_Some (cbRegistry s1) /\ is_Some cb))
    as (cb & s1 & Hcb & Hreg).
  { cbn. destruct (cbRegistry s) as [reg|] eqn:Hreg; [|exists None, s; by rewrite Hreg].
    destruct (GetOrCreate reg (breaker_heap s) circuitBreakerName (provider_Type p) (provider_Name p) 0)
      as [[l reg'] h'] eqn:Hg.
    do 2 eexists. split; [exists 0; by rewrite Hg|done]. }
  destruct (enact_registry p cb s s1 Hcb) as (Hc1 & Ho1 & Hd1 & _).
  do 2 eexists. split_and!.
  - exists cb, s1. eexists. split_and!; [done|exact Hcb|].
    exists (Ok conn). do 2 eexists. split_and!; [done|by rewrite Hd1|done|]. cbn.
    exists (Ok (mkWireValidate true "")). do 2 eexists. split_and!; [done..|]. cbn.
    exists tt. do 2 eexists. split_and!; [done..|]. by cbn.
  - cbn. by rewrite Hc1.
  - cbn. by rewrite Ho1.
  - cbn. by rewrite Hd1.
  - intros [Hr [l ->]]%Hreg. split; [done|]. exists l. unfold dialled_with. do 4 eexists.
    split; [apply elem_of_cons; right; apply elem_of_cons; by left|]. set_solver.
Qed.

Lemma ready_GetProvider p endpoint :
  runtime_ready p endpoint -> GetProvider p = reuseOrCreate p endpoint.
Proof.
  intros Hready.
  destruct (GetProvider_cases p) as [(ep & (rt & Hrt & _ & <- & _) & ->)|[Hnot _]]; [|by destruct (Hnot endpoint)].
  destruct Hready as (rt' & Hrt' & _ & <- & _). congruence.
Qed.

Lemma GetProvider_succeeds p endpoint s conn :
  runtime_ready p endpoint -> plaintext p -> clients s !! client_cacheKey p = None -> conn ∉ dialled s ->
  let c := mkClientPtr conn (provider_Type p) (provider_Name p) in
  exists tr s', runs_alone (GetProvider p) s tr (Done (Ok c)) s'
    /\ clients s' = <[client_cacheKey p := c]> (clients s) /\ dialled s' = {[conn]} ∪ dialled s
    /\ (is_Some (cbRegistry s) -> is_Some (cbRegistry s') /\ exists l, dialled_with tr l).
Proof.
  intros Hready Hplain Hk Hn c. rewrite (ready_GetProvider p endpoint Hready).
  destruct (createClient_succeeds p endpoint s conn Hplain Hn) as (tr & s' & Hr & Hc & _ & Hd & Hreg).
  exists (ev (LoadClient (client_cacheKey p)) None :: tr), s'. split_and!; [|done|done|].
  - exists None, s, tr. by split_and!.
  - intros [Hs [l Hl]]%Hreg. split; [done|]. exists l. apply dialled_with_cons. by right.
Qed.

Lemma pool_misses ts i p endpoint s :
  ts !! i = Some (reuseOrCreate p endpoint) -> clients s !! client_cacheKey p = None ->
  pool_step (ts, s) (<[i := createClient p endpoint]> ts, s).
Proof.
  intros Hi Hk. unfold reuseOrCreate, mbind, prog_mbind in Hi. cbn [prog_bind trigger] in Hi.
  exact (pool_step_intro _ _ _ _ (None : ranswer (LoadClient (client_cacheKey p))) _ _ Hi (conj (eq_sym Hk) eq_refl)).
Qed.

(** Two goroutines that resolve the same Provider at once can both miss the
    cache, and the second to finish overwrites the first one's client without
    closing it: the connection stays open for good, out of reach of any
    cleanup. *)
Theorem concurrent_resolutions_leak p endpoint reg :
  runtime_ready p endpoint -> plaintext p ->
  exists c1 c2 s,
    rtc pool_step ([GetProvider p; GetProvider p], NewResolver reg) ([Ret (Ok c1); Ret (Ok c2)], s)
    /\ clients s = {[client_cacheKey p := c2]} /\ ptr_conn c1 <> ptr_conn c2
    /\ ptr_conn c1 ∈ open_conns s
    /\ ptr_conn c1 ∈ open_conns (CleanupAllClients (CleanupClient p s)).
Proof.
  intros Hready Hplain.
  rewrite (ready_GetProvider p endpoint Hready).
  destruct (createClient_succeeds p endpoint (NewResolver reg) 0 Hplain) as (tr1 & s1 & Hr1 & Hc1 & Ho1 & Hd1 & _);
    [set_solver|].
  destruct (createClient_succeeds p endpoint s1 1 Hplain) as (tr2 & s2 & Hr2 & Hc2 & Ho2 & Hd2 & _);
    [rewrite Hd1; set_solver|].
  cbn in Ho1. rewrite Hc1, insert_insert_eq in Hc2.
  exists (mkClientPtr 0 (provider_Type p) (provider_Name p)), (mkClientPtr 1 (provider_Type p) (provider_Name p)), s2.
  split_and!.
  - eapply rtc_l; [by apply (pool_misses _ 0 p endpoint)|].
    eapply rtc_l; [by apply (pool_misses _ 1 p endpoint)|].
    etrans; [by eapply (pool_runs_alone _ 0 (createClient p endpoint))|].
    exact (pool_runs_alone [Ret _; createClient p endpoint] 1 _ _ _ _ _ eq_refl Hr2).
  - exact Hc2.
  - done.
  - rewrite Ho2, Ho1. cbn. set_solver.
  - unfold CleanupAllClients.
    destruct (cleanup_all_step (map_to_list (clients (CleanupClient p s2))) (CleanupClient p s2)) as (_ & -> & _).
    assert (clients (CleanupClient p s2) = ∅ /\ open_conns (CleanupClient p s2) = open_conns s2 ∖ {[1%nat]}) as [-> ->].
    { unfold CleanupClient. rewrite Hc2, lookup_insert_eq.
      destruct (cbRegistry s2) eqn:Hreg; cbn; rewrite Hreg; cbn; by rewrite delete_insert_eq. }
    rewrite map_to_list_empty, Ho2, Ho1. set_solver.
Qed.
End Props.

(** ** Concrete Providers *)
Module DemoResolver.
Import DemoGrpc.

(** Certificates as their PEM texts. *)
#[export] Instance x509 : X509 := {|
  Certificate := string * string; CertPool := string;
  X509KeyPair c k := Ok (c, k);
  AppendCertsFromPEM ca := if is_empty ca then None else Some ca
|}.

Definition lab (namespace : string) (tls : ProviderTLSSpec) : Provider :=
  mkProvider (mkObjectMeta "lab" namespace "uid" 1 "1" ∅ ∅ [] None None) (bare_spec "libvirt"
       (Some (mkProviderRuntimeSpec "lab:1" "" None (Some (mkProviderServiceSpec 9443 (Some tls))) None ∅ [] None None "" "" [])))
    (no_provider_status <| ps_Runtime := Some (mkProviderRuntimeStatus "Remote" "Running" "lab:9443" None "") |>).

Definition with_secret : ProviderTLSSpec := mkProviderTLSSpec true (Some (mkLocalRef "lab-tls")) false.

Definition lab_secret : Secret :=
  mkSecret "lab-tls" (<["tls.crt" := "cert"]> (<["tls.key" := "key"]> {["ca.crt" := "ca"]})).

(** A cluster in which every request succeeds. *)
Definition demo_env (c : rcall) (w : unit) : ranswer c * unit :=
  (match c return ranswer c with
   | LoadClient _ | RegistryGetOrCreate _ _ _ => None
   | DropClient _ _ | StoreClient _ _ | CloseConn _ => tt
   | Dial _ _ _ => Ok 0%nat
   | OnConn _ r =>
       match r return reply r with
       | RpcValidate => Ok (mkWireValidate true "")
       | RpcDescribe _ | RpcTaskStatus _ | RpcImagePrepare _ _ _ | _ => Err (ENew "unused")
       end
   | ReadSecret _ => Ok lab_secret
   | LoadX509KeyPair c k => Ok (c, k)
   | ReadFile f => Ok f
   end, tt).

Lemma lab_ready namespace tls : runtime_ready (lab namespace tls) "lab:9443".
Proof. by eexists. Qed.

Lemma resolver_secures_connections_witness :
  let run := exec demo_env (GetProvider (lab "infra" with_secret)) tt in
  run.1.2 = Done (Ok (mkClientPtr 0 "libvirt" "lab"))
  /\ exists endpoint, runtime_ready (lab "infra" with_secret) endpoint
       /\ resolution_ok (lab "infra" with_secret) endpoint run.1.1 run.1.2.
Proof.
  intros run. split; [vm_compute; reflexivity|].
  destruct (resolver_secures_connections (lab "infra" with_secret) run.1.1 run.1.2
              (exec_runs demo_env _ tt)) as [Hok|(Hnot & _)]; [exact Hok|].
  destruct (Hnot "lab:9443"). apply lab_ready.
Defined.

End DemoResolver.
