(* ===== verification/VirtualMachine.v ===== *)
(** * VirtualMachine: the VirtualMachine reconciler

    Models [internal/controller/virtualmachine_controller.go].  A handler takes
    the VirtualMachine it has fetched, threads the changes it makes to that
    in-memory copy, and persists them only through the [UpdateVM] and
    [StatusUpdateVM] calls; what it returns is controller-runtime's
    [(Result, error)]. *)
From S2P Require Import Prelude Contracts K8s Api Effects ImagePrepare CreateRequest.
From stdpp Require Import base gmap strings list.
From Stdlib Require Import ZArith Lia.
Import v1beta1.
Import Contracts.

(** Reason labels of the error metric. *)
Definition errReasonGetVM : string := "get-vm".
Definition errReasonAddFinalizer : string := "add-finalizer".
Definition errReasonRemoveFinalizer : string := "remove-finalizer".
Definition errReasonDepsNotFound : string := "deps-not-found".
Definition errReasonDepsError : string := "deps-error".
Definition errReasonProviderResolve : string := "provider-resolve".
Definition errReasonProviderDescribe : string := "provider-describe".
Definition errReasonProviderTask : string := "provider-task-status".
Definition errReasonProviderDelete : string := "provider-delete".
Definition errReasonImagePrepare : string := "image-prepare".

Definition forceDeleteAnnotation : string := "virtrigaud.io/force-delete".
Definition vmDeleteRetryInterval : duration := (15 * second)%Z.

Definition AdoptedLabel : string := "virtrigaud.io/adopted".
Definition AdoptedLabelValue : string := "true".

Definition hasForceDeleteAnnotation (vm : VirtualMachine) : bool :=
  bool_decide (map_get (meta_Annotations (vm_meta vm)) forceDeleteAnnotation = "true").

Definition vmIsAdopted (vm : VirtualMachine) : bool :=
  bool_decide (map_get (meta_Labels (vm_meta vm)) AdoptedLabel = AdoptedLabelValue).

(** The reconciler's own configuration: whether a provider resolver is set. *)
Record VirtualMachineReconciler := mkReconciler { RemoteResolver : bool }.

(** What a reconcile returns. *)
Definition reconcile_result : Type := Result * option goerror.
Definition requeue5s : reconcile_result := (requeue_after (5 * second), None).

(** ** Pure helpers *)
Definition key_of (ref : ObjectRef) (namespace : string) : NamespacedName :=
  mkKey (if is_empty (ref_Namespace ref) then namespace else ref_Namespace ref) (ref_Name ref).

Definition getCurrentCPU (vm : VirtualMachine) : Z :=
  match status_CurrentResources (vm_Status vm) with
  | Some r => deref 0%Z (vr_CPU r)
  | None => 0%Z
  end.

Definition getCurrentMemoryMiB (vm : VirtualMachine) : Z :=
  match status_CurrentResources (vm_Status vm) with
  | Some r => deref 0%Z (vr_MemoryMiB r)
  | None => 0%Z
  end.

(** The resources wanted by the class, with the VM-level overrides. *)
Definition desiredCPU (vm : VirtualMachine) (vmClass : v1beta1.VMClass) : Z :=
  match spec_Resources (vm_Spec vm) with
  | Some r => deref (cls_CPU (class_Spec vmClass)) (vr_CPU r)
  | None => cls_CPU (class_Spec vmClass)
  end.

Definition desiredMemoryMiB (vm : VirtualMachine) (vmClass : v1beta1.VMClass) : Z :=
  match spec_Resources (vm_Spec vm) with
  | Some r => deref (Z.quot (cls_Memory (class_Spec vmClass)) mib) (vr_MemoryMiB r)
  | None => Z.quot (cls_Memory (class_Spec vmClass)) mib
  end.

Definition needsReconfigure (vm : VirtualMachine) (vmClass : v1beta1.VMClass) : bool :=
  let currentCPU := getCurrentCPU vm in
  let currentMemoryMiB := getCurrentMemoryMiB vm in
  if (currentCPU =? 0)%Z && (currentMemoryMiB =? 0)%Z then false
  else negb (currentCPU =? desiredCPU vm vmClass)%Z
       || negb (currentMemoryMiB =? desiredMemoryMiB vm vmClass)%Z.

Definition updateCurrentResources (vm : VirtualMachine) (vmClass : v1beta1.VMClass)
    : VirtualMachine :=
  let cur := deref (mkVMResources None None) (status_CurrentResources (vm_Status vm)) in
  vm <| vm_Status := vm_Status vm
    <| status_CurrentResources :=
         Some (cur <| vr_CPU := Some (desiredCPU vm vmClass) |>
                   <| vr_MemoryMiB := Some (desiredMemoryMiB vm vmClass) |>) |> |>.

Definition getRequeueInterval (desc : DescribeResponse) : duration :=
  let fastPoll := (10 * second)%Z in
  let waitingForIP := (10 * second)%Z in
  let normalPoll := (2 * minute)%Z in
  let slowPoll := (5 * minute)%Z in
  if bool_decide (desc_PowerState desc = "poweredOn") && bool_decide (IPs desc = [])
  then waitingForIP
  else if bool_decide (desc_PowerState desc = "poweredOn") then normalPoll
  else if bool_decide (desc_PowerState desc = "poweredOff") then slowPoll
  else if bool_decide (desc_PowerState desc = "suspended") then normalPoll
  else fastPoll.

Section Reconciler.
Context `{Libraries}.

(** ** Status helpers *)
Definition set_condition (t : string) (vm : VirtualMachine) (s : ConditionStatus)
    (reason msg : string) : M VirtualMachine :=
  now ← do_ Now;
  now' ← do_ Now;
  Ret (vm <| vm_Status := vm_Status vm
    <| status_Conditions :=
         SetCondition now now' (status_Conditions (vm_Status vm)) t s reason msg |> |>).

Definition SetReadyCondition := set_condition ConditionReady.
Definition SetProvisioningCondition := set_condition ConditionProvisioning.
Definition SetReconfiguringCondition := set_condition ConditionReconfiguring.
Definition SetErrorCondition := set_condition ConditionError.
Definition SetHealthyCondition := set_condition ConditionHealthy.

(** [updateStatus]: a failure to write the status is only logged. *)
Definition updateStatus (vm : VirtualMachine) : M unit :=
  _ ← do_ (StatusUpdateVM vm);
  Ret tt.

(** Write the status, then come back in five seconds. *)
Definition save_and_retry (vm : VirtualMachine) : M reconcile_result :=
  _ ← updateStatus vm;
  Ret requeue5s.

Definition HasFinalizer (vm : VirtualMachine) : bool :=
  ContainsFinalizer (meta_Finalizers (vm_meta vm)) VirtualMachineFinalizer.

Definition IsBeingDeleted (vm : VirtualMachine) : bool :=
  match meta_DeletionTimestamp (vm_meta vm) with Some _ => true | None => false end.

Definition with_finalizers (vm : VirtualMachine) (fs : list string) : VirtualMachine :=
  vm <| vm_meta := vm_meta vm <| meta_Finalizers := fs |> |>.

Definition k8s_AddFinalizer (vm : VirtualMachine) (f : string) : M (option goerror) :=
  if ContainsFinalizer (meta_Finalizers (vm_meta vm)) f then Ret None
  else do_ (UpdateVM (with_finalizers vm (AddFinalizer (meta_Finalizers (vm_meta vm)) f))).

Definition k8s_RemoveFinalizer (vm : VirtualMachine) (f : string) : M (option goerror) :=
  if negb (ContainsFinalizer (meta_Finalizers (vm_meta vm)) f) then Ret None
  else do_ (UpdateVM (with_finalizers vm (RemoveFinalizer (meta_Finalizers (vm_meta vm)) f))).

(** ** Dependencies *)
Record dependencies := mkDeps {
  dep_provider : Provider;
  dep_class : v1beta1.VMClass;
  dep_image : option v1beta1.VMImage;
  dep_networks : list (option VMNetworkAttachment)
}.

Fixpoint getNetworks (namespace : string) (refs : list VMNetworkRef)
    : M (res (list (option VMNetworkAttachment))) :=
  match refs with
  | [] => Ret (Ok [])
  | netRef :: refs' =>
      match vnr_NetworkRef netRef with
      | None =>
          rest ← getNetworks namespace refs';
          match rest with
          | Err e => Ret (Err e)
          | Ok nets => Ret (Ok (None :: nets))
          end
      | Some ref =>
          g ← do_ (GetVMNetworkAttachment (mkKey namespace (ref_Name ref)));
          match g with
          | Err err =>
              Ret (Err (EWrap ("failed to get vmnetworkattachment " +:+ ref_Name ref) err))
          | Ok network =>
              rest ← getNetworks namespace refs';
              match rest with
              | Err e => Ret (Err e)
              | Ok nets => Ret (Ok (Some network :: nets))
              end
          end
      end
  end.

Definition getImage (vm : VirtualMachine) : M (res (option v1beta1.VMImage)) :=
  match spec_ImageRef (vm_Spec vm) with
  | None => Ret (Ok None)
  | Some ref =>
      g ← do_ (GetVMImage (key_of ref (meta_Namespace (vm_meta vm))));
      match g with
      | Err err => Ret (Err (EWrap ("failed to get vmimage " +:+ ref_Name ref) err))
      | Ok img => Ret (Ok (Some img))
      end
  end.

Definition getDependencies (vm : VirtualMachine) : M (res dependencies) :=
  let ns := meta_Namespace (vm_meta vm) in
  let providerRef := spec_ProviderRef (vm_Spec vm) in
  let classRef := spec_ClassRef (vm_Spec vm) in
  let providerKey := key_of providerRef ns in
  p ← do_ (GetProviderCR providerKey);
  match p with
  | Err err =>
      if api_IsNotFound err then
        Ret (Err (EWrap ("provider " +:+ ref_Name providerRef +:+ " not found (namespace: "
                           +:+ key_Namespace providerKey +:+ ")") err))
      else Ret (Err (EWrap ("failed to get provider " +:+ ref_Name providerRef) err))
  | Ok provider =>
      c ← do_ (GetVMClass (key_of classRef ns));
      match c with
      | Err err => Ret (Err (EWrap ("failed to get vmclass " +:+ ref_Name classRef) err))
      | Ok vmClass =>
          i ← getImage vm;
          match i with
          | Err err => Ret (Err err)
          | Ok vmImage =>
              n ← getNetworks ns (spec_Networks (vm_Spec vm));
              match n with
              | Err err => Ret (Err err)
              | Ok networks => Ret (Ok (mkDeps provider vmClass vmImage networks))
              end
          end
      end
  end.

Definition getProviderInstance (r : VirtualMachineReconciler) (p : Provider)
    : M (res ProviderInstance) :=
  if negb (RemoteResolver r) then Ret (Err (ENew "no remote resolver available"))
  else do_ (ResolveProvider p).

(** ** Creating, powering and reconfiguring *)
Definition createVM (vm : VirtualMachine) (inst : ProviderInstance) (providerName : string)
    (vmClass : v1beta1.VMClass) (vmImage : option v1beta1.VMImage)
    (networks : list (option VMNetworkAttachment)) : M reconcile_result :=
  let invalid (m : string) : M reconcile_result :=
    vm ← SetProvisioningCondition vm ConditionFalse ReasonProviderError m;
    _ ← updateStatus vm;
    Ret (no_result, Some (ENew m)) in
  match spec_ImageRef (vm_Spec vm), spec_ImportedDisk (vm_Spec vm) with
  | None, None => invalid "either imageRef or importedDisk must be specified"
  | Some _, Some _ => invalid "imageRef and importedDisk are mutually exclusive"
  | _, _ =>
      b ← buildCreateRequest vm providerName vmClass vmImage networks;
      match b with
      | Err err =>
          vm ← SetProvisioningCondition vm ConditionFalse ReasonProviderError
                 ("Failed to build create request: " +:+ Error err);
          save_and_retry vm
      | Ok req =>
          c ← do_ (ProviderCreate inst req);
          match c with
          | Err err =>
              vm ← SetProvisioningCondition vm ConditionFalse ReasonProviderError
                     ("Failed to create VM: " +:+ Error err);
              save_and_retry vm
          | Ok resp =>
              let vm := vm <| vm_Status := vm_Status vm <| status_ID := resp_ID resp |> |> in
              let vm := updateCurrentResources vm vmClass in
              if negb (is_empty (resp_TaskRef resp)) then
                let vm := vm <| vm_Status := vm_Status vm
                                  <| status_LastTaskRef := resp_TaskRef resp |> |> in
                vm ← SetProvisioningCondition vm ConditionTrue ReasonCreating "VM creation initiated";
                save_and_retry vm
              else
                vm ← SetProvisioningCondition vm ConditionFalse ReasonReconcileSuccess "VM created";
                save_and_retry vm
          end
      end
  end.

(** The power operation for a desired state, if it is a supported one. *)
Definition power_op (desiredState : string) : option PowerOp :=
  if bool_decide (desiredState = "On") then Some PowerOpOn
  else if bool_decide (desiredState = "Off") then Some PowerOpOff
  else if bool_decide (desiredState = "OffGraceful") then Some PowerOpShutdownGraceful
  else None.

Definition adjustPowerState (vm : VirtualMachine) (inst : ProviderInstance)
    (desiredState : string) : M reconcile_result :=
  match power_op desiredState with
  | None => Ret requeue5s
  | Some powerOp =>
      p ← do_ (ProviderPower inst (status_ID (vm_Status vm)) powerOp);
      match p with
      | Err err =>
          vm ← SetReadyCondition vm ConditionFalse ReasonProviderError
                 ("Failed to adjust power state: " +:+ Error err);
          save_and_retry vm
      | Ok taskRef =>
          if negb (is_empty taskRef) then
            let vm := vm <| vm_Status := vm_Status vm <| status_LastTaskRef := taskRef |> |> in
            vm ← SetReconfiguringCondition vm ConditionTrue ReasonUpdating "Adjusting power state";
            save_and_retry vm
          else save_and_retry vm
      end
  end.

Definition reconfigureVM (vm : VirtualMachine) (inst : ProviderInstance) (providerName : string)
    (vmClass : v1beta1.VMClass) (vmImage : option v1beta1.VMImage)
    (networks : list (option VMNetworkAttachment)) : M reconcile_result :=
  b ← buildCreateRequest vm providerName vmClass vmImage networks;
  match b with
  | Err err => Ret (no_result, Some err)
  | Ok req =>
      t ← do_ (ProviderReconfigure inst (status_ID (vm_Status vm)) req);
      match t with
      | Err err =>
          vm ← SetReconfiguringCondition vm ConditionFalse ReasonProviderError
                 ("Failed to reconfigure VM: " +:+ Error err);
          save_and_retry vm
      | Ok taskRef =>
          now ← do_ Now;
          let vm := vm <| vm_Status := vm_Status vm
                            <| status_Phase := VirtualMachinePhaseReconfiguring |>
                            <| status_LastReconfigureTime := Some now |> |> in
          if negb (is_empty taskRef) then
            let vm := vm <| vm_Status := vm_Status vm <| status_ReconfigureTaskRef := taskRef |> |> in
            vm ← SetReconfiguringCondition vm ConditionTrue ReasonUpdating
                   "VM reconfiguration in progress";
            save_and_retry vm
          else
            let vm := updateCurrentResources vm vmClass in
            let vm := vm <| vm_Status := vm_Status vm
                              <| status_Phase := VirtualMachinePhaseRunning |> |> in
            vm ← SetReconfiguringCondition vm ConditionFalse ReasonReconcileSuccess
                   "VM reconfigured successfully";
            vm ← SetReadyCondition vm ConditionTrue ReasonReconcileSuccess "VM is ready";
            save_and_retry vm
      end
  end.

(** [recordIPDiscoveryIfFirstSeen]. *)
Definition recordIPDiscoveryIfFirstSeen (currentIPs descIPs : list string)
    (creationTime : option time) (providerType : string) : M unit :=
  if negb (bool_decide (currentIPs = [])) then Ret tt
  else if bool_decide (descIPs = []) then Ret tt
  else match creationTime with
       | None => Ret tt
       | Some _ => do_ (RecordIPDiscovery providerType)
       end.

(** ** The main reconcile path, in the stages the source lays out *)

(** VM exists on record: describe it and converge. *)
Definition reconcileExisting (vm : VirtualMachine) (inst : ProviderInstance) (d : dependencies)
    : M reconcile_result :=
  let providerName := provider_Name (dep_provider d) in
  r ← do_ (ProviderDescribe inst (status_ID (vm_Status vm)));
  match r with
  | Err err =>
      vm ← SetReadyCondition vm ConditionFalse ReasonProviderError
             ("Failed to describe VM: " +:+ Error err);
      _ ← do_ (RecordError errReasonProviderDescribe);
      save_and_retry vm
  | Ok desc =>
      if negb (Exists desc) then
        let vm := vm <| vm_Status := vm_Status vm <| status_ID := "" |> |> in
        createVM vm inst providerName (dep_class d) (dep_image d) (dep_networks d)
      else
        _ ← recordIPDiscoveryIfFirstSeen (status_IPs (vm_Status vm)) (IPs desc)
              (meta_CreationTimestamp (vm_meta vm)) (provider_Type (dep_provider d));
        let vm := vm <| vm_Status := vm_Status vm
                          <| status_PowerState := desc_PowerState desc |>
                          <| status_IPs := IPs desc |>
                          <| status_ConsoleURL := ConsoleURL desc |>
                          <| status_Provider := ProviderRaw desc |> |> in
        let desiredPowerState :=
          if is_empty (spec_PowerState (vm_Spec vm)) then v1beta1.PowerStateOn
          else spec_PowerState (vm_Spec vm) in
        if negb (bool_decide (desc_PowerState desc = desiredPowerState)) then
          adjustPowerState vm inst desiredPowerState
        else if needsReconfigure vm (dep_class d) then
          reconfigureVM vm inst providerName (dep_class d) (dep_image d) (dep_networks d)
        else
          vm ← SetReadyCondition vm ConditionTrue ReasonReconcileSuccess "VM is ready";
          vm ← SetProvisioningCondition vm ConditionFalse ReasonReconcileSuccess "VM provisioned";
          _ ← updateStatus vm;
          Ret (requeue_after (getRequeueInterval desc), None)
  end.

(** Ensure the VM exists: create it, or wait for the adoption controller. *)
Definition ensureExists (vm : VirtualMachine) (inst : ProviderInstance) (d : dependencies)
    : M reconcile_result :=
  if is_empty (status_ID (vm_Status vm)) then
    if vmIsAdopted vm then
      vm ← SetProvisioningCondition vm ConditionTrue ReasonWaitingForDependencies
             "Waiting for adoption/clone controller to set Status.ID";
      save_and_retry vm
    else
      createVM vm inst (provider_Name (dep_provider d)) (dep_class d) (dep_image d) (dep_networks d)
  else reconcileExisting vm inst d.

(** An outstanding reconfigure task. *)
Definition checkReconfigureTask (vm : VirtualMachine) (inst : ProviderInstance) (d : dependencies)
    : M reconcile_result :=
  let ref := status_ReconfigureTaskRef (vm_Status vm) in
  if is_empty ref then ensureExists vm inst d
  else
    t ← do_ (ProviderIsTaskComplete inst ref);
    match t with
    | Err err =>
        vm ← SetReconfiguringCondition vm ConditionFalse ReasonProviderError
               ("Failed to check reconfigure task: " +:+ Error err);
        _ ← do_ (RecordError errReasonProviderTask);
        save_and_retry vm
    | Ok false =>
        vm ← SetReconfiguringCondition vm ConditionTrue ReasonTaskInProgress
               "Reconfiguration in progress";
        save_and_retry vm
    | Ok true =>
        let vm := updateCurrentResources vm (dep_class d) in
        let vm := vm <| vm_Status := vm_Status vm
                          <| status_ReconfigureTaskRef := "" |>
                          <| status_Phase := VirtualMachinePhaseRunning |> |> in
        vm ← SetReconfiguringCondition vm ConditionFalse ReasonReconcileSuccess
               "VM reconfigured successfully";
        ensureExists vm inst d
    end.

(** An outstanding create or power task. *)
Definition checkLastTask (vm : VirtualMachine) (inst : ProviderInstance) (d : dependencies)
    : M reconcile_result :=
  let ref := status_LastTaskRef (vm_Status vm) in
  if is_empty ref then checkReconfigureTask vm inst d
  else
    t ← do_ (ProviderIsTaskComplete inst ref);
    match t with
    | Err err =>
        vm ← SetProvisioningCondition vm ConditionFalse ReasonProviderError
               ("Failed to check task: " +:+ Error err);
        _ ← do_ (RecordError errReasonProviderTask);
        save_and_retry vm
    | Ok false =>
        vm ← SetProvisioningCondition vm ConditionTrue ReasonTaskInProgress "Task in progress";
        save_and_retry vm
    | Ok true =>
        let vm := vm <| vm_Status := vm_Status vm <| status_LastTaskRef := "" |> |> in
        checkReconfigureTask vm inst d
    end.

(** [vmImage.Name], a nil dereference when there is no image. *)
Definition image_name (vmImage : option v1beta1.VMImage) : M string :=
  match vmImage with
  | Some img => Ret (meta_Name (image_meta img))
  | None => Crash "nil VMImage"
  end.

(** The image gate, then the tasks. *)
Definition reconcileWithImage (vm : VirtualMachine) (inst : ProviderInstance) (d : dependencies)
    : M reconcile_result :=
  let providerName := provider_Name (dep_provider d) in
  e ← EnsureImageOnProvider vm (dep_image d) (dep_provider d) inst;
  let '(ensured, vmImage) := e in
  let d := mkDeps (dep_provider d) (dep_class d) vmImage (dep_networks d) in
  match ensured with
  | EnsureError err =>
      if errors_Is err errImagePrepareHold_msg then
        name ← image_name vmImage;
        vm ← SetReadyCondition vm ConditionFalse ReasonWaitingForDependencies
               ("Image " +:+ name +:+ " not prepared on provider " +:+ providerName);
        _ ← updateStatus vm;
        Ret (imageEnsureResultToReconcile, None)
      else
        vm ← SetReadyCondition vm ConditionFalse ReasonProviderError
               ("Image prepare failed: " +:+ Error err);
        _ ← do_ (RecordError errReasonImagePrepare);
        save_and_retry vm
  | EnsureRequeue =>
      name ← image_name vmImage;
      vm ← SetProvisioningCondition vm ConditionTrue ReasonTaskInProgress
             ("Preparing image " +:+ name +:+ " on provider " +:+ providerName);
      _ ← updateStatus vm;
      Ret (imageEnsureResultToReconcile, None)
  | EnsureProceed => checkLastTask vm inst d
  end.

(** [reconcileVM].  Resolving the instance logs [provider.Status.Runtime.Phase]
    and [.Endpoint] first, whatever the log level: a Provider without runtime
    status is a nil dereference. *)
Definition reconcileVM (r : VirtualMachineReconciler) (vm : VirtualMachine) : M reconcile_result :=
  let vm := vm <| vm_Status := vm_Status vm
                    <| status_ObservedGeneration := meta_Generation (vm_meta vm) |> |> in
  d ← getDependencies vm;
  match d with
  | Err err =>
      if api_IsNotFound err || contains (Error err) "not found" then
        vm ← SetReadyCondition vm ConditionFalse ReasonWaitingForDependencies
               ("Provider " +:+ ref_Name (spec_ProviderRef (vm_Spec vm)) +:+ " not found");
        _ ← do_ (RecordError errReasonDepsNotFound);
        _ ← updateStatus vm;
        Ret (requeue_after (30 * second), None)
      else
        vm ← SetReadyCondition vm ConditionFalse ReasonWaitingForDependencies (Error err);
        _ ← do_ (RecordError errReasonDepsError);
        save_and_retry vm
  | Ok d =>
      match ps_Runtime (provider_Status (dep_provider d)) with
      | None => Crash "nil Provider.Status.Runtime"
      | Some _ =>
          i ← getProviderInstance r (dep_provider d);
          match i with
          | Err err =>
              vm ← SetReadyCondition vm ConditionFalse ReasonProviderError (Error err);
              _ ← do_ (RecordError errReasonProviderResolve);
              save_and_retry vm
          | Ok inst => reconcileWithImage vm inst d
          end
      end
  end.

(** ** Deletion *)

(** Remove the VM from its provider: whether the finalizer may go, or the
    result to return while it is retained. *)
Definition deleteFromProvider (r : VirtualMachineReconciler) (vm : VirtualMachine)
    : M (option reconcile_result) :=
  let ref := spec_ProviderRef (vm_Spec vm) in
  if negb (is_empty (status_ID (vm_Status vm))) && negb (is_empty (ref_Name ref)) then
    p ← do_ (GetProviderCR (key_of ref (meta_Namespace (vm_meta vm))));
    match p with
    | Err err =>
        if negb (api_IsNotFound err) then
          _ ← do_ (RecordError errReasonDepsError);
          Ret (Some requeue5s)
        else Ret None
    | Ok provider =>
        i ← getProviderInstance r provider;
        match i with
        | Err _ =>
            _ ← do_ (RecordError errReasonProviderResolve);
            Ret None
        | Ok inst =>
            t ← do_ (ProviderDelete inst (status_ID (vm_Status vm)));
            match t with
            | Ok _ => Ret None
            | Err err =>
                if IsNotFound err then Ret None
                else if hasForceDeleteAnnotation vm then
                  _ ← do_ (RecordError errReasonProviderDelete);
                  Ret None
                else
                  _ ← do_ (RecordError errReasonProviderDelete);
                  Ret (Some (requeue_after vmDeleteRetryInterval, None))
            end
        end
    end
  else Ret None.

(** Drop the finalizer; the API server then removes the object. *)
Definition releaseFinalizer (vm : VirtualMachine) : M reconcile_result :=
  e ← k8s_RemoveFinalizer vm VirtualMachineFinalizer;
  match e with
  | Some err =>
      _ ← do_ (RecordError errReasonRemoveFinalizer);
      Ret (no_result, Some err)
  | None => Ret (no_result, None)
  end.

Definition handleDeletion (r : VirtualMachineReconciler) (vm : VirtualMachine)
    : M reconcile_result :=
  if negb (HasFinalizer vm) then Ret (no_result, None)
  else
    retained ← deleteFromProvider r vm;
    match retained with
    | Some res => Ret res
    | None => releaseFinalizer vm
    end.

(** ** [Reconcile] *)
Definition Reconcile (r : VirtualMachineReconciler) (req : NamespacedName) : M reconcile_result :=
  g ← do_ (GetVM req);
  match g with
  | Err err =>
      if api_IsNotFound err then Ret (no_result, None)
      else
        _ ← do_ (RecordError errReasonGetVM);
        Ret (no_result, Some err)
  | Ok vm =>
      if IsBeingDeleted vm then handleDeletion r vm
      else if negb (HasFinalizer vm) then
        e ← k8s_AddFinalizer vm VirtualMachineFinalizer;
        match e with
        | Some err =>
            _ ← do_ (RecordError errReasonAddFinalizer);
            Ret (no_result, Some err)
        | None => Ret (requeue_now, None)
        end
      else reconcileVM r vm
  end.
End Reconciler.
