(* ===== verification/VirtualMachineSpec.v ===== *)
(** * VirtualMachineSpec: what the VirtualMachine reconciler guarantees *)
From S2P Require Import Prelude Contracts K8s Api Effects ImagePrepare CreateRequest VirtualMachine.
From stdpp Require Import base gmap strings list.
From Stdlib Require Import ZArith Lia.
Import v1beta1.
Import Contracts.

(** Writes: calls that change the hypervisor or a VirtualMachine object. *)
Definition vm_write (c : call) : bool :=
  mutates_hypervisor c || is_update c || is_status_update c.

Abbreviation writes := (calls vm_write).

Section Silence.
Context `{LibrariesOk}.

Lemma silent_set_condition f t vm s reason msg :
  f Now = false -> silent f (set_condition t vm s reason msg).
Proof. intros Hf. unfold set_condition. solve_silent. Qed.

Lemma silent_set_image_condition f img t s reason msg :
  f Now = false -> silent f (set_image_condition img t s reason msg).
Proof. intros Hf. unfold set_image_condition. solve_silent. Qed.
#[local] Hint Extern 1 (silent _ (set_image_condition _ _ _ _ _)) =>
  apply silent_set_image_condition; reflexivity : silent.

Lemma silent_writeImageStatus img mutate :
  (forall i, silent vm_write (mutate i)) -> silent vm_write (writeImageStatus img mutate).
Proof.
  intros Hm. unfold writeImageStatus. apply silent_bind; [|solve_silent].
  apply silent_RetryOnConflict. solve_silent.
Qed.
#[local] Hint Resolve silent_writeImageStatus : silent.

Lemma EnsureImageOnProvider_silent vm img p inst :
  silent vm_write (EnsureImageOnProvider vm img p inst).
Proof.
  unfold EnsureImageOnProvider, ensure_missing, hold_image, poll_prepare_task, trigger_prepare,
    markImagePreparing, markImagePrepared, record_import_started.
  solve_silent; apply silent_writeImageStatus; solve_silent.
Qed.

Lemma buildCreateRequest_silent vm pn cls img nets :
  silent vm_write (buildCreateRequest vm pn cls img nets).
Proof.
  unfold buildCreateRequest, resolve_user_data, resolve_meta_data,
    resolveCloudInitUserData, resolveCloudInitMetaData.
  solve_silent.
Qed.

Lemma getNetworks_silent ns refs : silent vm_write (getNetworks ns refs).
Proof. induction refs as [|r refs IH]; cbn [getNetworks]; solve_silent. Qed.
#[local] Hint Resolve getNetworks_silent : silent.

Lemma getDependencies_silent vm : silent vm_write (getDependencies vm).
Proof. unfold getDependencies, getImage. solve_silent. Qed.

Lemma getProviderInstance_silent r p : silent vm_write (getProviderInstance r p).
Proof. unfold getProviderInstance. solve_silent. Qed.
End Silence.
#[export] Hint Resolve EnsureImageOnProvider_silent buildCreateRequest_silent
  getDependencies_silent getProviderInstance_silent : silent.

(** Enter the next step of a handler; a sub-program known to make no write
    contributes a trace without writes. *)
Ltac write_step :=
  lazymatch goal with
  | |- wp (mbind _ (trigger _)) _ => wp_step
  | |- wp (mbind _ (set_condition _ _ _ _ _)) _ => unfold set_condition
  | |- wp (mbind _ (SetReadyCondition _ _ _ _)) _ => unfold SetReadyCondition
  | |- wp (mbind _ (SetProvisioningCondition _ _ _ _)) _ => unfold SetProvisioningCondition
  | |- wp (mbind _ (SetReconfiguringCondition _ _ _ _)) _ => unfold SetReconfiguringCondition
  | |- wp (mbind _ (updateStatus _)) _ => unfold updateStatus
  | |- wp (save_and_retry _) _ => unfold save_and_retry
  | |- wp (mbind _ (mbind _ _)) _ => wp_step
  | |- wp (mbind _ (Ret _)) _ => wp_step
  | |- wp (mbind _ _) _ => fail
  | |- _ => wp_step
  end.
Ltac write_steps := repeat (write_step; cbn beta zeta).

(** The writes of a trace whose opaque parts have none. *)
Ltac trace_simpl :=
  repeat first [rewrite !calls_app | rewrite !calls_cons | rewrite !calls_nil
               | rewrite !occurs_app | rewrite !occurs_cons | rewrite !occurs_nil
               | match goal with Htr : calls _ ?tr = [] |- context [calls _ ?tr] => rewrite Htr end
               | progress cbn [projT1 ev app orb
                   vm_write mutates_hypervisor is_create is_delete is_power is_reconfigure
                   is_update is_status_update]].

(** The Ready condition a VM carries. *)
Definition ready (vm : VirtualMachine) : bool :=
  IsConditionTrue (status_Conditions (vm_Status vm)) ConditionReady.

(** Close a goal about [ready] after conditions were set. *)
Ltac ready_tac :=
  first [done
        | apply has_status_SetCondition_ne; done
        | etransitivity; [apply SetCondition_status|reflexivity]
        | let Hr := fresh in
          intros Hr; rewrite <- Hr; symmetry; apply has_status_SetCondition_ne; done
        | let Hr := fresh in
          intros Hr; exfalso; apply (eq_true_false_abs _ Hr);
          etransitivity; [apply SetCondition_status|reflexivity]].

(** ** Creation *)
Section Create.
Context `{LibrariesOk}.
Context (vm : VirtualMachine) (inst : ProviderInstance) (providerName : string)
  (vmClass : v1beta1.VMClass) (vmImage : option v1beta1.VMImage)
  (networks : list (option VMNetworkAttachment)).

(** Exactly one of [imageRef] and [importedDisk] is given. *)
Definition one_source : bool :=
  match spec_ImageRef (vm_Spec vm), spec_ImportedDisk (vm_Spec vm) with
  | Some _, None | None, Some _ => true
  | _, _ => false
  end.

(** The request that is sent: everything but the cloud-init payloads, which
    come from secrets, is a function of the VM and its dependencies. *)
Definition request_for (req : CreateRequest) : Prop :=
  req_Name req = meta_Name (vm_meta vm)
  /\ req_Class req = convert_class (class_Spec vmClass)
  /\ req_Image req = convert_image vm vmImage providerName
  /\ req_Networks req = convert_networks (spec_Networks (vm_Spec vm)) networks.

(** What [createVM] may do, as the list of its writes and its result. *)
Inductive create_spec : trace -> outcome reconcile_result -> Prop :=
  | create_invalid vm' a m :
      one_source = false -> status_ID (vm_Status vm') = status_ID (vm_Status vm) ->
      ready vm' = ready vm ->
      create_spec [ev (StatusUpdateVM vm') a] (Done (no_result, Some (ENew m)))
  | create_not_built vm' a :
      one_source = true -> status_ID (vm_Status vm') = status_ID (vm_Status vm) ->
      ready vm' = ready vm ->
      create_spec [ev (StatusUpdateVM vm') a] (Done requeue5s)
  | create_failed req e vm' a :
      one_source = true -> request_for req ->
      status_ID (vm_Status vm') = status_ID (vm_Status vm) ->
      IsConditionFalse (status_Conditions (vm_Status vm')) ConditionProvisioning = true ->
      ready vm' = ready vm ->
      create_spec [ev (ProviderCreate inst req) (Err e); ev (StatusUpdateVM vm') a] (Done requeue5s)
  | create_done req resp vm' a :
      one_source = true -> request_for req ->
      status_ID (vm_Status vm') = resp_ID resp ->
      (resp_TaskRef resp <> "" -> status_LastTaskRef (vm_Status vm') = resp_TaskRef resp) ->
      (resp_TaskRef resp = "" ->
         status_LastTaskRef (vm_Status vm') = status_LastTaskRef (vm_Status vm)) ->
      getCurrentCPU vm' = desiredCPU vm vmClass ->
      getCurrentMemoryMiB vm' = desiredMemoryMiB vm vmClass ->
      vm_Spec vm' = vm_Spec vm ->
      ready vm' = ready vm ->
      create_spec [ev (ProviderCreate inst req) (Ok resp); ev (StatusUpdateVM vm') a] (Done requeue5s).

Lemma resolve_user_data_total :
  wp (resolve_user_data vm) (fun tr o => calls vm_write tr = [] /\ exists r, o = Done r).
Proof.
  unfold resolve_user_data, resolveCloudInitUserData. wp_steps; cbn; eauto.
Qed.

Lemma resolve_meta_data_total :
  wp (resolve_meta_data vm) (fun tr o => calls vm_write tr = [] /\ exists r, o = Done r).
Proof.
  unfold resolve_meta_data, resolveCloudInitMetaData. wp_steps; cbn; eauto.
Qed.

Lemma buildCreateRequest_spec :
  wp (buildCreateRequest vm providerName vmClass vmImage networks) (fun tr o =>
    calls vm_write tr = [] /\ exists r, o = Done r /\ forall req, r = Ok req -> request_for req).
Proof.
  unfold buildCreateRequest.
  wp_use resolve_user_data_total. intros tr o [Htr [[u|e] ->]]; cbn;
    [|rewrite app_nil_r; split; [done|]; by eexists].
  wp_use resolve_meta_data_total. intros tr' o [Htr' [[m|e] ->]]; cbn;
    trace_simpl; (split; [done|]); eexists; (split; [done|]); by intros req [= <-].
Qed.

Lemma createVM_meets_spec :
  wp (createVM vm inst providerName vmClass vmImage networks)
     (fun tr o => create_spec (writes tr) o).
Proof.
  unfold createVM.
  destruct (spec_ImageRef (vm_Spec vm)) eqn:Hi, (spec_ImportedDisk (vm_Spec vm)) eqn:Hd; cbn zeta.
  1, 4: write_steps; trace_simpl; apply create_invalid;
    [unfold one_source; by rewrite Hi, Hd|done|ready_tac].
  all: assert (one_source = true) as Hone by (unfold one_source; by rewrite Hi, Hd).
  all: wp_use buildCreateRequest_spec; intros tr oo (Htr & [req|e] & -> & Hreq); cbn [bind_post].
  all: write_steps; trace_simpl.
  all: try (apply create_not_built; [done|done|ready_tac]).
  all: first [apply create_done | apply create_failed]; emptiness; try done; try (by apply Hreq).
  all: first [ready_tac | unfold IsConditionFalse; etransitivity; [apply SetCondition_status|done]].
Qed.
End Create.

(** ** Answers the reconciler acted on *)
Definition describe_answer (x : event call answer) : option (string * DescribeResponse) :=
  match projT1 x as c return answer c -> option (string * DescribeResponse) with
  | ProviderDescribe _ id => fun r => match r with Ok d => Some (id, d) | Err _ => None end
  | _ => fun _ => None
  end (projT2 x).

(** The tasks the provider reported complete. *)
Definition complete_answer (x : event call answer) : option string :=
  match projT1 x as c return answer c -> option string with
  | ProviderIsTaskComplete _ ref => fun r => match r with Ok true => Some ref | _ => None end
  | _ => fun _ => None
  end (projT2 x).

Definition described (tr : trace) : list (string * DescribeResponse) := omap describe_answer tr.
Definition completed (tr : trace) : list string := omap complete_answer tr.

Lemma described_app tr1 tr2 : described (tr1 ++ tr2) = described tr1 ++ described tr2.
Proof. apply omap_app. Qed.
Lemma completed_app tr1 tr2 : completed (tr1 ++ tr2) = completed tr1 ++ completed tr2.
Proof. apply omap_app. Qed.

Definition is_describe (c : call) : bool :=
  match c with ProviderDescribe _ _ => true | _ => false end.

Lemma described_silent tr : occurs is_describe tr = false -> described tr = [].
Proof.
  induction tr as [|[c r] tr IH]; [done|]. cbn. intros [Hc Ht]%orb_false_iff.
  by destruct c; try (apply IH).
Qed.

Lemma described_cons x tr :
  described (x :: tr) = match describe_answer x with
                        | Some y => y :: described tr
                        | None => described tr
                        end.
Proof. reflexivity. Qed.
Lemma completed_cons x tr :
  completed (x :: tr) = match complete_answer x with
                        | Some y => y :: completed tr
                        | None => completed tr
                        end.
Proof. reflexivity. Qed.
Lemma described_nil : described [] = [].
Proof. reflexivity. Qed.
Lemma completed_nil : completed [] = [].
Proof. reflexivity. Qed.

Ltac answers_simpl :=
  repeat first [rewrite !described_app | rewrite !completed_app
               | rewrite !described_cons | rewrite !completed_cons
               | rewrite !described_nil | rewrite !completed_nil
               | match goal with Htr : described ?tr = [] |- context [described ?tr] => rewrite Htr end
               | match goal with Htr : completed ?tr = [] |- context [completed ?tr] => rewrite Htr end
               | progress cbn [describe_answer complete_answer projT1 projT2 ev app]].

(** The state the controller records after a Describe. *)
Definition observed (vm : VirtualMachine) (desc : DescribeResponse) : VirtualMachine :=
  vm <| vm_Status := vm_Status vm
    <| status_PowerState := desc_PowerState desc |>
    <| status_IPs := IPs desc |>
    <| status_ConsoleURL := ConsoleURL desc |>
    <| status_Provider := ProviderRaw desc |> |>.

Definition desired_power (vm : VirtualMachine) : string :=
  if is_empty (spec_PowerState (vm_Spec vm)) then v1beta1.PowerStateOn
  else spec_PowerState (vm_Spec vm).

(** ** Power *)
Inductive power_spec (vm : VirtualMachine) (inst : ProviderInstance) (desired : string)
    : trace -> outcome reconcile_result -> Prop :=
  | power_unsupported :
      power_op desired = None -> power_spec vm inst desired [] (Done requeue5s)
  | power_failed op e vm' a :
      power_op desired = Some op ->
      ready vm' = false ->
      power_spec vm inst desired
        [ev (ProviderPower inst (status_ID (vm_Status vm)) op) (Err e); ev (StatusUpdateVM vm') a]
        (Done requeue5s)
  | power_started op taskRef vm' a :
      power_op desired = Some op ->
      status_ID (vm_Status vm') = status_ID (vm_Status vm) ->
      ready vm' = ready vm ->
      (taskRef <> "" -> status_LastTaskRef (vm_Status vm') = taskRef) ->
      power_spec vm inst desired
        [ev (ProviderPower inst (status_ID (vm_Status vm)) op) (Ok taskRef); ev (StatusUpdateVM vm') a]
        (Done requeue5s).

Lemma adjustPowerState_meets_spec `{Libraries} vm inst desired :
  wp (adjustPowerState vm inst desired) (fun tr o =>
    power_spec vm inst desired (writes tr) o /\ described tr = [] /\ completed tr = []).
Proof.
  unfold adjustPowerState. write_steps; answers_simpl; trace_simpl; (split; [|done]).
  - apply power_started; [done|done|ready_tac|done].
  - emptiness. subst. by apply power_started.
  - apply power_failed; [done|ready_tac].
  - by apply power_unsupported.
Qed.

(** ** Reconfiguration *)
Inductive reconfigure_spec (vm : VirtualMachine) (inst : ProviderInstance) (providerName : string)
    (d : dependencies) : trace -> outcome reconcile_result -> Prop :=
  | reconfigure_not_built e :
      reconfigure_spec vm inst providerName d [] (Done (no_result, Some e))
  | reconfigure_failed req e vm' a :
      request_for vm providerName (dep_class d) (dep_image d) (dep_networks d) req ->
      status_CurrentResources (vm_Status vm') = status_CurrentResources (vm_Status vm) ->
      ready vm' = ready vm ->
      reconfigure_spec vm inst providerName d
        [ev (ProviderReconfigure inst (status_ID (vm_Status vm)) req) (Err e);
         ev (StatusUpdateVM vm') a] (Done requeue5s)
  | reconfigure_async req taskRef vm' a :
      request_for vm providerName (dep_class d) (dep_image d) (dep_networks d) req ->
      taskRef <> "" ->
      status_ReconfigureTaskRef (vm_Status vm') = taskRef ->
      status_Phase (vm_Status vm') = VirtualMachinePhaseReconfiguring ->
      status_CurrentResources (vm_Status vm') = status_CurrentResources (vm_Status vm) ->
      ready vm' = ready vm ->
      reconfigure_spec vm inst providerName d
        [ev (ProviderReconfigure inst (status_ID (vm_Status vm)) req) (Ok taskRef);
         ev (StatusUpdateVM vm') a] (Done requeue5s)
  | reconfigure_sync req vm' a :
      request_for vm providerName (dep_class d) (dep_image d) (dep_networks d) req ->
      getCurrentCPU vm' = desiredCPU vm (dep_class d) ->
      getCurrentMemoryMiB vm' = desiredMemoryMiB vm (dep_class d) ->
      status_Phase (vm_Status vm') = VirtualMachinePhaseRunning ->
      ready vm' = true ->
      reconfigure_spec vm inst providerName d
        [ev (ProviderReconfigure inst (status_ID (vm_Status vm)) req) (Ok "");
         ev (StatusUpdateVM vm') a] (Done requeue5s).

Definition is_poll (c : call) : bool :=
  match c with ProviderDescribe _ _ | ProviderIsTaskComplete _ _ => true | _ => false end.

Lemma no_polls tr : occurs is_poll tr = false -> described tr = [] /\ completed tr = [].
Proof.
  induction tr as [|[c r] tr IH]; [done|]. cbn. intros [Hc Ht]%orb_false_iff.
  by destruct c; try (apply IH).
Qed.

Section Stages.
Context `{LibrariesOk}.

Lemma buildCreateRequest_no_poll vm pn cls img nets :
  silent is_poll (buildCreateRequest vm pn cls img nets).
Proof.
  unfold buildCreateRequest, resolve_user_data, resolve_meta_data,
    resolveCloudInitUserData, resolveCloudInitMetaData.
  solve_silent.
Qed.
#[local] Hint Resolve buildCreateRequest_no_poll : silent.
#[local] Hint Extern 1 (silent _ (SetProvisioningCondition _ _ _ _)) =>
  apply silent_set_condition; reflexivity : silent.

Lemma createVM_no_poll vm inst pn cls img nets :
  wp (createVM vm inst pn cls img nets) (fun tr _ => described tr = [] /\ completed tr = []).
Proof.
  assert (silent is_poll (createVM vm inst pn cls img nets)) as Hs.
  { unfold createVM, save_and_retry, updateStatus. solve_silent. }
  eapply wp_mono; [exact Hs|]. intros tr o. apply no_polls.
Qed.

Lemma reconfigureVM_meets_spec vm inst pn d :
  wp (reconfigureVM vm inst pn (dep_class d) (dep_image d) (dep_networks d)) (fun tr o =>
    reconfigure_spec vm inst pn d (writes tr) o /\ described tr = [] /\ completed tr = []).
Proof.
  unfold reconfigureVM. apply wp_bind.
  eapply wp_mono; [apply (wp_and _ _ _ (buildCreateRequest_no_poll _ _ _ _ _)
                            (buildCreateRequest_spec _ _ _ _ _))|].
  intros tr o [[Hd Hc]%no_polls (Htr & [req|e] & -> & Hreq)]; cbn [bind_post]; write_steps;
    answers_simpl; trace_simpl; (split; [|done]).
  - apply reconfigure_async; emptiness; try done; [by apply Hreq|ready_tac].
  - emptiness. subst. apply reconfigure_sync; try done; [by apply Hreq|].
    apply SetCondition_true.
  - apply reconfigure_failed; [by apply Hreq|done|ready_tac].
  - apply reconfigure_not_built.
Qed.
End Stages.

(** ** Converging an existing VM *)
Definition without_id (vm : VirtualMachine) : VirtualMachine :=
  vm <| vm_Status := vm_Status vm <| status_ID := "" |> |>.

Inductive existing_spec (vm : VirtualMachine) (inst : ProviderInstance) (d : dependencies)
    : trace -> list (string * DescribeResponse) -> outcome reconcile_result -> Prop :=
  | existing_unknown vm' a :
      status_ID (vm_Status vm') = status_ID (vm_Status vm) ->
      ready vm' = false ->
      existing_spec vm inst d [ev (StatusUpdateVM vm') a] [] (Done requeue5s)
  | existing_gone desc ws o :
      Exists desc = false ->
      create_spec (without_id vm) inst (provider_Name (dep_provider d))
        (dep_class d) (dep_image d) (dep_networks d) ws o ->
      existing_spec vm inst d ws [(status_ID (vm_Status vm), desc)] o
  | existing_power desc ws o :
      Exists desc = true ->
      desc_PowerState desc <> desired_power vm ->
      power_spec (observed vm desc) inst (desired_power vm) ws o ->
      existing_spec vm inst d ws [(status_ID (vm_Status vm), desc)] o
  | existing_reconfigure desc ws o :
      Exists desc = true ->
      desc_PowerState desc = desired_power vm ->
      needsReconfigure vm (dep_class d) = true ->
      reconfigure_spec (observed vm desc) inst (provider_Name (dep_provider d)) d ws o ->
      existing_spec vm inst d ws [(status_ID (vm_Status vm), desc)] o
  | existing_ready desc vm' a :
      Exists desc = true ->
      desc_PowerState desc = desired_power vm ->
      needsReconfigure vm (dep_class d) = false ->
      ready vm' = true ->
      status_PowerState (vm_Status vm') = desired_power vm ->
      status_ID (vm_Status vm') = status_ID (vm_Status vm) ->
      existing_spec vm inst d [ev (StatusUpdateVM vm') a] [(status_ID (vm_Status vm), desc)]
        (Done (requeue_after (getRequeueInterval desc), None)).

(** Making sure the VM exists. *)
Inductive ensure_spec (vm : VirtualMachine) (inst : ProviderInstance) (d : dependencies)
    : trace -> list (string * DescribeResponse) -> outcome reconcile_result -> Prop :=
  | ensure_adopted vm' a :
      status_ID (vm_Status vm) = "" -> vmIsAdopted vm = true ->
      status_ID (vm_Status vm') = "" -> ready vm' = ready vm ->
      ensure_spec vm inst d [ev (StatusUpdateVM vm') a] [] (Done requeue5s)
  | ensure_create ws o :
      status_ID (vm_Status vm) = "" -> vmIsAdopted vm = false ->
      create_spec vm inst (provider_Name (dep_provider d))
        (dep_class d) (dep_image d) (dep_networks d) ws o ->
      ensure_spec vm inst d ws [] o
  | ensure_existing ws ds o :
      status_ID (vm_Status vm) <> "" ->
      existing_spec vm inst d ws ds o ->
      ensure_spec vm inst d ws ds o.

(** The parts of a VM that identify it across the stages of one reconcile. *)
Definition same_vm (vm vm1 : VirtualMachine) : Prop :=
  vm_meta vm1 = vm_meta vm /\ vm_Spec vm1 = vm_Spec vm
  /\ status_ID (vm_Status vm1) = status_ID (vm_Status vm)
  /\ ready vm1 = ready vm.

(** Every task the VM had outstanding was reported complete. *)
Definition tasks_done (vm : VirtualMachine) (cs : list string) : Prop :=
  (status_LastTaskRef (vm_Status vm) <> "" -> status_LastTaskRef (vm_Status vm) ∈ cs)
  /\ (status_ReconfigureTaskRef (vm_Status vm) <> "" ->
        status_ReconfigureTaskRef (vm_Status vm) ∈ cs).

(** Waiting: only the status is written. *)
Definition waits (vm : VirtualMachine) (ws : trace) (ds : list (string * DescribeResponse))
    (o : outcome reconcile_result) : Prop :=
  exists vm' a, ws = [ev (StatusUpdateVM vm') a] /\ o = Done requeue5s /\ ds = []
    /\ status_ID (vm_Status vm') = status_ID (vm_Status vm)
    /\ (ready vm' = true -> ready vm = true).

Section Stages2.
Context `{LibrariesOk}.

Lemma reconcileExisting_meets_spec vm inst d :
  wp (reconcileExisting vm inst d) (fun tr o =>
    existing_spec vm inst d (writes tr) (described tr) o /\ completed tr = []).
Proof.
  unfold reconcileExisting, recordIPDiscoveryIfFirstSeen. wp_step. wp_step.
  destruct r as [desc|err]; cbn [bind_post].
  2:{ write_steps; answers_simpl; trace_simpl. split; [|done].
      apply existing_unknown; [done|ready_tac]. }
  destruct (Exists desc) eqn:Hex; cbn [negb].
  2:{ eapply wp_mono; [apply (wp_and _ _ _ (createVM_no_poll _ _ _ _ _ _)
                                (createVM_meets_spec _ _ _ _ _ _))|].
      intros tr o [[Hd Hc] Hs]. answers_simpl; trace_simpl. split; [|done].
      by apply existing_gone. }
  apply wp_bind. eapply wp_mono with (Q := fun tr o =>
    writes tr = [] /\ described tr = [] /\ completed tr = [] /\ o = Done tt).
  { wp_steps; try done. by destruct r. }
  intros tr o (Hw & Hd & Hc & ->). cbn [bind_post]. fold (observed vm desc).
  change (if is_empty (spec_PowerState (vm_Spec (observed vm desc))) then v1beta1.PowerStateOn
          else spec_PowerState (vm_Spec (observed vm desc))) with (desired_power vm).
  case_bool_decide as Hp; cbn [negb].
  2:{ eapply wp_mono; [apply adjustPowerState_meets_spec|]. intros tr' o (Hs & Hd' & Hc').
      answers_simpl; trace_simpl. split; [|done]. by apply existing_power. }
  destruct (needsReconfigure _ _) eqn:Hn.
  { eapply wp_mono; [apply reconfigureVM_meets_spec|]. intros tr' o (Hs & Hd' & Hc').
    answers_simpl; trace_simpl. split; [|done]. by apply existing_reconfigure. }
  write_steps; answers_simpl; trace_simpl. split; [|done].
  apply existing_ready; try done.
  etransitivity; [by apply has_status_SetCondition_ne|apply SetCondition_true].
Qed.

Lemma ensureExists_meets_spec vm inst d :
  wp (ensureExists vm inst d) (fun tr o =>
    ensure_spec vm inst d (writes tr) (described tr) o /\ completed tr = []).
Proof.
  unfold ensureExists. destruct (is_empty _) eqn:Hid; emptiness.
  - destruct (vmIsAdopted vm) eqn:Ha.
    + write_steps; answers_simpl; trace_simpl. split; [|done].
      apply ensure_adopted; [done|done|done|ready_tac].
    + eapply wp_mono; [apply (wp_and _ _ _ (createVM_no_poll _ _ _ _ _ _)
                                (createVM_meets_spec _ _ _ _ _ _))|].
      intros tr o [[Hd Hc] Hs]. rewrite Hd. split; [|done]. by apply ensure_create.
  - eapply wp_mono; [apply reconcileExisting_meets_spec|].
    intros tr o [Hs Hc]. split; [|done]. by apply ensure_existing.
Qed.

(** Past the outstanding reconfigure task, the VM is converged. *)
Definition past_reconfigure (vm : VirtualMachine) (inst : ProviderInstance) (d : dependencies)
    (tr : trace) (o : outcome reconcile_result) : Prop :=
  exists vm1, same_vm vm vm1
    /\ (status_ReconfigureTaskRef (vm_Status vm) <> "" ->
           status_ReconfigureTaskRef (vm_Status vm) ∈ completed tr)
    /\ ensure_spec vm1 inst d (writes tr) (described tr) o.

Lemma checkReconfigureTask_meets_spec vm inst d :
  wp (checkReconfigureTask vm inst d) (fun tr o =>
    waits vm (writes tr) (described tr) o \/ past_reconfigure vm inst d tr o).
Proof.
  unfold checkReconfigureTask. destruct (is_empty _) eqn:Href; emptiness.
  { eapply wp_mono; [apply ensureExists_meets_spec|]. intros tr o [Hs _]. right.
    exists vm. by split_and!. }
  wp_step. wp_step. destruct r as [[|]|err]; cbn [bind_post].
  - write_steps. wp_use ensureExists_meets_spec. intros tr o [Hs Hc]. right.
    eexists. split; [|split; [|]].
    3:{ answers_simpl; trace_simpl. exact Hs. }
    { split_and!; [done|done|done|ready_tac]. }
    intros _. answers_simpl. by left.
  - write_steps. left. do 2 eexists. answers_simpl; trace_simpl. split_and!; [done|done|done|done|ready_tac].
  - write_steps. left. do 2 eexists. answers_simpl; trace_simpl. split_and!; [done|done|done|done|ready_tac].
Qed.

(** Past both outstanding tasks. *)
Definition past_tasks (vm : VirtualMachine) (inst : ProviderInstance) (d : dependencies)
    (tr : trace) (o : outcome reconcile_result) : Prop :=
  exists vm1, same_vm vm vm1 /\ tasks_done vm (completed tr)
    /\ ensure_spec vm1 inst d (writes tr) (described tr) o.

Lemma checkLastTask_meets_spec vm inst d :
  wp (checkLastTask vm inst d) (fun tr o =>
    waits vm (writes tr) (described tr) o \/ past_tasks vm inst d tr o).
Proof.
  unfold checkLastTask. destruct (is_empty _) eqn:Href; emptiness.
  { wp_use checkReconfigureTask_meets_spec.
    intros tr o [(vm' & a & -> & -> & Hd & Hid & Hr)|(vm1 & Hsame & Hc & Hs)].
    - left. by exists vm', a.
    - right. exists vm1. by split_and!. }
  wp_step. wp_step. destruct r as [[|]|err]; cbn [bind_post].
  - wp_use checkReconfigureTask_meets_spec.
    intros tr o [(vm' & a & Hw & -> & Hd & Hid & Hr)|(vm1 & Hsame & Hc & Hs)].
    + left. exists vm', a. answers_simpl; trace_simpl. by split_and!.
    + right. exists vm1. split_and!; [done| |by answers_simpl; trace_simpl].
      split; intros Hr; answers_simpl; [by left|right; by apply Hc].
  - write_steps. left. do 2 eexists. answers_simpl; trace_simpl. split_and!; [done|done|done|done|ready_tac].
  - write_steps. left. do 2 eexists. answers_simpl; trace_simpl. split_and!; [done|done|done|done|ready_tac].
Qed.
End Stages2.

(** ** The image gate *)
Section Image.
Context `{LibrariesOk}.

Lemma tasks_done_app vm cs cs' : tasks_done vm cs' -> tasks_done vm (cs ++ cs').
Proof. intros [Ha Hb]. split; intros Hr; apply elem_of_app; right; auto. Qed.

Lemma wp_Retry_total (f : M (res v1beta1.VMImage)) :
  wp f (fun _ o => exists r, o = Done r) -> wp (RetryOnConflict f) (fun _ o => exists r, o = Done r).
Proof.
  intros Hf. apply wp_RetryOnConflict. intros tr1 tr2 o _ Hr.
  exact (proj1 (wp_runs f _) Hf tr2 o Hr).
Qed.

Lemma writeImageStatus_total img mutate :
  (forall i, wp (mutate i) (fun _ o => exists r, o = Done r)) ->
  wp (writeImageStatus img mutate) (fun _ o => exists r, o = Done r).
Proof.
  intros Hm. unfold writeImageStatus. apply wp_bind. eapply wp_mono; [apply wp_Retry_total|].
  - wp_step. wp_step. destruct r as [latest|e]; cbn [bind_post]; [|wp_steps; eauto].
    wp_use Hm. intros tr o [i ->]. wp_steps. eauto.
  - intros tr o [[i|e] ->]; wp_steps; eauto.
Qed.

Lemma EnsureImageOnProvider_total vm img p inst :
  wp (EnsureImageOnProvider vm img p inst) (fun _ o =>
    exists e img', o = Done (e, img') /\ (is_Some img -> is_Some img')
      /\ (img = None -> e = EnsureProceed)).
Proof.
  unfold EnsureImageOnProvider. destruct img as [i|]; [|wp_steps; eauto 10].
  destruct (prepare_not_needed _ _ _ _); [wp_steps; by eauto 10|].
  apply wp_bind. eapply wp_mono with (Q := fun _ o => exists r, o = Done r).
  2:{ intros tr o [r ->]. wp_steps. do 2 eexists. split_and!; [done|by eauto|done]. }
  unfold ensure_missing, hold_image, poll_prepare_task, trigger_prepare,
    markImagePreparing, markImagePrepared, record_import_started.
  repeat lazymatch goal with
  | |- wp (mbind _ (writeImageStatus _ _)) _ =>
      wp_use writeImageStatus_total;
        [intros; unfold set_image_condition; wp_steps; eauto | intros ? ? [[?|?] ->]]
  | _ => wp_step; cbn beta zeta
  end; eauto.
Qed.

Lemma EnsureImageOnProvider_no_describe vm img p inst :
  silent is_describe (EnsureImageOnProvider vm img p inst).
Proof.
  unfold EnsureImageOnProvider, ensure_missing, hold_image, poll_prepare_task, trigger_prepare,
    markImagePreparing, markImagePrepared, record_import_started, writeImageStatus,
    set_image_condition.
  solve_silent.
Qed.
End Image.

(** ** The whole reconcile of a live VM *)

(** Nothing but the status is written, and the ID on record is kept. *)
Definition only_saves (vm : VirtualMachine) (ws : trace) (ds : list (string * DescribeResponse))
    (o : outcome reconcile_result) : Prop :=
  exists vm' a d, ws = [ev (StatusUpdateVM vm') a] /\ o = Done (requeue_after d, None) /\ ds = []
    /\ status_ID (vm_Status vm') = status_ID (vm_Status vm)
    /\ (ready vm' = true -> ready vm = true)
    /\ (d = 5 * second \/ d = 30 * second)%Z.

Lemma waits_only_saves vm ws ds o : waits vm ws ds o -> only_saves vm ws ds o.
Proof.
  intros (vm' & a & -> & -> & -> & Hid & Hr). exists vm', a, (5 * second)%Z. auto 10.
Qed.

Section Live.
Context `{LibrariesOk}.

Lemma reconcileWithImage_meets_spec vm inst d :
  wp (reconcileWithImage vm inst d) (fun tr o =>
    only_saves vm (writes tr) (described tr) o
    \/ exists img, past_tasks vm inst (mkDeps (dep_provider d) (dep_class d) img (dep_networks d)) tr o).
Proof.
  unfold reconcileWithImage. apply wp_bind.
  eapply wp_mono; [apply (wp_and _ _ _ (silent_calls vm_write _ (EnsureImageOnProvider_silent _ _ _ _))
     (wp_and _ _ _ (EnsureImageOnProvider_no_describe vm (dep_image d) (dep_provider d) inst)
                   (EnsureImageOnProvider_total vm (dep_image d) (dep_provider d) inst)))|].
  intros tr o (Hw & Hd%described_silent & e & img' & -> & Hsome & Hnone). cbn [bind_post].
  destruct e as [| |err].
  - wp_use checkLastTask_meets_spec. intros tr' o [Hwt|(vm1 & Hsame & Ht & Hs)].
    + left. answers_simpl; trace_simpl. by apply waits_only_saves.
    + right. exists img', vm1. split_and!; [done| |by answers_simpl; trace_simpl].
      rewrite completed_app. by apply tasks_done_app.
  - destruct (dep_image d) as [i|]; [|by discriminate Hnone].
    destruct img' as [i'|]; [|by destruct Hsome].
    unfold image_name. write_steps. left. do 3 eexists. answers_simpl; trace_simpl.
    split_and!; [done|done|done|done|ready_tac|by auto].
  - destruct (errors_Is _ _).
    + destruct (dep_image d) as [i|]; [|by discriminate Hnone].
      destruct img' as [i'|]; [|by destruct Hsome].
      unfold image_name. write_steps. left. do 3 eexists. answers_simpl; trace_simpl.
    split_and!; [done|done|done|done|ready_tac|by auto].
    + write_steps. left. do 3 eexists. answers_simpl; trace_simpl.
    split_and!; [done|done|done|done|ready_tac|by auto].
Qed.

(** What one reconcile of a live VM may do. *)
Inductive live_spec (r : VirtualMachineReconciler) (vm : VirtualMachine)
    : trace -> outcome reconcile_result -> Prop :=
  | live_saves tr o : only_saves vm (writes tr) (described tr) o -> live_spec r vm tr o
  | live_acts tr o vm1 inst d :
      same_vm vm vm1 -> tasks_done vm (completed tr) ->
      ensure_spec vm1 inst d (writes tr) (described tr) o ->
      live_spec r vm tr o
  | live_panics tr w :
      writes tr = [] -> described tr = [] -> live_spec r vm tr (Panicked w).

Lemma getNetworks_total ns refs :
  wp (getNetworks ns refs) (fun _ o => exists r, o = Done r).
Proof.
  induction refs as [|ref refs IH]; cbn [getNetworks]; [wp_steps; eauto|].
  destruct (vnr_NetworkRef ref).
  - wp_step. wp_step. destruct r as [net|e]; cbn [bind_post]; [|wp_steps; eauto].
    wp_use IH. intros tr oo [[nets|e] ->]; wp_steps; eauto.
  - wp_use IH. intros tr oo [[nets|e] ->]; wp_steps; eauto.
Qed.

Lemma getDependencies_total vm :
  wp (getDependencies vm) (fun _ o => exists r, o = Done r).
Proof.
  unfold getDependencies, getImage.
  repeat lazymatch goal with
  | |- wp (mbind _ (getNetworks _ _)) _ =>
      wp_use getNetworks_total; intros ? ? [[?|?] ->]
  | _ => wp_step; cbn beta zeta
  end; eauto.
Qed.

Lemma getNetworks_no_describe ns refs : silent is_describe (getNetworks ns refs).
Proof. induction refs as [|r refs IH]; cbn [getNetworks]; solve_silent. Qed.
#[local] Hint Resolve getNetworks_no_describe : silent.

Lemma getDependencies_no_describe vm : silent is_describe (getDependencies vm).
Proof. unfold getDependencies, getImage. solve_silent. Qed.

Lemma reconcileVM_meets_spec r vm : wp (reconcileVM r vm) (live_spec r vm).
Proof.
  unfold reconcileVM.
  set (vm0 := vm <| vm_Status := _ |>). apply wp_bind.
  eapply wp_mono; [apply (wp_and _ _ _ (silent_calls vm_write _ (getDependencies_silent vm0))
     (wp_and _ _ _ (getDependencies_no_describe vm0) (getDependencies_total vm0)))|].
  intros tr o (Hw & Hd%described_silent & [d|err] & ->); cbn [bind_post].
  2:{ destruct (_ || _); write_steps; apply live_saves; do 3 eexists; answers_simpl; trace_simpl;
      (split_and!; [done|done|done|done|ready_tac|by auto]). }
  destruct (ps_Runtime _); [|apply live_panics; by answers_simpl; trace_simpl].
  unfold getProviderInstance. apply wp_bind.
  eapply wp_mono with (Q := fun tr o => writes tr = [] /\ described tr = [] /\ exists r, o = Done r).
  { wp_steps; eauto. }
  intros tr' o (Hw' & Hd' & [inst|err] & ->); cbn [bind_post].
  2:{ write_steps; apply live_saves; do 3 eexists; answers_simpl; trace_simpl;
      (split_and!; [done|done|done|done|ready_tac|by auto]). }
  wp_use reconcileWithImage_meets_spec. intros tr'' o [Hs|(img & vm1 & Hsame & Ht & Hs)].
  - apply live_saves. by answers_simpl; trace_simpl.
  - eapply live_acts; [| |answers_simpl; trace_simpl; exact Hs]; [done|].
    rewrite !completed_app. by do 2 apply tasks_done_app.
Qed.
End Live.

(** ** Deletion *)

(** The calls of a deletion that decide the fate of the finalizer. *)
Definition deletion_call (c : call) : bool :=
  match c with
  | GetProviderCR _ | ResolveProvider _ | ProviderDelete _ _ | UpdateVM _ => true
  | _ => false
  end.

Section Deletion.
Context `{Libraries} (r : VirtualMachineReconciler) (vm : VirtualMachine).

Definition deletion_key : NamespacedName :=
  key_of (spec_ProviderRef (vm_Spec vm)) (meta_Namespace (vm_meta vm)).

(** The object written when the finalizer is dropped. *)
Definition released : VirtualMachine :=
  with_finalizers vm (RemoveFinalizer (meta_Finalizers (vm_meta vm)) VirtualMachineFinalizer).

(** The promise of a deletion, as the comment on [forceDeleteAnnotation] has it: the
    finalizer is dropped when there is no machine to speak of, when the Provider object is
    gone, or after the provider was asked to delete the machine and accepted, did not know
    it, or refused while the annotation is set. *)
Inductive deletion_spec : trace -> outcome reconcile_result -> Prop :=
  | deletion_no_finalizer :
      HasFinalizer vm = false -> deletion_spec [] (Done (no_result, None))
  | deletion_unknown_vm u :
      HasFinalizer vm = true ->
      status_ID (vm_Status vm) = "" \/ ref_Name (spec_ProviderRef (vm_Spec vm)) = "" ->
      deletion_spec [ev (UpdateVM released) u] (Done (no_result, u))
  | deletion_provider_unreadable e :
      HasFinalizer vm = true -> status_ID (vm_Status vm) <> "" -> api_IsNotFound e = false ->
      deletion_spec [ev (GetProviderCR deletion_key) (Err e)] (Done requeue5s)
  | deletion_provider_gone e u :
      HasFinalizer vm = true -> status_ID (vm_Status vm) <> "" -> api_IsNotFound e = true ->
      deletion_spec [ev (GetProviderCR deletion_key) (Err e); ev (UpdateVM released) u]
        (Done (no_result, u))
  | deletion_done p inst ans u :
      HasFinalizer vm = true -> status_ID (vm_Status vm) <> "" -> RemoteResolver r = true ->
      match ans with Ok _ => True | Err e => IsNotFound e = true \/ hasForceDeleteAnnotation vm = true end ->
      deletion_spec [ev (GetProviderCR deletion_key) (Ok p); ev (ResolveProvider p) (Ok inst);
                     ev (ProviderDelete inst (status_ID (vm_Status vm))) ans;
                     ev (UpdateVM released) u] (Done (no_result, u))
  | deletion_retained p inst e :
      HasFinalizer vm = true -> status_ID (vm_Status vm) <> "" -> RemoteResolver r = true ->
      IsNotFound e = false -> hasForceDeleteAnnotation vm = false ->
      deletion_spec [ev (GetProviderCR deletion_key) (Ok p); ev (ResolveProvider p) (Ok inst);
                     ev (ProviderDelete inst (status_ID (vm_Status vm))) (Err e)]
        (Done (requeue_after vmDeleteRetryInterval, None)).

(** What the promise does not allow and the code does: the Provider is there and no client
    for it can be had, and the finalizer is dropped although the machine on record was
    never asked to be deleted. *)
Inductive deletion_orphans : trace -> outcome reconcile_result -> Prop :=
  | orphaned_without_resolver p u :
      HasFinalizer vm = true -> status_ID (vm_Status vm) <> "" -> RemoteResolver r = false ->
      deletion_orphans [ev (GetProviderCR deletion_key) (Ok p); ev (UpdateVM released) u]
        (Done (no_result, u))
  | orphaned_unresolved p e u :
      HasFinalizer vm = true -> status_ID (vm_Status vm) <> "" -> RemoteResolver r = true ->
      deletion_orphans [ev (GetProviderCR deletion_key) (Ok p); ev (ResolveProvider p) (Err e);
                        ev (UpdateVM released) u] (Done (no_result, u)).

(** The last step: drop the finalizer. *)
Lemma release_finalizer_wp :
  HasFinalizer vm = true ->
  wp (releaseFinalizer vm) (fun tr o =>
    exists u, calls deletion_call tr = [ev (UpdateVM released) u] /\ o = Done (no_result, u)).
Proof.
  intros Hf. unfold releaseFinalizer, k8s_RemoveFinalizer. unfold HasFinalizer in Hf. rewrite Hf. cbn [negb].
  wp_steps; cbn; eauto.
Qed.

Lemma handleDeletion_meets_spec :
  wp (handleDeletion r vm) (fun tr o =>
    deletion_spec (calls deletion_call tr) o \/ deletion_orphans (calls deletion_call tr) o).
Proof.
  unfold handleDeletion. destruct (HasFinalizer vm) eqn:Hf; cbn [negb].
  2:{ left. by apply deletion_no_finalizer. }
  pose proof (release_finalizer_wp Hf) as Hrel.
  apply wp_bind. unfold deleteFromProvider, getProviderInstance.
  destruct (negb (is_empty (status_ID (vm_Status vm)))) eqn:Hid; cbn [andb]; emptiness.
  2:{ cbn [wp bind_post]. eapply wp_mono; [exact Hrel|]. intros tr o (u & Hu & ->).
      rewrite app_nil_l, Hu. left.
      apply deletion_unknown_vm; auto. }
  destruct (negb (is_empty (ref_Name _))) eqn:Hn; cbn [andb]; emptiness.
  2:{ cbn [wp bind_post]. eapply wp_mono; [exact Hrel|]. intros tr o (u & Hu & ->).
      rewrite app_nil_l, Hu. left.
      apply deletion_unknown_vm; auto. }
  wp_steps.
  all: first [ eapply wp_mono; [exact Hrel|]; intros tr o (u & Hu & ->);
               repeat first [rewrite calls_app | rewrite calls_cons | rewrite calls_nil | rewrite Hu]
             | repeat first [rewrite calls_app | rewrite calls_cons | rewrite calls_nil] ].
  all: cbn [deletion_call projT1 ev app]; emptiness.
  all: first [left; by apply deletion_provider_unreadable | left; by apply deletion_provider_gone
             | right; by apply orphaned_without_resolver | right; by apply orphaned_unresolved
             | left; by apply deletion_retained
             | left; by apply deletion_done; auto].
Qed.
End Deletion.
