(* ===== verification/VirtualMachineDemo.v ===== *)
(** * VirtualMachineDemo: a small cluster to run the reconciler against

    An API server that stores one VirtualMachine with its class, image and
    provider, and a hypervisor that holds at most one machine and completes
    every request at once.  The witnesses of [VirtualMachineProps] run the
    handlers here. *)
From S2P Require Import Prelude Contracts K8s Api Effects ImagePrepare CreateRequest VirtualMachine.
From stdpp Require Import base gmap strings list.
From Stdlib Require Import ZArith Lia.
Import v1beta1.
Import Contracts.
Import DemoLibraries.

Record cluster := mkCluster {
  stored_vm : VirtualMachine;
  stored_class : v1beta1.VMClass;
  stored_image : v1beta1.VMImage;
  stored_provider : Provider;
  resolves : bool;               (* does the provider resolve to a client *)
  machine : option string;       (* the power state of the machine, if it exists *)
  delete_error : option goerror; (* what Delete answers *)
  task_running : bool;           (* what IsTaskComplete denies *)
  clock : time
}.
#[export] Instance cluster_eta : Eta cluster := fun r =>
  mkCluster (stored_vm r) (stored_class r) (stored_image r) (stored_provider r) (resolves r)
    (machine r) (delete_error r) (task_running r) (clock r).

Definition demo_id : string := "vm-1".
Definition demo_instance : ProviderInstance := mkInstance "remote" false true true.

Definition demo_describe (w : cluster) : DescribeResponse :=
  match machine w with
  | Some p => mkDescribeResponse true p ["10.0.0.7"] "" ∅
  | None => mkDescribeResponse false "" [] "" ∅
  end.

Definition power_after (op : PowerOp) : string :=
  match op with PowerOpOn | PowerOpReboot => "On" | _ => "Off" end.

Definition serve (c : call) (w : cluster) : answer c * cluster :=
  match c return answer c * cluster with
  | GetVM _ => (Ok (stored_vm w), w)
  | GetProviderCR _ => (Ok (stored_provider w), w)
  | GetVMClass _ => (Ok (stored_class w), w)
  | GetVMImage _ => (Ok (stored_image w), w)
  | GetVMNetworkAttachment _ => (Ok (mkVMNetworkAttachment None None None), w)
  | GetSecret _ => (Ok (mkSecret "s" ∅), w)
  | UpdateVM vm => (None, w <| stored_vm := vm |>)
  | StatusUpdateVM vm => (None, w <| stored_vm := vm |>)
  | StatusUpdateVMImage img => (Ok img, w <| stored_image := img |>)
  | ResolveProvider _ =>
      (if resolves w then Ok demo_instance else Err (ENew "no runtime endpoint"), w)
  | ProviderCreate _ _ => (Ok (mkCreateResponse demo_id ""), w <| machine := Some "Off" |>)
  | ProviderDelete _ _ =>
      match delete_error w with
      | Some e => (Err e, w)
      | None => (Ok "", w <| machine := None |>)
      end
  | ProviderPower _ _ op => (Ok "", w <| machine := Some (power_after op) |>)
  | ProviderReconfigure _ _ _ => (Ok "", w)
  | ProviderDescribe _ _ => (Ok (demo_describe w), w)
  | ProviderIsTaskComplete _ _ => (Ok (negb (task_running w)), w)
  | ProviderPrepareImage _ _ => (Ok (mkImagePrepareResponse "" "img-1" "/pool/img-1"), w)
  | Now => (clock w, w <| clock := (clock w + second)%Z |>)
  | RecordError _ | RecordIPDiscovery _ => (tt, w)
  end.

(** ** Concrete objects *)
Definition demo_meta (name : string) (labels : gmap string string) (fs : list string)
    (deleted : option time) : ObjectMeta :=
  mkObjectMeta name "default" name 1 "1" labels ∅ fs (Some 1%Z) deleted.

Definition fresh_status : VirtualMachineStatus :=
  mkVMStatus "" "" [] "" [] 0 "" ∅ "" None None VirtualMachinePhaseUnset.

Definition demo_spec : VirtualMachineSpec :=
  mkVMSpec (mkObjectRef "prov" "") (mkObjectRef "small" "") (Some (mkObjectRef "ubuntu" "")) None
    [] [] None None None "On" [] None None.

Definition demo_vm : VirtualMachine :=
  mkVM (demo_meta "web" ∅ [VirtualMachineFinalizer] None) demo_spec fresh_status.

Definition demo_class : v1beta1.VMClass :=
  mkVMClass (demo_meta "small" ∅ [] None)
    (mkVMClassSpec 2 (2 ^ 32) "UEFI" None "install" ∅ None None None).

Definition demo_image : v1beta1.VMImage :=
  v1beta1.mkVMImage (demo_meta "ubuntu" ∅ [] None)
    (mkVMImageSpec
       (mkImageSource None (Some (mkLibvirtImageSource "" "https://img/ubuntu.qcow2" "qcow2" "" ""))
          None) None)
    (mkVMImageStatus false ImagePhaseUnset "" [] [] None "" ∅).

Definition demo_provider : Provider :=
  mkProvider (demo_meta "prov" ∅ [] None) (bare_spec "libvirt" None)
    (no_provider_status
       <| ps_Runtime := Some (mkProviderRuntimeStatus "Remote" "Running" "prov:9443" None "") |>
       <| ps_ReportedCapabilities := Some (mkReportedCapabilities false false false false false true [] [] false false [] [] false [] [] []) |>).

Definition demo_cluster (vm : VirtualMachine) (m : option string) : cluster :=
  mkCluster vm demo_class demo_image demo_provider true m None false 0.

Definition demo_key : NamespacedName := mkKey "default" "web".
Definition demo_reconciler : VirtualMachineReconciler := mkReconciler true.

(** [vm] with a recorded ID. *)
Definition on_record (vm : VirtualMachine) : VirtualMachine :=
  vm <| vm_Status := vm_Status vm <| status_ID := demo_id |> |>.
(** [vm] being deleted. *)
Definition deleted (vm : VirtualMachine) : VirtualMachine :=
  vm <| vm_meta := vm_meta vm <| meta_DeletionTimestamp := Some 9%Z |> |>.

(** One reconcile against a cluster. *)
Definition reconcile_once (w : cluster) : trace * outcome reconcile_result * cluster :=
  exec serve (Reconcile demo_reconciler demo_key) w.

Fixpoint reconcile_times (n : nat) (w : cluster) : cluster :=
  match n with
  | O => w
  | S n' => reconcile_times n' (reconcile_once w).2
  end.
