(* ===== verification/ImageProps.v ===== *)
(** * ImageProps: the properties of image preparation and of the create request *)
From S2P Require Import Prelude Contracts K8s Api Effects.
From S2P Require Import ImagePrepare CreateRequest VirtualMachine VirtualMachineSpec VirtualMachineDemo.
From stdpp Require Import base gmap strings list.
From Stdlib Require Import ZArith Lia.
Import v1beta1.
Import Contracts.

(** ** The image status *)

(** [appendDedup] keeps a list free of duplicates and adds just its argument. *)
Lemma appendDedup_elem l s t : t ∈ appendDedup l s <-> t ∈ l \/ t = s.
Proof.
  unfold appendDedup. case_bool_decide.
  - split; [by left|]. by intros [?| ->].
  - by rewrite elem_of_app, list_elem_of_singleton.
Qed.

Lemma appendDedup_NoDup l s : NoDup l -> NoDup (appendDedup l s).
Proof.
  intros Hl. unfold appendDedup. case_bool_decide as Hs; [done|].
  apply NoDup_app. split_and!; [done| |apply NoDup_singleton].
  intros x Hx ->%list_elem_of_singleton. done.
Qed.

Lemma provider_entry_prepared now st p id path :
  ims_ProviderStatus (prepared_status now st p id path) !! p
  = Some (mkProviderImageStatus true
      (if is_empty id then pis_ID (deref zeroProviderImageStatus (ims_ProviderStatus st !! p)) else id)
      (if is_empty path then pis_Path (deref zeroProviderImageStatus (ims_ProviderStatus st !! p)) else path)
      (Some now) "image prepared").
Proof.
  unfold prepared_status. cbn. rewrite lookup_insert_eq. by destruct (is_empty id), (is_empty path).
Qed.

(** Recording a prepared image marks it available on that provider and
    ready, keeps the recorded location when no new one is given, leaves every
    other provider's entry as it was, and keeps [availableOn] duplicate-free. *)
Theorem prepared_status_frame now st p id path :
  NoDup (ims_AvailableOn st) ->
  let st' := prepared_status now st p id path in
  let old := deref zeroProviderImageStatus (ims_ProviderStatus st !! p) in
  (exists ps, ims_ProviderStatus st' !! p = Some ps /\ pis_Available ps = true
     /\ pis_ID ps = or_keep id (pis_ID old) /\ pis_Path ps = or_keep path (pis_Path old))
  /\ (forall q, q <> p -> ims_ProviderStatus st' !! q = ims_ProviderStatus st !! q)
  /\ ims_Ready st' = true /\ ims_PrepareTaskRef st' = ""
  /\ (forall q, q ∈ ims_AvailableOn st' <-> q ∈ ims_AvailableOn st \/ q = p)
  /\ NoDup (ims_AvailableOn st').
Proof.
  intros Hnd. cbn zeta. rewrite provider_entry_prepared. split_and!; try done.
  - by eexists.
  - intros q Hq. cbn. by rewrite lookup_insert_ne.
  - intros q. apply appendDedup_elem.
  - by apply appendDedup_NoDup.
Qed.

(** Where [Create] takes the image of a provider from, per source kind. *)
Definition prepared_location (img : v1beta1.VMImage) (ps : ProviderImageStatus) : string :=
  match src_Libvirt (img_Source (image_Spec img)) with
  | Some _ => pis_Path ps
  | None => pis_ID ps
  end.

Definition location_of (img : v1beta1.VMImage) (image : VMImage) : string :=
  match src_Libvirt (img_Source (image_Spec img)) with
  | Some _ => Path image
  | None => TemplateName image
  end.

Definition known_source (img : v1beta1.VMImage) : bool :=
  match src_Libvirt (img_Source (image_Spec img)), src_VSphere (img_Source (image_Spec img)),
        src_Proxmox (img_Source (image_Spec img)) with
  | None, None, None => false
  | _, _, _ => true
  end.

Lemma override_location img image p ps :
  ims_ProviderStatus (image_Status img) !! p = Some ps -> pis_Available ps = true ->
  known_source img = true -> prepared_location img ps <> "" ->
  location_of img (overrideImageWithPreparedLocation image img p).1 = prepared_location img ps
  /\ (src_Libvirt (img_Source (image_Spec img)) <> None
      \/ src_VSphere (img_Source (image_Spec img)) <> None ->
      URL (overrideImageWithPreparedLocation image img p).1 = "").
Proof.
  intros Hps Hav Hk Hl. unfold overrideImageWithPreparedLocation, known_source, prepared_location,
    location_of in *. rewrite Hps, Hav. cbn [negb].
  destruct (img_Source (image_Spec img)) as [[] [] []]; cbn in *; try done;
    apply is_empty_false in Hl; rewrite Hl; cbn; split; try done; by intros [].
Qed.

(** The prepare loop closes: an import that is started asynchronously
    with its prepared location, and completed later (possibly after other
    providers' imports were recorded in between), makes the create request use
    that location: the pool path for libvirt, the template for vSphere and
    Proxmox, with the download URL cleared. *)
Theorem prepared_location_reaches_create img p msg resp t1 t2 :
  known_source img = true ->
  prepared_location img (mkProviderImageStatus true (PreparedImageID resp) (PreparedImagePath resp)
                           None "") <> "" ->
  let st1 := importing_status t1 (image_Status img) p msg resp in
  forall st2, ims_ProviderStatus st2 !! p = ims_ProviderStatus st1 !! p ->
  let img' := img <| image_Status := prepared_status t2 st2 p "" "" |> in
  location_of img (convert_template img' p)
    = prepared_location img (mkProviderImageStatus true (PreparedImageID resp)
                               (PreparedImagePath resp) None "")
  /\ (src_Libvirt (img_Source (image_Spec img)) <> None
      \/ src_VSphere (img_Source (image_Spec img)) <> None -> URL (convert_template img' p) = "").
Proof.
  intros Hk Hl st1 st2 Hst img'.
  assert (ims_ProviderStatus st1 !! p
          = Some (mkProviderImageStatus false (PreparedImageID resp) (PreparedImagePath resp)
                    (Some t1) "image import in progress")) as Hst1.
  { unfold st1, importing_status.
    assert (negb (is_empty (PreparedImageID resp)) || negb (is_empty (PreparedImagePath resp)) = true)
      as -> by (unfold prepared_location in Hl; cbn in Hl; destruct (src_Libvirt _);
                apply is_empty_false in Hl; rewrite Hl; [apply orb_true_r|done]).
    cbn. by rewrite lookup_insert_eq. }
  pose proof (provider_entry_prepared t2 st2 p "" "") as He. rewrite Hst, Hst1 in He. cbn in He.
  exact (override_location img' _ p _ He eq_refl Hk Hl).
Qed.

(** ** What preparation does on the provider and on the API server *)

(** The image statuses written. *)
Definition image_write (x : event call answer) : option v1beta1.VMImage :=
  match projT1 x with StatusUpdateVMImage img => Some img | _ => None end.
Definition image_writes (tr : trace) : list v1beta1.VMImage := omap image_write tr.

Lemma image_writes_app tr1 tr2 : image_writes (tr1 ++ tr2) = image_writes tr1 ++ image_writes tr2.
Proof. apply omap_app. Qed.

Lemma image_writes_cons x tr :
  image_writes (x :: tr) = match image_write x with
                           | Some img => img :: image_writes tr
                           | None => image_writes tr
                           end.
Proof. reflexivity. Qed.

Section Prepare.
Context `{LibrariesOk}.

(** A status write that succeeded sent what the mutation produced. *)
Lemma writeImageStatus_sends img mutate (P : v1beta1.VMImage -> Prop) :
  (forall i, wp (mutate i) (fun _ o => forall j, o = Done j -> P j)) ->
  wp (writeImageStatus img mutate) (fun tr o =>
    forall i, o = Done (Ok i) -> exists j, j ∈ image_writes tr /\ P j).
Proof.
  intros Hm. unfold writeImageStatus. apply wp_bind.
  eapply wp_mono with (Q := fun tr o =>
    forall i, o = Done (Ok i) -> exists j, j ∈ image_writes tr /\ P j).
  2:{ intros tr [[i|e]|w] Hj; wp_steps; rewrite ?app_nil_r; try done. intros _ _. by eapply Hj. }
  apply wp_RetryOnConflict. intros tr1 tr2 o _ Hr i Hi.
  assert (exists j, j ∈ image_writes tr2 /\ P j) as (j & Hj & HP).
  { revert tr2 o Hr i Hi. refine (proj1 (wp_runs _ (fun tr o => forall i, o = Done (Ok i) ->
      exists j, j ∈ image_writes tr /\ P j)) _). wp_step. wp_step.
    destruct r as [latest|e]; cbn [bind_post]; [|by wp_steps].
    wp_use Hm. intros tr [j|w] Hj; cbn [bind_post]; [|done]. wp_steps. intros i _.
    exists j. split; [|by apply Hj]. cbn [app]. rewrite image_writes_cons, image_writes_app.
    cbn [image_write projT1 ev]. apply elem_of_app. right. by left. }
  exists j. split; [|done]. rewrite image_writes_app. apply elem_of_app. by right.
Qed.

Definition recorded_available (p : string) (img : v1beta1.VMImage) : Prop :=
  pis_Available (provider_status img p) = true /\ p ∈ ims_AvailableOn (image_Status img)
  /\ ims_PrepareTaskRef (image_Status img) = "".

Lemma markImagePrepared_sends img p id path :
  wp (markImagePrepared img p id path) (fun tr o =>
    forall i, o = Done (Ok i) -> exists j, j ∈ image_writes tr /\ recorded_available p j).
Proof.
  apply writeImageStatus_sends. intros i. unfold set_image_condition. wp_steps.
  intros j [= <-]. unfold recorded_available, provider_status. cbn [image_Status].
  split_and!.
  - change (pis_Available (deref zeroProviderImageStatus
      (ims_ProviderStatus (prepared_status r (image_Status i) p id path) !! p)) = true).
    by rewrite provider_entry_prepared.
  - change (p ∈ appendDedup (ims_AvailableOn (image_Status i)) p). apply appendDedup_elem. by right.
  - done.
Qed.

Lemma poll_proceeds img p inst :
  wp (poll_prepare_task img p inst) (fun tr o =>
    forall i, o = Done (EnsureProceed, i) -> exists j, j ∈ image_writes tr /\ recorded_available p j).
Proof.
  unfold poll_prepare_task. wp_step. wp_step. destruct r as [[|]|e]; cbn [bind_post].
  - wp_use markImagePrepared_sends. intros tr [[i|e]|w] Hj; wp_steps; try done.
    intros i' _. rewrite app_nil_r. cbn [app]. rewrite image_writes_cons. by eapply Hj.
  - apply wp_bind. eapply wp_mono; [apply wp_true|]. intros tr [[i|e]|w] _; by wp_steps.
  - by wp_steps.
Qed.

Lemma trigger_proceeds img p inst :
  wp (trigger_prepare img p inst) (fun tr o =>
    forall i, o = Done (EnsureProceed, i) -> exists j, j ∈ image_writes tr /\ recorded_available p j).
Proof.
  unfold trigger_prepare. destruct (json_Marshal _); [|by wp_steps].
  wp_step. wp_step. destruct r as [resp|e]; cbn [bind_post]; [|by wp_steps].
  destruct (negb _).
  - apply wp_bind. eapply wp_mono; [apply wp_true|]. intros tr [[i|e]|w] _; by wp_steps.
  - wp_use markImagePrepared_sends. intros tr [[i|e]|w] Hj; wp_steps; try done.
    intros i' _. rewrite app_nil_r. cbn [app]. rewrite image_writes_cons. by eapply Hj.
Qed.

(** The image gate lets a VM through only when nothing has to be prepared
    on its provider, or after a successful write of the image's status that
    records the image as available there, with no prepare task left
    outstanding; and never when the image's policy is Fail or Wait. *)
Theorem image_gate_proceeds_only_when_recorded vm img p inst :
  prepare_not_needed vm (Some img) p inst = false ->
  wp (EnsureImageOnProvider vm (Some img) p inst) (fun tr o =>
    forall i, o = Done (EnsureProceed, i) ->
      (exists j, j ∈ image_writes tr /\ recorded_available (provider_Name p) j)
      /\ imageMissingAction img <> ImageMissingActionFail
      /\ imageMissingAction img <> ImageMissingActionWait).
Proof.
  intros Hn. unfold EnsureImageOnProvider. rewrite Hn. unfold ensure_missing, hold_image.
  case_bool_decide as Hf; [|case_bool_decide as Hw].
  1, 2: apply wp_bind, wp_bind; eapply wp_mono; [apply wp_true|]; intros tr [[i|e]|w] _; wp_steps; done.
  destruct (negb _); [wp_use poll_proceeds|wp_use trigger_proceeds];
    intros tr [[e i]|w] Hj; wp_steps; try done; rewrite app_nil_r;
    intros i' [= -> _]; (split; [by eapply Hj|done]).
Qed.

(** A call of [PrepareImage]. *)
Lemma writeImageStatus_no_prepare img mutate :
  (forall i, silent is_prepare (mutate i)) -> silent is_prepare (writeImageStatus img mutate).
Proof.
  intros Hm. unfold writeImageStatus. apply silent_bind; [|solve_silent].
  apply silent_RetryOnConflict. solve_silent.
Qed.
#[local] Hint Resolve writeImageStatus_no_prepare : silent.
#[local] Hint Extern 1 (silent _ (set_image_condition _ _ _ _ _)) =>
  apply silent_set_image_condition; reflexivity : silent.

Lemma trigger_prepare_once img p inst :
  wp (trigger_prepare img p inst) (fun tr _ => length (calls is_prepare tr) <= 1).
Proof.
  unfold trigger_prepare. destruct (json_Marshal _); [|wp_steps; cbn; lia].
  wp_step. wp_step. cbn [bind_post].
  match goal with |- wp ?q _ => assert (silent is_prepare q) as Hs end.
  { unfold record_import_started, markImagePrepared. solve_silent;
      apply writeImageStatus_no_prepare; solve_silent. }
  eapply wp_mono; [apply (silent_calls _ _ Hs)|]. intros tr o Hc. cbn [app].
  rewrite calls_cons, Hc. cbn. lia.
Qed.

(** An import is ordered at most once per reconcile, and only from a
    provider whose client implements image preparation and that advertises it,
    for an image with a source that needs importing, not recorded as available
    there, whose policy is to import, and with no import outstanding. *)
Theorem image_import_is_gated vm img p inst :
  wp (EnsureImageOnProvider vm (Some img) p inst) (fun tr _ =>
    length (calls is_prepare tr) <= 1
    /\ (occurs is_prepare tr = true ->
          prepare_not_needed vm (Some img) p inst = false
          /\ imageMissingAction img <> ImageMissingActionFail
          /\ imageMissingAction img <> ImageMissingActionWait
          /\ ims_PrepareTaskRef (image_Status img) = "")).
Proof.
  unfold EnsureImageOnProvider. destruct (prepare_not_needed _ _ _ _) eqn:Hn; [wp_steps; cbn; split; [lia|done]|].
  apply wp_bind. unfold ensure_missing.
  assert (forall (q : M (ensure_result * v1beta1.VMImage)), silent is_prepare q ->
    wp q (fun tr o => (length (calls is_prepare tr) <= 1
      /\ (occurs is_prepare tr = true -> False)))) as Hq.
  { intros q Hs. eapply wp_mono; [exact Hs|]. intros tr o Ho.
    rewrite (calls_occurs_false _ _ Ho), Ho. split; [cbn; lia|done]. }
  case_bool_decide as Hf; [|case_bool_decide as Hw; [|destruct (negb _) eqn:Ht]].
  4:{ emptiness. wp_use trigger_prepare_once. intros tr [[e i]|w] Hl; wp_steps; rewrite ?app_nil_r;
      by split_and!. }
  all: eapply wp_mono; [apply Hq|intros tr [[e i]|w] [Hl Ho]; wp_steps; rewrite ?app_nil_r; split; naive_solver].
  all: unfold hold_image, poll_prepare_task, markImagePreparing, markImagePrepared;
    solve_silent; apply writeImageStatus_no_prepare; solve_silent.
Qed.

(** The outstanding task is one per image, not one per provider.  While it
    is set, whichever provider it was started on, the gate of a VM on any
    provider orders no import there: it asks the VM's own provider about the
    task, and if that answers complete, the image is recorded as available on a
    provider that never imported it. *)
Theorem outstanding_task_is_shared_by_providers vm img p inst :
  prepare_not_needed vm (Some img) p inst = false ->
  imageMissingAction img <> ImageMissingActionFail ->
  imageMissingAction img <> ImageMissingActionWait ->
  ims_PrepareTaskRef (image_Status img) <> "" ->
  wp (EnsureImageOnProvider vm (Some img) p inst) (fun tr o =>
    occurs is_prepare tr = false
    /\ (forall i, o = Done (EnsureProceed, i) ->
          exists j, j ∈ image_writes tr /\ recorded_available (provider_Name p) j)).
Proof.
  intros Hn Hf Hw Ht. apply is_empty_false in Ht.
  unfold EnsureImageOnProvider, ensure_missing. rewrite Hn, Ht. cbn [negb].
  rewrite !bool_decide_eq_false_2 by done. apply wp_bind.
  assert (silent is_prepare (poll_prepare_task img (provider_Name p) inst)) as Hs.
  { unfold poll_prepare_task, markImagePreparing, markImagePrepared.
    solve_silent; apply writeImageStatus_no_prepare; solve_silent. }
  eapply wp_mono; [apply (wp_and _ _ _ Hs (poll_proceeds _ _ _))|].
  intros tr [[e i]|w] [Ho Hj]; wp_steps; rewrite ?app_nil_r; (split; [done|]); [|done].
  intros i' [= -> _]. by eapply Hj.
Qed.
End Prepare.

(** ** The properties on concrete images *)
Import DemoLibraries.

Definition importer : ProviderInstance := mkInstance "remote" true true true.

Definition image_cluster (img : v1beta1.VMImage) : cluster :=
  demo_cluster demo_vm None <| stored_image := img |>.

(** One run of the gate for the demo VM. *)
Definition gate_run (img : v1beta1.VMImage) : trace * outcome (ensure_result * option v1beta1.VMImage) :=
  (exec serve (EnsureImageOnProvider demo_vm (Some img) demo_provider importer) (image_cluster img)).1.

Definition proceeded (o : outcome (ensure_result * option v1beta1.VMImage)) : bool :=
  match o with Done (EnsureProceed, _) => true | _ => false end.

Lemma proceeded_Done o : proceeded o = true -> exists i, o = Done (EnsureProceed, i).
Proof. destruct o as [[[] i]|]; try done. by eexists. Qed.

