(* ===== verification/CreateRequestProps.v ===== *)
(** * CreateRequestProps: what a create request carries *)
From S2P Require Import Prelude Contracts K8s Api Effects.
From S2P Require Import ImagePrepare CreateRequest VirtualMachine VirtualMachineSpec VirtualMachineDemo.
From stdpp Require Import base gmap strings list.
From Stdlib Require Import ZArith Lia.
Import v1beta1.
Import Contracts.

(** ** Memory amounts *)
Lemma mib_pos : (0 < mib)%Z.
Proof. unfold mib. lia. Qed.

(** Memory limits and reservations are converted from bytes to MiB without
    ever wrapping around: a non-negative quantity becomes its whole number of
    MiB, or the largest [int32] when there are more. The class memory is
    converted without that clamp: it is exact below 2^31 MiB, and a class of
    exactly 2^31 MiB is requested as a negative amount. *)
Theorem memory_limits_saturate bytes c :
  (0 <= bytes)%Z ->
  clamp_mib bytes = Z.min (bytes / mib) maxInt32 /\ (0 <= clamp_mib bytes <= maxInt32)%Z
  /\ (cls_Memory c = bytes -> (bytes / mib < 2 ^ 31)%Z -> MemoryMiB (convert_class c) = (bytes / mib)%Z)
  /\ (cls_Memory c = (2 ^ 31 * mib)%Z -> MemoryMiB (convert_class c) = (- 2 ^ 31)%Z).
Proof.
  intros Hb. pose proof mib_pos as Hm.
  assert (0 <= bytes / mib)%Z as Hq by (apply Z.div_pos; lia).
  assert (clamp_mib bytes = Z.min (bytes / mib) maxInt32) as Hc.
  { unfold clamp_mib. cbn zeta. rewrite Z.quot_div_nonneg by lia.
    destruct (Z.gtb_spec (bytes / mib) maxInt32); rewrite to_int32_id; unfold maxInt32 in *; lia. }
  split_and!; [done|rewrite Hc; unfold maxInt32; lia|rewrite Hc; unfold maxInt32; lia|..].
  - intros Hmem Hlt. cbn. rewrite Hmem, Z.quot_div_nonneg by lia. apply to_int32_id. lia.
  - intros Hmem. cbn. rewrite Hmem. reflexivity.
Qed.

(** ** Networks *)
Lemma convert_networks_lookup refs nets i :
  convert_networks refs nets !! i
  = (fun ref => convert_network ref (default None (nets !! i))) <$> refs !! i.
Proof.
  revert nets i. induction refs as [|r refs IH]; intros nets i; [done|].
  destruct nets as [|n nets], i as [|i]; cbn; try done; rewrite IH; done.
Qed.

Lemma convert_networks_length refs nets : length (convert_networks refs nets) = length refs.
Proof. revert nets. induction refs as [|r refs IH]; intros [|n nets]; cbn; auto. Qed.

(** The attachment each network reference resolved to. *)
Definition attachment_answer (x : event call answer) : option (NamespacedName * VMNetworkAttachment) :=
  match projT1 x as c return answer c -> option (NamespacedName * VMNetworkAttachment) with
  | GetVMNetworkAttachment k => fun r => match r with Ok n => Some (k, n) | Err _ => None end
  | _ => fun _ => None
  end (projT2 x).
Definition attachments (tr : trace) : list (NamespacedName * VMNetworkAttachment) :=
  omap attachment_answer tr.

(** A resolved network stands at the position of its reference. *)
Definition resolved_from (ns : string) (got : list (NamespacedName * VMNetworkAttachment))
    (ref : VMNetworkRef) (net : option VMNetworkAttachment) : Prop :=
  match vnr_NetworkRef ref with
  | None => net = None
  | Some o => exists n, net = Some n /\ (mkKey ns (ref_Name o), n) ∈ got
  end.

Lemma resolved_from_mono ns got got' ref net :
  (forall x, x ∈ got -> x ∈ got') -> resolved_from ns got ref net -> resolved_from ns got' ref net.
Proof.
  unfold resolved_from. intros Hg. destruct (vnr_NetworkRef ref); [|done].
  intros (n & -> & Hn). eauto.
Qed.

Lemma getNetworks_aligned ns refs :
  wp (getNetworks ns refs) (fun tr o =>
    forall nets, o = Done (Ok nets) -> Forall2 (resolved_from ns (attachments tr)) refs nets).
Proof.
  induction refs as [|ref refs IH]; cbn [getNetworks]; [wp_steps; by intros nets [= <-]|].
  destruct (vnr_NetworkRef ref) as [o|] eqn:Href.
  - wp_step. wp_step. destruct r as [net|e]; cbn [bind_post]; [|by wp_steps].
    wp_use IH. intros tr [[nets|e]|w] Hok; wp_steps; try done. intros nets' [= <-].
    rewrite app_nil_r. cbn [app]. specialize (Hok nets eq_refl).
    change (attachments (ev _ _ :: tr)) with ((mkKey ns (ref_Name o), net) :: attachments tr).
    constructor.
    + unfold resolved_from. rewrite Href. exists net. split; [done|by left].
    + eapply Forall2_impl; [exact Hok|]. intros ? ?. apply resolved_from_mono. by right.
  - wp_use IH. intros tr [[nets|e]|w] Hok; wp_steps; try done. intros nets' [= <-].
    rewrite app_nil_r. constructor; [unfold resolved_from; by rewrite Href|by apply Hok].
Qed.

(** The network attachments of a request follow the VM's network
    references one to one and in order: reading the references and building the
    request gives, for each reference, the attachment built from the
    VMNetworkAttachment object read under that reference's own key. *)
Theorem networks_follow_their_references ns refs :
  wp (getNetworks ns refs) (fun tr o =>
    forall nets, o = Done (Ok nets) ->
      length (convert_networks refs nets) = length refs
      /\ forall i ref, refs !! i = Some ref ->
           exists net, convert_networks refs nets !! i = Some (convert_network ref net)
             /\ resolved_from ns (attachments tr) ref net).
Proof.
  eapply wp_mono; [apply getNetworks_aligned|]. intros tr o Ha nets Ho. specialize (Ha nets Ho).
  assert (forall i ref, refs !! i = Some ref ->
    exists net, convert_networks refs nets !! i = Some (convert_network ref net)
      /\ resolved_from ns (attachments tr) ref net) as Hi.
  { intros i ref Hr. destruct (Forall2_lookup_l _ _ _ _ _ Ha Hr) as (net & Hn & Hf).
    exists net. split; [|done]. by rewrite convert_networks_lookup, Hr, Hn. }
  split; [apply convert_networks_length|done].
Qed.

(** ** Cloud-init *)
Lemma contains_self s : contains s s = true.
Proof.
  pose proof (contains_app_r s "" s) as Hc. rewrite string_app_nil_r in Hc.
  destruct s as [|a s]; [done|]. cbn [contains]. rewrite <- (string_app_nil_r (String a s)) at 1.
  by rewrite has_prefix_app.
Qed.

Lemma contains_empty s : contains s "" = true.
Proof. by destruct s. Qed.

Lemma write_parts_contains parts p : p ∈ parts -> contains (write_parts parts) p = true.
Proof.
  induction parts as [|q parts IH]; [by intros ?%elem_of_nil|].
  cbn [write_parts]. intros [->|Hp]%elem_of_cons.
  - apply contains_app_l, contains_app_r, contains_self.
  - do 3 apply contains_app_l. by apply IH.
Qed.

Lemma merged_contains parts p : p ∈ parts -> contains (mergeCloudConfigParts parts) p = true.
Proof.
  intros Hp. unfold mergeCloudConfigParts. do 7 apply contains_app_l.
  apply contains_app_r. by apply write_parts_contains.
Qed.

(** The secrets read. *)
Definition secret_answer (x : event call answer) : option Secret :=
  match projT1 x as c return answer c -> option Secret with
  | GetSecret _ => fun r => match r with Ok s => Some s | Err _ => None end
  | _ => fun _ => None
  end (projT2 x).
Definition secrets (tr : trace) : list Secret := omap secret_answer tr.

(** No cloud-init part is lost: when the user data resolves, it contains
    the inline document and, when a secret is referenced, the value under the
    first recognised key of the secret that was read; with both, the result is
    the MIME document of the two in that order. *)
Theorem cloud_init_keeps_its_parts `{Libraries} ns ci :
  wp (resolveCloudInitUserData ns ci) (fun tr o =>
    forall data, o = Done (Ok data) ->
      contains data (ci_Inline ci) = true
      /\ (forall ref, ci_SecretRef ci = Some ref ->
            exists s v, secrets tr = [s] /\ first_key cloudInitKeys (secret_Data s) = Some v
              /\ contains data v = true
              /\ (ci_Inline ci <> "" -> data = mergeCloudConfigParts [ci_Inline ci; v]))).
Proof.
  unfold resolveCloudInitUserData, inline_part, extractCloudInitFromSecret.
  destruct (is_empty (ci_Inline ci)) eqn:Hi; emptiness; wp_steps; try done; intros data [= <-].
  all: try (destruct (first_key cloudInitKeys _) as [v|] eqn:Hv; [|done]; injection Heqr0 as <-).
  - split; [by rewrite Hi, contains_empty|]. intros ref _. exists t, v.
    split_and!; [done|done|apply contains_self|done].
  - split; [by rewrite Hi|done].
  - split; [apply merged_contains; by left|]. intros ref _. exists t, v.
    split_and!; [done|done| |done]. apply merged_contains. right. by left.
  - split; [apply contains_self|done].
Qed.
