(* ===== verification/VirtualMachineProps.v ===== *)
(** * VirtualMachineProps: the properties of the VirtualMachine reconciler *)
From S2P Require Import Prelude Contracts K8s Api Effects.
From S2P Require Import ImagePrepare CreateRequest VirtualMachine VirtualMachineSpec VirtualMachineDemo.
From stdpp Require Import base gmap strings list.
From Stdlib Require Import ZArith Lia.
Import v1beta1.
Import Contracts.

(** ** Reading the specifications *)

Lemma create_is_write c : is_create c = true -> vm_write c = true.
Proof. by destruct c. Qed.
Lemma mutation_is_write c : mutates_hypervisor c = true -> vm_write c = true.
Proof. by destruct c. Qed.
Lemma power_is_write c : is_power c = true -> vm_write c = true.
Proof. by destruct c. Qed.
Lemma delete_is_write c : is_delete c = true -> vm_write c = true.
Proof. by destruct c. Qed.

(** The shapes of the writes of one reconcile: nothing, a status write, or one
    change of the hypervisor followed by a status write. *)
Inductive one_action : trace -> Prop :=
  | action_none : one_action []
  | action_saved vm' a : one_action [ev (StatusUpdateVM vm') a]
  | action_created inst req ans vm' a :
      (forall resp, ans = Ok resp ->
         status_ID (vm_Status vm') = resp_ID resp
         /\ (resp_TaskRef resp <> "" -> status_LastTaskRef (vm_Status vm') = resp_TaskRef resp)) ->
      one_action [ev (ProviderCreate inst req) ans; ev (StatusUpdateVM vm') a]
  | action_powered inst id op ans vm' a :
      (forall t, ans = Ok t -> t <> "" -> status_LastTaskRef (vm_Status vm') = t) ->
      one_action [ev (ProviderPower inst id op) ans; ev (StatusUpdateVM vm') a]
  | action_reconfigured inst id req ans vm' a :
      (forall t, ans = Ok t -> t <> "" -> status_ReconfigureTaskRef (vm_Status vm') = t) ->
      one_action [ev (ProviderReconfigure inst id req) ans; ev (StatusUpdateVM vm') a].

Lemma create_spec_action vm inst pn cls img nets ws o :
  create_spec vm inst pn cls img nets ws o -> one_action ws.
Proof.
  destruct 1; try apply action_saved; apply action_created; [done|].
  intros ? [= <-]. auto.
Qed.

Lemma power_spec_action vm inst desired ws o : power_spec vm inst desired ws o -> one_action ws.
Proof.
  destruct 1; try apply action_none; apply action_powered; [done|]. intros ? [= <-]. auto.
Qed.

Lemma reconfigure_spec_action vm inst pn d ws o :
  reconfigure_spec vm inst pn d ws o -> one_action ws.
Proof.
  destruct 1; try apply action_none; apply action_reconfigured; try done.
  all: by intros ? [= <-].
Qed.

Lemma ensure_spec_action vm inst d ws ds o : ensure_spec vm inst d ws ds o -> one_action ws.
Proof.
  destruct 1 as [| |? ? ? _ []];
    eauto using action_saved, create_spec_action, power_spec_action, reconfigure_spec_action.
Qed.

Lemma live_spec_action r vm tr o : live_spec r vm tr o -> one_action (writes tr).
Proof.
  destruct 1 as [tr o (vm' & a & d & -> & _)|tr o vm1 inst d _ _ Hs|tr w ->];
    eauto using one_action, ensure_spec_action.
Qed.

(** A create is issued only for a VM that is not on record, or that the
    provider has just reported gone. *)
Definition create_justified (vm : VirtualMachine) (ds : list (string * DescribeResponse)) : Prop :=
  (status_ID (vm_Status vm) = "" /\ vmIsAdopted vm = false)
  \/ exists desc, (status_ID (vm_Status vm), desc) ∈ ds /\ Exists desc = false.

Lemma power_spec_no_create vm inst desired ws o :
  power_spec vm inst desired ws o -> occurs is_create ws = false.
Proof. by destruct 1. Qed.
Lemma reconfigure_spec_no_create vm inst pn d ws o :
  reconfigure_spec vm inst pn d ws o -> occurs is_create ws = false.
Proof. by destruct 1. Qed.

Lemma ensure_spec_create vm inst d ws ds o :
  ensure_spec vm inst d ws ds o -> occurs is_create ws = true ->
  (status_ID (vm_Status vm) = "" /\ vmIsAdopted vm = false)
  \/ exists desc, (status_ID (vm_Status vm), desc) ∈ ds /\ Exists desc = false.
Proof.
  destruct 1 as [| |? ? ? _ [|desc ? ? Hex _|desc ? ? _ _ Hp|desc ? ? _ _ _ Hr|]]; intros Hc;
    try discriminate Hc; auto.
  - right. exists desc. split; [by left|done].
  - by rewrite (power_spec_no_create _ _ _ _ _ Hp) in Hc.
  - by rewrite (reconfigure_spec_no_create _ _ _ _ _ _ Hr) in Hc.
Qed.

Lemma one_action_create_once ws : one_action ws -> length (calls is_create ws) <= 1.
Proof. destruct 1; cbn; lia. Qed.

Lemma same_vm_adopted vm vm1 : same_vm vm vm1 -> vmIsAdopted vm1 = vmIsAdopted vm.
Proof. intros (Hm & _). unfold vmIsAdopted. by rewrite Hm. Qed.

Lemma live_spec_create r vm tr o :
  live_spec r vm tr o -> occurs is_create tr = true ->
  create_justified vm (described tr) /\ tasks_done vm (completed tr).
Proof.
  intros Hs. rewrite <- (occurs_calls is_create vm_write) by apply create_is_write.
  destruct Hs as [tr o (vm' & a & d & -> & _)|tr o vm1 inst d Hsame Ht Hs|tr w ->]; try done.
  intros Hc. split; [|done]. pose proof (same_vm_adopted _ _ Hsame) as Ha.
  destruct Hsame as (_ & _ & Hid & _). unfold create_justified. rewrite <- Hid, <- Ha.
  by eapply ensure_spec_create.
Qed.

(** A hypervisor is changed only past the outstanding tasks. *)
Lemma live_spec_mutation r vm tr o :
  live_spec r vm tr o -> occurs mutates_hypervisor tr = true -> tasks_done vm (completed tr).
Proof.
  intros Hs. rewrite <- (occurs_calls mutates_hypervisor vm_write) by apply mutation_is_write.
  by destruct Hs as [tr o (vm' & a & d & -> & _)|tr o vm1 inst d Hsame Ht Hs|tr w ->].
Qed.

(** An adopted VM without an ID is left alone. *)
Lemma live_spec_adopted r vm tr o :
  live_spec r vm tr o -> status_ID (vm_Status vm) = "" -> vmIsAdopted vm = true ->
  occurs mutates_hypervisor tr = false.
Proof.
  intros Hs Hid Ha. rewrite <- (occurs_calls mutates_hypervisor vm_write) by apply mutation_is_write.
  destruct Hs as [tr o (vm' & a & d & -> & _)|tr o vm1 inst d Hsame Ht Hs|tr w ->]; try done.
  rewrite <- (same_vm_adopted _ _ Hsame) in Ha. destruct Hsame as (_ & _ & Hid' & _).
  destruct Hs; try done; congruence.
Qed.

(** ** The status a reconcile writes *)
Definition saved_vm (x : event call answer) : option VirtualMachine :=
  match projT1 x with StatusUpdateVM vm => Some vm | _ => None end.
Definition saved (tr : trace) : list VirtualMachine := omap saved_vm tr.

Lemma saved_writes tr : saved (writes tr) = saved tr.
Proof.
  induction tr as [|[c a] tr IH]; [done|]. rewrite calls_cons. unfold saved in *.
  destruct c; cbn; rewrite ?IH; done.
Qed.

(** The create requests the provider accepted. *)
Definition accepted_create (x : event call answer) : option CreateRequest :=
  match projT1 x as c return answer c -> option CreateRequest with
  | ProviderCreate _ req => fun r => match r with Ok _ => Some req | Err _ => None end
  | _ => fun _ => None
  end (projT2 x).
Definition accepted_creates (tr : trace) : list CreateRequest := omap accepted_create tr.

Lemma accepted_creates_writes tr : accepted_creates (writes tr) = accepted_creates tr.
Proof.
  induction tr as [|[c a] tr IH]; [done|]. rewrite calls_cons. unfold accepted_creates in *.
  destruct c; cbn; rewrite ?IH; done.
Qed.

(** *** What a reconcile leaves for the next one *)
(** The VMs whose status the API server stored. *)
Definition stored_write (x : event call answer) : option VirtualMachine :=
  match projT1 x as c return answer c -> option VirtualMachine with
  | StatusUpdateVM vm => fun r => match r with None => Some vm | Some _ => None end
  | _ => fun _ => None
  end (projT2 x).
Definition stored_writes (tr : trace) : list VirtualMachine := omap stored_write tr.

(** The identifiers of the machines the provider made. *)
Definition created_id (x : event call answer) : option string :=
  match projT1 x as c return answer c -> option string with
  | ProviderCreate _ _ => fun r => match r with Ok resp => Some (resp_ID resp) | Err _ => None end
  | _ => fun _ => None
  end (projT2 x).
Definition created_ids (tr : trace) : list string := omap created_id tr.

(** The tasks the provider began for a change. *)
Definition started_task (x : event call answer) : option string :=
  match projT1 x as c return answer c -> option string with
  | ProviderCreate _ _ => fun r => match r with Ok resp => Some (resp_TaskRef resp) | Err _ => None end
  | ProviderPower _ _ _ => fun r => match r with Ok t => Some t | Err _ => None end
  | ProviderReconfigure _ _ _ => fun r => match r with Ok t => Some t | Err _ => None end
  | _ => fun _ => None
  end (projT2 x).
Definition started_tasks (tr : trace) : list string := omap started_task tr.

Lemma omap_writes {A} (f : event call answer -> option A) tr :
  (forall x, vm_write (projT1 x) = false -> f x = None) -> omap f (writes tr) = omap f tr.
Proof.
  intros Hf. induction tr as [|x tr IH]; [done|]. rewrite calls_cons.
  destruct (vm_write (projT1 x)) eqn:Hx; cbn; [by rewrite IH|]. by rewrite (Hf _ Hx), IH.
Qed.

(** A reconcile with the trace [later] knows what one with the trace [before] did: a
    machine that was made is made again only when the provider says it is gone, and a task
    that was begun is waited for. *)
Definition remembers (before later : trace) : Prop :=
  (forall id, id ∈ created_ids before -> id <> "" -> occurs is_create later = true ->
     exists desc, (id, desc) ∈ described later /\ Exists desc = false)
  /\ (forall t, t ∈ started_tasks before -> t <> "" -> occurs mutates_hypervisor later = true ->
        t ∈ completed later).

(** The status an action ends with has what the provider answered. *)
Lemma one_action_on_record ws vm' :
  one_action ws -> vm' ∈ stored_writes ws ->
  (forall id, id ∈ created_ids ws -> status_ID (vm_Status vm') = id)
  /\ (forall t, t ∈ started_tasks ws -> t <> "" ->
        status_LastTaskRef (vm_Status vm') = t \/ status_ReconfigureTaskRef (vm_Status vm') = t).
Proof.
  assert (forall vm a, vm' ∈ stored_writes [ev (StatusUpdateVM vm) a] -> vm' = vm) as Hone.
  { intros vm [e|]; cbn; [by intros ?%elem_of_nil|by intros ->%list_elem_of_singleton]. }
  destruct 1 as [|vm a|inst req [resp|e] vm a Hr|inst id op [t|e] vm a Hr|inst id req [t|e] vm a Hr];
    intros ->%Hone || intros Hv; try (by apply elem_of_nil in Hv);
    unfold created_ids, started_tasks; cbn; (split; intros x Hx; [|intros Hne]);
    first [by apply elem_of_nil in Hx | apply list_elem_of_singleton in Hx as ->].
  - by apply (Hr resp).
  - left. by apply (Hr resp).
  - left. by apply (Hr t).
  - right. by apply (Hr t).
Qed.

Lemma live_spec_remembers r vm tr o r' next tr' o' vm' :
  live_spec r vm tr o -> vm' ∈ stored_writes tr -> vm_Status next = vm_Status vm' ->
  live_spec r' next tr' o' -> remembers tr tr'.
Proof.
  intros Hs%live_spec_action Hv Hn Hs'. unfold remembers, created_ids, started_tasks.
  unfold stored_writes in Hv. rewrite <- omap_writes in Hv by by intros [[] ?].
  rewrite <- (omap_writes created_id), <- (omap_writes started_task) by by intros [[] ?].
  destruct (one_action_on_record _ _ Hs Hv) as [Hid Ht]. rewrite <- Hn in *. split.
  - intros id Hin Hne Hc. apply Hid in Hin. destruct (live_spec_create _ _ _ _ Hs' Hc) as [[[He _]|Hd] _].
    + congruence.
    + by rewrite Hin in Hd.
  - intros t Hin Hne Hm. destruct (live_spec_mutation _ _ _ _ Hs' Hm) as [Hl Hr].
    destruct (Ht t Hin Hne) as [Heq|Heq]; rewrite Heq in *; auto.
Qed.

(** A VM whose recorded resources are the desired ones needs no reconfigure. *)
Lemma desired_same_spec vm vm' cls :
  vm_Spec vm' = vm_Spec vm ->
  desiredCPU vm' cls = desiredCPU vm cls /\ desiredMemoryMiB vm' cls = desiredMemoryMiB vm cls.
Proof. intros Hs. unfold desiredCPU, desiredMemoryMiB. by rewrite Hs. Qed.

Lemma needsReconfigure_settled vm vm' cls :
  getCurrentCPU vm' = desiredCPU vm cls -> getCurrentMemoryMiB vm' = desiredMemoryMiB vm cls ->
  vm_Spec vm' = vm_Spec vm -> needsReconfigure vm' cls = false.
Proof.
  intros Hc Hm Hs. destruct (desired_same_spec _ _ cls Hs) as [Hdc Hdm].
  unfold needsReconfigure. rewrite Hc, Hm, Hdc, Hdm, !Z.eqb_refl. by destruct (_ && _).
Qed.

(** The VM a reconcile fetched, and the errors its provider Delete ended in. *)
Definition fetched_vm (x : event call answer) : option VirtualMachine :=
  match projT1 x as c return answer c -> option VirtualMachine with
  | GetVM _ => fun r => match r with Ok vm => Some vm | Err _ => None end
  | _ => fun _ => None
  end (projT2 x).
Definition fetched (tr : trace) : list VirtualMachine := omap fetched_vm tr.

Definition delete_error_of (x : event call answer) : option goerror :=
  match projT1 x as c return answer c -> option goerror with
  | ProviderDelete _ _ => fun r => match r with Ok _ => None | Err e => Some e end
  | _ => fun _ => None
  end (projT2 x).
Definition delete_errors (tr : trace) : list goerror := omap delete_error_of tr.

Lemma fetched_cons x tr :
  fetched (x :: tr) = match fetched_vm x with Some vm => vm :: fetched tr | None => fetched tr end.
Proof. reflexivity. Qed.

(** Every status a stage of the reconcile writes keeps the Ready condition of
    the VM, clears it, or was written after a description that warrants it. *)
Definition ready_sound (vm : VirtualMachine) (ds : list (string * DescribeResponse)) (ws : trace)
    : Prop :=
  forall vm', vm' ∈ saved ws -> ready vm' = true ->
    ready vm = true
    \/ exists desc, (status_ID (vm_Status vm), desc) ∈ ds /\ Exists desc = true
         /\ desc_PowerState desc = desired_power vm.

Lemma ready_sound_none vm ds : ready_sound vm ds [].
Proof. intros vm' Hv. by apply elem_of_nil in Hv. Qed.
Lemma ready_sound_one vm ds vm' a :
  (ready vm' = true ->
    ready vm = true
    \/ exists desc, (status_ID (vm_Status vm), desc) ∈ ds /\ Exists desc = true
         /\ desc_PowerState desc = desired_power vm) ->
  ready_sound vm ds [ev (StatusUpdateVM vm') a].
Proof. intros Hr vm'' Hv. apply list_elem_of_singleton in Hv as ->. exact Hr. Qed.
Lemma ready_sound_skip vm ds x ws :
  saved_vm x = None -> ready_sound vm ds ws -> ready_sound vm ds (x :: ws).
Proof. intros Hx Hs vm' Hv. apply Hs. unfold saved in *. cbn in Hv. by rewrite Hx in Hv. Qed.

Ltac ready_sound_tac :=
  repeat (apply ready_sound_skip; [done|]);
  first [apply ready_sound_none
        | apply ready_sound_one; intros ?;
          first [left; congruence | right; eexists; (split; [by left|done]) | congruence]].

Lemma create_spec_ready vm vm0 ds inst pn cls img nets ws o :
  create_spec vm0 inst pn cls img nets ws o -> ready vm0 = ready vm -> ready_sound vm ds ws.
Proof. destruct 1; intros He; ready_sound_tac. Qed.

Lemma ensure_spec_ready vm inst d ws ds o : ensure_spec vm inst d ws ds o -> ready_sound vm ds ws.
Proof.
  destruct 1 as [| |? ? ? _ [|desc ? ? Hex Hc|desc ? ? _ _ Hp|desc ? ? Hex Hpw _ Hr|]];
    try ready_sound_tac; try (by eapply create_spec_ready).
  - destruct Hp; change (ready (observed vm desc)) with (ready vm) in *; ready_sound_tac.
  - destruct Hr; change (ready (observed vm desc)) with (ready vm) in *; ready_sound_tac.
Qed.

Lemma live_spec_ready r vm tr o : live_spec r vm tr o -> ready_sound vm (described tr) tr.
Proof.
  intros Hs. unfold ready_sound. rewrite <- saved_writes.
  destruct Hs as [tr o (vm' & a & d & Hw & _ & _ & _ & Hr & _)|tr o vm1 inst d Hsame Ht Hs|tr w Hw _].
  - rewrite Hw. apply ready_sound_one. auto.
  - destruct Hsame as (_ & Hsp & Hid & Hr). apply ensure_spec_ready in Hs.
    intros vm' Hv Hrd. destruct (Hs vm' Hv Hrd) as [Hy|(desc & Hd & He & Hp)].
    + left. congruence.
    + right. exists desc. rewrite <- Hid. split_and!; [done|done|].
      unfold desired_power in *. by rewrite <- Hsp.
  - rewrite Hw. apply ready_sound_none.
Qed.

(** ** Safety of creation *)
Section Claims.
Context `{LibrariesOk}.

Lemma handleDeletion_silent_create r vm : silent is_create (handleDeletion r vm).
Proof.
  unfold handleDeletion, deleteFromProvider, getProviderInstance, releaseFinalizer,
    k8s_RemoveFinalizer.
  solve_silent.
Qed.

(** [Reconcile], cut at the fetch of the VM: it stops there, handles a
    deletion, adds the finalizer, or reconciles the live VM. *)
Lemma Reconcile_cases r req (Q : trace -> outcome reconcile_result -> Prop) :
  (forall e, api_IsNotFound e = true -> Q [ev (GetVM req) (Err e)] (Done (no_result, None))) ->
  (forall e, api_IsNotFound e = false ->
     Q [ev (GetVM req) (Err e); ev (RecordError errReasonGetVM) tt] (Done (no_result, Some e))) ->
  (forall vm, IsBeingDeleted vm = true ->
     wp (handleDeletion r vm) (fun tr => Q (ev (GetVM req) (Ok vm) :: tr))) ->
  (forall vm, IsBeingDeleted vm = false -> HasFinalizer vm = false ->
     forall u, let vm' := with_finalizers vm
                 (AddFinalizer (meta_Finalizers (vm_meta vm)) VirtualMachineFinalizer) in
     match u with
     | None => Q [ev (GetVM req) (Ok vm); ev (UpdateVM vm') None] (Done (requeue_now, None))
     | Some e => Q [ev (GetVM req) (Ok vm); ev (UpdateVM vm') (Some e);
                    ev (RecordError errReasonAddFinalizer) tt] (Done (no_result, Some e))
     end) ->
  (forall vm, IsBeingDeleted vm = false -> HasFinalizer vm = true ->
     wp (reconcileVM r vm) (fun tr => Q (ev (GetVM req) (Ok vm) :: tr))) ->
  wp (Reconcile r req) Q.
Proof.
  intros Hnf Herr Hdel Hadd Hlive. unfold Reconcile. wp_step. wp_step.
  destruct r0 as [vm|e]; cbn [bind_post].
  - destruct (IsBeingDeleted vm) eqn:Hd; [exact (Hdel vm Hd)|].
    destruct (HasFinalizer vm) eqn:Hf; cbn [negb]; [exact (Hlive vm Hd Hf)|].
    unfold k8s_AddFinalizer. unfold HasFinalizer in Hf. rewrite Hf.
    wp_step. wp_step. pose proof (Hadd vm Hd Hf r0) as Hu. cbn zeta in Hu.
    destruct r0 as [err|]; cbn [bind_post]; [|exact Hu].
    wp_steps. by destruct r0.
  - destruct (api_IsNotFound e) eqn:He; [exact (Hnf e He)|].
    wp_steps. destruct r0. by apply Herr.
Qed.

(** C1.  One reconcile issues at most one provider Create, and issues it only
    for the VM it fetched, when that VM is live, carries the finalizer, has no
    outstanding task that the provider did not just report complete, and either
    has no recorded ID and is not adopted, or was just reported non-existent by
    the provider.  Every answer of the API server and of the provider is
    allowed. *)
Theorem reconcile_creates_at_most_once r req :
  wp (Reconcile r req) (fun tr _ =>
    length (calls is_create tr) <= 1
    /\ (occurs is_create tr = true ->
          exists vm, vm ∈ fetched tr
            /\ IsBeingDeleted vm = false /\ HasFinalizer vm = true
            /\ create_justified vm (described tr) /\ tasks_done vm (completed tr))).
Proof.
  apply Reconcile_cases.
  - intros e _. cbn. split; [lia|done].
  - intros e _. cbn. split; [lia|done].
  - intros vm _. eapply wp_mono; [apply handleDeletion_silent_create|].
    intros tr o Hs. rewrite calls_cons, occurs_cons. cbn [is_create projT1 ev orb].
    rewrite Hs, (calls_occurs_false _ _ Hs). split; [cbn; lia|done].
  - intros vm _ _ [e|]; cbn; (split; [lia|done]).
  - intros vm Hd Hf. eapply wp_mono; [apply reconcileVM_meets_spec|]. intros tr o Hs. split.
    + rewrite calls_cons; cbn [projT1 ev is_create].
      rewrite <- (calls_calls is_create vm_write) by apply create_is_write.
      by eapply one_action_create_once, live_spec_action.
    + intros Hc. destruct (live_spec_create _ _ _ _ Hs Hc).
      exists vm. split_and!; try done. rewrite fetched_cons. by left.
Qed.

(** C3.  A reconcile of a live VM makes at most one change of the hypervisor
    (create, power or reconfigure, never delete), and makes it only if every task
    the VM had outstanding was just reported complete.  The change is followed, in
    the same reconcile, by a write of the VM's status that carries the ID and the
    task reference the provider answered with.  Where the API server stores that
    write, any reconcile that starts from the stored status remembers the change:
    it makes a machine only after the provider reported the recorded one gone, and
    changes the hypervisor only after the recorded task was reported complete.  (A
    write the API server refuses is only logged; nothing is claimed of that case.) *)
Theorem reconcile_records_its_action r vm :
  wp (reconcileVM r vm) (fun tr _ =>
    one_action (writes tr)
    /\ (occurs mutates_hypervisor tr = true -> tasks_done vm (completed tr))
    /\ forall vm', vm' ∈ stored_writes tr -> forall r' next, vm_Status next = vm_Status vm' ->
         wp (reconcileVM r' next) (fun later _ => remembers tr later)).
Proof.
  eapply wp_mono; [apply reconcileVM_meets_spec|]. intros tr o Hs. split_and!.
  - by eapply live_spec_action.
  - by eapply live_spec_mutation.
  - intros vm' Hv r' next Hn. eapply wp_mono; [apply reconcileVM_meets_spec|].
    intros later o' Hs'. by eapply live_spec_remembers.
Qed.

(** C5.  Deletion keeps the promise made beside the force-delete annotation, but for one
    case.  For a VM that is being deleted, the reads of its provider, the provider
    Delete, the finalizer write and the result of [Reconcile] are one of the cases of
    [deletion_spec]: with a machine and a provider on record, the finalizer goes only when the Provider
    object is gone, or when the provider accepted the Delete, did not know the machine,
    or refused while the annotation is set; otherwise it stays and the deletion is
    retried.  The one other case, [deletion_orphans], is where the Provider exists but no
    client for it can be had: against that promise the finalizer is dropped without a
    Delete. *)
Theorem reconcile_deletion_refines r req :
  wp (Reconcile r req) (fun tr o =>
    forall vm, head (fetched tr) = Some vm -> IsBeingDeleted vm = true ->
      deletion_spec r vm (calls deletion_call tr) o
      \/ deletion_orphans r vm (calls deletion_call tr) o).
Proof.
  apply Reconcile_cases; try done.
  - intros vm _. eapply wp_mono; [apply handleDeletion_meets_spec|].
    intros tr o Hs vm'. rewrite fetched_cons. cbn. by intros [= ->] _.
  - intros vm Hd _ u vmf. destruct u; intros vm'; rewrite fetched_cons; cbn;
      intros [= ->]; congruence.
  - intros vm Hd _. eapply wp_mono; [apply wp_true|].
    intros tr o _ vm'. rewrite fetched_cons. cbn. intros [= ->]. congruence.
Qed.

Lemma deletion_calls_updates (tr : trace) : occurs is_update (calls deletion_call tr) = occurs is_update tr.
Proof. apply occurs_calls. by intros []. Qed.

Lemma delete_errors_calls (tr : trace) : delete_errors (calls deletion_call tr) = delete_errors tr.
Proof.
  induction tr as [|[c r] tr IH]; [done|]. rewrite calls_cons. unfold delete_errors in *.
  destruct c; cbn; rewrite ?IH; done.
Qed.

(** C13.  While the provider refuses to delete the machine (any error but
    not-found) and the force-delete annotation is not set, the finalizer stays:
    the VM object is not written and the deletion is retried in fifteen
    seconds. *)
Theorem failed_delete_retains_finalizer r vm :
  hasForceDeleteAnnotation vm = false ->
  wp (handleDeletion r vm) (fun tr o =>
    forall e, e ∈ delete_errors tr -> IsNotFound e = false ->
      occurs is_update tr = false /\ o = Done (requeue_after vmDeleteRetryInterval, None)).
Proof.
  intros Hforce. eapply wp_mono; [apply handleDeletion_meets_spec|]. intros tr o Hs e.
  rewrite <- delete_errors_calls, <- deletion_calls_updates.
  destruct Hs as [[| | | |p inst [t|e'] u _ _ _ Hans|]|[]]; cbn; intros He Hnf;
    try (by apply elem_of_nil in He); apply list_elem_of_singleton in He as ->; [|done].
  destruct Hans; congruence.
Qed.

(** An adopted VM whose ID has not been recorded yet is never touched on the
    hypervisor: no create, power, reconfigure or delete call is made for it. *)
Theorem adopted_vm_is_left_alone r vm :
  status_ID (vm_Status vm) = "" -> vmIsAdopted vm = true ->
  wp (reconcileVM r vm) (fun tr _ => occurs mutates_hypervisor tr = false).
Proof.
  intros Hid Ha. eapply wp_mono; [apply reconcileVM_meets_spec|].
  intros tr o Hs. by eapply live_spec_adopted.
Qed.

(** C21.  Soundness of Ready: when a reconcile writes a status in which Ready is
    true and the VM was not Ready before, the provider has just described the
    recorded machine as existing and in the desired power state. *)
Theorem ready_is_sound r vm :
  wp (reconcileVM r vm) (fun tr _ =>
    forall vm', vm' ∈ saved tr -> ready vm' = true -> ready vm = false ->
      exists desc, (status_ID (vm_Status vm), desc) ∈ described tr /\ Exists desc = true
        /\ desc_PowerState desc = desired_power vm).
Proof.
  eapply wp_mono; [apply reconcileVM_meets_spec|]. intros tr o Hs vm' Hv Hr Hn.
  destruct (live_spec_ready _ _ _ _ Hs vm' Hv Hr) as [Hc|Hc]; [congruence|exact Hc].
Qed.

(** When the Provider object of a VM being deleted exists but cannot be
    resolved to a client, the finalizer is dropped although no Delete was
    issued, whether or not the force-delete annotation is set: the machine the
    VM has on record is left behind on the hypervisor. *)
Theorem unresolved_provider_orphans_machine r vm :
  HasFinalizer vm = true -> status_ID (vm_Status vm) <> "" ->
  ref_Name (spec_ProviderRef (vm_Spec vm)) <> "" -> RemoteResolver r = true ->
  forall p e, runs (handleDeletion r vm)
    [ev (GetProviderCR (deletion_key vm)) (Ok p); ev (ResolveProvider p) (Err e);
     ev (RecordError errReasonProviderResolve) tt; ev (UpdateVM (released vm)) None]
    (Done (no_result, None)).
Proof.
  intros Hf Hid Hn Hr p e. unfold handleDeletion, deleteFromProvider, getProviderInstance,
    releaseFinalizer, k8s_RemoveFinalizer.
  apply is_empty_false in Hid, Hn. rewrite Hf, Hid, Hn, Hr. cbn.
  unfold HasFinalizer in Hf. rewrite Hf. cbn. do 4 (do 2 eexists; split; [done|]; cbn). done.
Qed.

(** The VM as [reconcileVM] starts with it. *)
Definition observing (vm : VirtualMachine) : VirtualMachine :=
  vm <| vm_Status := vm_Status vm <| status_ObservedGeneration := meta_Generation (vm_meta vm) |> |>.

(** A Provider whose status carries no runtime section makes the reconcile
    of every VM that refers to it panic: once the dependencies are read, the
    run ends in the nil dereference and nothing is written to the VM, so the
    VM's conditions never say why. *)
Theorem provider_without_runtime_panics r vm tr d :
  runs (getDependencies (observing vm)) tr (Done (Ok d)) ->
  ps_Runtime (provider_Status (dep_provider d)) = None ->
  runs (reconcileVM r vm) tr (Panicked "nil Provider.Status.Runtime") /\ writes tr = [].
Proof.
  intros Hr Hn. split.
  - rewrite <- (app_nil_r tr). unfold reconcileVM. eapply runs_bind; [exact Hr|].
    cbn beta iota. by rewrite Hn.
  - exact (proj1 (wp_runs _ _) (silent_calls vm_write _ (getDependencies_silent _)) _ _ Hr).
Qed.

(** The power states the providers report are On, Off, Suspended and
    Unknown; for each of them a settled VM is polled again after ten seconds,
    whatever its addresses: the two- and five-minute intervals are never
    chosen. *)
Theorem settled_vm_is_polled_fast desc :
  desc_PowerState desc ∈ [Contracts.PowerStateOn; Contracts.PowerStateOff;
                          PowerStateSuspended; PowerStateUnknown] ->
  getRequeueInterval desc = (10 * second)%Z.
Proof.
  intros Hp. unfold getRequeueInterval.
  repeat first [apply elem_of_nil in Hp; done | apply elem_of_cons in Hp as [Hp|Hp]];
    by rewrite Hp.
Qed.

Lemma live_spec_power r vm tr o id desc :
  live_spec r vm tr o -> (id, desc) ∈ described tr -> Exists desc = true ->
  desc_PowerState desc <> desired_power vm ->
  forall op, power_op (desired_power vm) = Some op ->
  exists inst ans, ev (ProviderPower inst id op) ans ∈ writes tr.
Proof.
  intros Hs Hin Hex Hne op Hop.
  destruct Hs as [tr o (? & ? & ? & _ & _ & Hd & _)|tr o vm1 inst d (_ & Hsp & _) _ Hs|tr w _ Hd].
  - rewrite Hd in Hin. by apply elem_of_nil in Hin.
  - assert (desired_power vm1 = desired_power vm) as Hdp by (unfold desired_power; by rewrite Hsp).
    rewrite <- Hdp in *.
    destruct Hs as [| |? ? ? _ [|desc' ? ? He'|desc' ? ? _ _ Hp|desc' ? ? _ Hp' _ _|desc' ? ? _ Hp']];
      try (by apply elem_of_nil in Hin); apply list_elem_of_singleton in Hin as [= -> ->];
      try congruence.
    destruct Hp as [Hop'|op' e vm' a Hop'|op' t vm' a Hop']; rewrite Hop in Hop'; [done|..];
      injection Hop' as <-; do 2 eexists; by left.
  - rewrite Hd in Hin. by apply elem_of_nil in Hin.
Qed.

(** A VM whose desired power state is OffGraceful never settles: with a
    provider that reports one of the four power states of the contract, every
    reconcile that finds the machine, even one that is Off, orders another graceful
    shutdown, and no reconcile turns the VM Ready. *)
Theorem graceful_off_never_settles r vm :
  spec_PowerState (vm_Spec vm) = v1beta1.PowerStateOffGraceful ->
  wp (reconcileVM r vm) (fun tr _ =>
    (forall id desc, (id, desc) ∈ described tr ->
       desc_PowerState desc ∈ [Contracts.PowerStateOn; Contracts.PowerStateOff;
                               PowerStateSuspended; PowerStateUnknown]) ->
    (forall id desc, (id, desc) ∈ described tr -> Exists desc = true ->
       exists inst ans, ev (ProviderPower inst id PowerOpShutdownGraceful) ans ∈ writes tr)
    /\ (forall vm', vm' ∈ saved tr -> ready vm' = true -> ready vm = true)).
Proof.
  intros Hg. assert (desired_power vm = v1beta1.PowerStateOffGraceful) as Hd
    by (unfold desired_power; by rewrite Hg).
  eapply wp_mono; [apply reconcileVM_meets_spec|]. intros tr o Hs Hp.
  assert (forall id desc, (id, desc) ∈ described tr -> desc_PowerState desc <> desired_power vm) as Hne.
  { intros id desc Hin. specialize (Hp id desc Hin). rewrite Hd. clear -Hp.
    repeat first [apply elem_of_nil in Hp; done | apply elem_of_cons in Hp as [Hp|Hp]];
      by rewrite Hp. }
  split.
  - intros id desc Hin Hex. eapply live_spec_power; [done..|by eapply Hne|by rewrite Hd].
  - intros vm' Hv Hr. destruct (live_spec_ready _ _ _ _ Hs vm' Hv Hr) as [Hc|(desc & Hin & _ & Heq)]; [done|].
    by destruct (Hne _ _ Hin).
Qed.

(** What a create request asks for is the class's CPU and memory: the
    overrides of [spec.resources] are not in it.  Once the provider accepts it,
    though, the status records the overridden amounts as the VM's current
    resources, and no reconfigure is due any more. *)
Theorem resource_overrides_are_recorded_not_requested vm inst pn cls img nets :
  wp (createVM vm inst pn cls img nets) (fun tr _ =>
    forall req vm', req ∈ accepted_creates tr -> vm' ∈ saved tr ->
      req_Class req = convert_class (class_Spec cls)
      /\ getCurrentCPU vm' = desiredCPU vm cls
      /\ getCurrentMemoryMiB vm' = desiredMemoryMiB vm cls
      /\ needsReconfigure vm' cls = false).
Proof.
  eapply wp_mono; [apply createVM_meets_spec|]. intros tr o Hs req vm'.
  rewrite <- saved_writes, <- accepted_creates_writes.
  destruct Hs as [| | |req' resp vm'' a _ Hreq _ _ _ Hc Hm Hsp _]; unfold accepted_creates, saved;
    cbn; intros Hin Hv; try (by apply elem_of_nil in Hin).
  apply list_elem_of_singleton in Hin as ->. apply list_elem_of_singleton in Hv as ->.
  split_and!; [apply Hreq|done|done|]. by apply (needsReconfigure_settled vm).
Qed.
(** ** A task that never completes *)
Lemma saved_app tr1 tr2 : saved (tr1 ++ tr2) = saved tr1 ++ saved tr2.
Proof. apply omap_app. Qed.
Lemma saved_silent tr : writes tr = [] -> saved tr = [].
Proof. intros Hw. by rewrite <- saved_writes, Hw. Qed.

(** Unless its task is reported complete, a run leaves the task on record. *)
Definition keeps_task (t : string) (tr : trace) : Prop :=
  t ∉ completed tr -> forall vm', vm' ∈ saved tr -> status_LastTaskRef (vm_Status vm') = t.

Lemma keeps_task_app t tr1 tr2 : writes tr1 = [] -> keeps_task t tr2 -> keeps_task t (tr1 ++ tr2).
Proof.
  intros Hw Hk Hc vm'. rewrite saved_app, (saved_silent _ Hw). apply Hk.
  rewrite completed_app, not_elem_of_app in Hc. apply Hc.
Qed.

(** The end of a branch that only writes the status. *)
Ltac keeps_task_tac :=
  let Hc := fresh "Hc" in let v := fresh "v" in let Hv := fresh "Hv" in
  write_steps; intros Hc v Hv; cbn in Hv; apply list_elem_of_singleton in Hv as ->; done.

Lemma checkLastTask_keeps vm inst d t :
  status_LastTaskRef (vm_Status vm) = t -> t <> "" ->
  wp (checkLastTask vm inst d) (fun tr _ => keeps_task t tr).
Proof.
  intros Ht Hne. unfold checkLastTask. rewrite Ht. apply is_empty_false in Hne. rewrite Hne.
  wp_step. wp_step. destruct r as [[|]|err]; cbn [bind_post]; [|keeps_task_tac..].
  eapply wp_mono; [apply wp_true|]. intros tr o _ Hc. exfalso. apply Hc. cbn [app].
  rewrite completed_cons. by left.
Qed.

Lemma reconcileWithImage_keeps vm inst d t :
  status_LastTaskRef (vm_Status vm) = t -> t <> "" ->
  wp (reconcileWithImage vm inst d) (fun tr _ => keeps_task t tr).
Proof.
  intros Ht Hne. unfold reconcileWithImage. apply wp_bind.
  eapply wp_mono; [apply (silent_calls vm_write _ (EnsureImageOnProvider_silent _ _ _ _))|].
  intros tr [[e img]|w] Hw; cbn [bind_post].
  2:{ intros _ vm'. rewrite (saved_silent _ Hw). by intros ?%elem_of_nil. }
  eapply wp_mono with (Q := fun tr _ => keeps_task t tr);
    [|intros tr' o Hk; by apply keeps_task_app].
  unfold image_name. destruct e as [| |err]; [by apply checkLastTask_keeps| |].
  - destruct img; [keeps_task_tac|]. cbn. by intros _ vm' ?%elem_of_nil.
  - destruct (errors_Is _ _); [|keeps_task_tac].
    destruct img; [keeps_task_tac|]. cbn. by intros _ vm' ?%elem_of_nil.
Qed.

Lemma reconcileVM_keeps r vm t :
  status_LastTaskRef (vm_Status vm) = t -> t <> "" ->
  wp (reconcileVM r vm) (fun tr _ => keeps_task t tr).
Proof.
  intros Ht Hne. unfold reconcileVM. apply wp_bind.
  eapply wp_mono; [apply (silent_calls vm_write _ (getDependencies_silent _))|].
  intros tr [[d|err]|w] Hw; cbn [bind_post];
    [| |intros _ vm'; rewrite (saved_silent _ Hw); by intros ?%elem_of_nil].
  all: eapply wp_mono with (Q := fun tr _ => keeps_task t tr);
    [|intros tr' o Hk; by apply keeps_task_app].
  2:{ destruct (_ || _); keeps_task_tac. }
  destruct (ps_Runtime _); [|by intros _ vm' ?%elem_of_nil]. apply wp_bind.
  eapply wp_mono; [apply (silent_calls vm_write _ (getProviderInstance_silent _ _))|].
  intros tr' [[inst|err]|w] Hw'; cbn [bind_post];
    [| |intros _ vm'; rewrite (saved_silent _ Hw'); by intros ?%elem_of_nil].
  all: eapply wp_mono with (Q := fun tr _ => keeps_task t tr);
    [|intros tr'' o Hk; by apply keeps_task_app].
  - by apply reconcileWithImage_keeps.
  - keeps_task_tac.
Qed.

(** A VM whose outstanding task failed is stuck: as long as the provider
    does not report the task complete (and it answers every poll of a failed task
    with an error), no reconcile changes the machine on the hypervisor and every
    status written keeps the task on record, so the next reconcile polls it
    again. *)
Theorem failed_task_wedges_vm r vm :
  status_LastTaskRef (vm_Status vm) <> "" ->
  wp (reconcileVM r vm) (fun tr _ =>
    status_LastTaskRef (vm_Status vm) ∉ completed tr ->
    occurs mutates_hypervisor tr = false
    /\ forall vm', vm' ∈ saved tr ->
         status_LastTaskRef (vm_Status vm') = status_LastTaskRef (vm_Status vm)).
Proof.
  intros Hne. eapply wp_mono; [apply (wp_and _ _ _ (reconcileVM_keeps r vm _ eq_refl Hne)
                                        (reconcileVM_meets_spec r vm))|].
  intros tr o [Hk Hs] Hc. split; [|by apply Hk].
  destruct (occurs mutates_hypervisor tr) eqn:Hm; [|done].
  destruct (live_spec_mutation _ _ _ _ Hs Hm) as [Hdone _]. by apply Hdone in Hne.
Qed.
End Claims.

(** ** The properties on a concrete cluster *)
Import DemoLibraries.

(** What a property says of one run. *)
Ltac on_run H p w :=
  pose proof (proj1 (wp_runs _ _) H _ _ (exec_runs serve p w)) as Hrun; cbn beta in Hrun.

Lemma reconcile_creates_at_most_once_witness :
  occurs is_create (reconcile_once (demo_cluster demo_vm None)).1.1 = true
  /\ length (calls is_create (reconcile_once (demo_cluster demo_vm None)).1.1) <= 1.
Proof.
  split; [vm_compute; reflexivity|].
  on_run (reconcile_creates_at_most_once demo_reconciler demo_key)
    (Reconcile demo_reconciler demo_key) (demo_cluster demo_vm None).
  exact (proj1 Hrun).
Defined.

(** The demo VM is created and its status stored; a later reconcile that finds the machine
    running does not create it again. *)
Lemma reconcile_records_its_action_witness :
  let first := exec serve (reconcileVM demo_reconciler demo_vm) (demo_cluster demo_vm None) in
  let next := stored_vm first.2 in
  one_action (writes first.1.1) /\ created_ids first.1.1 = [demo_id]
  /\ next ∈ stored_writes first.1.1
  /\ remembers first.1.1 (exec serve (reconcileVM demo_reconciler next) first.2).1.1.
Proof.
  cbv zeta. on_run (reconcile_records_its_action demo_reconciler demo_vm)
    (reconcileVM demo_reconciler demo_vm) (demo_cluster demo_vm None).
  destruct Hrun as (Ha & _ & Hm).
  match goal with |- _ /\ _ /\ ?v ∈ ?l /\ _ => assert (v ∈ l) as Hin end.
  { apply list_elem_of_In. vm_compute. left. reflexivity. }
  split_and!; [exact Ha|vm_compute; reflexivity|exact Hin|].
  exact (proj1 (wp_runs _ _) (Hm _ Hin demo_reconciler _ eq_refl) _ _ (exec_runs serve _ _)).
Defined.

(** A cluster that refuses every status. *)
Definition serve_without_status (c : call) (w : cluster) : answer c * cluster :=
  match c return answer c * cluster with
  | StatusUpdateVM _ => (Some (ENew "the object has been modified"), w)
  | c' => serve c' w
  end.

(** When the API server refuses the status, the machine just made is not on record, and the
    next reconcile makes it again. *)
Theorem refused_status_creates_again :
  let first := exec serve_without_status (Reconcile demo_reconciler demo_key) (demo_cluster demo_vm None) in
  let second := exec serve_without_status (Reconcile demo_reconciler demo_key) first.2 in
  created_ids first.1.1 = [demo_id] /\ stored_vm first.2 = demo_vm
  /\ machine first.2 = Some "Off" /\ created_ids second.1.1 = [demo_id].
Proof. cbv zeta. by split_and!; vm_compute. Qed.

Lemma reconcile_deletion_refines_witness :
  let w := demo_cluster (deleted (on_record demo_vm)) (Some "On") in
  let tr := calls deletion_call (reconcile_once w).1.1 in
  occurs is_delete tr = true
  /\ (deletion_spec demo_reconciler (deleted (on_record demo_vm)) tr (reconcile_once w).1.2
      \/ deletion_orphans demo_reconciler (deleted (on_record demo_vm)) tr (reconcile_once w).1.2).
Proof.
  on_run (reconcile_deletion_refines demo_reconciler demo_key)
    (Reconcile demo_reconciler demo_key) (demo_cluster (deleted (on_record demo_vm)) (Some "On")).
  split; [vm_compute; reflexivity|]. apply Hrun; vm_compute; reflexivity.
Defined.

Definition refusing : cluster :=
  demo_cluster (deleted (on_record demo_vm)) (Some "On")
    <| delete_error := Some (NewRetryableError "VM is running" None) |>.

Lemma failed_delete_retains_finalizer_witness :
  let p := handleDeletion demo_reconciler (stored_vm refusing) in
  delete_errors (exec serve p refusing).1.1 = [NewRetryableError "VM is running" None]
  /\ occurs is_update (exec serve p refusing).1.1 = false.
Proof.
  split; [vm_compute; reflexivity|].
  on_run (failed_delete_retains_finalizer demo_reconciler (stored_vm refusing) eq_refl)
    (handleDeletion demo_reconciler (stored_vm refusing)) refusing.
  apply (Hrun (NewRetryableError "VM is running" None)); [|reflexivity].
  apply list_elem_of_In. vm_compute. left. reflexivity.
Defined.

Lemma ready_is_sound_witness :
  let p := reconcileVM demo_reconciler (on_record demo_vm) in
  let tr := (exec serve p (demo_cluster (on_record demo_vm) (Some "On"))).1.1 in
  existsb ready (saved tr) = true
  /\ exists desc, (demo_id, desc) ∈ described tr /\ Exists desc = true
       /\ desc_PowerState desc = "On".
Proof.
  split; [vm_compute; reflexivity|].
  on_run (ready_is_sound demo_reconciler (on_record demo_vm))
    (reconcileVM demo_reconciler (on_record demo_vm)) (demo_cluster (on_record demo_vm) (Some "On")).
  eapply Hrun; [apply list_elem_of_In; vm_compute; left; reflexivity|vm_compute; reflexivity..].
Defined.

(** A VM with a power task that the provider does not report complete. *)
Definition waiting_vm : VirtualMachine :=
  on_record demo_vm <| vm_Status := vm_Status (on_record demo_vm) <| status_LastTaskRef := "t-9" |> |>.
Definition waiting : cluster := demo_cluster waiting_vm (Some "Off") <| task_running := true |>.

