(* ===== verification/VirtualMachineProgress.v ===== *)
(** * VirtualMachineProgress: a VM that can be created is created

    The safety theorems of [VirtualMachineProps] bound what a reconcile may do;
    this file shows that it does its work: without failures in its way, the
    reconcile of a VM that is not on the hypervisor orders its creation. *)
From S2P Require Import Prelude Contracts K8s Api Effects.
From S2P Require Import ImagePrepare CreateRequest VirtualMachine VirtualMachineSpec VirtualMachineDemo.
From stdpp Require Import base gmap strings list.
From Stdlib Require Import ZArith Lia.
Import v1beta1.
Import Contracts.

(** A request of the API server or of a provider that was answered by an error. *)
Definition answered_error (x : event call answer) : bool :=
  match projT1 x as c return answer c -> bool with
  | GetVM _ => fun r => negb (is_ok r)
  | GetProviderCR _ => fun r => negb (is_ok r)
  | GetVMClass _ => fun r => negb (is_ok r)
  | GetVMImage _ => fun r => negb (is_ok r)
  | GetVMNetworkAttachment _ => fun r => negb (is_ok r)
  | GetSecret _ => fun r => negb (is_ok r)
  | StatusUpdateVMImage _ => fun r => negb (is_ok r)
  | ResolveProvider _ => fun r => negb (is_ok r)
  | ProviderPrepareImage _ _ => fun r => negb (is_ok r)
  | ProviderIsTaskComplete _ _ => fun r => negb (is_ok r)
  | _ => fun _ => false
  end (projT2 x).

(** A run is calm when no request failed and no image had to be prepared. *)
Definition disturbed (x : event call answer) : bool :=
  answered_error x || is_image_write (projT1 x).
Definition calm (tr : trace) : bool := negb (existsb disturbed tr).

Lemma calm_app tr1 tr2 : calm (tr1 ++ tr2) = calm tr1 && calm tr2.
Proof. unfold calm. by rewrite existsb_app, negb_orb. Qed.

(** What holds of the result of every calm run. *)
Definition wp_calm {A} (p : M A) (Q : outcome A -> Prop) : Prop :=
  wp p (fun tr o => calm tr = true -> Q o).

Lemma wp_calm_mono {A} (p : M A) (Q Q' : outcome A -> Prop) :
  wp_calm p Q -> (forall o, Q o -> Q' o) -> wp_calm p Q'.
Proof. intros Hp HQ. eapply wp_mono; [exact Hp|]. eauto. Qed.

Lemma wp_calm_Ret {A} (a : A) (Q : outcome A -> Prop) : Q (Done a) -> wp_calm (Ret a) Q.
Proof. by intros HQ _. Qed.

Lemma wp_calm_bind {A B} (p : M A) (k : A -> M B) (Q : outcome B -> Prop) :
  wp_calm p (fun o => match o with
                      | Done a => wp_calm (k a) Q
                      | Panicked w => Q (Panicked w)
                      end) ->
  wp_calm (p ≫= k) Q.
Proof.
  intros Hp. apply wp_bind. eapply wp_mono; [exact Hp|]. cbn beta.
  intros tr [a|w] Hk; cbn; [|exact Hk].
  destruct (calm tr) eqn:Htr.
  - eapply wp_mono; [exact (Hk eq_refl)|]. cbn beta. intros tr' o Ho Hc. apply Ho.
    by rewrite calm_app, Htr in Hc.
  - eapply wp_mono; [apply wp_true|]. intros tr' o _ Hc. by rewrite calm_app, Htr in Hc.
Qed.

Lemma wp_calm_call {A} (c : call) (k : answer c -> M A) (Q : outcome A -> Prop) :
  (forall r, disturbed (ev c r) = false -> wp_calm (k r) Q) -> wp_calm (do_ c ≫= k) Q.
Proof.
  intros Hk r. destruct (disturbed (ev c r)) eqn:Hd.
  - eapply wp_mono; [apply wp_true|]. intros tr o _ Hc. unfold calm in Hc. cbn in Hc. by rewrite Hd in Hc.
  - eapply wp_mono; [exact (Hk r Hd)|]. intros tr o Ho Hc. apply Ho.
    unfold calm in *. cbn in Hc. by rewrite Hd in Hc.
Qed.

(** Follow a handler along its calm runs; a failed answer closes the goal. *)
Ltac calm_step :=
  lazymatch goal with
  | |- wp_calm (mbind ?k (trigger ?c)) ?Q =>
      let r := fresh "r" in
      refine (@wp_calm_call _ c k Q _); intros r;
      let Hd := fresh "Hd" in intros Hd; cbn in Hd; cbn beta
  | |- wp_calm (mbind _ _) _ => apply wp_calm_bind
  | |- wp_calm (Ret _) _ => apply wp_calm_Ret
  | |- wp_calm (match ?x with _ => _ end) _ => destruct x eqn:?; try discriminate
  end.

(** No cloud-init payload is read from a secret. *)
Definition no_secrets (vm : VirtualMachine) : bool :=
  match spec_UserData (vm_Spec vm) ≫= ud_CloudInit with
  | Some ci => bool_decide (ci_SecretRef ci = None)
  | None => true
  end
  && match spec_MetaData (vm_Spec vm) ≫= md_CloudInit with
     | Some m => bool_decide (cim_SecretRef m = None)
     | None => true
     end.

#[export] Instance LocalObjectReference_eq_dec : EqDecision LocalObjectReference.
Proof. solve_decision. Defined.

Section Progress.
Context `{LibrariesOk}.

Lemma buildCreateRequest_pure vm pn cls img nets :
  no_secrets vm = true ->
  wp (buildCreateRequest vm pn cls img nets) (fun tr o => exists req, o = Done (Ok req)).
Proof.
  intros [Hu Hm]%andb_true_iff.
  unfold buildCreateRequest, resolve_user_data, resolve_meta_data.
  destruct (spec_UserData (vm_Spec vm) ≫= ud_CloudInit) as [ci|];
    destruct (spec_MetaData (vm_Spec vm) ≫= md_CloudInit) as [m|];
    rewrite ?bool_decide_eq_true in Hu; rewrite ?bool_decide_eq_true in Hm;
    unfold resolveCloudInitUserData, resolveCloudInitMetaData; rewrite ?Hu, ?Hm;
    try destruct (inline_part (ci_Inline ci)) as [|? []]; wp_steps; by eexists.
Qed.

Lemma createVM_creates vm inst pn cls img nets :
  one_source vm = true -> no_secrets vm = true ->
  wp (createVM vm inst pn cls img nets) (fun tr _ => occurs is_create tr = true).
Proof.
  intros Hone Hsec. unfold createVM. unfold one_source in Hone.
  destruct (spec_ImageRef (vm_Spec vm)), (spec_ImportedDisk (vm_Spec vm)); try done; cbn zeta.
  all: wp_use buildCreateRequest_pure; [done|]; intros tr oc [req ->]; cbn [bind_post].
  all: write_steps; trace_simpl; by rewrite ?orb_true_r.
Qed.

Lemma getNetworks_ok ns refs :
  wp_calm (getNetworks ns refs) (fun o => exists nets, o = Done (Ok nets)).
Proof.
  induction refs as [|ref refs IH]; cbn [getNetworks]; [by eexists|].
  destruct (vnr_NetworkRef ref); repeat calm_step;
    (eapply wp_calm_mono; [exact IH|]); intros o' [nets ->]; by eexists.
Qed.

Lemma getDependencies_ok vm : wp_calm (getDependencies vm) (fun o => exists d, o = Done (Ok d)).
Proof.
  unfold getDependencies, getImage. repeat calm_step; cbn beta iota; repeat calm_step;
    (eapply wp_calm_mono; [apply getNetworks_ok|]); intros o' [nets ->]; by eexists.
Qed.

(** A calm run cannot be one that wrote an image's status. *)
Lemma writeImageStatus_not_calm img mutate Q :
  (forall i, wp (mutate i) (fun _ o => exists r, o = Done r)) ->
  wp_calm (writeImageStatus img mutate) Q.
Proof.
  intros Hm. unfold writeImageStatus. apply wp_calm_bind.
  eapply wp_calm_mono with (Q := fun _ => False); [|done].
  apply wp_RetryOnConflict. intros tr1 tr2 o _ Hr Hc.
  rewrite calm_app in Hc. apply andb_true_iff in Hc as [_ Hc]. revert tr2 o Hr Hc.
  refine (proj1 (wp_runs _ (fun tr _ => calm tr = true -> False)) _).
  change (wp_calm (do_ (GetVMImage
    (mkKey (meta_Namespace (image_meta img)) (meta_Name (image_meta img)))) ≫= (fun g =>
     match g with
     | Ok latest => mutate latest ≫= (fun i => do_ (StatusUpdateVMImage i))
     | Err e => Ret (Err e)
     end)) (fun _ => False)).
  do 2 calm_step. apply wp_calm_bind. eapply wp_mono; [apply Hm|].
  intros tr o [i ->] _ r'. unfold calm, disturbed. cbn. by rewrite orb_true_r.
Qed.

Lemma EnsureImageOnProvider_calm vm img p inst :
  (forall s, is_ok (json_Marshal s) = true) ->
  wp_calm (EnsureImageOnProvider vm img p inst) (fun o => exists i, o = Done (EnsureProceed, i)).
Proof.
  intros Hj. unfold EnsureImageOnProvider. destruct img as [i|]; [|by eexists].
  destruct (prepare_not_needed _ _ _ _); [by eexists|].
  apply wp_calm_bind. unfold ensure_missing, hold_image, poll_prepare_task, trigger_prepare,
    markImagePreparing, markImagePrepared, record_import_started.
  assert (forall c, json_Marshal (image_Spec i) <> Err c) as Hj'
    by (intros c Hc; specialize (Hj (image_Spec i)); by rewrite Hc in Hj).
  repeat lazymatch goal with
  | |- wp_calm (mbind _ (writeImageStatus _ _)) _ =>
      apply wp_calm_bind, writeImageStatus_not_calm; intros; unfold set_image_condition;
      wp_steps; by eexists
  | |- _ => calm_step
  end; by destruct (Hj' _ eq_refl).
Qed.

(** A reconcile orders the creation in each of its calm, complete runs. *)
Definition creates {A} (p : M A) : Prop :=
  wp p (fun tr o => calm tr = true -> (exists res, o = Done res) -> occurs is_create tr = true).

Lemma creates_bind {A B} (p : M A) (k : A -> M B) (Q : A -> Prop) :
  wp_calm p (fun o => forall a, o = Done a -> Q a) -> (forall a, Q a -> creates (k a)) ->
  creates (p ≫= k).
Proof.
  intros Hp Hk. apply wp_bind. eapply wp_mono; [exact Hp|]. cbn beta.
  intros tr [a|w] HQ; cbn; [|by intros _ [? [=]]].
  destruct (calm tr) eqn:Htr.
  - eapply wp_mono; [apply (Hk a), HQ; done|]. cbn beta. intros tr' o Ho Hc Hd.
    rewrite calm_app, Htr in Hc. rewrite occurs_app, (Ho Hc Hd). apply orb_true_r.
  - eapply wp_mono; [apply wp_true|]. intros tr' o _ Hc. by rewrite calm_app, Htr in Hc.
Qed.

Lemma reconcileWithImage_creates vm inst d :
  (forall s, is_ok (json_Marshal s) = true) ->
  status_ID (vm_Status vm) = "" -> vmIsAdopted vm = false ->
  status_LastTaskRef (vm_Status vm) = "" -> status_ReconfigureTaskRef (vm_Status vm) = "" ->
  one_source vm = true -> no_secrets vm = true ->
  creates (reconcileWithImage vm inst d).
Proof.
  intros Hj Hid Ha Hl Hrc Hone Hsec. unfold reconcileWithImage.
  apply creates_bind with (Q := fun e => e.1 = EnsureProceed).
  - eapply wp_calm_mono; [by apply EnsureImageOnProvider_calm|].
    by intros o [i ->] a [= <-].
  - intros [e img] [= ->]. unfold checkLastTask, checkReconfigureTask, ensureExists.
    rewrite Hl, Hrc, Hid, Ha. cbn [is_empty]. eapply wp_mono; [by apply createVM_creates|]. done.
Qed.

(** C20.  Progress: take a live VM that is not on record, not adopted, has no
    outstanding task, exactly one source and no cloud-init secret.  Every
    reconcile of it that runs to its end without a failed request and without
    having to prepare the image orders the creation of the machine. *)
Theorem fresh_vm_is_created r vm :
  (forall s, is_ok (json_Marshal s) = true) ->
  RemoteResolver r = true ->
  status_ID (vm_Status vm) = "" -> vmIsAdopted vm = false ->
  status_LastTaskRef (vm_Status vm) = "" -> status_ReconfigureTaskRef (vm_Status vm) = "" ->
  one_source vm = true -> no_secrets vm = true ->
  wp (reconcileVM r vm) (fun tr o =>
    calm tr = true -> (exists res, o = Done res) -> occurs is_create tr = true).
Proof.
  intros Hj Hres Hid Ha Hl Hrc Hone Hsec.
  apply creates_bind with (Q := fun d => is_ok d = true).
  { eapply wp_calm_mono; [apply getDependencies_ok|]. by intros o [d ->] a [= <-]. }
  intros [d|] Hd; [|done]. cbn beta iota. destruct (ps_Runtime _); [|by intros _ [? [=]]].
  unfold getProviderInstance. rewrite Hres. cbn [negb].
  apply creates_bind with (Q := fun i => is_ok i = true).
  { intros r'. by destruct r' as [i|e]; intros Hc a [= <-]. }
  intros [i|] Hi; [|done]. by apply reconcileWithImage_creates.
Qed.
End Progress.

Import DemoLibraries.

Lemma fresh_vm_is_created_witness :
  let '(tr, _, _) := exec serve (reconcileVM demo_reconciler demo_vm) (demo_cluster demo_vm None) in
  calm tr = true /\ occurs is_create tr = true.
Proof.
  pose proof (proj1 (wp_runs _ _)
    (fresh_vm_is_created demo_reconciler demo_vm (fun _ => eq_refl) eq_refl eq_refl eq_refl eq_refl
       eq_refl eq_refl eq_refl) _ _
    (exec_runs serve (reconcileVM demo_reconciler demo_vm) (demo_cluster demo_vm None))) as Hw.
  destruct (exec serve _ _) as [[tr o] w] eqn:He. cbn [fst snd] in Hw.
  assert (calm tr = true /\ exists res, o = Done res) as [Hc Hd].
  { revert He. vm_compute. intros [= <- <- <-]. split; [reflexivity|by eexists]. }
  split; [exact Hc|exact (Hw Hc Hd)].
Defined.
