(* ===== verification/GoLib.v ===== *)
(** * GoLib: the parts of Go's string and path packages the code uses

    [strings.TrimSpace], [Trim], [Split], [SplitN] and [TrimPrefix],
    [path.Clean], [filepath.Join] and [strconv.FormatInt] on byte strings, with
    the lemmas on segments that the URL and path theorems need. *)
From S2P Require Import Prelude.
From stdpp Require Import base strings list pretty.
From Stdlib Require Import Ascii ZArith Lia.

(** Every byte of a string passes a test. *)
Fixpoint all_chars (f : ascii -> bool) (s : string) : bool :=
  match s with
  | EmptyString => true
  | String c s' => f c && all_chars f s'
  end.

(** [strings.TrimLeft] and [TrimRight] for a set of ASCII characters. *)
Fixpoint TrimLeft (f : ascii -> bool) (s : string) : string :=
  match s with
  | EmptyString => EmptyString
  | String c s' => if f c then TrimLeft f s' else s
  end.
Fixpoint TrimRight (f : ascii -> bool) (s : string) : string :=
  match s with
  | EmptyString => EmptyString
  | String c s' =>
      match TrimRight f s' with
      | EmptyString => if f c then EmptyString else String c EmptyString
      | t => String c t
      end
  end.
Definition Trim (f : ascii -> bool) (s : string) : string := TrimRight f (TrimLeft f s).

Definition is_slash (c : ascii) : bool := Ascii.eqb c "/".

Definition TrimPrefix (s p : string) : string :=
  if has_prefix s p then String.substring (String.length p) (String.length s - String.length p) s else s.

(** [strings.TrimSuffix], [HasSuffix] and the joining of lines. *)
Definition TrimSuffix (s suffix : string) : string :=
  String.rev (TrimPrefix (String.rev s) (String.rev suffix)).
Definition HasSuffix (s suffix : string) : bool := has_prefix (String.rev s) (String.rev suffix).
Definition newline : ascii := ascii_of_nat 10.
Definition join_lines (l : list string) : string := String.concat (String newline "") l.

Definition is_quote_char (c : ascii) : bool := Ascii.eqb c "'" || Nat.eqb (nat_of_ascii c) 34.
Definition is_quote_or_space (c : ascii) : bool := is_quote_char c || Ascii.eqb c " ".

(** [\s] of a regular expression. *)
Definition re_space (c : ascii) : bool :=
  let n := nat_of_ascii c in
  Nat.eqb n 32 || Nat.eqb n 9 || Nat.eqb n 10 || Nat.eqb n 12 || Nat.eqb n 13.

(** The UTF-8 encodings of the characters [unicode.IsSpace] accepts. *)
Definition bytes (l : list nat) : string :=
  foldr (fun n s => String (ascii_of_nat n) s) EmptyString l.
Definition space_encodings : list string :=
  bytes <$> ([[9]; [10]; [11]; [12]; [13]; [32]; [194; 133]; [194; 160]; [225; 154; 128]]
    ++ ((fun n => [226; 128; n]) <$> [128; 129; 130; 131; 132; 133; 134; 135; 136; 137; 138; 168; 169; 175])
    ++ [[226; 129; 159]; [227; 128; 128]])%nat.

(** Each round drops at least a byte, so the length of the string is enough. *)
Fixpoint drop_encodings (fuel : nat) (es : list string) (s : string) : string :=
  match fuel with
  | O => s
  | S n =>
      match List.find (has_prefix s) es with
      | Some e => drop_encodings n es (TrimPrefix s e)
      | None => s
      end
  end.

Definition TrimSpace (s : string) : string :=
  let l := drop_encodings (String.length s) space_encodings s in
  String.rev (drop_encodings (String.length l) (String.rev <$> space_encodings) (String.rev l)).

(** [strings.Split] by one byte. *)
Fixpoint Split (c : ascii) (s : string) : list string :=
  match s with
  | EmptyString => [EmptyString]
  | String d s' =>
      if Ascii.eqb d c then EmptyString :: Split c s'
      else match Split c s' with
           | w :: ws => String d w :: ws
           | [] => [String d EmptyString]
           end
  end.

(** [strings.SplitN(s, c, 2)] or [strings.Cut]: the two sides of the first
    separator. *)
Fixpoint Cut (c : ascii) (s : string) : option (string * string) :=
  match s with
  | EmptyString => None
  | String d s' =>
      if Ascii.eqb d c then Some (EmptyString, s')
      else match Cut c s' with
           | Some (a, b) => Some (String d a, b)
           | None => None
           end
  end.

(** [strconv.FormatInt(n, 10)]. *)
Definition FormatInt (n : Z) : string := pretty n.

(** [time.Duration.String]: [digits k n] are the last [k] decimal digits of [n],
    [frac k n] the fraction they make without its trailing zeros. *)
Fixpoint digits (k : nat) (n : Z) : string :=
  match k with
  | O => ""
  | S k' => digits k' (n / 10) +:+ FormatInt (n mod 10)
  end.
Definition frac (k : nat) (n : Z) : string :=
  match TrimRight (fun c => Ascii.eqb c "0") (digits k n) with
  | EmptyString => ""
  | s => "." +:+ s
  end.
Definition abs_duration (u : Z) : string :=
  if (u =? 0)%Z then "0s"
  else if (u <? 1000)%Z then FormatInt u +:+ "ns"
  else if (u <? millisecond)%Z then FormatInt (u / 1000) +:+ frac 3 u +:+ "µs"
  else if (u <? second)%Z then FormatInt (u / millisecond) +:+ frac 6 u +:+ "ms"
  else
    let s := (u / second)%Z in
    let secs := FormatInt (s mod 60) +:+ frac 9 u +:+ "s" in
    if (s <? 60)%Z then secs
    else
      let m := (s / 60)%Z in
      let mins := FormatInt (m mod 60) +:+ "m" +:+ secs in
      if (m <? 60)%Z then mins else FormatInt (m / 60) +:+ "h" +:+ mins.
Definition Duration_String (d : duration) : string :=
  if (d <? 0)%Z then "-" +:+ abs_duration (- d) else abs_duration d.

Example duration_strings :
  Duration_String <$> [0; 1500; 2500000; 90 * second; -(3600 * second); second + 50 * millisecond]%Z
  = ["0s"; "1.5µs"; "2.5ms"; "1m30s"; "-1h0m0s"; "1.05s"].
Proof. reflexivity. Qed.

(** ** Paths

    [path.Clean]: empty and [.] segments go, [..] takes the segment before it
    with it, and at the root it goes too. *)
Definition plain_segment (s : string) : bool :=
  negb (bool_decide (s = "")) && negb (bool_decide (s = ".")).

Fixpoint clean_stack (rooted : bool) (stack segs : list string) : list string :=
  match segs with
  | [] => rev stack
  | seg :: rest =>
      if negb (plain_segment seg) then clean_stack rooted stack rest
      else if bool_decide (seg = "..") then
        match stack with
        | top :: stack' =>
            if bool_decide (top = "..") then clean_stack rooted (".." :: stack) rest
            else clean_stack rooted stack' rest
        | [] => clean_stack rooted (if rooted then [] else [".."]) rest
        end
      else clean_stack rooted (seg :: stack) rest
  end.

Definition join_path (segs : list string) : string := String.concat "/" segs.

Definition Clean (p : string) : string :=
  match p with
  | EmptyString => "."
  | String c rest =>
      if is_slash c then "/" +:+ join_path (clean_stack true [] (Split "/" rest))
      else match clean_stack false [] (Split "/" p) with
           | [] => "."
           | segs => join_path segs
           end
  end.

Definition filepath_Join (a b : string) : string :=
  if is_empty a then (if is_empty b then "" else Clean b)
  else if is_empty b then Clean a
  else Clean (a +:+ "/" +:+ b).

(** The part up to the last slash and the part behind it. *)
Fixpoint split_last (s : string) : string * string :=
  match s with
  | EmptyString => ("", "")
  | String c s' =>
      let '(d, b) := split_last s' in
      if is_slash c then (String c d, b) else if is_empty d then ("", String c b) else (String c d, b)
  end.
Definition filepath_Dir (p : string) : string := Clean (split_last p).1.
Definition filepath_Base (p : string) : string :=
  if is_empty p then "."
  else let b := (split_last (TrimRight is_slash p)).2 in if is_empty b then "/" else b.

(** The segments that count: those [Clean] keeps when there is no [..]. *)
Definition segments (s : string) : list string := List.filter plain_segment (Split "/" s).

(** ** Lemmas *)
Section Lemmas.
#[local] Arguments String.append !_ _ /.

Lemma all_chars_app f s t : all_chars f (s +:+ t) = all_chars f s && all_chars f t.
Proof. induction s as [|c s IH]; cbn; [done|]. by rewrite IH, andb_assoc. Qed.

Lemma all_chars_impl (f g : ascii -> bool) s :
  (forall c, f c = true -> g c = true) -> all_chars f s = true -> all_chars g s = true.
Proof.
  intros Hfg. induction s as [|c s IH]; cbn; [done|].
  intros [Hc Hs]%andb_true_iff. by rewrite (Hfg c Hc), IH.
Qed.

Lemma Split_ne c s : exists w ws, Split c s = w :: ws.
Proof.
  induction s as [|d s (w & ws & IH)]; cbn; [by eexists _, _|].
  rewrite IH. destruct (Ascii.eqb d c); by eexists _, _.
Qed.

(** Splitting at a separator that follows a word without one. *)
Lemma Split_cons c w t :
  all_chars (fun d => negb (Ascii.eqb d c)) w = true -> Split c (w +:+ String c t) = w :: Split c t.
Proof.
  induction w as [|d w IH]; cbn.
  - by rewrite Ascii.eqb_refl.
  - intros [Hd Hw]%andb_true_iff. apply negb_true_iff in Hd. by rewrite Hd, IH.
Qed.

Lemma Split_single c w :
  all_chars (fun d => negb (Ascii.eqb d c)) w = true -> Split c w = [w].
Proof.
  induction w as [|d w IH]; cbn; [done|].
  intros [Hd Hw]%andb_true_iff. apply negb_true_iff in Hd. by rewrite Hd, IH.
Qed.

Lemma Split_app c s t : Split c (s +:+ String c t) = Split c s ++ Split c t.
Proof.
  induction s as [|d s IH]; cbn.
  - by rewrite Ascii.eqb_refl.
  - destruct (Ascii.eqb d c); [by rewrite IH|].
    rewrite IH. by destruct (Split_ne c s) as (w & ws & ->).
Qed.

Lemma Split_free c s : Forall (fun w => all_chars (fun d => negb (Ascii.eqb d c)) w = true) (Split c s).
Proof.
  induction s as [|d s IH]; cbn; [by repeat constructor|].
  destruct (Ascii.eqb d c) eqn:Hd; [by constructor|].
  destruct (Split_ne c s) as (w & ws & Hs). rewrite Hs in *.
  apply Forall_cons in IH as [Hw IH]. constructor; [|done]. cbn. by rewrite Hd, Hw.
Qed.

(** Every byte of a segment is a byte of the string. *)
Lemma Split_all_chars c f s :
  all_chars f s = true -> Forall (fun w => all_chars f w = true) (Split c s).
Proof.
  induction s as [|d s IH]; cbn; [by repeat constructor|].
  intros [Hd Hs]%andb_true_iff. specialize (IH Hs).
  destruct (Ascii.eqb d c); [by constructor|].
  destruct (Split_ne c s) as (w & ws & Hw). rewrite Hw in *.
  apply Forall_cons in IH as [Hw' IH]. constructor; [|done]. cbn. by rewrite Hd.
Qed.

(** Joining and splitting words without separators. *)
Lemma Split_join ws :
  Forall (fun w => all_chars (fun d => negb (Ascii.eqb d "/")) w = true) ws ->
  ws <> [] -> Split "/" (join_path ws) = ws.
Proof.
  induction 1 as [|w ws Hw Hws IH]; [done|]. intros _.
  destruct ws as [|w' ws]; [by apply Split_single|].
  change (join_path (w :: w' :: ws)) with (w +:+ String "/" (join_path (w' :: ws))).
  rewrite Split_cons by done. by rewrite IH.
Qed.

Lemma segments_app s t : segments (s +:+ String "/" t) = segments s ++ segments t.
Proof. unfold segments. by rewrite Split_app, List.filter_app. Qed.

Lemma segments_sep s t : segments (s +:+ "/" +:+ t) = segments s ++ segments t.
Proof. apply segments_app. Qed.

Lemma segments_slash t : segments (String "/" t) = segments t.
Proof. reflexivity. Qed.

Lemma segments_TrimLeft s : segments (TrimLeft is_slash s) = segments s.
Proof.
  induction s as [|c s IH]; cbn [TrimLeft]; [done|].
  destruct (is_slash c) eqn:Hc; [|done].
  apply Ascii.eqb_eq in Hc as ->. by rewrite segments_slash.
Qed.

Lemma TrimRight_tail f s : exists t, s = TrimRight f s +:+ t /\ all_chars f t = true.
Proof.
  induction s as [|c s (t & Hs & Ht)]; [by exists ""|]. cbn [TrimRight].
  destruct (TrimRight f s) as [|d r] eqn:Hr.
  - cbn in Hs. subst t. destruct (f c) eqn:Hc; [exists (String c s); cbn; by rewrite Hc|by exists s].
  - exists t. split; [|done]. cbn. by rewrite Hs at 1.
Qed.

Lemma segments_slashes s t :
  all_chars is_slash t = true -> segments (s +:+ t) = segments s.
Proof.
  revert s. induction t as [|c t IH]; intros s; cbn; [by rewrite string_app_nil_r|].
  intros [Hc Ht]%andb_true_iff. apply Ascii.eqb_eq in Hc as ->.
  rewrite segments_app. change t with ("" +:+ t) at 1. rewrite IH by done.
  by rewrite app_nil_r.
Qed.

Lemma segments_Trim s : segments (Trim is_slash s) = segments s.
Proof.
  unfold Trim. rewrite <- (segments_TrimLeft s).
  destruct (TrimRight_tail is_slash (TrimLeft is_slash s)) as (t & Hs & Ht).
  rewrite Hs at 2. by rewrite segments_slashes.
Qed.

(** Without [..], cleaning a rooted path keeps the segments that count. *)
Lemma clean_stack_plain rooted stack segs :
  ".." ∉ segs -> clean_stack rooted stack segs = rev stack ++ List.filter plain_segment segs.
Proof.
  revert stack; induction segs as [|seg segs IH]; intros stack Hn; cbn.
  - by rewrite app_nil_r.
  - apply not_elem_of_cons in Hn as [Hne Hn].
    destruct (plain_segment seg); cbn [negb]; [|by apply IH].
    rewrite bool_decide_false by congruence. rewrite IH by done. cbn. by rewrite <- app_assoc.
Qed.

Lemma Clean_rooted s :
  ".." ∉ Split "/" s -> Clean (String "/" s) = String "/" (join_path (segments s)).
Proof. intros Hn. cbn -[Split join_path]. by rewrite clean_stack_plain. Qed.

Lemma Cut_app c s t :
  all_chars (fun d => negb (Ascii.eqb d c)) s = true -> Cut c (s +:+ String c t) = Some (s, t).
Proof.
  induction s as [|d s IH]; cbn.
  - by rewrite Ascii.eqb_refl.
  - intros [Hd Hs]%andb_true_iff. apply negb_true_iff in Hd. by rewrite Hd, IH.
Qed.

Lemma Cut_none c s : all_chars (fun d => negb (Ascii.eqb d c)) s = true -> Cut c s = None.
Proof.
  induction s as [|d s IH]; cbn; [done|].
  intros [Hd Hs]%andb_true_iff. apply negb_true_iff in Hd. by rewrite Hd, IH.
Qed.

Lemma join_path_chars f ws :
  f "/"%char = true -> Forall (fun w => all_chars f w = true) ws -> all_chars f (join_path ws) = true.
Proof.
  intros Hf. induction 1 as [|w ws Hw Hws IH]; [done|].
  destruct ws as [|w' ws]; [done|].
  change (join_path (w :: w' :: ws)) with (w +:+ String "/" (join_path (w' :: ws))).
  rewrite all_chars_app, Hw. cbn -[join_path]. by rewrite Hf, IH.
Qed.

Lemma TrimPrefix_app p s : TrimPrefix (p +:+ s) p = s.
Proof.
  unfold TrimPrefix. rewrite has_prefix_app.
  assert (String.length (p +:+ s) - String.length p = String.length s)%nat as ->.
  { induction p as [|c p IH]; cbn; [lia|exact IH]. }
  induction p as [|c p IH]; cbn; [|exact IH].
  induction s as [|c s IH]; cbn; [done|]. by rewrite IH.
Qed.

(** ** Numbers *)
Definition is_digit (c : ascii) : bool :=
  (48 <=? nat_of_ascii c)%nat && (nat_of_ascii c <=? 57)%nat.

Lemma pretty_N_char_digit (n : N) : is_digit (pretty_N_char n) = true.
Proof. unfold pretty_N_char. repeat case_match; reflexivity. Qed.

Lemma pretty_N_go_digits (n : N) : forall s,
  all_chars is_digit s = true -> all_chars is_digit (pretty_N_go n s) = true.
Proof.
  induction (N.lt_wf_0 n) as [n _ IH]. intros s Hs.
  destruct (decide (n = 0)%N) as [->|Hn]; [by rewrite pretty_N_go_0|].
  rewrite pretty_N_go_step by lia. apply IH; [apply N.div_lt; lia|].
  cbn. by rewrite pretty_N_char_digit.
Qed.

Lemma FormatInt_digits n : (0 <= n)%Z -> all_chars is_digit (FormatInt n) = true.
Proof.
  intros Hn. unfold FormatInt, pretty, pretty_Z.
  destruct n as [|p|p]; [done| |lia]. unfold pretty, pretty_positive, pretty, pretty_N.
  case_decide; [done|]. by apply pretty_N_go_digits.
Qed.

Lemma FormatInt_inj n m : FormatInt n = FormatInt m -> n = m.
Proof. apply (inj pretty). Qed.
End Lemmas.
