(* ===== verification/NetIP.v ===== *)
(** * NetIP: addresses and networks of Go's net package

    [net.IP] and [net.IPNet] as the storage host policy uses them: byte slices
    of length 4 or 16, an IPv4 address also in its 16-byte form. *)
From S2P Require Import Prelude.
From stdpp Require Import base list.
From Stdlib Require Import ZArith Lia.
#[local] Open Scope Z_scope.

Abbreviation IP := (list Z) (only parsing).

Definition byte_ok (b : Z) : Prop := 0 <= b < 256.

(** The addresses the parser and the resolver produce. *)
Definition ip_ok (ip : IP) : Prop := (length ip = 4%nat \/ length ip = 16%nat) /\ Forall byte_ok ip.

Definition v4InV6Prefix : list Z := [0; 0; 0; 0; 0; 0; 0; 0; 0; 0; 255; 255].
Definition IPv4 (a b c d : Z) : IP := v4InV6Prefix ++ [a; b; c; d].

Definition IPv4zero : IP := IPv4 0 0 0 0.
Definition IPv6unspecified : IP := replicate 16 0.
Definition IPv6loopback : IP := replicate 15 0 ++ [1].

Definition To4 (ip : IP) : option IP :=
  if bool_decide (length ip = 4%nat) then Some ip
  else if bool_decide (length ip = 16%nat) && bool_decide (take 12 ip = v4InV6Prefix)
  then Some (drop 12 ip) else None.

Definition Equal (ip x : IP) : bool :=
  if bool_decide (length ip = length x) then bool_decide (ip = x)
  else if bool_decide (length ip = 4%nat) && bool_decide (length x = 16%nat)
  then bool_decide (take 12 x = v4InV6Prefix) && bool_decide (ip = drop 12 x)
  else if bool_decide (length ip = 16%nat) && bool_decide (length x = 4%nat)
  then bool_decide (take 12 ip = v4InV6Prefix) && bool_decide (drop 12 ip = x)
  else false.

(** A byte of the slice; every use is within its length. *)
Definition byte_at (ip : IP) (i : nat) : Z := nth i ip 0.

Definition IsUnspecified (ip : IP) : bool := Equal ip IPv4zero || Equal ip IPv6unspecified.

Definition IsLoopback (ip : IP) : bool :=
  match To4 ip with
  | Some ip4 => byte_at ip4 0 =? 127
  | None => Equal ip IPv6loopback
  end.

Definition IsMulticast (ip : IP) : bool :=
  match To4 ip with
  | Some ip4 => Z.land (byte_at ip4 0) 0xf0 =? 0xe0
  | None => bool_decide (length ip = 16%nat) && (byte_at ip 0 =? 0xff)
  end.

Definition IsInterfaceLocalMulticast (ip : IP) : bool :=
  bool_decide (length ip = 16%nat) && (byte_at ip 0 =? 0xff)
  && (Z.land (byte_at ip 1) 0x0f =? 0x01).

Definition IsLinkLocalMulticast (ip : IP) : bool :=
  match To4 ip with
  | Some ip4 => (byte_at ip4 0 =? 224) && (byte_at ip4 1 =? 0) && (byte_at ip4 2 =? 0)
  | None => bool_decide (length ip = 16%nat) && (byte_at ip 0 =? 0xff)
            && (Z.land (byte_at ip 1) 0x0f =? 0x02)
  end.

Definition IsLinkLocalUnicast (ip : IP) : bool :=
  match To4 ip with
  | Some ip4 => (byte_at ip4 0 =? 169) && (byte_at ip4 1 =? 254)
  | None => bool_decide (length ip = 16%nat) && (byte_at ip 0 =? 0xfe)
            && (Z.land (byte_at ip 1) 0xc0 =? 0x80)
  end.

(** ** Networks *)
Record IPNet := mkIPNet { net_IP : IP; net_Mask : list Z }.

(** [net.CIDRMask]: [ones] bits set, then clear up to [bits]. *)
Fixpoint mask_bytes (n : nat) (ones : Z) : list Z :=
  match n with
  | O => []
  | S n' =>
      (if 8 <=? ones then 255 else if ones <=? 0 then 0 else 256 - 2 ^ (8 - ones))
      :: mask_bytes n' (ones - 8)
  end.
Definition CIDRMask (ones : Z) (bits : Z) : list Z := mask_bytes (Z.to_nat (bits / 8)) ones.

Definition networkNumberAndMask (n : IPNet) : option (IP * list Z) :=
  let ip := match To4 (net_IP n) with
            | Some ip => Some ip
            | None => if bool_decide (length (net_IP n) = 16%nat) then Some (net_IP n) else None
            end in
  match ip with
  | None => None
  | Some ip =>
      let m := net_Mask n in
      if bool_decide (length m = 4%nat) then
        if bool_decide (length ip = 4%nat) then Some (ip, m) else None
      else if bool_decide (length m = 16%nat) then
        Some (ip, if bool_decide (length ip = 4%nat) then drop 12 m else m)
      else None
  end.

Fixpoint masked_equal (nn m ip : list Z) : bool :=
  match nn, m, ip with
  | n :: nn', b :: m', i :: ip' => (Z.land n b =? Z.land i b) && masked_equal nn' m' ip'
  | _, _, _ => true
  end.

Definition Contains (n : IPNet) (ip : IP) : bool :=
  match networkNumberAndMask n with
  | None => false
  | Some (nn, m) =>
      let ip := match To4 ip with Some x => x | None => ip end in
      bool_decide (length ip = length nn) && masked_equal nn m ip
  end.

(** ** Lemmas *)

(** A 16-byte address is an IPv4 address or is not. *)
Lemma To4_cases ip :
  ip_ok ip ->
  (exists a b c d, To4 ip = Some [a; b; c; d] /\ Forall byte_ok [a; b; c; d])
  \/ (To4 ip = None /\ length ip = 16%nat /\ take 12 ip <> v4InV6Prefix).
Proof.
  intros [[Hl|Hl] Hb]; unfold To4.
  - rewrite bool_decide_true by done. left.
    destruct ip as [|a [|b [|c [|d [|]]]]]; try done. eauto 7.
  - rewrite bool_decide_false by (rewrite Hl; done). rewrite bool_decide_true by done. cbn [andb].
    case_bool_decide as Hp; [left|by right].
    assert (length (drop 12 ip) = 4%nat) as Hd by (rewrite length_drop, Hl; done).
    assert (Forall byte_ok (drop 12 ip)) as Hb' by (by apply Forall_drop).
    destruct (drop 12 ip) as [|a [|b [|c [|d [|]]]]]; try done. eauto 7.
Qed.

Lemma land_byte b : byte_ok b -> Z.land b 255 = b.
Proof. intros Hb. change 255 with (Z.ones 8). rewrite Z.land_ones by lia. apply Z.mod_small, Hb. Qed.
