(* ===== verification/MigrationApi.v ===== *)
(** * MigrationApi: the VMMigration resource

    Models [api/infra.virtrigaud.io/v1beta1/vmmigration_types.go].  As in [Api], the
    fields no modelled function touches are left out. *)
From S2P Require Import Prelude Contracts K8s Api.
From stdpp Require Import base gmap strings list.
From Stdlib Require Import ZArith.
Import v1beta1.

(** [MigrationPhase] is an open string type: [MigrationPhaseOther] is any string
    that is not one of the constants. *)
Inductive MigrationPhase :=
  | MigrationPhaseUnset
  | MigrationPhasePending
  | MigrationPhaseValidating
  | MigrationPhaseSnapshotting
  | MigrationPhaseExporting
  | MigrationPhaseTransferring
  | MigrationPhaseConverting
  | MigrationPhaseImporting
  | MigrationPhaseCreating
  | MigrationPhaseValidatingTarget
  | MigrationPhaseReady
  | MigrationPhaseFailed
  | MigrationPhaseOther (s : string).
#[export] Instance MigrationPhase_eq_dec : EqDecision MigrationPhase.
Proof. solve_decision. Defined.

Definition CleanupPolicyAlways : string := "Always".
Definition CleanupPolicyOnSuccess : string := "OnSuccess".
Definition CleanupPolicyNever : string := "Never".

Definition VMMigrationConditionReady : string := "Ready".
Definition VMMigrationConditionValidating : string := "Validating".
Definition VMMigrationConditionSnapshotting : string := "Snapshotting".
Definition VMMigrationConditionExporting : string := "Exporting".
Definition VMMigrationConditionTransferring : string := "Transferring".
Definition VMMigrationConditionImporting : string := "Importing".
Definition VMMigrationConditionFailed : string := "Failed".

Record MigrationSource := mkMigrationSource {
  ms_VMRef : LocalObjectReference;
  ms_ProviderRef : option ObjectRef;
  ms_SnapshotRef : option LocalObjectReference;
  ms_CreateSnapshot : bool;
  ms_PowerOffBeforeMigration : bool;
  ms_DeleteAfterMigration : bool
}.

Record MigrationTarget := mkMigrationTarget {
  mt_Name : string;
  mt_Namespace : string;
  mt_ProviderRef : ObjectRef;
  mt_ClassRef : option LocalObjectReference;
  mt_Networks : list VMNetworkRef;
  mt_PlacementRef : option LocalObjectReference;
  mt_Labels : gmap string string;
  mt_Annotations : gmap string string
}.

(** [MaxRetries] and [BackoffMultiplier] are [int32], [RetryDelay] a duration. *)
Record MigrationRetryPolicy := mkMigrationRetryPolicy {
  rp_MaxRetries : option Z;
  rp_RetryDelay : option duration;
  rp_BackoffMultiplier : option Z
}.

Record MigrationOptions := mkMigrationOptions {
  mo_DiskFormat : string;
  mo_Compress : bool;
  mo_VerifyChecksums : bool;
  mo_RetryPolicy : option MigrationRetryPolicy;
  mo_CleanupPolicy : string
}.

Record S3StorageConfig := mkS3StorageConfig {
  s3c_Bucket : string; s3c_Endpoint : string; s3c_Region : string; s3c_Prefix : string;
  s3c_CredentialsSecretRef : ObjectRef; s3c_UsePathStyle : bool
}.
Record NFSStorageConfig := mkNFSStorageConfig {
  nfsc_Server : string; nfsc_Export : string; nfsc_Path : string;
  nfsc_UID : option Z; nfsc_GID : option Z
}.
Record PVCStorageConfig := mkPVCStorageConfig {
  pvcc_Name : string; pvcc_StorageClassName : string; pvcc_Size : string;
  pvcc_AccessMode : string; pvcc_MountPath : string
}.
Record MigrationStorage := mkMigrationStorage {
  mst_Type : string; mst_TransferMode : string;
  mst_PVC : option PVCStorageConfig; mst_NFS : option NFSStorageConfig;
  mst_S3 : option S3StorageConfig
}.

Record VMMigrationSpec := mkVMMigrationSpec {
  mig_Source : MigrationSource;
  mig_Target : MigrationTarget;
  mig_Options : option MigrationOptions;
  mig_Storage : option MigrationStorage
}.

Record MigrationDiskInfo := mkMigrationDiskInfo {
  di_SourceDiskID : string; di_SourceFormat : string; di_TargetDiskID : string;
  di_TargetFormat : string; di_TargetPath : string; di_SourceChecksum : string;
  di_TargetChecksum : string
}.
#[export] Instance MigrationDiskInfo_eta : Eta MigrationDiskInfo := fun r =>
  mkMigrationDiskInfo (di_SourceDiskID r) (di_SourceFormat r) (di_TargetDiskID r)
    (di_TargetFormat r) (di_TargetPath r) (di_SourceChecksum r) (di_TargetChecksum r).
Definition no_disk_info : MigrationDiskInfo := mkMigrationDiskInfo "" "" "" "" "" "" "".

Record MigrationStorageInfo := mkMigrationStorageInfo { si_CleanedUp : bool }.

(** [RetryCount] is an [int32]. *)
Record VMMigrationStatus := mkVMMigrationStatus {
  mig_Phase : MigrationPhase;
  mig_Message : string;
  mig_SnapshotID : string;
  mig_ExportID : string;
  mig_ImportID : string;
  mig_TaskRef : string;
  mig_TargetVMID : string;
  mig_StartTime : option time;
  mig_CompletionTime : option time;
  mig_DiskInfo : option MigrationDiskInfo;
  mig_StorageInfo : option MigrationStorageInfo;
  mig_StoragePVCName : string;
  mig_Conditions : list Condition;
  mig_RetryCount : Z;
  mig_LastRetryTime : option time
}.
#[export] Instance VMMigrationStatus_eta : Eta VMMigrationStatus := fun r =>
  mkVMMigrationStatus (mig_Phase r) (mig_Message r) (mig_SnapshotID r) (mig_ExportID r)
    (mig_ImportID r) (mig_TaskRef r) (mig_TargetVMID r) (mig_StartTime r) (mig_CompletionTime r)
    (mig_DiskInfo r) (mig_StorageInfo r) (mig_StoragePVCName r) (mig_Conditions r)
    (mig_RetryCount r) (mig_LastRetryTime r).

Record VMMigration := mkVMMigration {
  mig_meta : ObjectMeta; mig_Spec : VMMigrationSpec; mig_Status : VMMigrationStatus
}.
#[export] Instance VMMigration_eta : Eta VMMigration := fun r =>
  mkVMMigration (mig_meta r) (mig_Spec r) (mig_Status r).

Definition mig_Name (m : VMMigration) : string := meta_Name (mig_meta m).
Definition mig_Namespace (m : VMMigration) : string := meta_Namespace (mig_meta m).

