(* ===== verification/JobApi.v ===== *)
(** * JobApi: the VMSnapshot and VMClone resources

    Models [api/infra.virtrigaud.io/v1beta1/vmsnapshot_types.go] and
    [vmclone_types.go].  As in [Api], the fields no modelled function touches are
    left out; the customization of a clone is there in full, because it is sent to
    the provider as a whole. *)
From S2P Require Import Prelude Contracts K8s Api.
From stdpp Require Import base gmap strings list.
From Stdlib Require Import ZArith.
Import v1beta1.

(** ** VMSnapshot *)
Record SnapshotConfig := mkSnapshotConfig {
  sc_Name : string; sc_Description : string; sc_IncludeMemory : bool; sc_Quiesce : bool
}.
Record SnapshotRetentionPolicy := mkSnapshotRetentionPolicy {
  srp_MaxAge : option duration; srp_DeleteOnVMDelete : bool; srp_PreservePinned : bool
}.
Record SnapshotMetadata := mkSnapshotMetadata { smd_Pinned : bool }.
Record VMSnapshotSpec := mkVMSnapshotSpec {
  sn_VMRef : LocalObjectReference;
  sn_SnapshotConfig : option SnapshotConfig;
  sn_RetentionPolicy : option SnapshotRetentionPolicy;
  sn_Metadata : option SnapshotMetadata
}.

(** [SnapshotPhase] is an open string type. *)
Inductive SnapshotPhase :=
  | SnapshotPhaseUnset
  | SnapshotPhasePending
  | SnapshotPhaseCreating
  | SnapshotPhaseReady
  | SnapshotPhaseDeleting
  | SnapshotPhaseFailed
  | SnapshotPhaseExpired
  | SnapshotPhaseOther (s : string).
#[export] Instance SnapshotPhase_eq_dec : EqDecision SnapshotPhase.
Proof. solve_decision. Defined.

Record VMSnapshotStatus := mkVMSnapshotStatus {
  sn_SnapshotID : string;
  sn_Phase : SnapshotPhase;
  sn_Message : string;
  sn_CreationTime : option time;
  sn_TaskRef : string;
  sn_Conditions : list Condition
}.
#[export] Instance VMSnapshotStatus_eta : Eta VMSnapshotStatus := fun r =>
  mkVMSnapshotStatus (sn_SnapshotID r) (sn_Phase r) (sn_Message r) (sn_CreationTime r) (sn_TaskRef r)
    (sn_Conditions r).

Record VMSnapshot := mkVMSnapshot {
  sn_meta : ObjectMeta; sn_Spec : VMSnapshotSpec; sn_Status : VMSnapshotStatus
}.
#[export] Instance VMSnapshot_eta : Eta VMSnapshot := fun r =>
  mkVMSnapshot (sn_meta r) (sn_Spec r) (sn_Status r).

Definition VMSnapshotConditionReady : string := "Ready".
Definition VMSnapshotConditionCreating : string := "Creating".
Definition VMSnapshotConditionDeleting : string := "Deleting".
Definition VMSnapshotReasonCreated : string := "Created".
Definition VMSnapshotReasonCreating : string := "Creating".
Definition VMSnapshotReasonDeleting : string := "Deleting".
Definition VMSnapshotReasonProviderError : string := "ProviderError".

(** ** VMClone *)
Record CloneSource := mkCloneSource { cs_VMRef : option LocalObjectReference }.
Record VMCloneTarget := mkVMCloneTarget {
  ct_Name : string;
  ct_Namespace : string;
  ct_ClassRef : option LocalObjectReference;
  ct_PlacementRef : option LocalObjectReference;
  ct_Networks : list VMNetworkRef;
  ct_Labels : gmap string string;
  ct_Annotations : gmap string string
}.

(** [CloneType] is an open string type. *)
Definition CloneTypeFullClone : string := "FullClone".
Definition CloneTypeLinkedClone : string := "LinkedClone".
Definition CloneTypeInstantClone : string := "InstantClone".
Record CloneOptions := mkCloneOptions { co_Type : string }.

Record NetworkCustomization := mkNetworkCustomization {
  ncz_Name : string; ncz_IPAddress : string; ncz_SubnetMask : string; ncz_Gateway : string;
  ncz_DNS : list string; ncz_MACAddress : string; ncz_DHCP : bool
}.
Record PasswordSpec := mkPasswordSpec {
  pw_Value : string; pw_SecretRef : option LocalObjectReference; pw_SecretKey : string
}.
Record DomainJoinSpec := mkDomainJoinSpec {
  dj_Domain : string; dj_Username : string; dj_Password : PasswordSpec;
  dj_OrganizationalUnit : string
}.
Record SysprepCustomization := mkSysprepCustomization {
  sys_Enabled : bool; sys_ProductKey : string; sys_Organization : string; sys_Owner : string;
  sys_AdminPassword : option PasswordSpec; sys_JoinDomain : option DomainJoinSpec;
  sys_CustomCommands : list string
}.
Record GuestCommand := mkGuestCommand {
  gc_Command : string; gc_Arguments : list string; gc_WorkingDirectory : string;
  gc_RunAsUser : string; gc_Timeout : option duration; gc_Stage : string
}.
Record CertificateSpec := mkCertificateSpec {
  cert_Name : string; cert_Data : string; cert_SecretRef : option LocalObjectReference;
  cert_SecretKey : string; cert_Store : string
}.
Record VMCustomization := mkVMCustomization {
  cz_Hostname : string; cz_Domain : string; cz_TimeZone : string;
  cz_Networks : list NetworkCustomization; cz_UserData : option UserData;
  cz_Sysprep : option SysprepCustomization; cz_Tags : list string;
  cz_GuestCommands : list GuestCommand; cz_Certificates : list CertificateSpec
}.

Record VMCloneSpec := mkVMCloneSpec {
  cl_Source : CloneSource;
  cl_Target : VMCloneTarget;
  cl_Options : option CloneOptions;
  cl_Customization : option VMCustomization
}.

(** [ClonePhase] is an open string type. *)
Inductive ClonePhase :=
  | ClonePhaseUnset
  | ClonePhasePending
  | ClonePhasePreparing
  | ClonePhaseCloning
  | ClonePhaseCustomizing
  | ClonePhasePoweringOn
  | ClonePhaseReady
  | ClonePhaseFailed
  | ClonePhaseOther (s : string).
#[export] Instance ClonePhase_eq_dec : EqDecision ClonePhase.
Proof. solve_decision. Defined.

Record VMCloneStatus := mkVMCloneStatus {
  cl_TargetRef : option LocalObjectReference;
  cl_TargetVMID : string;
  cl_Phase : ClonePhase;
  cl_Message : string;
  cl_StartTime : option time;
  cl_CompletionTime : option time;
  cl_TaskRef : string;
  cl_Conditions : list Condition;
  cl_ObservedGeneration : Z;
  cl_ActualCloneType : string
}.
#[export] Instance VMCloneStatus_eta : Eta VMCloneStatus := fun r =>
  mkVMCloneStatus (cl_TargetRef r) (cl_TargetVMID r) (cl_Phase r) (cl_Message r) (cl_StartTime r)
    (cl_CompletionTime r) (cl_TaskRef r) (cl_Conditions r) (cl_ObservedGeneration r) (cl_ActualCloneType r).

Record VMClone := mkVMClone { cl_meta : ObjectMeta; cl_Spec : VMCloneSpec; cl_Status : VMCloneStatus }.
#[export] Instance VMClone_eta : Eta VMClone := fun r => mkVMClone (cl_meta r) (cl_Spec r) (cl_Status r).

Definition VMCloneConditionReady : string := "Ready".
Definition VMCloneConditionCloning : string := "Cloning".
Definition VMCloneConditionFailed : string := "Failed".
Definition VMCloneReasonCompleted : string := "Completed".
Definition VMCloneReasonCloning : string := "Cloning".
Definition VMCloneReasonProviderError : string := "ProviderError".
Definition VMCloneReasonSourceNotFound : string := "SourceNotFound".
Definition VMCloneReasonUnsupported : string := "Unsupported".
