(* ===== verification/Cluster.v ===== *)
(** * Cluster: what the other controllers ask of their environment

    [Effects] lists the calls of the VirtualMachine controller; this file lists
    those of the controllers that work on several kinds of object.  The requests
    to the API server are indexed by the [kind] of the object, and [object k] is
    the type of the objects of kind [k]. *)
From S2P Require Import Prelude Contracts K8s Api Effects NetIP CoreApi MigrationApi JobApi.
From stdpp Require Import base gmap strings list.
From Stdlib Require Import ZArith.
Import v1beta1.

Inductive kind :=
  | KVirtualMachine | KProvider | KSecret | KVMMigration | KPVC | KDeployment
  | KVMSnapshot | KVMClone | KVMClass | KService.

Definition object (k : kind) : Type :=
  match k with
  | KVirtualMachine => VirtualMachine
  | KProvider => Provider
  | KSecret => Secret
  | KVMMigration => VMMigration
  | KPVC => PersistentVolumeClaim
  | KDeployment => Deployment
  | KVMSnapshot => VMSnapshot
  | KVMClone => VMClone
  | KVMClass => VMClass
  | KService => Service
  end.

(** What [os.Stat] says of a path. *)
Inductive stat := StatDir | StatFile | StatNotExist (e : goerror) | StatError (e : goerror).

Inductive kcall :=
  (* the API server *)
  | KGet (k : kind) (key : NamespacedName)
  | KUpdate (k : kind) (o : object k)
  | KStatusUpdate (k : kind) (o : object k)
  | KPatch (k : kind) (o : object k)
  | KCreate (k : kind) (o : object k)
  | KDelete (k : kind) (o : object k)
  | KListPods (namespace : string) (labels : gmap string string)
  | KListVirtualMachines
  | KListPVCs (namespace : string) (labels : gmap string string)
  | KListProviders (namespace : string)
  (* providers *)
  | Resolve (p : Provider)
  | Describe (i : ProviderInstance) (id : string)
  | Power (i : ProviderInstance) (id : string) (op : PowerOp)
  | IsTaskComplete (i : ProviderInstance) (taskRef : string)
  | TaskStatus (i : ProviderInstance) (taskRef : string)
  | SnapshotCreate (i : ProviderInstance) (req : SnapshotCreateRequest)
  | SnapshotDelete (i : ProviderInstance) (vmId snapshotId : string)
  | ExportDisk (i : ProviderInstance) (req : ExportDiskRequest)
  | ImportDisk (i : ProviderInstance) (req : ImportDiskRequest)
  | GetCapabilities (i : ProviderInstance)
  | Clone (i : ProviderInstance) (req : CloneRequest)
  | ListVMs (i : ProviderInstance)
  (* sync.Map *)
  | MapLoad (key : string)
  | MapLoadOrStore (key : string)
  | MapDelete (key : string)
  (* network, files, clock, events and metrics *)
  | LookupIP (host : string)
  | Stat (path : string)
  | Remove (path : string)
  | TimeNow
  | Sleep (d : duration)
  | Event (eventtype reason message : string)
  | CountError (reason : string).

(** An update answers with its error, if any; a poll with both of its results. *)
Definition kanswer (c : kcall) : Type :=
  match c with
  | KGet k _ => res (object k)
  | KUpdate _ _ | KStatusUpdate _ _ | KPatch _ _ | KCreate _ _ | KDelete _ _ => option goerror
  | KListPods _ _ => res (list Pod)
  | KListVirtualMachines => res (list VirtualMachine)
  | KListPVCs _ _ => res (list PersistentVolumeClaim)
  | KListProviders _ => res (list Provider)
  | Resolve _ => res ProviderInstance
  | Describe _ _ => res DescribeResponse
  | Power _ _ _ | SnapshotDelete _ _ _ => res string
  | IsTaskComplete _ _ => res bool
  | TaskStatus _ _ => res contracts_TaskStatus
  | SnapshotCreate _ _ => res SnapshotCreateResponse
  | ExportDisk _ _ => res ExportDiskResponse
  | ImportDisk _ _ => res ImportDiskResponse
  | GetCapabilities _ => res Capabilities
  | Clone _ _ => res CloneResponse
  | ListVMs _ => res (list VMInfo)
  | MapLoad _ | MapLoadOrStore _ => bool
  | LookupIP _ => res (list (list Z))
  | Stat _ => stat
  | Remove _ => option goerror
  | TimeNow => time
  | MapDelete _ | Sleep _ | Event _ _ _ | CountError _ => unit
  end.

Abbreviation KM := (prog kcall kanswer).
Abbreviation ktrace := (list (event kcall kanswer)).
Abbreviation kdo := (trigger (E := kcall) (R := kanswer)).
Abbreviation kev := (ev (E := kcall) (R := kanswer)).

(** What an event that read a VM got. *)
Definition vm_answer (x : event kcall kanswer) : option (res VirtualMachine) :=
  match x with existT (KGet KVirtualMachine _) a => Some a | _ => None end.

(** ** Third-party code

    [wait.PollUntilContextTimeout], [controllerutil.SetControllerReference],
    [resource.ParseQuantity], the RFC 3339 printer and the parsers of the net
    packages. *)
Class ClusterLibraries := {
  PollUntil : forall (interval timeout : duration), KM bool -> KM (option goerror);
  SetControllerReference : VMMigration -> PersistentVolumeClaim -> res PersistentVolumeClaim;
  ParseQuantity : string -> res Z;
  FormatRFC3339 : time -> string;
  ParseIP : string -> option (list Z);
  IP_String : list Z -> string;
  ParseCIDR : string -> option IPNet;
  SplitHostPort : string -> option string;  (* the host, unless it is an error *)
  url_Host : string -> option string        (* Parse(s).Host, unless it is an error *)
}.

(** The rounds of a poll that did not end it. *)
Inductive poll_rounds (f : KM bool) : ktrace -> Prop :=
  | poll_nil : poll_rounds f []
  | poll_cons tr tr' : runs f tr (Done false) -> poll_rounds f tr' -> poll_rounds f (tr ++ tr').

(** A poll runs its function until it is true; it reports success only then. *)
Class ClusterLibrariesOk `{ClusterLibraries} : Prop := {
  poll_until_spec interval timeout (f : KM bool) tr o :
    runs (PollUntil interval timeout f) tr o ->
    (exists e, o = Done (Some e) /\ poll_rounds f tr)
    \/ (o = Done None /\ exists tr1 tr2, tr = tr1 ++ tr2 /\ poll_rounds f tr1 /\ runs f tr2 (Done true))
    \/ (exists w tr1 tr2, o = Panicked w /\ tr = tr1 ++ tr2 /\ poll_rounds f tr1 /\ runs f tr2 (Panicked w))
}.

Lemma poll_rounds_silent (g : kcall -> bool) f tr :
  silent g f -> poll_rounds f tr -> occurs g tr = false.
Proof.
  intros Hf. induction 1 as [|tr tr' Hr _ IH]; [done|].
  rewrite occurs_app, IH. by rewrite (proj1 (wp_runs f _) Hf tr _ Hr).
Qed.

Lemma silent_PollUntil `{ClusterLibrariesOk} (g : kcall -> bool) interval timeout f :
  silent g f -> silent g (PollUntil interval timeout f).
Proof.
  intros Hf. apply wp_runs. intros tr o Hr.
  destruct (poll_until_spec _ _ _ _ _ Hr)
    as [(e & -> & Hp)|[(-> & tr1 & tr2 & -> & Hp & Hf2)|(w & tr1 & tr2 & -> & -> & Hp & Hf2)]].
  - by eapply poll_rounds_silent.
  - rewrite occurs_app, (poll_rounds_silent g f tr1 Hf Hp).
    by rewrite (proj1 (wp_runs f _) Hf tr2 _ Hf2).
  - rewrite occurs_app, (poll_rounds_silent g f tr1 Hf Hp).
    by rewrite (proj1 (wp_runs f _) Hf tr2 _ Hf2).
Qed.
#[export] Hint Extern 2 (silent _ (PollUntil _ _ _)) =>
  apply silent_PollUntil; solve_silent : silent.

(** ** An instance of the parameters: a poll of at most [rounds] rounds. *)
Module DemoCluster.
Fixpoint poll (rounds : nat) (interval : duration) (f : KM bool) : KM (option goerror) :=
  match rounds with
  | O => Ret (Some (ENew "context deadline exceeded"))
  | S n =>
      b ← f;
      if b : bool then Ret None else poll n interval f
  end.

#[export] Instance libs : ClusterLibraries := {|
  PollUntil i t f := poll 40 i f;
  SetControllerReference m p := Ok p;
  ParseQuantity s := if is_empty s then Err (ENew "no quantity") else Ok 1%Z;
  FormatRFC3339 t := "2025-01-01T00:00:00Z";
  ParseIP s := if bool_decide (s = "10.0.0.9") then Some (IPv4 10 0 0 9)
               else if bool_decide (s = "169.254.169.254") then Some (IPv4 169 254 169 254) else None;
  IP_String ip := "?";
  ParseCIDR s := None;
  SplitHostPort s := None;
  url_Host s := None
|}.

(** An environment in which nothing is found and nothing fails. *)
Definition idle (c : kcall) : kanswer c :=
  let nothing : goerror := ENew "nothing there" in
  match c return kanswer c with
  | KGet _ _ => Err nothing
  | KUpdate _ _ | KStatusUpdate _ _ | KPatch _ _ | KCreate _ _ | KDelete _ _ => None
  | KListPods _ _ => Ok []
  | KListVirtualMachines => Ok []
  | KListPVCs _ _ => Ok []
  | KListProviders _ => Ok []
  | Resolve _ => Err nothing
  | Describe _ _ => Err nothing
  | Power _ _ _ | SnapshotDelete _ _ _ => Ok ""
  | IsTaskComplete _ _ => Ok true
  | TaskStatus _ _ => Ok (mkTaskStatus true "" "")
  | SnapshotCreate _ _ => Err nothing
  | ExportDisk _ _ => Err nothing
  | ImportDisk _ _ => Err nothing
  | GetCapabilities _ => Err nothing
  | Clone _ _ => Err nothing
  | ListVMs _ => Ok []
  | MapLoad _ | MapLoadOrStore _ => false
  | LookupIP _ => Err nothing
  | Stat _ => StatDir
  | Remove _ => None
  | TimeNow => 0%Z
  | MapDelete _ | Sleep _ | Event _ _ _ | CountError _ => tt
  end.

Lemma poll_spec rounds interval f tr o :
  runs (poll rounds interval f) tr o ->
  (exists e, o = Done (Some e) /\ poll_rounds f tr)
  \/ (o = Done None /\ exists tr1 tr2, tr = tr1 ++ tr2 /\ poll_rounds f tr1 /\ runs f tr2 (Done true))
  \/ (exists w tr1 tr2, o = Panicked w /\ tr = tr1 ++ tr2 /\ poll_rounds f tr1 /\ runs f tr2 (Panicked w)).
Proof.
  revert tr; induction rounds as [|n IH]; intros tr; cbn [poll].
  - intros [-> ->]. left. eexists. split; [done|constructor].
  - intros [(tr1 & tr2 & b & -> & Hf & Hr)|(w & Hf & ->)]%runs_bind_inv.
    + destruct b.
      * destruct Hr as [-> ->]. right; left. split; [done|].
        exists [], tr1. rewrite app_nil_r. split_and!; [done|constructor|done].
      * destruct (IH tr2 Hr)
          as [(e & -> & Hp)|[(-> & t1 & t2 & -> & Hp & Hf2)|(w & t1 & t2 & -> & -> & Hp & Hf2)]].
        -- left. exists e. split; [done|]. by constructor.
        -- right; left. split; [done|]. exists (tr1 ++ t1), t2. rewrite app_assoc.
           split_and!; [done|by constructor|done].
        -- right; right. exists w, (tr1 ++ t1), t2. rewrite app_assoc.
           split_and!; [done|done|by constructor|done].
    + right; right. exists w, [], tr. split_and!; [done|done|constructor|done].
Qed.

#[export] Instance libs_ok : ClusterLibrariesOk.
Proof. constructor. intros interval timeout f tr o Hr. exact (poll_spec 40 interval f tr o Hr). Qed.
End DemoCluster.
