(* ===== verification/Storage.v ===== *)
(** * Storage: staging storage for migrated disks

    Models the claim-backed store of [internal/storage] (pvc.go, and its
    constructor in storage.go) as the migration controller uses it, and the
    package [internal/storage/migration]: the backend vocabulary, the NFS URL
    builder, the options carried to the providers and the host policy.  What the providers do
    with a store is in [Transfer]. *)
From S2P Require Import Prelude Contracts K8s Api Effects GoLib NetIP GrpcClient CoreApi MigrationApi Cluster.
From stdpp Require Import base gmap strings list.
From Stdlib Require Import Ascii ZArith.
#[local] Open Scope Z_scope.

(** ** internal/storage *)

(** [StorageError]: its text, and its cause. *)
Definition StorageError (message : string) (cause : option goerror) : goerror :=
  match cause with
  | Some e => EWrap message e
  | None => ENew message
  end.

Record S3Config := mkS3Config {
  s3_Endpoint : string; s3_Region : string; s3_Bucket : string; s3_UsePathStyle : bool;
  s3_AccessKeyID : string; s3_SecretAccessKey : string; s3_SessionToken : string
}.
Record StorageConfig := mkStorageConfig {
  sc_Type : string; sc_PVCName : string; sc_PVCNamespace : string; sc_MountPath : string;
  sc_S3 : option S3Config
}.

Record PVCStorage := mkPVCStorage { pvcs_config : StorageConfig; pvcs_mountPath : string }.

Definition verifyMount (mountPath : string) : KM (option goerror) :=
  info ← kdo (Stat mountPath);
  Ret match info with
      | StatNotExist err =>
          Some (StorageError ("PVC mount path does not exist: " +:+ mountPath
                              +:+ " (PVC may not be mounted to pod)") (Some err))
      | StatError err => Some (StorageError ("failed to stat PVC mount path: " +:+ mountPath) (Some err))
      | StatFile => Some (StorageError ("PVC mount path is not a directory: " +:+ mountPath) None)
      | StatDir => None
      end.

Definition NewPVCStorage (config : StorageConfig) : KM (res PVCStorage) :=
  let mountPath := if is_empty (sc_MountPath config) then "/mnt/migration-storage" else sc_MountPath config in
  let mountPath := Clean mountPath in
  e ← verifyMount mountPath;
  match e with
  | Some err => Ret (Err err)
  | None => Ret (Ok (mkPVCStorage config mountPath))
  end.

(** [parsePath]: where in the pod a staging URL lies. *)
Definition parsePath (p : PVCStorage) (url : string) : res string :=
  let url := TrimPrefix (TrimSpace url) "pvc://" in
  if contains url ".." then Err (StorageError "invalid path: contains '..'" None)
  else
    match Cut "/" url with
    | None => Err (StorageError "invalid PVC URL format: expected pvc://<pvc-name>/<file-path>" None)
    | Some (pvcName, filePath) => Ok (filepath_Join (pvcs_mountPath p) filePath)
    end.

Definition PVCStorage_Delete (p : PVCStorage) (url : string) : KM (option goerror) :=
  match parsePath p url with
  | Err err => Ret (Some err)
  | Ok filePath =>
      info ← kdo (Stat filePath);
      match info with
      | StatNotExist _ => Ret None
      | _ =>
          e ← kdo (Remove filePath);
          match e with
          | Some err => Ret (Some (StorageError ("failed to delete file: " +:+ filePath) (Some err)))
          | None => Ret None
          end
      end
  end.

(** ** Backends *)
Definition BackendPVC : string := "pvc".
Definition BackendNFS : string := "nfs".
Definition BackendS3 : string := "s3".
Definition TransferModeAuto : string := "auto".
Definition TransferModeRelay : string := "relay".
Definition TransferModeDirect : string := "direct".

Definition PVCOnlyExportBackends : list string := [BackendPVC].
Definition PVCOnlyImportBackends : list string := [BackendPVC].
Definition PVCAndS3ExportBackends : list string := [BackendPVC; BackendS3].
Definition PVCAndS3ImportBackends : list string := [BackendPVC; BackendS3].
Definition PVCS3AndNFSExportBackends : list string := [BackendPVC; BackendS3; BackendNFS].
Definition PVCS3AndNFSImportBackends : list string := [BackendPVC; BackendS3; BackendNFS].
Definition S3AndNFSExportBackends : list string := [BackendS3; BackendNFS].
Definition S3AndNFSImportBackends : list string := [BackendS3; BackendNFS].
Definition S3OnlyExportBackends : list string := [BackendS3].
Definition S3OnlyImportBackends : list string := [BackendS3].
Definition RelayOnlyTransferModes : list string := [TransferModeRelay].

Section Backends.
Context `{Libraries} `{GrpcLibrary}.

Definition EnsureRelayMode (transferMode : string) : option goerror :=
  if bool_decide (transferMode ∈ [""; TransferModeAuto; TransferModeRelay]) then None
  else Some (Errorf InvalidArgument
    ("transfer mode " +:+ fmt_q transferMode +:+ " not supported; only " +:+ fmt_q TransferModeRelay
     +:+ " is implemented (ADR-0006 Slice 1)")).

Definition unsupported_backend (backendType : string) : goerror :=
  Errorf Unimplemented ("backend " +:+ fmt_q backendType
    +:+ " not yet supported on this provider/direction (ADR-0006)").

Definition EnsurePVCBackend (backendType : string) : option goerror :=
  if is_empty backendType || bool_decide (backendType = BackendPVC) then None
  else Some (unsupported_backend backendType).
Definition EnsurePVCOrS3Backend (backendType : string) : option goerror :=
  if bool_decide (backendType ∈ [""; BackendPVC; BackendS3]) then None
  else Some (unsupported_backend backendType).
Definition EnsurePVCS3OrNFSBackend (backendType : string) : option goerror :=
  if bool_decide (backendType ∈ [""; BackendPVC; BackendS3; BackendNFS]) then None
  else Some (unsupported_backend backendType).
Definition EnsureS3OrNFSBackend (backendType : string) : option goerror :=
  if bool_decide (backendType ∈ [BackendS3; BackendNFS]) then None
  else Some (Errorf Unimplemented ("backend " +:+ fmt_q backendType
    +:+ " not supported on this provider; only s3 and nfs are implemented (ADR-0006)")).
End Backends.

(** ** Options *)
Definition CredKeyAccessKeyID : string := "accessKeyID".
Definition CredKeySecretAccessKey : string := "secretAccessKey".
Definition CredKeySessionToken : string := "sessionToken".

Record StorageOptions := mkStorageOptions {
  so_Backend : string; so_Bucket : string; so_Endpoint : string; so_Region : string;
  so_Prefix : string; so_UsePathStyle : bool; so_Server : string; so_Export : string;
  so_Path : string; so_UID : option Z; so_GID : option Z
}.
Definition zero_options : StorageOptions := mkStorageOptions "" "" "" "" "" false "" "" "" None None.

(** The JSON codec of [StorageOptions]. *)
Class OptionsCodec := {
  json_marshal_options : StorageOptions -> res string;
  json_unmarshal_options : string -> res StorageOptions
}.

Section Options.
Context `{Libraries} `{OptionsCodec}.

Definition MarshalStorageOptions (opts : StorageOptions) : res string :=
  match json_marshal_options opts with
  | Err err => Err (EWrap "marshal storage options" err)
  | Ok b => Ok b
  end.

Definition ParseStorageOptions (raw : string) : res StorageOptions :=
  if is_empty raw then Ok zero_options
  else match json_unmarshal_options raw with
       | Err err => Err (EWrap "parse storage options json" err)
       | Ok opts => Ok opts
       end.

Definition S3StorageConfigFromRequest (storageOptionsJSON : string) (creds : gmap string string)
    : res StorageConfig :=
  match ParseStorageOptions storageOptionsJSON with
  | Err err => Err err
  | Ok opts =>
      if is_empty (so_Bucket opts) then Err (ENew "s3 storage options missing bucket")
      else
        let accessKey := map_get creds CredKeyAccessKeyID in
        let secretKey := map_get creds CredKeySecretAccessKey in
        if is_empty accessKey || is_empty secretKey then
          Err (ENew ("s3 credentials missing keys " +:+ fmt_q CredKeyAccessKeyID +:+ "/"
                     +:+ fmt_q CredKeySecretAccessKey))
        else
          Ok (mkStorageConfig BackendS3 "" "" ""
                (Some (mkS3Config (so_Endpoint opts) (so_Region opts) (so_Bucket opts)
                         (so_UsePathStyle opts) accessKey secretKey
                         (map_get creds CredKeySessionToken))))
  end.

(** ** NFSURL *)
Definition nfsUIDGIDMax : Z := 4294967295.

Definition fmt_rune (c : ascii) : string := "'" +:+ String c "'".

(** The complaint about one character, if there is one.  All the tests are on
    ASCII characters, so they are made byte by byte. *)
Definition unsafe_char (name : string) (isPath : bool) (c : ascii) : option string :=
  let r := nat_of_ascii c in
  if (r <? 32)%nat || (r =? 127)%nat then Some (name +:+ " contains a control character")
  else if Ascii.eqb c " " then Some (name +:+ " contains whitespace")
  else if Ascii.eqb c "?" || Ascii.eqb c "#" || Ascii.eqb c "&"
  then Some (name +:+ " contains a URL delimiter " +:+ fmt_rune c)
  else if negb isPath && Ascii.eqb c "/" then Some (name +:+ " must not contain '/'")
  else None.

Fixpoint first_unsafe (name : string) (isPath : bool) (v : string) : option string :=
  match v with
  | EmptyString => None
  | String c v' =>
      match unsafe_char name isPath c with
      | Some e => Some e
      | None => first_unsafe name isPath v'
      end
  end.

Definition rejectURLUnsafe (name v : string) (isPath : bool) : option goerror :=
  if is_empty v then None
  else match first_unsafe name isPath v with
       | Some e => Some (ENew e)
       | None =>
           if isPath && bool_decide (".." ∈ Split "/" v)
           then Some (ENew (name +:+ " contains a '..' path segment"))
           else None
       end.

Definition id_range_error (what : string) (n : Z) : goerror :=
  ENew ("nfs " +:+ what +:+ " " +:+ FormatInt n +:+ " out of range [0," +:+ FormatInt nfsUIDGIDMax +:+ "]").

Definition id_in_range (n : Z) : bool := negb ((n <? 0) || (nfsUIDGIDMax <? n)).

(** [url.Values.Encode] sorts the parameters by name: [gid] before [uid]. *)
Definition nfs_query (uid gid : option Z) : string :=
  match gid, uid with
  | None, None => ""
  | Some g, None => "?gid=" +:+ FormatInt g
  | None, Some u => "?uid=" +:+ FormatInt u
  | Some g, Some u => "?gid=" +:+ FormatInt g +:+ "&uid=" +:+ FormatInt u
  end.

Definition nfs_path (export path key : string) : string :=
  Clean ("/" +:+ Trim is_slash export +:+ "/" +:+ Trim is_slash path +:+ "/" +:+ Trim is_slash key).

Definition NFSURL (opts : StorageOptions) (key : string) : res string :=
  let server := TrimSpace (so_Server opts) in
  if is_empty server then Err (ENew "nfs server is empty")
  else match rejectURLUnsafe "nfs server" server false with
  | Some err => Err err
  | None =>
  let export := TrimSpace (so_Export opts) in
  if is_empty export || negb (has_prefix export "/") then
    Err (ENew ("nfs export must be an absolute path, got " +:+ fmt_q export))
  else match rejectURLUnsafe "nfs export" export true with
  | Some err => Err err
  | None =>
  match rejectURLUnsafe "nfs path" (so_Path opts) true with
  | Some err => Err err
  | None =>
  match rejectURLUnsafe "nfs key" key true with
  | Some err => Err err
  | None =>
      let u := "nfs://" +:+ server +:+ nfs_path export (so_Path opts) key in
      match so_UID opts with
      | Some uid => if id_in_range uid then Ok tt else Err (id_range_error "uid" uid)
      | None => Ok tt
      end ≫= fun _ : unit =>
      match so_GID opts with
      | Some gid => if id_in_range gid then Ok tt else Err (id_range_error "gid" gid)
      | None => Ok tt
      end ≫= fun _ : unit =>
      Ok (u +:+ nfs_query (so_UID opts) (so_GID opts))
  end end end end.
End Options.

(** ** HostPolicy *)
Record HostPolicy := mkHostPolicy { hp_allow : list IPNet; hp_allowConfigured : bool }.

Section Hosts.
Context `{Libraries} `{ClusterLibraries}.

Definition singleHostNet (ip : list Z) : IPNet :=
  let bits := if bool_decide (To4 ip = None) then 128 else 32 in
  mkIPNet ip (CIDRMask bits bits).

(** One entry of the allowlist: ignored, a network, or not understood. *)
Fixpoint add_entries (p : HostPolicy) (allow : list string) : res HostPolicy :=
  match allow with
  | [] => Ok p
  | raw :: rest =>
      let entry := TrimSpace raw in
      if is_empty entry then add_entries p rest
      else match ParseCIDR entry with
           | Some ipnet => add_entries (mkHostPolicy (hp_allow p ++ [ipnet]) true) rest
           | None =>
               match ParseIP entry with
               | Some ip => add_entries (mkHostPolicy (hp_allow p ++ [singleHostNet ip]) true) rest
               | None => Err (ENew ("invalid storage-host allowlist entry " +:+ fmt_q entry
                                    +:+ " (want an IP or CIDR)"))
               end
           end
  end.
Definition NewHostPolicy (allow : list string) : res HostPolicy :=
  add_entries (mkHostPolicy [] false) allow.

Definition inAllowlist (p : HostPolicy) (ip : list Z) : bool :=
  existsb (fun n => Contains n ip) (hp_allow p).

Definition isAlwaysDenied (ip : list Z) : bool :=
  IsLoopback ip || IsUnspecified ip || IsLinkLocalUnicast ip || IsLinkLocalMulticast ip
  || IsInterfaceLocalMulticast ip || IsMulticast ip.

Definition resolveHost (host : string) : KM (res (list (list Z))) :=
  match ParseIP host with
  | Some ip => Ret (Ok [ip])
  | None => kdo (LookupIP host)
  end.

Definition host_complaint (p : HostPolicy) (h : string) (ip : list Z) : option goerror :=
  if isAlwaysDenied ip then
    Some (ENew ("storage host " +:+ fmt_q h +:+ " resolves to forbidden address " +:+ IP_String ip
                +:+ " (loopback/link-local/metadata/multicast are blocked)"))
  else if hp_allowConfigured p && negb (inAllowlist p ip) then
    Some (ENew ("storage host " +:+ fmt_q h +:+ " (" +:+ IP_String ip
                +:+ ") is not in the configured storage-host allowlist"))
  else None.

Fixpoint first_complaint (p : HostPolicy) (h : string) (ips : list (list Z)) : option goerror :=
  match ips with
  | [] => None
  | ip :: rest =>
      match host_complaint p h ip with
      | Some e => Some e
      | None => first_complaint p h rest
      end
  end.

Definition is_bracket (c : ascii) : bool := Ascii.eqb c "[" || Ascii.eqb c "]".

Definition bare_host (host : string) : string :=
  let h := TrimSpace host in
  Trim is_bracket match SplitHostPort h with Some hostOnly => hostOnly | None => h end.

Definition ValidateHost (p : HostPolicy) (host : string) : KM (option goerror) :=
  if is_empty (TrimSpace host) then Ret (Some (ENew "storage host is empty"))
  else
    let h := bare_host host in
    ips ← resolveHost h;
    match ips with
    | Err err => Ret (Some (EWrap ("cannot resolve storage host " +:+ fmt_q h) err))
    | Ok [] => Ret (Some (ENew ("storage host " +:+ fmt_q h +:+ " resolved to no addresses")))
    | Ok ips => Ret (first_complaint p h ips)
    end.

Definition hostFromS3Endpoint (endpoint : string) : string :=
  let e := TrimSpace endpoint in
  if is_empty e then ""
  else if contains e "://" then
    match url_Host e with
    | Some h => if is_empty h then e else h
    | None => e
    end
  else e.

Definition ValidateS3Endpoint (p : HostPolicy) (endpoint : string) : KM (option goerror) :=
  let host := hostFromS3Endpoint endpoint in
  ValidateHost p (if is_empty host then "s3.amazonaws.com" else host).
End Hosts.
