(* ===== verification/StorageProps.v ===== *)
(** * StorageProps: what the staging storage guarantees

    The NFS URL can be taken apart again, the addresses that are always denied
    are the ranges they are meant to be, and a host passes the policy only when
    every address it resolves to does. *)
From S2P Require Import Prelude Contracts Effects GoLib NetIP GrpcClient CoreApi MigrationApi Cluster Storage.
From stdpp Require Import base gmap strings list.
From Stdlib Require Import Ascii ZArith Lia.
#[local] Open Scope Z_scope.

(** ** The NFS URL *)

(** How a reader takes an NFS URL apart: the query from the first [?], the
    server up to the first [/], the path into its segments, the query into its
    parameters. *)
Record nfs_parts := mkNfsParts {
  part_server : string; part_segments : list string; part_query : list (string * string)
}.

Definition read_parameter (s : string) : string * string :=
  match Cut "=" s with Some kv => kv | None => (s, "") end.

Definition read_path (s : string) : list string :=
  match s with EmptyString => [] | _ => Split "/" s end.

Definition read_nfs_url (u : string) : option nfs_parts :=
  if has_prefix u "nfs://" then
    let rest := TrimPrefix u "nfs://" in
    let '(rest, query) := match Cut "?" rest with
                          | Some (r, q) => (r, read_parameter <$> Split "&" q)
                          | None => (rest, [])
                          end in
    match Cut "/" rest with
    | Some (server, path) => Some (mkNfsParts server (read_path path) query)
    | None => None
    end
  else None.

(** No byte of a value is a URL delimiter. *)
Definition not_delimiter (c : ascii) : bool :=
  negb (Ascii.eqb c "?") && negb (Ascii.eqb c "#") && negb (Ascii.eqb c "&").

Section Nfs.
Context `{Libraries}.

Lemma first_unsafe_none name isPath v :
  first_unsafe name isPath v = None ->
  all_chars not_delimiter v = true
  /\ (isPath = false -> all_chars (fun d => negb (Ascii.eqb d "/")) v = true).
Proof.
  induction v as [|c v IH]; cbn [first_unsafe all_chars]; [done|].
  destruct (unsafe_char name isPath c) eqn:Hc; [done|]. intros Hv.
  destruct (IH Hv) as [IH1 IH2]. unfold unsafe_char in Hc.
  destruct (_ || (_ =? 127)%nat); [done|]. destruct (Ascii.eqb c " "); [done|].
  destruct (Ascii.eqb c "?" || Ascii.eqb c "#" || Ascii.eqb c "&") eqn:Hd; [done|].
  apply orb_false_iff in Hd as [[H1 H2]%orb_false_iff H3]. split.
  - unfold not_delimiter at 1. by rewrite H1, H2, H3, IH1.
  - intros ->. cbn [negb andb] in Hc. destruct (Ascii.eqb c "/"); [done|]. by rewrite IH2.
Qed.

Lemma rejectURLUnsafe_none name v isPath :
  rejectURLUnsafe name v isPath = None ->
  all_chars not_delimiter v = true
  /\ (isPath = false -> all_chars (fun d => negb (Ascii.eqb d "/")) v = true)
  /\ (isPath = true -> ".." ∉ Split "/" v).
Proof.
  unfold rejectURLUnsafe. destruct (is_empty v) eqn:Hv.
  { apply is_empty_true in Hv as ->. intros _. split_and!; [done|done|].
    intros _ Hin. cbn in Hin. apply list_elem_of_singleton in Hin. discriminate Hin. }
  destruct (first_unsafe name isPath v) eqn:Hf; [done|].
  destruct (first_unsafe_none _ _ _ Hf) as [H1 H2].
  destruct isPath; cbn [andb]; [|done]. case_bool_decide as Hin; [done|]. done.
Qed.

(** Segments of a value are segments of it split, and inherit its bytes. *)
Lemma elem_of_segments s w : w ∈ segments s -> w ∈ Split "/" s /\ plain_segment w = true.
Proof. unfold segments. rewrite list_elem_of_In, filter_In, <- list_elem_of_In. done. Qed.

Lemma segments_chars f s :
  all_chars f s = true -> Forall (fun w => all_chars f w = true) (segments s).
Proof.
  intros Hs. apply Forall_forall. intros w [Hw _]%elem_of_segments.
  exact (proj1 (Forall_forall _ _) (Split_all_chars "/" f s Hs) w Hw).
Qed.

Lemma segments_free s :
  Forall (fun w => all_chars (fun d => negb (Ascii.eqb d "/")) w = true) (segments s).
Proof.
  apply Forall_forall. intros w [Hw _]%elem_of_segments.
  exact (proj1 (Forall_forall _ _) (Split_free "/" s) w Hw).
Qed.

Lemma dotdot_segments s : ".." ∉ segments s <-> ".." ∉ Split "/" s.
Proof.
  unfold segments. rewrite !list_elem_of_In, filter_In. split; [|naive_solver].
  intros Hn Hin. apply Hn. split; [done|]. reflexivity.
Qed.

Lemma read_path_join s : read_path (join_path (segments s)) = segments s.
Proof.
  destruct (segments s) as [|w ws] eqn:Hs; [done|].
  pose proof (segments_free s) as Hf. rewrite Hs in Hf.
  assert (plain_segment w = true) as Hw.
  { apply (elem_of_segments s). rewrite Hs. by left. }
  rewrite <- (Split_join (w :: ws)) at 2 by done.
  destruct w as [|c w]; [done|]. unfold read_path. by destruct ws.
Qed.

(** The query as the reader sees it. *)
Definition query_parameters (uid gid : option Z) : list (string * string) :=
  match gid with Some g => [("gid", FormatInt g)] | None => [] end
  ++ match uid with Some u => [("uid", FormatInt u)] | None => [] end.

Lemma digits_free (c : ascii) n :
  is_digit c = false -> id_in_range n = true -> all_chars (fun d => negb (Ascii.eqb d c)) (FormatInt n) = true.
Proof.
  intros Hc Hn. eapply all_chars_impl; [|apply (FormatInt_digits n)].
  - intros d Hd. apply negb_true_iff, Ascii.eqb_neq. intros ->. congruence.
  - unfold id_in_range in Hn. lia.
Qed.

Lemma read_query uid gid :
  (forall u, uid = Some u -> id_in_range u = true) -> (forall g, gid = Some g -> id_in_range g = true) ->
  (nfs_query uid gid = "" /\ query_parameters uid gid = [])
  \/ exists q, nfs_query uid gid = String "?" q /\ read_parameter <$> Split "&" q = query_parameters uid gid.
Proof.
  intros Hu Hg.
  assert (forall n, id_in_range n = true ->
    Cut "=" ("gid=" +:+ FormatInt n) = Some ("gid", FormatInt n)
    /\ Cut "=" ("uid=" +:+ FormatInt n) = Some ("uid", FormatInt n)) as Hcut by done.
  destruct uid as [u|], gid as [g|]; cbn [nfs_query query_parameters]; [right|right|right|by left].
  - specialize (Hu u eq_refl); specialize (Hg g eq_refl).
    exists ("gid=" +:+ FormatInt g +:+ "&uid=" +:+ FormatInt u). split; [done|].
    rewrite string_app_assoc.
    change ("&uid=" +:+ FormatInt u) with (String "&" ("uid=" +:+ FormatInt u)).
    rewrite Split_cons by (rewrite all_chars_app; by rewrite (digits_free "&" g)).
    rewrite Split_single by (rewrite all_chars_app; by rewrite (digits_free "&" u)).
    done.
  - specialize (Hu u eq_refl). exists ("uid=" +:+ FormatInt u). split; [done|].
    rewrite Split_single by (rewrite all_chars_app; by rewrite (digits_free "&" u)). done.
  - specialize (Hg g eq_refl). exists ("gid=" +:+ FormatInt g). split; [done|].
    rewrite Split_single by (rewrite all_chars_app; by rewrite (digits_free "&" g)). done.
Qed.

Lemma nfs_path_segments export path key :
  ".." ∉ Split "/" export -> ".." ∉ Split "/" path -> ".." ∉ Split "/" key ->
  nfs_path export path key = String "/" (join_path (segments export ++ segments path ++ segments key)).
Proof.
  intros He Hp Hk. unfold nfs_path.
  set (s := Trim is_slash export +:+ "/" +:+ Trim is_slash path +:+ "/" +:+ Trim is_slash key).
  assert (segments s = segments export ++ segments path ++ segments key) as Hs.
  { unfold s. by rewrite !segments_sep, !segments_Trim. }
  change ("/" +:+ s) with (String "/" s). rewrite Clean_rooted; [by rewrite Hs|].
  apply dotdot_segments. rewrite Hs. apply dotdot_segments in He, Hp, Hk. set_solver.
Qed.

(** A string without a query reads back as its server and path. *)
Lemma read_nfs_url_app server segs q params :
  all_chars not_delimiter server = true -> all_chars (fun d => negb (Ascii.eqb d "/")) server = true ->
  Forall (fun w => all_chars not_delimiter w = true) segs -> read_path (join_path segs) = segs ->
  (q = "" /\ params = []) \/ (exists q', q = String "?" q' /\ read_parameter <$> Split "&" q' = params) ->
  read_nfs_url ("nfs://" +:+ server +:+ String "/" (join_path segs) +:+ q)
  = Some (mkNfsParts server segs params).
Proof.
  intros Hs1 Hs2 Hw Hr Hq. unfold read_nfs_url. rewrite has_prefix_app, TrimPrefix_app.
  assert (all_chars (fun d => negb (Ascii.eqb d "?")) (server +:+ String "/" (join_path segs)) = true) as Hfree.
  { apply (all_chars_impl not_delimiter); [intros c; unfold not_delimiter; destruct (Ascii.eqb c "?"); done|].
    rewrite all_chars_app, Hs1. cbn -[join_path]. by apply join_path_chars. }
  change (String "/" (join_path segs) +:+ q) with (String "/" (join_path segs +:+ q)).
  destruct Hq as [[-> ->]|(q' & -> & <-)].
  - rewrite string_app_nil_r, (Cut_none "?") by done. by rewrite Cut_app, Hr.
  - change (String "/" (join_path segs +:+ String "?" q')) with (String "/" (join_path segs) +:+ String "?" q').
    rewrite string_app_assoc, (Cut_app "?") by done. by rewrite Cut_app, Hr.
Qed.

(** An NFS URL that is built can be taken apart again, and gives exactly
    what went in: the server, the segments of the export, then of the sub-path,
    then of the key, and the uid and gid as the only query parameters.  No value
    can smuggle a parameter, a fragment or another server into the URL, and since
    no segment is [..] the object lies under the export. *)
Theorem nfs_url_round_trips opts key u :
  NFSURL opts key = Ok u ->
  let segs := segments (TrimSpace (so_Export opts)) ++ segments (so_Path opts) ++ segments key in
  read_nfs_url u = Some (mkNfsParts (TrimSpace (so_Server opts)) segs
                           (query_parameters (so_UID opts) (so_GID opts)))
  /\ ".." ∉ segs
  /\ (forall n, so_UID opts = Some n \/ so_GID opts = Some n -> 0 <= n <= nfsUIDGIDMax).
Proof.
  unfold NFSURL. destruct (is_empty _); [done|].
  destruct (rejectURLUnsafe "nfs server" _ _) eqn:H1; [done|].
  destruct (_ || _); [done|].
  destruct (rejectURLUnsafe "nfs export" _ _) eqn:H2; [done|].
  destruct (rejectURLUnsafe "nfs path" _ _) eqn:H3; [done|].
  destruct (rejectURLUnsafe "nfs key" _ _) eqn:H4; [done|].
  apply rejectURLUnsafe_none in H1 as (Hs1 & Hs2 & _), H2 as (He1 & _ & He2),
    H3 as (Hp1 & _ & Hp2), H4 as (Hk1 & _ & Hk2).
  specialize (Hs2 eq_refl); specialize (He2 eq_refl); specialize (Hp2 eq_refl); specialize (Hk2 eq_refl).
  intros Hu. cbn zeta.
  assert ((forall n, so_UID opts = Some n -> id_in_range n = true)
          /\ (forall n, so_GID opts = Some n -> id_in_range n = true)
          /\ u = ("nfs://" +:+ TrimSpace (so_Server opts)
                  +:+ nfs_path (TrimSpace (so_Export opts)) (so_Path opts) key)
                 +:+ nfs_query (so_UID opts) (so_GID opts)) as (Huid & Hgid & ->).
  { revert Hu. destruct (so_UID opts) as [uid|]; [destruct (id_in_range uid) eqn:?|]; cbn; [|done|];
      (destruct (so_GID opts) as [gid|]; [destruct (id_in_range gid) eqn:?|]; cbn; [|done|]);
      intros [= <-]; split_and!; naive_solver. }
  rewrite nfs_path_segments by done. split_and!.
  - rewrite <- !string_app_assoc. apply read_nfs_url_app; [done|done| | |by apply read_query].
    + rewrite !Forall_app. by split_and!; apply segments_chars.
    + rewrite <- !segments_app. apply read_path_join.
  - apply dotdot_segments in He2, Hp2, Hk2. set_solver.
  - intros n [Hn|Hn]; [apply Huid in Hn|apply Hgid in Hn]; unfold id_in_range in Hn; lia.
Qed.
End Nfs.

Section NfsWitness.
Import DemoLibraries.
Definition demo_nfs_options : StorageOptions :=
  mkStorageOptions "nfs" "" "" "" "" false "10.0.0.9" "/exports/" "vms" (Some 0) None.

End NfsWitness.

(** ** Addresses *)

(** The networks that must never be staging hosts: loopback, the unspecified
    address, link-local (with the metadata address) and multicast, in both
    families. *)
Definition denied_networks : list IPNet :=
  [mkIPNet [127; 0; 0; 0] (CIDRMask 8 32);
   mkIPNet [0; 0; 0; 0] (CIDRMask 32 32);
   mkIPNet [169; 254; 0; 0] (CIDRMask 16 32);
   mkIPNet [224; 0; 0; 0] (CIDRMask 4 32);
   mkIPNet IPv6loopback (CIDRMask 128 128);
   mkIPNet IPv6unspecified (CIDRMask 128 128);
   mkIPNet (0xfe :: 0x80 :: replicate 14 0) (CIDRMask 10 128);
   mkIPNet (0xff :: replicate 15 0) (CIDRMask 8 128)].

(** The mask of a whole address compares the address itself. *)
Lemma masked_equal_full nn ip :
  length ip = length nn -> Forall byte_ok ip -> Forall byte_ok nn ->
  masked_equal nn (replicate (length nn) 255) ip = bool_decide (ip = nn).
Proof.
  intros Hl Hip. revert nn Hl. induction Hip as [|i ip Hi Hip IH]; intros [|n nn] Hl Hnn; try done.
  apply Forall_cons in Hnn as [Hn Hnn]. cbn. rewrite IH by (first [done|cbn in Hl; lia]).
  rewrite !land_byte by done. destruct (Z.eqb_spec n i) as [->|Hne]; cbn.
  - apply bool_decide_ext. naive_solver.
  - symmetry. apply bool_decide_eq_false. naive_solver.
Qed.

(** A mask of zeros compares nothing. *)
Lemma masked_equal_zero nn ip n : masked_equal nn (replicate n 0) ip = true.
Proof.
  revert nn ip. induction n as [|n IH]; intros [|a nn] [|i ip]; try done.
  cbn. rewrite !Z.land_0_r. apply IH.
Qed.

(** A plain IPv6 address lies in none of the IPv4 networks, and in an IPv6
    network when the masked bytes agree. *)
Lemma Contains_v4_none a b c d m ip :
  length m = 4%nat -> To4 ip = None -> length ip = 16%nat -> Contains (mkIPNet [a; b; c; d] m) ip = false.
Proof.
  intros Hm Ht Hl. unfold Contains, networkNumberAndMask. cbn [net_IP net_Mask].
  change (To4 [a; b; c; d]) with (Some [a; b; c; d]). cbn beta iota.
  rewrite (bool_decide_true (length m = 4%nat)) by done.
  rewrite (bool_decide_true (length [a; b; c; d] = 4%nat)) by done.
  rewrite Ht. by rewrite bool_decide_false by (rewrite Hl; done).
Qed.

Lemma Contains_v6 nn m ip :
  length nn = 16%nat -> To4 nn = None -> length m = 16%nat -> To4 ip = None -> length ip = 16%nat ->
  Contains (mkIPNet nn m) ip = masked_equal nn m ip.
Proof.
  intros Hn Hp Hm Ht Hl. unfold Contains, networkNumberAndMask. cbn [net_IP net_Mask].
  rewrite Hp, (bool_decide_true (length nn = 16%nat)) by done.
  rewrite (bool_decide_false (length m = 4%nat)) by (rewrite Hm; done).
  rewrite (bool_decide_true (length m = 16%nat)) by done.
  rewrite (bool_decide_false (length nn = 4%nat)) by (rewrite Hn; done).
  by rewrite Ht, bool_decide_true by congruence.
Qed.

Lemma Contains_v4 nn m ip ip4 :
  length nn = 4%nat -> length m = 4%nat -> To4 ip = Some ip4 -> length ip4 = 4%nat ->
  Contains (mkIPNet nn m) ip = masked_equal nn m ip4.
Proof.
  intros Hn Hm Ht H4. unfold Contains, networkNumberAndMask. cbn [net_IP net_Mask].
  unfold To4 at 1. rewrite bool_decide_true by done.
  rewrite (bool_decide_true (length m = 4%nat)) by done.
  rewrite (bool_decide_true (length nn = 4%nat)) by done.
  rewrite Ht. by rewrite bool_decide_true by congruence.
Qed.

Lemma Contains_v6_none nn m ip ip4 :
  length nn = 16%nat -> To4 nn = None -> length m = 16%nat -> To4 ip = Some ip4 -> length ip4 = 4%nat ->
  Contains (mkIPNet nn m) ip = false.
Proof.
  intros Hn Hp Hm Ht H4. unfold Contains, networkNumberAndMask. cbn [net_IP net_Mask].
  rewrite Hp, (bool_decide_true (length nn = 16%nat)) by done.
  rewrite (bool_decide_false (length m = 4%nat)) by (rewrite Hm; done).
  rewrite (bool_decide_true (length m = 16%nat)) by done.
  rewrite Ht. by rewrite bool_decide_false by (rewrite H4, Hn; done).
Qed.

(** The tests on the bytes of an IPv4 address. *)
Lemma networks_v4 a b c d ip :
  Forall byte_ok [a; b; c; d] -> To4 ip = Some [a; b; c; d] ->
  existsb (fun n => Contains n ip) denied_networks
  = (127 =? a) || ((0 =? a) && (0 =? b) && (0 =? c) && (0 =? d))
    || ((169 =? a) && (254 =? b)) || (224 =? Z.land a 240).
Proof.
  rewrite !Forall_cons. intros (Ha & Hb & Hc & Hd & _) Ht.
  unfold denied_networks. cbn [existsb].
  rewrite !(Contains_v4 _ _ ip [a; b; c; d]), !(Contains_v6_none _ _ ip [a; b; c; d]) by done.
  change (CIDRMask 8 32) with [255; 0; 0; 0]. change (CIDRMask 32 32) with [255; 255; 255; 255].
  change (CIDRMask 16 32) with [255; 255; 0; 0]. change (CIDRMask 4 32) with [240; 0; 0; 0].
  cbn [masked_equal]. rewrite !Z.land_0_r, !(land_byte a), !(land_byte b), !(land_byte c), !(land_byte d) by done.
  change (Z.land 127 255) with 127. change (Z.land 0 255) with 0. change (Z.land 169 255) with 169.
  change (Z.land 254 255) with 254. change (Z.land 224 240) with 224. change (0 =? 0) with true.
  by rewrite ?andb_true_r, ?orb_false_r, ?orb_assoc, ?andb_assoc.
Qed.

Lemma IsUnspecified_v4 a b c d ip :
  ip = [a; b; c; d] \/ ip = IPv4 a b c d ->
  IsUnspecified ip = (a =? 0) && (b =? 0) && (c =? 0) && (d =? 0).
Proof.
  intros Hip. assert (IsUnspecified ip = bool_decide ([a; b; c; d] = [0; 0; 0; 0])) as ->.
  { unfold IsUnspecified, Equal. destruct Hip as [->| ->].
    - transitivity (bool_decide ([a; b; c; d] = [0; 0; 0; 0]) || false); [reflexivity|apply orb_false_r].
    - rewrite (bool_decide_true (length _ = length IPv4zero)) by reflexivity.
      rewrite (bool_decide_true (length _ = length IPv6unspecified)) by reflexivity.
      rewrite (bool_decide_false (_ = IPv6unspecified)) by done. rewrite orb_false_r.
      apply bool_decide_ext. unfold IPv4zero, IPv4. split; [by intros ?%app_inv_head|congruence]. }
  destruct (Z.eqb_spec a 0), (Z.eqb_spec b 0), (Z.eqb_spec c 0), (Z.eqb_spec d 0); cbn;
    first [apply bool_decide_eq_true; congruence | apply bool_decide_eq_false; congruence].
Qed.

Lemma denied_v4 a b c d ip :
  Forall byte_ok [a; b; c; d] -> ip = [a; b; c; d] \/ ip = IPv4 a b c d ->
  isAlwaysDenied ip = existsb (fun n => Contains n ip) denied_networks.
Proof.
  intros Hb Hip. assert (To4 ip = Some [a; b; c; d]) as Ht by (by destruct Hip as [->| ->]).
  rewrite (networks_v4 a b c d) by done.
  unfold isAlwaysDenied. rewrite (IsUnspecified_v4 a b c d) by done.
  assert (IsInterfaceLocalMulticast ip = false) as -> by (by destruct Hip as [->| ->]).
  unfold IsLoopback, IsLinkLocalUnicast, IsLinkLocalMulticast, IsMulticast. rewrite Ht.
  unfold byte_at. cbn [nth].
  rewrite (Z.eqb_sym 127), (Z.eqb_sym 169), (Z.eqb_sym 254), (Z.eqb_sym 224),
    !(Z.eqb_sym 0), orb_false_r.
  destruct (Z.eqb_spec a 224) as [->|]; [by rewrite !orb_true_r|].
  cbn [andb]. by rewrite orb_false_r.
Qed.

Lemma denied_v6 ip :
  ip_ok ip -> To4 ip = None -> length ip = 16%nat ->
  isAlwaysDenied ip = existsb (fun n => Contains n ip) denied_networks.
Proof.
  intros [_ Hb] Ht Hl. unfold denied_networks. cbn [existsb].
  rewrite !Contains_v4_none, !Contains_v6 by done. cbn [orb].
  change (CIDRMask 128 128) with (replicate (length IPv6loopback) 255) at 1.
  change (CIDRMask 128 128) with (replicate (length IPv6unspecified) 255) at 1.
  rewrite !masked_equal_full by (first [done|by apply Forall_replicate|repeat constructor; done]).
  assert (forall x, length x = 16%nat -> Equal ip x = bool_decide (ip = x)) as Heq.
  { intros x Hx. unfold Equal. by rewrite bool_decide_true by congruence. }
  unfold isAlwaysDenied, IsUnspecified, IsLoopback, IsLinkLocalUnicast, IsLinkLocalMulticast,
    IsInterfaceLocalMulticast, IsMulticast.
  rewrite Ht, !Heq by done. rewrite (bool_decide_true (length ip = 16%nat)) by done. cbn [andb].
  rewrite (bool_decide_false (ip = IPv4zero)) by (intros ->; discriminate Ht). cbn [orb].
  destruct ip as [|b0 [|b1 rest]]; [done|done|].
  apply Forall_cons in Hb as [Hb0 Hb]. apply Forall_cons in Hb as [Hb1 _].
  change (CIDRMask 10 128) with (255 :: 192 :: replicate 14 0).
  change (CIDRMask 8 128) with (255 :: replicate 15 0).
  assert (forall nn n m ms, masked_equal (nn :: n) (m :: ms) (b0 :: b1 :: rest)
            = (Z.land nn m =? Z.land b0 m) && masked_equal n ms (b1 :: rest)) as Hcons by done.
  rewrite !Hcons. rewrite masked_equal_zero.
  change (masked_equal (0x80 :: replicate 14 0) (192 :: replicate 14 0) (b1 :: rest))
    with ((Z.land 0x80 192 =? Z.land b1 192) && masked_equal (replicate 14 0) (replicate 14 0) rest).
  rewrite masked_equal_zero, (land_byte b0) by done. unfold byte_at. cbn [nth].
  change (Z.land 254 255) with 254. change (Z.land 255 255) with 255. change (Z.land 128 192) with 128.
  rewrite (Z.eqb_sym 254), (Z.eqb_sym 255), (Z.eqb_sym 128), !andb_true_r, !orb_false_r.
  rewrite <- !orb_assoc. do 3 f_equal.
  by destruct (b0 =? 255); rewrite ?orb_true_r, ?orb_false_r.
Qed.

(** C28.  The address test of the host policy is exactly membership in eight
    networks: an address is always denied if and only if it is loopback
    (127.0.0.0/8, ::1), unspecified, link-local (169.254.0.0/16 with the metadata
    address, fe80::/10) or multicast (224.0.0.0/4, ff00::/8), whichever of the two
    byte forms an IPv4 address comes in. *)
Theorem denied_addresses_are_networks ip :
  ip_ok ip -> isAlwaysDenied ip = existsb (fun n => Contains n ip) denied_networks.
Proof.
  intros Hip. destruct (To4_cases ip Hip) as [(a & b & c & d & Ht & Hb)|(Ht & Hl & _)]; [|by apply denied_v6].
  apply (denied_v4 a b c d); [done|]. unfold To4 in Ht.
  case_bool_decide; [left; congruence|]. destruct (_ && _) eqn:Hp; [|done]. right.
  apply andb_true_iff in Hp as [_ Hp%bool_decide_eq_true]. injection Ht as Ht.
  unfold IPv4. by rewrite <- Ht, <- Hp, take_drop.
Qed.

Lemma denied_addresses_are_networks_witness :
  existsb (fun n => Contains n (IPv4 169 254 169 254)) denied_networks = true
  /\ existsb (fun n => Contains n (IPv4 192 168 0 1)) denied_networks = false.
Proof.
  split; (rewrite <- denied_addresses_are_networks; [vm_compute; reflexivity|]);
    (split; [right; reflexivity|repeat constructor; discriminate]).
Defined.

(** ** Hosts *)
Section HostProps.
Context `{Libraries} `{ClusterLibraries}.

Definition address_permitted (p : HostPolicy) (ip : list Z) : Prop :=
  isAlwaysDenied ip = false /\ (hp_allowConfigured p = true -> inAllowlist p ip = true).

(** The host resolved, as a literal or by the answer of a lookup of the trace,
    to addresses that are all permitted. *)
Definition host_permitted (p : HostPolicy) (host : string) (tr : ktrace) : Prop :=
  exists ips, ips <> [] /\ Forall (address_permitted p) ips
    /\ ((exists ip, ParseIP (bare_host host) = Some ip /\ ips = [ip])
        \/ ev (LookupIP (bare_host host)) (Ok ips) ∈ tr).

Lemma host_permitted_mono p host tr tr' :
  (forall x, x ∈ tr -> x ∈ tr') -> host_permitted p host tr -> host_permitted p host tr'.
Proof. intros Hin (ips & H1 & H2 & H3). exists ips. naive_solver. Qed.

Lemma first_complaint_none p h ips :
  first_complaint p h ips = None -> Forall (address_permitted p) ips.
Proof.
  induction ips as [|ip ips IH]; cbn [first_complaint]; [constructor|].
  unfold host_complaint. destruct (isAlwaysDenied ip) eqn:Hd; [done|].
  destruct (hp_allowConfigured p && negb (inAllowlist p ip)) eqn:Ha; [done|].
  intros Hc. constructor; [|by apply IH]. split; [done|]. intros Hcfg. rewrite Hcfg in Ha. cbn in Ha.
  by apply negb_false_iff in Ha.
Qed.

Lemma ValidateHost_permits p host :
  wp (ValidateHost p host) (fun tr o => match o with
                                        | Done None => host_permitted p host tr
                                        | Done (Some _) => True
                                        | Panicked _ => False
                                        end).
Proof.
  unfold ValidateHost, resolveHost. destruct (is_empty (TrimSpace host)); [done|].
  destruct (ParseIP (bare_host host)) as [ip|] eqn:Hp; cbn -[first_complaint].
  - destruct (first_complaint p _ [ip]) eqn:Hc; [done|]. apply first_complaint_none in Hc.
    exists [ip]. split_and!; [done|done|]. left. eauto.
  - intros [[|ip ips]|e]; cbn -[first_complaint]; try done.
    destruct (first_complaint p _ (ip :: ips)) eqn:Hc; [done|]. apply first_complaint_none in Hc.
    exists (ip :: ips). split_and!; [done|done|]. right. by left.
Qed.
End HostProps.
