(* ===== verification/TraceSpec.v ===== *)
(** * TraceSpec: programs that follow the rules of a specification

    An abstract specification of a component says which calls it may make: a
    rule [P h x] holds when the event [x] is allowed after the events [h].
    [conforms P h tr] says that every event of [tr] was allowed when it happened,
    and [guar P h p Q] that every run of [p] after [h] conforms and ends, if it
    does not panic, in a state and history that satisfy [Q]. *)
From S2P Require Import Prelude Contracts Effects.
From stdpp Require Import base list.
From Stdlib Require Import Lia.

Section TraceSpec.
Context {E : Type} {R : E -> Type}.
Implicit Types (P : list (event E R) -> event E R -> Prop) (h tr : list (event E R)).

Fixpoint conforms P h tr : Prop :=
  match tr with
  | [] => True
  | x :: tr' => P h x /\ conforms P (h ++ [x]) tr'
  end.

Lemma conforms_app P h tr1 tr2 :
  conforms P h (tr1 ++ tr2) <-> conforms P h tr1 /\ conforms P (h ++ tr1) tr2.
Proof.
  revert h; induction tr1 as [|x tr1 IH]; intros h; cbn.
  - rewrite app_nil_r. tauto.
  - rewrite IH, <- app_assoc. cbn. tauto.
Qed.

Lemma conforms_split P h tr pre x post :
  conforms P h tr -> tr = pre ++ x :: post -> P (h ++ pre) x.
Proof. intros Hc ->. apply conforms_app in Hc as [_ Hc]. apply Hc. Qed.

Lemma conforms_elem P tr x :
  conforms P [] tr -> x ∈ tr -> exists pre post, tr = pre ++ x :: post /\ P pre x.
Proof.
  intros Hc (pre & post & ->)%list_elem_of_split. exists pre, post. split; [done|].
  by apply (conforms_split P [] (pre ++ x :: post) pre x post).
Qed.

(** A rule may be weakened, and read with a longer history. *)
Lemma conforms_mono P P' h h' tr :
  (forall tr' x, P (h ++ tr') x -> P' (h' ++ tr') x) -> conforms P h tr -> conforms P' h' tr.
Proof.
  revert h h'; induction tr as [|x tr IH]; intros h h' HP; cbn; [done|].
  intros [Hx Ht]. split.
  - specialize (HP [] x). rewrite !app_nil_r in HP. by apply HP.
  - apply (IH (h ++ [x])); [|done]. intros tr' y. rewrite <- !app_assoc. apply HP.
Qed.

Definition guar P h {A} (p : prog E R A) (Q : list (event E R) -> A -> Prop) : Prop :=
  wp p (fun tr o => conforms P h tr /\ match o with Done a => Q (h ++ tr) a | Panicked _ => True end).

Lemma guar_runs P h {A} (p : prog E R A) Q tr o :
  guar P h p Q -> runs p tr o -> conforms P h tr.
Proof. intros Hg Hr. by apply (proj1 (wp_runs p _) Hg tr o Hr). Qed.

Lemma guar_ret P h {A} (a : A) Q : Q h a -> guar P h (Ret a) Q.
Proof. intros HQ. split; [done|]. by rewrite app_nil_r. Qed.

Lemma guar_crash P h {A} w Q : guar P h (Crash (A := A) w) Q.
Proof. split; done. Qed.

Lemma guar_trigger P h e (Q : list (event E R) -> R e -> Prop) :
  (forall r, P h (ev e r) /\ Q (h ++ [ev e r]) r) -> guar P h (trigger e) Q.
Proof. intros HQ r. destruct (HQ r). cbn. tauto. Qed.

(** What is known of the history grows with it. *)
Lemma guar_mono P h {A} (p : prog E R A) Q Q' :
  guar P h p Q -> (forall tr a, Q (h ++ tr) a -> Q' (h ++ tr) a) -> guar P h p Q'.
Proof.
  intros Hg HQ. eapply wp_mono; [exact Hg|]. intros tr [a|w] [Hc H]; cbn in *; auto.
Qed.

Lemma guar_bind P h {A B} (p : prog E R A) (k : A -> prog E R B) Q :
  guar P h p (fun h' a => guar P h' (k a) Q) -> guar P h (p ≫= k) Q.
Proof.
  intros Hg. apply wp_bind. eapply wp_mono; [exact Hg|].
  intros tr [a|w] [Hc H]; cbn in *; [|done].
  eapply wp_mono; [exact H|]. intros tr' o [Hc' Ho].
  rewrite conforms_app, app_assoc. tauto.
Qed.

(** The calls [f] picks are the ones the rules restrict: a program without them
    is allowed anywhere, and what is known of its runs is known of it there. *)
Lemma guar_silent_wp (f : E -> bool) P h {A} (p : prog E R A) Q0 :
  (forall h e r, f e = false -> P h (ev e r)) ->
  silent f p -> wp p Q0 ->
  guar P h p (fun h' a => exists tr, h' = h ++ tr /\ occurs f tr = false /\ Q0 tr (Done a)).
Proof.
  intros HP Hs H0. eapply wp_mono; [apply (wp_and _ _ _ Hs H0)|]. cbn. intros tr o [Ho HQ]. split.
  - clear o HQ. revert h Ho. induction tr as [|[e r] tr IH]; intros h Ho; cbn; [done|].
    rewrite occurs_cons in Ho. apply orb_false_iff in Ho as [He Ho].
    split; [by apply HP|by apply IH].
  - destruct o; eauto.
Qed.

Lemma guar_silent (f : E -> bool) P h {A} (p : prog E R A) :
  (forall h e r, f e = false -> P h (ev e r)) ->
  silent f p ->
  guar P h p (fun h' _ => exists tr, h' = h ++ tr /\ occurs f tr = false).
Proof.
  intros HP Hs. eapply guar_mono; [apply (guar_silent_wp f); [done|done|apply wp_true]|].
  cbn. naive_solver.
Qed.

(** After a program without restricted calls. *)
Lemma guar_skip (f : E -> bool) P h {A B} (p : prog E R A) (k : A -> prog E R B) Q :
  (forall h e r, f e = false -> P h (ev e r)) -> silent f p ->
  (forall tr a, occurs f tr = false -> guar P (h ++ tr) (k a) Q) -> guar P h (p ≫= k) Q.
Proof.
  intros HP Hs Hk. apply guar_bind. eapply guar_mono; [by apply (guar_silent f)|].
  cbn. intros tr a (tr' & ->%app_inv_head & Ho). by apply Hk.
Qed.

(** Silence of another kind comes on top of what is known. *)
Lemma guar_and_silent (f : E -> bool) P h {A} (p : prog E R A) Q :
  silent f p -> guar P h p Q ->
  guar P h p (fun h' a => Q h' a /\ exists tr, h' = h ++ tr /\ occurs f tr = false).
Proof.
  intros Hs Hg. eapply wp_mono; [apply (wp_and _ _ _ Hs Hg)|].
  intros tr [a|w] (Ho & Hc & HQ); cbn in *; eauto 6.
Qed.

(** ** Properties of whole traces

    A property that holds of a trace when it holds of its two parts, and one that
    a prefix without calls [f] does not affect. *)
Lemma wp_bind_closed {A B} (p : prog E R A) (k : A -> prog E R B) (Q : list (event E R) -> Prop) :
  (forall tr1 tr2, Q tr1 -> Q tr2 -> Q (tr1 ++ tr2)) ->
  wp p (fun tr _ => Q tr) -> (forall a, wp (k a) (fun tr _ => Q tr)) -> wp (p ≫= k) (fun tr _ => Q tr).
Proof.
  intros HQ Hp Hk. apply wp_bind. eapply wp_mono; [exact Hp|]. intros tr [a|w] Htr; cbn; [|done].
  eapply wp_mono; [apply Hk|]. cbn. auto.
Qed.

Lemma wp_silent_prefix (f : E -> bool) {A B} (p : prog E R A) (k : A -> prog E R B)
    (Q : list (event E R) -> Prop) :
  (forall tr1 tr2, occurs f tr1 = false -> Q tr2 -> Q (tr1 ++ tr2)) ->
  Q [] -> silent f p -> (forall a, wp (k a) (fun tr _ => Q tr)) -> wp (p ≫= k) (fun tr _ => Q tr).
Proof.
  intros HQ H0 Hp Hk. apply wp_bind. eapply wp_mono; [exact Hp|]. intros tr [a|w] Htr; cbn in *.
  - eapply wp_mono; [apply Hk|]. cbn. auto.
  - rewrite <- (app_nil_r tr). auto.
Qed.

(** A call that is not there is not picked. *)
Lemma occurs_false_elem (f : E -> bool) (c : E) (a : R c) tr :
  occurs f tr = false -> f c = true -> ev c a ∈ tr -> False.
Proof.
  intros Ho Hc Hin. unfold occurs in Ho.
  assert (existsb (fun x => f (projT1 x)) tr = true) as Ht; [|congruence].
  apply existsb_exists. exists (ev c a). split; [by apply list_elem_of_In|done].
Qed.

(** The first call [f] picks is where two decompositions of a trace agree. *)
Lemma first_occurrence_unique (f : E -> bool) tr1 tr2 (x y : event E R) rest1 rest2 :
  occurs f tr1 = false -> occurs f tr2 = false -> f (projT1 x) = true -> f (projT1 y) = true ->
  tr1 ++ x :: rest1 = tr2 ++ y :: rest2 -> tr1 = tr2 /\ x = y /\ rest1 = rest2.
Proof.
  revert tr2. induction tr1 as [|z tr1 IH]; intros [|z2 tr2] H1 H2 Hx Hy Heq;
    cbn [app] in Heq; simplify_eq; try done.
  - rewrite occurs_cons in H2. by rewrite Hx in H2.
  - rewrite occurs_cons in H1. by rewrite Hy in H1.
  - rewrite occurs_cons in H1, H2. apply orb_false_iff in H1 as [_ H1], H2 as [_ H2].
    destruct (IH tr2) as (-> & -> & ->); done.
Qed.

(** An event of the history stays there. *)
Lemma elem_of_history (x : event E R) h tr : x ∈ h -> x ∈ h ++ tr.
Proof. intros Hx. apply elem_of_app. by left. Qed.

Lemma elem_of_last (x : event E R) h : x ∈ h ++ [x].
Proof. apply elem_of_app. right. by left. Qed.
End TraceSpec.
#[export] Hint Resolve elem_of_history elem_of_last : history.

(** A retried program keeps to the rules when each of its runs does. *)
Lemma guar_RetryOnConflict `{LibrariesOk} {E : Type} {R : E -> Type} P h {A}
    (f : prog E R (res A)) (Q : list (event E R) -> res A -> Prop) :
  (forall tr, guar P (h ++ tr) f Q) -> guar P h (RetryOnConflict f) Q.
Proof.
  intros Hf. apply wp_RetryOnConflict. intros tr1 tr2 o H1 H2.
  assert (forall tr0, conforms P (h ++ tr0) tr1) as Hc.
  { induction H1 as [|tr e tr' Hr _ _ IH]; intros tr0; [done|]. apply conforms_app. split.
    - by apply (proj1 (wp_runs f _) (Hf tr0) tr _ Hr).
    - rewrite <- app_assoc. apply IH. }
  destruct (proj1 (wp_runs f _) (Hf tr1) tr2 o H2) as [Hc2 Ho]. rewrite conforms_app, app_assoc.
  split; [|exact Ho]. split; [|exact Hc2]. specialize (Hc []). by rewrite app_nil_r in Hc.
Qed.

(** A call that the rules forbid once it was made is made at most once. *)
Lemma conforms_at_most_once {E R} (f : E -> bool) (P : list (event E R) -> event E R -> Prop) h tr :
  (forall h x, f (projT1 x) = true -> P h x -> occurs f h = false) ->
  conforms P h tr ->
  (length (calls f tr) <= 1)%nat /\ (occurs f h = true -> occurs f tr = false).
Proof.
  intros Hf. revert h; induction tr as [|x tr IH]; intros h; cbn [conforms]; [cbn; auto|].
  intros [Hx Hc]. destruct (IH _ Hc) as [H1 H2]. rewrite calls_cons, occurs_cons.
  rewrite occurs_app, occurs_cons, orb_false_r in H2.
  destruct (f (projT1 x)) eqn:Hfx.
  - specialize (Hf h x Hfx Hx). rewrite (calls_occurs_false f tr) by (apply H2, orb_true_r).
    split; [done|congruence].
  - split; [done|]. intros Hh. apply H2. by rewrite Hh.
Qed.

(** ** Repeated reconciles

    An object is reconciled again and again; each reconcile reads the status that
    was stored last ([written] says what an event stores), and anything else of the
    object may have changed in between. *)
Section Lifetime.
Context {E : Type} {R : E -> Type} {A S X : Type}.
Context (status : S -> X) (reconcile : S -> prog E R A) (written : event E R -> option X).

Fixpoint stored (x : X) (tr : list (event E R)) : X :=
  match tr with
  | [] => x
  | e :: tr' => stored (match written e with Some y => y | None => x end) tr'
  end.

Lemma stored_app x tr1 tr2 : stored x (tr1 ++ tr2) = stored (stored x tr1) tr2.
Proof. revert x; induction tr1 as [|e tr1 IH]; intros x; [done|]. apply IH. Qed.

(** What is stored in the end was there at the start, or was written. *)
Lemma stored_cases x tr : stored x tr = x \/ exists e, e ∈ tr /\ written e = Some (stored x tr).
Proof.
  revert x; induction tr as [|e tr IH]; intros x; cbn [stored]; [by left|].
  destruct (written e) as [y|] eqn:He.
  - destruct (IH y) as [->|(e' & Hin & He')]; right; [exists e|exists e']; split; [by left|done|by right|done].
  - destruct (IH x) as [->|(e' & Hin & He')]; [by left|right]. exists e'. split; [by right|done].
Qed.

Inductive lifetime (s : S) : list (list (event E R)) -> S -> Prop :=
  | lived_none : lifetime s [] s
  | lived_more trs s1 tr o s2 :
      lifetime s trs s1 -> runs (reconcile s1) tr o -> status s2 = stored (status s1) tr ->
      lifetime s (trs ++ [tr]) s2.

(** A call is made once in a lifetime when each reconcile makes it at most once,
    and what a reconcile that makes it stores keeps the later ones from it. *)
Lemma done_once (f : E -> bool) (good : list (event E R) -> Prop) (spent : X -> Prop) :
  (forall s tr o, runs (reconcile s) tr o -> good tr ->
     (length (calls f tr) <= 1)%nat
     /\ (spent (status s) -> occurs f tr = false /\ spent (stored (status s) tr))
     /\ (occurs f tr = true -> spent (stored (status s) tr))) ->
  forall s trs s', lifetime s trs s' -> Forall good trs -> (length (calls f (concat trs)) <= 1)%nat.
Proof.
  intros Hstep s trs s' Hl Hg.
  assert ((length (calls f (concat trs)) <= 1)%nat
          /\ (calls f (concat trs) <> [] -> spent (status s'))) as [H _]; [|done].
  induction Hl as [|trs s1 tr o s2 _ IH Hr Hs]; [cbn; split; [lia|done]|].
  apply Forall_app in Hg as [Hg Hgt]. inversion_clear Hgt as [|?? Ht _].
  destruct (IH Hg) as [IH1 IH2]. destruct (Hstep s1 tr o Hr Ht) as (H1 & H2 & H3).
  rewrite concat_app, calls_app, length_app. cbn [concat]. rewrite app_nil_r, Hs.
  destruct (calls f (concat trs)) as [|x l].
  - cbn. split; [done|]. intros Hne. apply H3. apply not_false_iff_true. intros Ho.
    by rewrite (calls_occurs_false f tr Ho) in Hne.
  - destruct (H2 (IH2 ltac:(done))) as [Ho Hsp]. rewrite (calls_occurs_false f tr Ho). cbn in *.
    split; [lia|done].
Qed.
End Lifetime.

(** [guar_step] follows the shape of a program; [guar_use H] enters a
    sub-program through its specification. *)
Ltac guar_step :=
  lazymatch goal with
  | |- guar _ _ (mbind _ _) _ => apply guar_bind
  | |- @guar ?E ?R ?P ?h _ (trigger ?e) ?Q =>
      refine (@guar_trigger E R P h e Q _); intros ?r; split
  | |- guar _ _ (Ret _) _ => apply guar_ret
  | |- guar _ _ (Crash _) _ => apply guar_crash
  | |- guar _ _ (match ?x with _ => _ end) _ => destruct x eqn:?
  end; cbn beta zeta.

Ltac guar_use H :=
  first [apply guar_bind; eapply guar_mono; [eapply H|] | eapply guar_mono; [eapply H|]];
  cbn beta zeta.
