(* ===== verification/MigrationHelpers.v ===== *)
(** * MigrationHelpers: the helpers of the migration controller

    The functions of [internal/controller/vmmigration_controller.go] below the
    phase handlers: status updates, look-ups, storage validation, the migration
    claim and its mounting, capability and backend gates, staging URLs, clean-up. *)
From S2P Require Import Prelude Contracts K8s Api Effects GoLib NetIP GrpcClient CoreApi MigrationApi Cluster Storage.
From stdpp Require Import base gmap strings list.
From Stdlib Require Import ZArith.
Import v1beta1.
#[local] Open Scope Z_scope.

Record VMMigrationReconciler := mkMigrationReconciler {
  EnforceCapabilities : bool;
  StorageHostPolicy : option HostPolicy
}.

Abbreviation migration_result := (Result * option goerror)%type.

Definition errReasonGetMigration : string := "get-migration".
Definition migrationFinalizer : string := "vmmigration.infra.virtrigaud.io/finalizer".

Definition migrationMountTimeout : duration := (5 * minute)%Z.
Definition migrationPowerOffPollInterval : duration := (5 * second)%Z.
Definition migrationImportSettleInterval : duration := (5 * second)%Z.
Definition migrationMountPollInterval : duration := (5 * second)%Z.

(** ** The long-operation guard *)
Inductive migrationLongOp := longOpExport | longOpImport.
Definition migrationLongOp_string (op : migrationLongOp) : string :=
  match op with longOpExport => "export" | longOpImport => "import" end.

Definition longOpKey (m : VMMigration) (op : migrationLongOp) : string :=
  meta_UID (mig_meta m) +:+ "/" +:+ FormatInt (meta_Generation (mig_meta m)) +:+ "/"
    +:+ migrationLongOp_string op.

Definition markLongOpStarted (m : VMMigration) (op : migrationLongOp) : KM bool :=
  loaded ← kdo (MapLoadOrStore (longOpKey m op)); Ret (negb loaded).
Definition longOpAlreadyStarted (m : VMMigration) (op : migrationLongOp) : KM bool :=
  kdo (MapLoad (longOpKey m op)).

(** ** Status *)

(** [k8s.SetCondition] on the migration's conditions. *)
Definition set_condition (m : VMMigration) (t : string) (s : ConditionStatus) (reason msg : string)
    : KM VMMigration :=
  now ← kdo TimeNow;
  Ret (m <| mig_Status := mig_Status m
              <| mig_Conditions := util_SetCondition now (mig_Conditions (mig_Status m)) t s reason msg |> |>).

Definition set_phase (m : VMMigration) (phase : MigrationPhase) (msg : string) : VMMigration :=
  m <| mig_Status := mig_Status m <| mig_Phase := phase |> <| mig_Message := msg |> |>.

Definition set_message (m : VMMigration) (msg : string) : VMMigration :=
  m <| mig_Status := mig_Status m <| mig_Message := msg |> |>.

(** [left] attempts are left; after a conflict the status is written again on
    top of a fresh object. *)
Fixpoint update_loop (left : nat) (attempt : Z) (m : VMMigration) : KM (option goerror * VMMigration) :=
  match left with
  | O => Ret (Some (ENew "failed to update status after 3 attempts"), m)
  | S left' =>
      e ← kdo (KStatusUpdate KVMMigration m);
      match e with
      | None => Ret (None, m)
      | Some err =>
          if api_IsConflict err && (0 <? left')%nat then
            _ ← kdo (Sleep (100 * millisecond * 2 ^ attempt)%Z);
            fresh ← kdo (KGet KVMMigration (mkKey (mig_Namespace m) (mig_Name m)));
            match fresh with
            | Err err => Ret (Some err, m)
            | Ok fresh => update_loop left' (attempt + 1) (fresh <| mig_Status := mig_Status m |>)
            end
          else Ret (Some err, m)
      end
  end.
Definition updateStatus (m : VMMigration) : KM (option goerror * VMMigration) := update_loop 3 0 m.

(** Write the status, then return: the end of most branches. *)
Definition save_and_return (m : VMMigration) (r : Result) : KM migration_result :=
  u ← updateStatus m;
  match u.1 with
  | Some err => Ret (no_result, Some err)
  | None => Ret (r, None)
  end.

Definition transitionToFailed (m : VMMigration) (message : string) : KM migration_result :=
  let m := set_phase m MigrationPhaseFailed message in
  now ← kdo TimeNow;
  let m := m <| mig_Status := mig_Status m <| mig_CompletionTime := Some now |> |> in
  m ← set_condition m VMMigrationConditionFailed ConditionTrue "MigrationFailed" message;
  m ← set_condition m VMMigrationConditionReady ConditionFalse "MigrationFailed" message;
  _ ← kdo (Event "Warning" "MigrationFailed" message);
  save_and_return m requeue_now.

(** ** Look-ups *)
Definition getSourceVM (m : VMMigration) : KM (res VirtualMachine) :=
  kdo (KGet KVirtualMachine (mkKey (mig_Namespace m) (lref_Name (ms_VMRef (mig_Source (mig_Spec m)))))).

Definition getProvider (ref : ObjectRef) (defaultNamespace : string) : KM (res Provider) :=
  kdo (KGet KProvider
         (mkKey (if is_empty (ref_Namespace ref) then defaultNamespace else ref_Namespace ref) (ref_Name ref))).

Definition sourceProviderRef (m : VMMigration) (sourceVM : VirtualMachine) : ObjectRef :=
  match ms_ProviderRef (mig_Source (mig_Spec m)) with
  | Some ref => ref
  | None => spec_ProviderRef (vm_Spec sourceVM)
  end.

Definition getSourceProvider (m : VMMigration) : KM (res Provider) :=
  match ms_ProviderRef (mig_Source (mig_Spec m)) with
  | Some ref => getProvider ref (mig_Namespace m)
  | None =>
      vm ← getSourceVM m;
      match vm with
      | Err err => Ret (Err (EWrap "failed to get source VM" err))
      | Ok vm => getProvider (spec_ProviderRef (vm_Spec vm)) (mig_Namespace m)
      end
  end.

Definition getTargetProvider (m : VMMigration) : KM (res Provider) :=
  getProvider (mt_ProviderRef (mig_Target (mig_Spec m))) (mig_Namespace m).

Definition isProviderReady (p : Provider) : bool :=
  existsb (fun c => bool_decide (Type_ c = "ProviderAvailable") && bool_decide (Status c = ConditionTrue))
    (ps_Conditions (provider_Status p)).

Definition getProviderInstance (p : Provider) : KM (res ProviderInstance) :=
  i ← kdo (Resolve p);
  match i with
  | Err err => Ret (Err (EWrap "failed to resolve provider" err))
  | Ok i => Ret (Ok i)
  end.

(** ** Backends and formats *)
Definition migrationBackendType (m : VMMigration) : string :=
  match mig_Storage (mig_Spec m) with
  | Some s => if is_empty (mst_Type s) then BackendPVC else mst_Type s
  | None => BackendPVC
  end.
Definition migrationTransferMode (m : VMMigration) : string :=
  match mig_Storage (mig_Spec m) with
  | Some s => if is_empty (mst_TransferMode s) then TransferModeAuto else mst_TransferMode s
  | None => TransferModeAuto
  end.
Definition resolveTransferMode (m : VMMigration) : string :=
  let mode := migrationTransferMode m in
  if bool_decide (mode = TransferModeAuto) then TransferModeRelay else mode.

Definition or_default (d l : list string) : list string := match l with [] => d | _ => l end.
Definition reportedExportBackends (p : Provider) : list string :=
  match ps_ReportedCapabilities (provider_Status p) with
  | Some c => or_default PVCOnlyExportBackends (cap_SupportedExportBackends c)
  | None => PVCOnlyExportBackends
  end.
Definition reportedImportBackends (p : Provider) : list string :=
  match ps_ReportedCapabilities (provider_Status p) with
  | Some c => or_default PVCOnlyImportBackends (cap_SupportedImportBackends c)
  | None => PVCOnlyImportBackends
  end.
Definition reportedTransferModes (p : Provider) : list string :=
  match ps_ReportedCapabilities (provider_Status p) with
  | Some c => or_default RelayOnlyTransferModes (cap_SupportedTransferModes c)
  | None => RelayOnlyTransferModes
  end.
Definition containsString (set : list string) (want : string) : bool :=
  existsb (fun s => bool_decide (s = want)) set.

Definition diskFormatQcow2 : string := "qcow2".
Definition diskFormatVMDK : string := "vmdk".
Definition nativeDiskFormat (p : Provider) : string :=
  if bool_decide (provider_Type p = "vsphere") then diskFormatVMDK else diskFormatQcow2.
Definition stagedImportFormat (sourceProvider : Provider) : string := nativeDiskFormat sourceProvider.
Definition landedTargetFormat (targetProvider : Provider) : string := nativeDiskFormat targetProvider.

(** The target VM's name and namespace. *)
Definition targetVMName (m : VMMigration) : string :=
  let name := mt_Name (mig_Target (mig_Spec m)) in
  if is_empty name then lref_Name (ms_VMRef (mig_Source (mig_Spec m))) +:+ "-migrated" else name.
Definition targetNamespace (m : VMMigration) : string :=
  let ns := mt_Namespace (mig_Target (mig_Spec m)) in
  if is_empty ns then mig_Namespace m else ns.
Definition targetVMKey (m : VMMigration) : NamespacedName := mkKey (targetNamespace m) (targetVMName m).

(** [%v] of a list of strings. *)
Definition fmt_list (l : list string) : string := "[" +:+ String.concat " " l +:+ "]".

Definition cleanupAllowed (m : VMMigration) : bool :=
  match mig_Options (mig_Spec m) with
  | None => true
  | Some o => negb (bool_decide (mo_CleanupPolicy o = CleanupPolicyNever))
  end.

Section Helpers.
Context `{Libraries} `{ClusterLibraries} `{OptionsCodec}.

Definition gateMigrationStorageBackend (m : VMMigration) (sourceProvider targetProvider : Provider) : string :=
  let backend := migrationBackendType m in
  let mode := migrationTransferMode m in
  if negb (bool_decide (backend = BackendPVC)) && negb (bool_decide (backend = BackendS3))
     && negb (bool_decide (backend = BackendNFS)) then
    "storage backend " +:+ fmt_q backend +:+ " is not yet implemented; supported today: "
      +:+ fmt_q BackendPVC +:+ ", " +:+ fmt_q BackendS3 +:+ ", " +:+ fmt_q BackendNFS +:+ " (ADR-0006)"
  else if negb (bool_decide (backend = BackendNFS)) && bool_decide (mode = TransferModeDirect) then
    "transfer mode " +:+ fmt_q TransferModeDirect +:+ " is not yet implemented; only "
      +:+ fmt_q TransferModeRelay +:+ " (and " +:+ fmt_q TransferModeAuto
      +:+ ") are supported today (ADR-0006 Slice 1)"
  else if negb (containsString (reportedExportBackends sourceProvider) backend) then
    "storage backend " +:+ fmt_q backend +:+ " not supported by source provider "
      +:+ fmt_q (provider_Name sourceProvider) +:+ " (supported: "
      +:+ fmt_list (reportedExportBackends sourceProvider) +:+ "); see ADR-0006"
  else if negb (containsString (reportedImportBackends targetProvider) backend) then
    "storage backend " +:+ fmt_q backend +:+ " not supported by target provider "
      +:+ fmt_q (provider_Name targetProvider) +:+ " (supported: "
      +:+ fmt_list (reportedImportBackends targetProvider) +:+ "); see ADR-0006"
  else if negb (bool_decide (backend = BackendNFS)) && negb (bool_decide (mode = TransferModeAuto)) then
    if negb (containsString (reportedTransferModes sourceProvider) mode) then
      "transfer mode " +:+ fmt_q mode +:+ " not supported by source provider "
        +:+ fmt_q (provider_Name sourceProvider) +:+ " (supported: "
        +:+ fmt_list (reportedTransferModes sourceProvider) +:+ "); see ADR-0006"
    else if negb (containsString (reportedTransferModes targetProvider) mode) then
      "transfer mode " +:+ fmt_q mode +:+ " not supported by target provider "
        +:+ fmt_q (provider_Name targetProvider) +:+ " (supported: "
        +:+ fmt_list (reportedTransferModes targetProvider) +:+ "); see ADR-0006"
    else ""
  else "".

(** The result is to be returned when the gate blocks. *)
Definition gateProviderCapability (r : VMMigrationReconciler) (m : VMMigration) (i : ProviderInstance)
    (supported : Capabilities -> bool) (failureMessage : string) : KM (option Result) :=
  if negb (EnforceCapabilities r) then Ret None
  else if negb (inst_CapabilityReporter i) then Ret None
  else
    caps ← kdo (GetCapabilities i);
    match caps with
    | Err _ => Ret None
    | Ok caps =>
        if supported caps then Ret None
        else
          res ← transitionToFailed m failureMessage;
          Ret (Some res.1)
    end.

(** ** Storage validation *)
Definition defaultStorageHostPolicy : HostPolicy := mkHostPolicy [] false.
Definition storageHostPolicy (r : VMMigrationReconciler) : HostPolicy :=
  match StorageHostPolicy r with Some p => p | None => defaultStorageHostPolicy end.

Definition validatePVCConfig (pvc : option PVCStorageConfig) : option goerror :=
  match pvc with
  | None => Some (ENew "pvc configuration is required when using pvc storage type")
  | Some pvcConfig =>
      if negb (is_empty (pvcc_Name pvcConfig)) then None
      else if is_empty (pvcc_StorageClassName pvcConfig) then
        Some (ENew "storageClassName is required when PVC name is not specified (auto-create mode)")
      else if is_empty (pvcc_Size pvcConfig) then
        Some (ENew "size is required when PVC name is not specified (auto-create mode)")
      else if negb (is_empty (pvcc_AccessMode pvcConfig))
              && negb (bool_decide (pvcc_AccessMode pvcConfig ∈ ["ReadWriteOnce"; "ReadWriteMany"; "ReadOnlyMany"]))
      then Some (ENew ("invalid access mode: " +:+ pvcc_AccessMode pvcConfig))
      else None
  end.

Definition validateStorageConfig (r : VMMigrationReconciler) (storageConfig : option MigrationStorage)
    : KM (option goerror) :=
  match storageConfig with
  | None => Ret (Some (ENew "storage configuration is required"))
  | Some storageConfig =>
      if bool_decide (mst_Type storageConfig = "pvc") || is_empty (mst_Type storageConfig) then
        Ret (validatePVCConfig (mst_PVC storageConfig))
      else if bool_decide (mst_Type storageConfig = BackendS3) then
        match mst_S3 storageConfig with
        | None => Ret (Some (ENew "s3 configuration is required when using s3 storage type"))
        | Some s3 =>
            if is_empty (s3c_Bucket s3) then Ret (Some (ENew "s3.bucket is required for s3 storage type"))
            else if is_empty (ref_Name (s3c_CredentialsSecretRef s3)) then
              Ret (Some (ENew "s3.credentialsSecretRef is required for s3 storage type"))
            else
              e ← ValidateS3Endpoint (storageHostPolicy r) (s3c_Endpoint s3);
              Ret match e with Some err => Some (EWrap "s3 endpoint not permitted" err) | None => None end
        end
      else if bool_decide (mst_Type storageConfig = BackendNFS) then
        match mst_NFS storageConfig with
        | None => Ret (Some (ENew "nfs configuration is required when using nfs storage type"))
        | Some nfs =>
            if is_empty (nfsc_Server nfs) || is_empty (nfsc_Export nfs) then
              Ret (Some (ENew "nfs.server and nfs.export are required for nfs storage type"))
            else
              e ← ValidateHost (storageHostPolicy r) (nfsc_Server nfs);
              Ret match e with Some err => Some (EWrap "nfs server not permitted" err) | None => None end
        end
      else Ret (Some (ENew ("unsupported storage type: " +:+ mst_Type storageConfig
                            +:+ " (supported: 'pvc', 's3', 'nfs')")))
  end.

(** ** The migration claim *)
Definition annotate_provider (p : Provider) (timestamp pvcName : string) : Provider :=
  p <| provider_meta := provider_meta p
         <| meta_Annotations :=
              <["virtrigaud.io/migration-pvc" := pvcName]>
                (<["virtrigaud.io/reconcile-trigger" := timestamp]> (meta_Annotations (provider_meta p))) |> |>.

Definition triggerProviderReconciliation (m : VMMigration) : KM (option goerror) :=
  now ← kdo TimeNow;
  let timestamp := FormatInt (now / second) in
  sp ← getSourceProvider m;
  match sp with
  | Err err => Ret (Some (EWrap "failed to get source provider" err))
  | Ok sp =>
      e ← kdo (KUpdate KProvider (annotate_provider sp timestamp (mig_StoragePVCName (mig_Status m))));
      match e with
      | Some err => Ret (Some (EWrap "failed to annotate source provider" err))
      | None =>
          tp ← getTargetProvider m;
          match tp with
          | Err err => Ret (Some (EWrap "failed to get target provider" err))
          | Ok tp =>
              e ← kdo (KUpdate KProvider (annotate_provider tp timestamp (mig_StoragePVCName (mig_Status m))));
              match e with
              | Some err => Ret (Some (EWrap "failed to annotate target provider" err))
              | None => Ret None
              end
          end
      end
  end.

Definition migration_claim (m : VMMigration) (pvcConfig : PVCStorageConfig) (pvcName : string)
    (quantity : Z) : PersistentVolumeClaim :=
  mkPVC (mkObjectMeta pvcName (mig_Namespace m) "" 0 ""
           (<["app.kubernetes.io/managed-by" := "virtrigaud"]>
             (<["virtrigaud.io/migration" := mig_Name m]>
               {["virtrigaud.io/component" := "migration-storage"]}))
           {["virtrigaud.io/created-by" := "vmmigration-controller"]} [] None None)
    (pvcc_StorageClassName pvcConfig)
    [if is_empty (pvcc_AccessMode pvcConfig) then "ReadWriteMany" else pvcc_AccessMode pvcConfig]
    quantity.

Definition createMigrationPVC (m : VMMigration) (pvcConfig : PVCStorageConfig) (pvcName : string)
    : KM (res string) :=
  match ParseQuantity (pvcc_Size pvcConfig) with
  | Err err => Ret (Err (EWrap ("invalid PVC size " +:+ pvcc_Size pvcConfig) err))
  | Ok quantity =>
      match SetControllerReference m (migration_claim m pvcConfig pvcName quantity) with
      | Err err => Ret (Err (EWrap "failed to set owner reference on PVC" err))
      | Ok pvc =>
          e ← kdo (KCreate KPVC pvc);
          match e with
          | Some err => Ret (Err (EWrap "failed to create PVC" err))
          | None =>
              _ ← kdo (Event "Normal" "PVCCreated" ("Created migration storage PVC: " +:+ pvcName));
              _ ← triggerProviderReconciliation m;
              Ret (Ok pvcName)
          end
      end
  end.

Definition ensureMigrationPVC (m : VMMigration) : KM (res string) :=
  match (s ← mig_Storage (mig_Spec m); mst_PVC s) with
  | None => Ret (Err (ENew "storage PVC configuration is missing"))
  | Some pvcConfig =>
      if negb (is_empty (pvcc_Name pvcConfig)) then
        pvc ← kdo (KGet KPVC (mkKey (mig_Namespace m) (pvcc_Name pvcConfig)));
        match pvc with
        | Err err =>
            if api_IsNotFound err then
              Ret (Err (ENew ("specified PVC " +:+ pvcc_Name pvcConfig +:+ " not found in namespace "
                              +:+ mig_Namespace m)))
            else Ret (Err (EWrap ("failed to get PVC " +:+ pvcc_Name pvcConfig) err))
        | Ok _ => Ret (Ok (pvcc_Name pvcConfig))
        end
      else
        let pvcName := mig_Name m +:+ "-storage" in
        existing ← kdo (KGet KPVC (mkKey (mig_Namespace m) pvcName));
        match existing with
        | Ok _ => Ret (Ok pvcName)
        | Err err =>
            if negb (api_IsNotFound err) then Ret (Err (EWrap "failed to check for existing PVC" err))
            else createMigrationPVC m pvcConfig pvcName
        end
  end.

(** ** Waiting for the claim to be mounted *)
Definition volumesContainPVC (volumes : list (option string)) (pvcName : string) : bool :=
  existsb (fun v => bool_decide (v = Some pvcName)) volumes.

Definition podConditionTrue (pod : Pod) (condType : string) : bool :=
  match List.find (fun c => bool_decide (c.1 = condType)) (pod_Conditions pod) with
  | Some c => bool_decide (c.2 = "True")
  | None => false
  end.

Definition pod_mounts (pvcName : string) (pod : Pod) : bool :=
  bool_decide (pod_DeletionTimestamp pod = None) && volumesContainPVC (pod_Volumes pod) pvcName
  && bool_decide (pod_Phase pod = "Running") && podConditionTrue pod "Ready".

(** The reason there is to wait, or [None] when the mount is ready. *)
Definition providerMountReady (p : Provider) (pvcName : string) : KM (res (option string)) :=
  let deploymentName := "virtrigaud-provider-" +:+ provider_Namespace p +:+ "-" +:+ provider_Name p in
  d ← kdo (KGet KDeployment (mkKey (provider_Namespace p) deploymentName));
  match d with
  | Err err =>
      if api_IsNotFound err
      then Ret (Ok (Some ("provider deployment " +:+ deploymentName +:+ " not found yet")))
      else Ret (Err (EWrap ("get provider deployment " +:+ deploymentName) err))
  | Ok d =>
      if negb (volumesContainPVC (dep_Volumes d) pvcName) then
        Ret (Ok (Some "deployment not yet updated with the migration PVC volume"))
      else
        let replicas := deref 1 (dep_Replicas d) in
        if (dep_UpdatedReplicas d <? replicas) || (dep_ReadyReplicas d <? replicas) then
          Ret (Ok (Some ("provider rollout in progress (updated " +:+ FormatInt (dep_UpdatedReplicas d) +:+ "/"
                         +:+ FormatInt replicas +:+ ", ready " +:+ FormatInt (dep_ReadyReplicas d) +:+ "/"
                         +:+ FormatInt replicas +:+ ")")))
        else
          pods ← kdo (KListPods (provider_Namespace p)
                        (<["app.kubernetes.io/name" := "virtrigaud-provider"]>
                           {["app.kubernetes.io/instance" := provider_Name p]}));
          match pods with
          | Err err => Ret (Err (EWrap ("list provider " +:+ provider_Name p +:+ " pods") err))
          | Ok pods =>
              if existsb (pod_mounts pvcName) pods then Ret (Ok None)
              else Ret (Ok (Some "no Ready pod with the migration PVC mounted yet"))
          end
  end.

Definition migrationProvidersMounted (source target : Provider) (pvcName : string) : KM (res (option string)) :=
  s ← providerMountReady source pvcName;
  match s with
  | Err err => Ret (Err (EWrap ("source provider " +:+ provider_Name source) err))
  | Ok (Some reason) => Ret (Ok (Some ("source: " +:+ reason)))
  | Ok None =>
      t ← providerMountReady target pvcName;
      match t with
      | Err err => Ret (Err (EWrap ("target provider " +:+ provider_Name target) err))
      | Ok (Some reason) => Ret (Ok (Some ("target: " +:+ reason)))
      | Ok None => Ret (Ok None)
      end
  end.

Definition migrationMountDeadlineExceeded (m : VMMigration) (pvcName : string) : KM (res bool) :=
  pvc ← kdo (KGet KPVC (mkKey (mig_Namespace m) pvcName));
  match pvc with
  | Err err => Ret (Err (EWrap ("get migration PVC " +:+ pvcName) err))
  | Ok pvc =>
      now ← kdo TimeNow;
      Ret (Ok (migrationMountTimeout <? now - deref 0 (meta_CreationTimestamp (pvc_meta pvc))))
  end.

(** ** Options and credentials *)
Definition storageOptionsJSON (m : VMMigration) : res string :=
  let backend := migrationBackendType m in
  if bool_decide (backend = BackendS3) then
    match (s ← mig_Storage (mig_Spec m); mst_S3 s) with
    | None => Err (ENew "s3 storage configuration is required for s3 backend")
    | Some s3 =>
        MarshalStorageOptions (mkStorageOptions BackendS3 (s3c_Bucket s3) (s3c_Endpoint s3) (s3c_Region s3)
          (s3c_Prefix s3) (s3c_UsePathStyle s3) "" "" "" None None)
    end
  else if bool_decide (backend = BackendNFS) then
    match (s ← mig_Storage (mig_Spec m); mst_NFS s) with
    | None => Err (ENew "nfs storage configuration (server, export) is required for nfs backend")
    | Some nfs =>
        if is_empty (nfsc_Server nfs) || is_empty (nfsc_Export nfs) then
          Err (ENew "nfs storage configuration (server, export) is required for nfs backend")
        else
          MarshalStorageOptions (mkStorageOptions BackendNFS "" "" "" "" false (nfsc_Server nfs)
            (nfsc_Export nfs) (nfsc_Path nfs) (nfsc_UID nfs) (nfsc_GID nfs))
    end
  else Ok "".

Definition loadS3Credentials (m : VMMigration) : KM (res (gmap string string)) :=
  if negb (bool_decide (migrationBackendType m = BackendS3)) then Ret (Ok ∅)
  else
    match (s ← mig_Storage (mig_Spec m); mst_S3 s) with
    | None => Ret (Err (ENew "s3 backend requires storage.s3.credentialsSecretRef"))
    | Some s3 =>
        if is_empty (ref_Name (s3c_CredentialsSecretRef s3)) then
          Ret (Err (ENew "s3 backend requires storage.s3.credentialsSecretRef"))
        else
          let where_ := mig_Namespace m +:+ "/" +:+ ref_Name (s3c_CredentialsSecretRef s3) in
          secret ← kdo (KGet KSecret (mkKey (mig_Namespace m) (ref_Name (s3c_CredentialsSecretRef s3))));
          match secret with
          | Err err => Ret (Err (EWrap ("get s3 credentials secret " +:+ where_) err))
          | Ok secret =>
              let accessKey := map_get (secret_Data secret) CredKeyAccessKeyID in
              let secretKey := map_get (secret_Data secret) CredKeySecretAccessKey in
              if is_empty accessKey || is_empty secretKey then
                Ret (Err (ENew ("s3 credentials secret " +:+ where_ +:+ " must contain keys "
                                +:+ fmt_q CredKeyAccessKeyID +:+ " and " +:+ fmt_q CredKeySecretAccessKey)))
              else
                let creds := <[CredKeyAccessKeyID := accessKey]> {[CredKeySecretAccessKey := secretKey]} in
                let token := map_get (secret_Data secret) CredKeySessionToken in
                Ret (Ok (if is_empty token then creds else <[CredKeySessionToken := token]> creds))
          end
    end.

(** ** Staging URLs *)
Definition generateStorageURL (m : VMMigration) (stage : string) : res string :=
  match mig_Storage (mig_Spec m) with
  | None => Err (ENew "storage configuration is required for migration")
  | Some storageConfig =>
      if bool_decide (mst_Type storageConfig = "pvc") || is_empty (mst_Type storageConfig) then
        let pvcName := mig_StoragePVCName (mig_Status m) in
        if is_empty pvcName then Err (ENew "storage PVC name not set in migration status")
        else Ok ("pvc://" +:+ pvcName +:+ "/" +:+ "vmmigrations/" +:+ mig_Namespace m +:+ "/" +:+ mig_Name m
                 +:+ "/" +:+ stage +:+ ".qcow2")
      else if bool_decide (mst_Type storageConfig = BackendS3) then
        match mst_S3 storageConfig with
        | None => Err (ENew "s3 storage configuration (bucket) is required")
        | Some s3 =>
            if is_empty (s3c_Bucket s3) then Err (ENew "s3 storage configuration (bucket) is required")
            else
              let key := "vmmigrations/" +:+ mig_Namespace m +:+ "/" +:+ mig_Name m +:+ "/" +:+ stage +:+ ".vmdk" in
              let prefix := Trim is_slash (s3c_Prefix s3) in
              let key := if is_empty prefix then key else prefix +:+ "/" +:+ key in
              Ok ("s3://" +:+ s3c_Bucket s3 +:+ "/" +:+ key)
        end
      else if bool_decide (mst_Type storageConfig = BackendNFS) then
        match mst_NFS storageConfig with
        | None => Err (ENew "nfs storage configuration (server, export) is required")
        | Some nfs =>
            if is_empty (nfsc_Server nfs) || is_empty (nfsc_Export nfs) then
              Err (ENew "nfs storage configuration (server, export) is required")
            else
              let key := "vmmigrations-" +:+ mig_Namespace m +:+ "-" +:+ mig_Name m +:+ "-" +:+ stage +:+ ".qcow2" in
              NFSURL (mkStorageOptions "" "" "" "" "" false (nfsc_Server nfs) (nfsc_Export nfs)
                        (nfsc_Path nfs) (nfsc_UID nfs) (nfsc_GID nfs)) key
        end
      else Err (ENew ("unsupported storage type: " +:+ mst_Type storageConfig))
  end.

(** ** Clean-up *)

(** The store [cleanupIntermediateStorage] opens. *)
Definition cleanup_config (m : VMMigration) (storage : MigrationStorage) : StorageConfig :=
  let pvcName :=
    if is_empty (mig_StoragePVCName (mig_Status m)) then
      match mst_PVC storage with Some c => pvcc_Name c | None => "" end
    else mig_StoragePVCName (mig_Status m) in
  let basePath :=
    match mst_PVC storage with
    | Some c => if is_empty (pvcc_MountPath c) then "/mnt/migration-storage" else pvcc_MountPath c
    | None => "/mnt/migration-storage"
    end in
  mkStorageConfig "pvc" pvcName (mig_Namespace m) (basePath +:+ "/" +:+ pvcName) None.

(** Its configuration is always of type [pvc], so [storage.NewStorage] is
    [NewPVCStorage]. *)
Definition cleanupIntermediateStorage (m : VMMigration) : KM (option goerror) :=
  match mig_Storage (mig_Spec m) with
  | None => Ret None
  | Some storage =>
      store ← NewPVCStorage (cleanup_config m storage);
      match store with
      | Err err => Ret (Some (EWrap "failed to create storage client" err))
      | Ok store =>
          match generateStorageURL m "export" with
          | Err _ => Ret None
          | Ok exportURL => _ ← PVCStorage_Delete store exportURL; Ret None
          end
      end
  end.

Definition await_task (i : ProviderInstance) (taskRef : string) : KM (option goerror) :=
  PollUntil (3 * second) (2 * minute)
    (done ← kdo (IsTaskComplete i taskRef);
     Ret match done with Ok b => b | Err _ => false end).

Definition awaitSnapshotDelete (i : ProviderInstance) (taskRef : string) : KM (option goerror) :=
  if is_empty taskRef then Ret None
  else
    waitErr ← await_task i taskRef;
    match waitErr with
    | Some err => Ret (Some (EWrap ("await snapshot delete task " +:+ taskRef) err))
    | None =>
        st ← kdo (TaskStatus i taskRef);
        match st with
        | Err err => Ret (Some (EWrap ("get snapshot delete task " +:+ taskRef +:+ " status") err))
        | Ok st =>
            if is_empty (ts_Error st) then Ret None
            else Ret (Some (ENew ("snapshot delete task " +:+ taskRef +:+ " failed: " +:+ ts_Error st)))
        end
    end.

(** The error, if any, and the migration with its snapshot ID cleared when the
    snapshot is gone. *)
Definition deleteSourceSnapshot (m : VMMigration) : KM (option goerror * VMMigration) :=
  vm ← getSourceVM m;
  match vm with
  | Err err => Ret (Some (EWrap "failed to get source VM" err), m)
  | Ok vm =>
      p ← getProvider (sourceProviderRef m vm) (mig_Namespace m);
      match p with
      | Err err => Ret (Some (EWrap "failed to get source provider" err), m)
      | Ok p =>
          i ← getProviderInstance p;
          match i with
          | Err err => Ret (Some (EWrap "failed to get provider instance" err), m)
          | Ok i =>
              t ← kdo (SnapshotDelete i (status_ID (vm_Status vm)) (mig_SnapshotID (mig_Status m)));
              match t with
              | Err err => Ret (Some (EWrap "failed to delete snapshot" err), m)
              | Ok taskRef =>
                  e ← awaitSnapshotDelete i taskRef;
                  match e with
                  | Some err => Ret (Some err, m)
                  | None => Ret (None, m <| mig_Status := mig_Status m <| mig_SnapshotID := "" |> |>)
                  end
              end
          end
      end
  end.

Definition deleteSourceVM (m : VMMigration) : KM (option goerror) :=
  vm ← getSourceVM m;
  match vm with
  | Err err => Ret (Some (EWrap "failed to get source VM" err))
  | Ok vm =>
      e ← kdo (KDelete KVirtualMachine vm);
      match e with
      | Some err => Ret (Some (EWrap "failed to delete source VM" err))
      | None => Ret None
      end
  end.

(** The snapshot is the migration's own: it made it, and may remove it. *)
Definition owns_snapshot (m : VMMigration) : bool :=
  negb (is_empty (mig_SnapshotID (mig_Status m)))
  && bool_decide (ms_SnapshotRef (mig_Source (mig_Spec m)) = None).

Definition cleanupSnapshotOnTerminalFailure (m : VMMigration) : KM VMMigration :=
  if negb (cleanupAllowed m) || negb (owns_snapshot m) then Ret m
  else r ← deleteSourceSnapshot m; Ret r.2.
End Helpers.
