(* ===== verification/Migration.v ===== *)
(** * Migration: the VMMigration controller

    The reconcile loop and the phase handlers of
    [internal/controller/vmmigration_controller.go].  A handler that gets the
    migration by pointer takes it as an argument and passes the changed one on;
    a stage that may return early from its handler returns [inl] of the
    handler's result, or [inr] of the migration to go on with. *)
From S2P Require Import Prelude Contracts K8s Api Effects GoLib NetIP GrpcClient CoreApi MigrationApi Cluster Storage MigrationHelpers.
From stdpp Require Import base gmap strings list.
From Stdlib Require Import ZArith.
Import v1beta1.
#[local] Open Scope Z_scope.

(** [%v] of an error behind a prefix. *)
Definition errorf (prefix : string) (err : goerror) : string := prefix +:+ ": " +:+ Error err.

Definition with_status (m : VMMigration) (f : VMMigrationStatus -> VMMigrationStatus) : VMMigration :=
  m <| mig_Status := f (mig_Status m) |>.

Definition ConditionStatus_string (s : ConditionStatus) : string :=
  match s with ConditionTrue => "True" | ConditionFalse => "False" | ConditionUnknown => "Unknown" end.

(** The status of the VM's Ready condition, as the log and messages show it. *)
Definition ready_status (vm : VirtualMachine) : string :=
  match GetCondition (status_Conditions (vm_Status vm)) "Ready" with
  | Some c => ConditionStatus_string (Status c)
  | None => "not set"
  end.

(** [migration.UID[:8]]; a shorter UID panics. *)
Definition uid_prefix (uid : string) : option string :=
  if (String.length uid <? 8)%nat then None else Some (String.substring 0 8 uid).

(** ** Durations: [int64] arithmetic *)
Definition to_int64 (z : Z) : Z := (z + 2 ^ 63) mod 2 ^ 64 - 2 ^ 63.

(** [Time.Sub] saturates. *)
Definition Time_Sub (t u : time) : duration := Z.max (- 2 ^ 63) (Z.min (2 ^ 63 - 1) (t - u)).

Definition maxRetries (p : MigrationRetryPolicy) : Z := deref 3 (rp_MaxRetries p).

Fixpoint multiply (n : nat) (d multiplier : duration) : duration :=
  match n with O => d | S n' => multiply n' (to_int64 (d * multiplier)) multiplier end.

(** The delay before the retry that follows [retryCount] earlier ones. *)
Definition retryDelay (p : MigrationRetryPolicy) (retryCount : Z) : duration :=
  let d := multiply (Z.to_nat retryCount) (deref (5 * minute) (rp_RetryDelay p))
             (deref 2 (rp_BackoffMultiplier p)) in
  let maxDelay := 30 * minute in
  if maxDelay <? d then maxDelay else d.

(** The retry policy, if there is one. *)
Definition retryPolicy (m : VMMigration) : option MigrationRetryPolicy :=
  o ← mig_Options (mig_Spec m); mo_RetryPolicy o.

(** A failed migration that will not be retried. *)
Definition permanently_failed (m : VMMigration) : bool :=
  match retryPolicy m with
  | Some p => maxRetries p <=? mig_RetryCount (mig_Status m)
  | None => true
  end.

Definition disk_format (m : VMMigration) : string :=
  match mig_Options (mig_Spec m) with
  | Some o => if is_empty (mo_DiskFormat o) then diskFormatQcow2 else mo_DiskFormat o
  | None => diskFormatQcow2
  end.

(** The target VM the creating phase makes, given the disk the import recorded. *)
Definition target_VM (m : VMMigration) (disk : MigrationDiskInfo) : VirtualMachine :=
  let t := mig_Target (mig_Spec m) in
  let importID := mig_ImportID (mig_Status m) in
  let annotations :=
    <["virtrigaud.io/migrated-from" :=
        mig_Namespace m +:+ "/" +:+ lref_Name (ms_VMRef (mig_Source (mig_Spec m)))]>
    (<["virtrigaud.io/migration" := mig_Namespace m +:+ "/" +:+ mig_Name m]>
    (<["virtrigaud.io/imported-disk-id" := importID]>
      {["virtrigaud.io/disk-checksum" := di_TargetChecksum disk]})) in
  mkVM
    (mkObjectMeta (targetVMName m) (targetNamespace m) "" 0 "" (mt_Labels t)
       (mt_Annotations t ∪ annotations) [] None None)
    (mkVMSpec (mt_ProviderRef t)
       (match mt_ClassRef t with
        | Some c => mkObjectRef (lref_Name c) (mig_Namespace m)
        | None => mkObjectRef "" ""
        end)
       None
       (Some (mkImportedDiskRef importID (di_TargetPath disk) (di_TargetFormat disk) "migration"
                (Some (mkLocalRef (mig_Name m)))))
       (mt_Networks t) [] None None None "" [] None (mt_PlacementRef t))
    (mkVMStatus "" "" [] "" [] 0 "" ∅ "" None None VirtualMachinePhaseUnset).

Section Migration.
Context `{Libraries} `{ClusterLibraries} `{OptionsCodec}.
Context (r : VMMigrationReconciler).

Definition handlePendingPhase (m : VMMigration) : KM migration_result :=
  let m := set_phase m MigrationPhaseValidating "Starting validation" in
  m ← set_condition m VMMigrationConditionValidating ConditionTrue "ValidationStarted"
        "Migration validation started";
  _ ← kdo (Event "Normal" "ValidationStarted" "Starting migration validation");
  save_and_return m requeue_now.

(** ** Validating *)
Definition validation_waits (m : VMMigration) (reason message : string) : KM migration_result :=
  m ← set_condition m VMMigrationConditionValidating ConditionFalse reason message;
  save_and_return m (requeue_after (30 * second)).

(** The [default] case of the backend switch: the claim is there and both
    providers have mounted it. *)
Definition validate_pvc (m : VMMigration) (source target : Provider)
    : KM (migration_result + VMMigration) :=
  if negb (bool_decide (provider_Namespace source = mig_Namespace m))
     || negb (bool_decide (provider_Namespace target = mig_Namespace m)) then
    res ← transitionToFailed m
      ("PVC-based migration requires the migration (" +:+ mig_Namespace m +:+ "), source provider ("
       +:+ provider_Namespace source +:+ "/" +:+ provider_Name source +:+ ") and target provider ("
       +:+ provider_Namespace target +:+ "/" +:+ provider_Name target +:+ ") "
       +:+ "to share one namespace; a pod cannot mount a PVC across namespaces");
    Ret (inl res)
  else
    pvc ← ensureMigrationPVC m;
    match pvc with
    | Err err => res ← transitionToFailed m (errorf "Failed to ensure migration PVC" err); Ret (inl res)
    | Ok pvcName =>
        rec ← (if is_empty (mig_StoragePVCName (mig_Status m))
               then updateStatus (with_status m (fun s => s <| mig_StoragePVCName := pvcName |>))
               else Ret (None, m));
        let m := rec.2 in
        match rec.1 with
        | Some err => Ret (inl (no_result, Some err))
        | None =>
            mounted ← migrationProvidersMounted source target pvcName;
            match mounted with
            | Err err =>
                res ← transitionToFailed m (errorf "Failed to check migration storage mount" err);
                Ret (inl res)
            | Ok None => Ret (inr m)
            | Ok (Some reason) =>
                exceeded ← migrationMountDeadlineExceeded m pvcName;
                match exceeded with
                | Err err =>
                    res ← transitionToFailed m (errorf "Failed to check migration storage mount" err);
                    Ret (inl res)
                | Ok true =>
                    res ← transitionToFailed m
                      ("timed out after 5m0s waiting for providers to mount migration PVC " +:+ pvcName
                       +:+ " (" +:+ reason +:+ "); "
                       +:+ "verify the provider Deployments rolled new pods and that those pods are Ready "
                       +:+ "(kubectl -n " +:+ mig_Namespace m
                       +:+ " get deploy,pod -l app.kubernetes.io/name=virtrigaud-provider)");
                    Ret (inl res)
                | Ok false =>
                    m ← set_condition m VMMigrationConditionValidating ConditionFalse
                          "WaitingForStorageMount" reason;
                    res ← save_and_return
                            (set_message m ("Waiting for providers to mount migration storage: " +:+ reason))
                            (requeue_after migrationMountPollInterval);
                    Ret (inl res)
                end
            end
        end
    end.

Definition validate_storage (m : VMMigration) (source target : Provider)
    : KM (migration_result + VMMigration) :=
  match mig_Storage (mig_Spec m) with
  | None => Ret (inr m)
  | Some storage =>
      e ← validateStorageConfig r (Some storage);
      match e with
      | Some err => res ← transitionToFailed m (errorf "Invalid storage configuration" err); Ret (inl res)
      | None =>
          if bool_decide (migrationBackendType m = BackendS3) then
            creds ← loadS3Credentials m;
            match creds with
            | Err err =>
                res ← transitionToFailed m (errorf "Invalid s3 storage configuration" err); Ret (inl res)
            | Ok _ => Ret (inr m)
            end
          else if bool_decide (migrationBackendType m = BackendNFS) then Ret (inr m)
          else validate_pvc m source target
      end
  end.

(** What [ensureSourcePoweredOff] returns, besides the migration. *)
Inductive powered_off := PoweredOff | PoweringOff (res : Result) | PowerOffError (err : goerror).

Definition poweroff_error (m : VMMigration) (prefix : string) (err : goerror) : KM (powered_off * VMMigration) :=
  Ret (PowerOffError (EWrap prefix err), m).

Definition power_off_and_wait (m : VMMigration) (i : ProviderInstance) (id powerState : string)
    : KM (powered_off * VMMigration) :=
  e ← (if bool_decide (powerState = Contracts.PowerStateOn) then
         t ← kdo (Power i id PowerOpOff);
         match t with
         | Err err => Ret (Some err)
         | Ok _ =>
             _ ← kdo (Event "Normal" "SourcePowerOff" "Powering off source VM before migration");
             Ret None
         end
       else Ret None);
  match e with
  | Some err => poweroff_error m "power off source VM" err
  | None =>
      u ← updateStatus (set_message m "Powering off source VM before migration");
      match u.1 with
      | Some err => Ret (PowerOffError err, u.2)
      | None => Ret (PoweringOff (requeue_after migrationPowerOffPollInterval), u.2)
      end
  end.

Definition vm_Name (vm : VirtualMachine) : string := meta_Name (vm_meta vm).

(** Ask the provider for the source's power state, and stop it when it is on. *)
Definition observe_source (m : VMMigration) (vm : VirtualMachine) : KM (powered_off * VMMigration) :=
  let id := status_ID (vm_Status vm) in
  p ← getProvider (spec_ProviderRef (vm_Spec vm)) (mig_Namespace m);
  match p with
  | Err err => poweroff_error m "get source provider" err
  | Ok p =>
      i ← getProviderInstance p;
      match i with
      | Err err => poweroff_error m "get source provider instance" err
      | Ok i =>
          desc ← kdo (Describe i id);
          match desc with
          | Err err => poweroff_error m "describe source VM" err
          | Ok desc =>
              if bool_decide (desc_PowerState desc = Contracts.PowerStateOff) then Ret (PoweredOff, m)
              else power_off_and_wait m i id (desc_PowerState desc)
          end
      end
  end.

Definition ensureSourcePoweredOff (m : VMMigration) : KM (powered_off * VMMigration) :=
  vm ← getSourceVM m;
  match vm with
  | Err err => poweroff_error m "get source VM" err
  | Ok vm =>
      if is_empty (status_ID (vm_Status vm)) then
        Ret (PowerOffError (ENew ("source VM " +:+ vm_Name vm +:+ " has no provider ID yet")), m)
      else
        e ← (if bool_decide (spec_PowerState (vm_Spec vm) = PowerStateOff) then Ret None
             else kdo (KPatch KVirtualMachine
                         (vm <| vm_Spec := vm_Spec vm <| spec_PowerState := PowerStateOff |> |>)));
        match e with
        | Some err =>
            poweroff_error m ("set source VM " +:+ vm_Name vm +:+ " desired power state to Off") err
        | None => observe_source m vm
        end
  end.

Definition validation_complete (m : VMMigration) : KM migration_result :=
  let m :=
    if ms_CreateSnapshot (mig_Source (mig_Spec m))
    then set_phase m MigrationPhaseSnapshotting "Preparing to snapshot source VM"
    else set_phase m MigrationPhaseExporting "Preparing to export source VM" in
  m ← set_condition m VMMigrationConditionValidating ConditionTrue "ValidationComplete"
        "Migration validation completed successfully";
  _ ← kdo (Event "Normal" "ValidationComplete" "Migration validation completed");
  save_and_return m requeue_now.

Definition power_gate (m : VMMigration) : KM migration_result :=
  if ms_PowerOffBeforeMigration (mig_Source (mig_Spec m)) then
    po ← ensureSourcePoweredOff m;
    match po with
    | (PowerOffError err, m) =>
        transitionToFailed m (errorf "Failed to power off source VM before migration" err)
    | (PoweringOff res, m) => Ret (res, None)
    | (PoweredOff, m) => validation_complete m
    end
  else validation_complete m.

Definition handleValidatingPhase (m : VMMigration) : KM migration_result :=
  vm ← getSourceVM m;
  match vm with
  | Err err => transitionToFailed m (errorf "Failed to get source VM" err)
  | Ok vm =>
      if is_empty (status_ID (vm_Status vm)) then
        validation_waits m "SourceVMNotReady" "Source VM is not yet provisioned"
      else
        sp ← getProvider (sourceProviderRef m vm) (mig_Namespace m);
        match sp with
        | Err err => transitionToFailed m (errorf "Failed to get source provider" err)
        | Ok sp =>
            tp ← getProvider (mt_ProviderRef (mig_Target (mig_Spec m))) (mig_Namespace m);
            match tp with
            | Err err => transitionToFailed m (errorf "Failed to get target provider" err)
            | Ok tp =>
                if negb (isProviderReady sp) then
                  validation_waits m "SourceProviderNotReady" "Source provider is not ready"
                else if negb (isProviderReady tp) then
                  validation_waits m "TargetProviderNotReady" "Target provider is not ready"
                else
                  let msg := gateMigrationStorageBackend m sp tp in
                  if negb (is_empty msg) then transitionToFailed m msg
                  else
                    s ← validate_storage m sp tp;
                    match s with
                    | inl res => Ret res
                    | inr m => power_gate m
                    end
            end
        end
  end.

(** ** Snapshotting *)
Definition snapshot_complete (m : VMMigration) (event : string) : KM migration_result :=
  m ← set_condition m VMMigrationConditionSnapshotting ConditionTrue "SnapshotComplete"
        "Source VM snapshot created";
  _ ← kdo (Event "Normal" "SnapshotComplete" event);
  save_and_return m requeue_now.

Definition create_snapshot (m : VMMigration) (vm : VirtualMachine) (i : ProviderInstance)
    : KM migration_result :=
  match uid_prefix (meta_UID (mig_meta m)) with
  | None => Crash "slice bounds out of range"
  | Some uid =>
      let snapshotName :=
        lref_Name (ms_VMRef (mig_Source (mig_Spec m))) +:+ "-migration-" +:+ uid in
      resp ← kdo (SnapshotCreate i
                    (mkSnapshotCreateRequest (status_ID (vm_Status vm)) snapshotName
                       ("Migration snapshot for " +:+ mig_Name m) false false));
      match resp with
      | Err err => transitionToFailed m (errorf "Failed to create snapshot" err)
      | Ok resp =>
          let id := snap_SnapshotId resp in
          let m := with_status m (fun s => s <| mig_SnapshotID := id |>
                                             <| mig_Message := "Snapshot " +:+ id +:+ " created" |>) in
          let task := match snap_Task resp with Some t => task_ID t | None => "" end in
          if negb (is_empty task) then
            save_and_return (with_status m (fun s => s <| mig_TaskRef := task |>))
              (requeue_after (10 * second))
          else
            let m := with_status (set_phase m MigrationPhaseExporting "Snapshot created, starting export")
                       (fun s => s <| mig_TaskRef := "" |>) in
            snapshot_complete m ("Snapshot " +:+ id +:+ " created")
      end
  end.

Definition handleSnapshottingPhase (m : VMMigration) : KM migration_result :=
  vm ← getSourceVM m;
  match vm with
  | Err err => transitionToFailed m (errorf "Failed to get source VM" err)
  | Ok vm =>
      match ms_SnapshotRef (mig_Source (mig_Spec m)) with
      | Some ref =>
          let m := with_status m (fun s => s <| mig_SnapshotID := lref_Name ref |>) in
          let m := set_phase m MigrationPhaseExporting ("Using existing snapshot " +:+ lref_Name ref) in
          m ← set_condition m VMMigrationConditionSnapshotting ConditionTrue "SnapshotSelected"
                "Using existing snapshot";
          save_and_return m requeue_now
      | None =>
          p ← getProvider (sourceProviderRef m vm) (mig_Namespace m);
          match p with
          | Err err => transitionToFailed m (errorf "Failed to get source provider" err)
          | Ok p =>
              i ← getProviderInstance p;
              match i with
              | Err err => transitionToFailed m (errorf "Failed to get provider instance" err)
              | Ok i =>
                  if negb (is_empty (mig_SnapshotID (mig_Status m))) then
                    snapshot_complete (set_phase m MigrationPhaseExporting "Snapshot ready, starting export")
                      "Source VM snapshot created"
                  else create_snapshot m vm i
              end
          end
      end
  end.

(** ** Exporting *)

(** Whether the long operation [op] was already issued, by its identifier in the
    status, its condition, or the in-memory marker, in this order. *)
Definition long_op_issued (m : VMMigration) (op : migrationLongOp) (id conditionType : string) : KM bool :=
  if negb (is_empty id) || IsConditionTrue (mig_Conditions (mig_Status m)) conditionType then Ret true
  else longOpAlreadyStarted m op.

(** Look at the task of an issued operation: the handler returns early unless
    there is none or it has ended without an error. *)
Definition check_long_task (m : VMMigration) (i : ProviderInstance) (name Name : string)
    : KM (migration_result + unit) :=
  let taskRef := mig_TaskRef (mig_Status m) in
  if is_empty taskRef then Ret (inr tt)
  else
    done ← kdo (IsTaskComplete i taskRef);
    match done with
    | Err _ | Ok false => Ret (inl (requeue_after (30 * second), None))
    | Ok true =>
        st ← kdo (TaskStatus i taskRef);
        match st with
        | Err err =>
            res ← transitionToFailed m (errorf ("Failed to get " +:+ name +:+ " task status") err);
            Ret (inl res)
        | Ok st =>
            if is_empty (ts_Error st) then Ret (inr tt)
            else
              res ← transitionToFailed m (Name +:+ " failed: " +:+ ts_Error st);
              Ret (inl res)
        end
    end.

(** The disk is exported, or imported: the next phase. *)
Definition export_complete (m : VMMigration) (event : string) (res : Result) : KM migration_result :=
  let m := with_status (set_phase m MigrationPhaseImporting "Disk exported successfully")
             (fun s => s <| mig_TaskRef := "" |>) in
  m ← set_condition m VMMigrationConditionExporting ConditionTrue "ExportComplete" "Source VM disk exported";
  _ ← kdo (Event "Normal" "ExportComplete" event);
  save_and_return m res.

Definition import_complete (m : VMMigration) (event : string) (res : Result) : KM migration_result :=
  let m := with_status (set_phase m MigrationPhaseCreating "Disk imported, creating target VM")
             (fun s => s <| mig_TaskRef := "" |>) in
  m ← set_condition m VMMigrationConditionImporting ConditionTrue "ImportComplete"
        "Disk imported to target provider";
  _ ← kdo (Event "Normal" "ImportComplete" event);
  save_and_return m res.

Definition export_request (m : VMMigration) (vm : VirtualMachine) (url opts : string)
    (creds : gmap string string) : ExportDiskRequest :=
  mkExportDiskRequest (status_ID (vm_Status vm)) "" (mig_SnapshotID (mig_Status m)) url (disk_format m)
    (match mig_Options (mig_Spec m) with Some o => mo_Compress o | None => false end)
    creds (migrationBackendType m) (resolveTransferMode m) opts.

Definition record_export (m : VMMigration) (req : ExportDiskRequest) (resp : ExportDiskResponse) : VMMigration :=
  with_status m (fun s =>
    s <| mig_ExportID := exp_ExportId resp |>
      <| mig_Message := "Exporting disk (estimated size: " +:+ FormatInt (exp_EstimatedSizeBytes resp)
                        +:+ " bytes)" |>
      <| mig_DiskInfo := Some (deref no_disk_info (mig_DiskInfo s)
           <| di_SourceDiskID := exp_DiskId req |>
           <| di_SourceFormat := disk_format m |>
           <| di_SourceChecksum := exp_Checksum resp |>) |>).

(** From the claim of the guard on. *)
Definition issue_export (m : VMMigration) (i : ProviderInstance) (req : ExportDiskRequest)
    : KM migration_result :=
  claimed ← markLongOpStarted m longOpExport;
  if negb claimed then Ret (requeue_after (30 * second), None)
  else
    resp ← kdo (ExportDisk i req);
    match resp with
    | Err err =>
        _ ← kdo (MapDelete (longOpKey m longOpExport));
        transitionToFailed m (errorf "Failed to start disk export" err)
    | Ok resp =>
        let m := record_export m req resp in
        if negb (is_empty (exp_TaskRef resp)) then
          save_and_return (with_status m (fun s => s <| mig_TaskRef := exp_TaskRef resp |>))
            (requeue_after (30 * second))
        else export_complete m ("Disk exported to " +:+ exp_DestinationURL req) no_result
    end.

(** The request is built, and the source provider may export disks. *)
Definition start_export (m : VMMigration) (vm : VirtualMachine) (i : ProviderInstance)
    : KM migration_result :=
  match generateStorageURL m "export" with
  | Err err => transitionToFailed m (errorf "Failed to generate storage URL" err)
  | Ok url =>
      match storageOptionsJSON m with
      | Err err => transitionToFailed m (errorf "Failed to build storage options" err)
      | Ok opts =>
          creds ← loadS3Credentials m;
          match creds with
          | Err err => transitionToFailed m (errorf "Failed to load storage credentials" err)
          | Ok creds =>
              blocked ← gateProviderCapability r m i SupportsDiskExport
                          "Source provider does not support disk export";
              match blocked with
              | Some res => Ret (res, None)
              | None => issue_export m i (export_request m vm url opts creds)
              end
          end
      end
  end.

Definition handleExportingPhase (m : VMMigration) : KM migration_result :=
  vm ← getSourceVM m;
  match vm with
  | Err err => transitionToFailed m (errorf "Failed to get source VM" err)
  | Ok vm =>
      p ← getProvider (sourceProviderRef m vm) (mig_Namespace m);
      match p with
      | Err err => transitionToFailed m (errorf "Failed to get source provider" err)
      | Ok p =>
          i ← getProviderInstance p;
          match i with
          | Err err => transitionToFailed m (errorf "Failed to get provider instance" err)
          | Ok i =>
              issued ← long_op_issued m longOpExport (mig_ExportID (mig_Status m)) VMMigrationConditionExporting;
              if issued : bool then
                checked ← check_long_task m i "export" "Export";
                match checked with
                | inl res => Ret res
                | inr _ => export_complete m "Disk exported successfully" no_result
                end
              else start_export m vm i
          end
      end
  end.

Definition handleTransferringPhase (m : VMMigration) : KM migration_result :=
  let m := set_phase m MigrationPhaseImporting "Transfer complete, starting import" in
  m ← set_condition m VMMigrationConditionTransferring ConditionTrue "TransferComplete"
        "Disk transfer completed";
  _ ← kdo (Event "Normal" "TransferComplete" "Disk transfer completed");
  save_and_return m requeue_now.

Definition handleConvertingPhase (m : VMMigration) : KM migration_result :=
  let m := set_phase m MigrationPhaseImporting "Conversion complete, starting import" in
  _ ← kdo (Event "Normal" "ConversionComplete" "Disk format conversion completed");
  save_and_return m requeue_now.

(** ** Importing *)
Definition import_format (m : VMMigration) : KM (res string) :=
  if bool_decide (migrationBackendType m = BackendS3) then
    sp ← getSourceProvider m;
    match sp with
    | Err err => Ret (Err err)
    | Ok sp => Ret (Ok (stagedImportFormat sp))
    end
  else if bool_decide (migrationBackendType m = BackendNFS) then Ret (Ok diskFormatQcow2)
  else Ret (Ok (disk_format m)).

Definition import_request (m : VMMigration) (format url opts : string) (creds : gmap string string)
    : ImportDiskRequest :=
  mkImportDiskRequest url "" format (mt_Name (mig_Target (mig_Spec m)) +:+ "-migrated")
    (match mig_Options (mig_Spec m) with Some o => mo_VerifyChecksums o | None => true end)
    (match mig_DiskInfo (mig_Status m) with Some d => di_SourceChecksum d | None => "" end)
    creds (migrationBackendType m) (resolveTransferMode m) opts.

Definition record_import (m : VMMigration) (target : Provider) (resp : ImportDiskResponse) : VMMigration :=
  with_status m (fun s =>
    s <| mig_ImportID := imp_DiskId resp |>
      <| mig_Message := "Importing disk (size: " +:+ FormatInt (imp_ActualSizeBytes resp) +:+ " bytes)" |>
      <| mig_DiskInfo := Some (deref no_disk_info (mig_DiskInfo s)
           <| di_TargetDiskID := imp_DiskId resp |>
           <| di_TargetFormat := landedTargetFormat target |>
           <| di_TargetPath := imp_Path resp |>
           <| di_TargetChecksum := imp_Checksum resp |>) |>).

Definition issue_import (m : VMMigration) (target : Provider) (i : ProviderInstance)
    (req : ImportDiskRequest) : KM migration_result :=
  claimed ← markLongOpStarted m longOpImport;
  if negb claimed then Ret (requeue_after (30 * second), None)
  else
    resp ← kdo (ImportDisk i req);
    match resp with
    | Err err =>
        _ ← kdo (MapDelete (longOpKey m longOpImport));
        transitionToFailed m (errorf "Failed to start disk import" err)
    | Ok resp =>
        let m := record_import m target resp in
        if negb (is_empty (imp_TaskRef resp)) then
          save_and_return (with_status m (fun s => s <| mig_TaskRef := imp_TaskRef resp |>))
            (requeue_after (30 * second))
        else import_complete m ("Disk imported as " +:+ imp_DiskId resp)
               (requeue_after migrationImportSettleInterval)
    end.

Definition start_import (m : VMMigration) (target : Provider) (i : ProviderInstance)
    : KM migration_result :=
  match generateStorageURL m "export" with
  | Err err => transitionToFailed m (errorf "Failed to generate source URL" err)
  | Ok url =>
      match storageOptionsJSON m with
      | Err err => transitionToFailed m (errorf "Failed to build storage options" err)
      | Ok opts =>
          creds ← loadS3Credentials m;
          match creds with
          | Err err => transitionToFailed m (errorf "Failed to load storage credentials" err)
          | Ok creds =>
              format ← import_format m;
              match format with
              | Err err => transitionToFailed m (errorf "Failed to get source provider" err)
              | Ok format =>
                  blocked ← gateProviderCapability r m i SupportsDiskImport
                              "Target provider does not support disk import";
                  match blocked with
                  | Some res => Ret (res, None)
                  | None => issue_import m target i (import_request m format url opts creds)
                  end
              end
          end
      end
  end.

Definition handleImportingPhase (m : VMMigration) : KM migration_result :=
  tp ← getProvider (mt_ProviderRef (mig_Target (mig_Spec m))) (mig_Namespace m);
  match tp with
  | Err err => transitionToFailed m (errorf "Failed to get target provider" err)
  | Ok tp =>
      i ← getProviderInstance tp;
      match i with
      | Err err => transitionToFailed m (errorf "Failed to get target provider instance" err)
      | Ok i =>
          issued ← long_op_issued m longOpImport (mig_ImportID (mig_Status m)) VMMigrationConditionImporting;
          if issued : bool then
            checked ← check_long_task m i "import" "Import";
            match checked with
            | inl res => Ret res
            | inr _ => import_complete m "Disk imported successfully" no_result
            end
          else start_import m tp i
      end
  end.

(** ** Creating and validating the target *)
Definition handleCreatingPhase (m : VMMigration) : KM migration_result :=
  existing ← kdo (KGet KVirtualMachine (targetVMKey m));
  match existing with
  | Ok vm =>
      if negb (is_empty (status_ID (vm_Status vm)))
         && IsConditionTrue (status_Conditions (vm_Status vm)) "Ready" then
        let m := with_status m (fun s => s <| mig_TargetVMID := status_ID (vm_Status vm) |>) in
        save_and_return (set_phase m MigrationPhaseValidatingTarget "Target VM ready, validating") requeue_now
      else Ret (requeue_after (30 * second), None)
  | Err err =>
      if negb (api_IsNotFound err) then transitionToFailed m (errorf "Failed to check target VM" err)
      else
        match mig_DiskInfo (mig_Status m) with
        | None =>
            transitionToFailed m
              "import did not record disk info (status.diskInfo is nil); cannot create target VM"
        | Some disk =>
            e ← kdo (KCreate KVirtualMachine (target_VM m disk));
            match e with
            | Some err => transitionToFailed m (errorf "Failed to create target VM" err)
            | None =>
                _ ← kdo (Event "Normal" "TargetVMCreated" ("Created target VM " +:+ targetVMName m));
                save_and_return
                  (set_message m ("Target VM " +:+ targetVMName m +:+ " created, waiting for provisioning"))
                  (requeue_after (10 * second))
            end
        end
  end.

Definition migration_completed_annotation : string := "virtrigaud.io/migration-completed".

(** Mark the VM so that deleting the migration keeps it. *)
Definition mark_completed (vm : VirtualMachine) (at_ : string) : VirtualMachine :=
  vm <| vm_meta := vm_meta vm
          <| meta_Annotations :=
               <["virtrigaud.io/migration-completed-at" := at_]>
                 (<[migration_completed_annotation := "true"]> (meta_Annotations (vm_meta vm))) |> |>.

Definition handleValidatingTargetPhase (m : VMMigration) : KM migration_result :=
  vm ← kdo (KGet KVirtualMachine (targetVMKey m));
  match vm with
  | Err err => transitionToFailed m (errorf "Failed to get target VM" err)
  | Ok vm =>
      if negb (IsConditionTrue (status_Conditions (vm_Status vm)) "Ready") then
        save_and_return
          (set_message m ("Waiting for target VM to be ready (current Ready condition: "
                          +:+ ready_status vm +:+ ")"))
          (requeue_after (30 * second))
      else
        let m := with_status m (fun s => s <| mig_TargetVMID := status_ID (vm_Status vm) |>) in
        let m := set_phase m MigrationPhaseReady "Migration completed successfully" in
        now ← kdo TimeNow;
        let m := with_status m (fun s => s <| mig_CompletionTime := Some now |>) in
        m ← set_condition m VMMigrationConditionReady ConditionTrue "MigrationComplete"
              "VM migration completed successfully";
        _ ← kdo (Event "Normal" "MigrationComplete"
                   ("VM migrated successfully to " +:+ targetNamespace m +:+ "/" +:+ targetVMName m));
        now ← kdo TimeNow;
        _ ← kdo (KUpdate KVirtualMachine (mark_completed vm (FormatRFC3339 now)));
        save_and_return m no_result
  end.

(** ** Ready: clean-up *)
Definition cleaned_up (m : VMMigration) : bool :=
  match mig_StorageInfo (mig_Status m) with Some i => si_CleanedUp i | None => false end.

(** A stage of the clean-up: [None] when it failed and is to be retried,
    otherwise whether it did something, and the migration. *)
Definition ready_storage (m : VMMigration) : KM (option bool) :=
  match mig_Storage (mig_Spec m) with
  | None => Ret (Some false)
  | Some _ =>
      e ← cleanupIntermediateStorage m;
      Ret match e with Some _ => None | None => Some true end
  end.

Definition ready_snapshot (m : VMMigration) : KM (option (bool * VMMigration)) :=
  if owns_snapshot m then
    d ← deleteSourceSnapshot m;
    Ret match d.1 with Some _ => None | None => Some (true, d.2) end
  else Ret (Some (false, m)).

Definition ready_artifacts (m : VMMigration) : KM (option (bool * VMMigration)) :=
  if cleanupAllowed m then
    s ← ready_storage m;
    match s with
    | None => Ret None
    | Some performed =>
        d ← ready_snapshot m;
        Ret match d with Some (performed', m) => Some (performed || performed', m) | None => None end
    end
  else Ret (Some (false, m)).

Definition ready_source (m : VMMigration) : KM (option bool) :=
  if ms_DeleteAfterMigration (mig_Source (mig_Spec m)) then
    e ← deleteSourceVM m;
    Ret match e with Some _ => None | None => Some true end
  else Ret (Some false).

Definition ready_done (m : VMMigration) : KM migration_result :=
  let m := with_status m (fun s => s <| mig_StorageInfo := Some (mkMigrationStorageInfo true) |>) in
  u ← updateStatus (set_message m "Migration completed, cleanup finished");
  match u.1 with
  | Some err => Ret (no_result, Some err)
  | None =>
      _ ← kdo (Event "Normal" "CleanupComplete" "Post-migration cleanup completed");
      Ret (no_result, None)
  end.

Definition handleReadyPhase (m : VMMigration) : KM migration_result :=
  if cleaned_up m then Ret (no_result, None)
  else
    a ← ready_artifacts m;
    match a with
    | None => Ret (requeue_after (5 * minute), None)
    | Some (performed, m) =>
        d ← ready_source m;
        match d with
        | None => Ret (requeue_after (5 * minute), None)
        | Some performed' => if performed || performed' then ready_done m else Ret (no_result, None)
        end
    end.

(** ** Failed: retries *)
Definition perform_retry (m : VMMigration) (p : MigrationRetryPolicy) (now : time) : KM migration_result :=
  let count := to_int32 (mig_RetryCount (mig_Status m) + 1) in
  let msg := "Retrying migration (attempt " +:+ FormatInt count +:+ "/" +:+ FormatInt (maxRetries p) +:+ ")" in
  let m := with_status m (fun s => s <| mig_RetryCount := count |> <| mig_LastRetryTime := Some now |>) in
  let m := with_status (set_phase m MigrationPhasePending msg) (fun s => s <| mig_TaskRef := "" |>) in
  m ← set_condition m VMMigrationConditionFailed ConditionFalse "Retrying" msg;
  _ ← kdo (Event "Normal" "RetryingMigration" msg);
  save_and_return m requeue_now.

Definition handleFailedPhase (m : VMMigration) : KM migration_result :=
  match retryPolicy m with
  | None => _ ← cleanupSnapshotOnTerminalFailure m; Ret (no_result, None)
  | Some p =>
      let count := mig_RetryCount (mig_Status m) in
      if maxRetries p <=? count then
        let m := set_message m ("Migration failed after " +:+ FormatInt count +:+ " retries: "
                                +:+ mig_Message (mig_Status m)) in
        m ← cleanupSnapshotOnTerminalFailure m;
        save_and_return m no_result
      else
        let delay := retryDelay p count in
        now ← kdo TimeNow;
        match mig_LastRetryTime (mig_Status m) with
        | Some last =>
            if Time_Sub now last <? delay
            then Ret (requeue_after (to_int64 (delay - Time_Sub now last)), None)
            else perform_retry m p now
        | None => perform_retry m p now
        end
  end.

(** ** Deletion *)

(** The stages of the clean-up return the number of errors they met. *)
Definition count_error (e : option goerror) : nat := match e with Some _ => 1 | None => 0 end.

Definition delete_storage (m : VMMigration) : KM nat :=
  match mig_Storage (mig_Spec m) with
  | Some _ =>
      if cleaned_up m then Ret 0%nat
      else e ← cleanupIntermediateStorage m; Ret (count_error e)
  | None => Ret 0%nat
  end.

Definition delete_claim (m : VMMigration) : KM nat :=
  let name := mig_StoragePVCName (mig_Status m) in
  if is_empty name then Ret 0%nat
  else
    pvc ← kdo (KGet KPVC (mkKey (mig_Namespace m) name));
    match pvc with
    | Ok pvc =>
        e ← kdo (KDelete KPVC pvc);
        Ret match e with Some err => if api_IsNotFound err then 0%nat else 1%nat | None => 0%nat end
    | Err err => Ret (if api_IsNotFound err then 0%nat else 1%nat)
    end.

Definition delete_snapshot (m : VMMigration) : KM (nat * VMMigration) :=
  if cleanupAllowed m && owns_snapshot m then
    d ← deleteSourceSnapshot m; Ret (count_error d.1, d.2)
  else Ret (0%nat, m).

(** The VM is the one this migration made, and is not marked as completed. *)
Definition partial_target (m : VMMigration) (vm : VirtualMachine) : bool :=
  let annotations := meta_Annotations (vm_meta vm) in
  negb (bool_decide (annotations !! migration_completed_annotation = Some "true"))
  && bool_decide (annotations !! "virtrigaud.io/migration" = Some (mig_Namespace m +:+ "/" +:+ mig_Name m)).

Definition delete_target (m : VMMigration) : KM nat :=
  if bool_decide (mig_Phase (mig_Status m) = MigrationPhaseFailed)
     || bool_decide (mig_Phase (mig_Status m) = MigrationPhaseCreating) then
    vm ← kdo (KGet KVirtualMachine (targetVMKey m));
    match vm with
    | Err _ => Ret 0%nat
    | Ok vm =>
        if partial_target m vm then e ← kdo (KDelete KVirtualMachine vm); Ret (count_error e)
        else Ret 0%nat
    end
  else Ret 0%nat.

Definition remove_finalizer (m : VMMigration) : KM migration_result :=
  e ← kdo (KUpdate KVMMigration
             (m <| mig_meta := mig_meta m
                     <| meta_Finalizers := RemoveFinalizer (meta_Finalizers (mig_meta m)) migrationFinalizer |> |>));
  Ret (no_result, e).

Definition handleDeletion (m : VMMigration) : KM migration_result :=
  e1 ← delete_storage m;
  e2 ← delete_claim m;
  d ← delete_snapshot m;
  let m := d.2 in
  e4 ← delete_target m;
  let errors := (e1 + e2 + d.1 + e4)%nat in
  _ ← (if (0 <? errors)%nat then
         kdo (Event "Warning" "CleanupErrors"
                ("Cleanup completed with " +:+ FormatInt (Z.of_nat errors) +:+ " errors"))
       else Ret tt);
  remove_finalizer m.

(** ** Reconcile *)
Definition handle_phase (m : VMMigration) : KM migration_result :=
  match mig_Phase (mig_Status m) with
  | MigrationPhasePending => handlePendingPhase m
  | MigrationPhaseValidating => handleValidatingPhase m
  | MigrationPhaseSnapshotting => handleSnapshottingPhase m
  | MigrationPhaseExporting => handleExportingPhase m
  | MigrationPhaseTransferring => handleTransferringPhase m
  | MigrationPhaseConverting => handleConvertingPhase m
  | MigrationPhaseImporting => handleImportingPhase m
  | MigrationPhaseCreating => handleCreatingPhase m
  | MigrationPhaseValidatingTarget => handleValidatingTargetPhase m
  | MigrationPhaseReady => handleReadyPhase m
  | MigrationPhaseFailed => handleFailedPhase m
  | MigrationPhaseUnset | MigrationPhaseOther _ => Ret (requeue_after (30 * second), None)
  end.

Definition initialize (m : VMMigration) : KM migration_result :=
  now ← kdo TimeNow;
  save_and_return
    (with_status m (fun s => s <| mig_Phase := MigrationPhasePending |> <| mig_StartTime := Some now |>))
    requeue_now.

Definition add_finalizer (m : VMMigration) : KM migration_result :=
  e ← kdo (KUpdate KVMMigration
             (m <| mig_meta := mig_meta m
                     <| meta_Finalizers := AddFinalizer (meta_Finalizers (mig_meta m)) migrationFinalizer |> |>));
  match e with
  | Some err => _ ← kdo (CountError "add-finalizer"); Ret (no_result, Some err)
  | None => Ret (requeue_now, None)
  end.

(** The reconcile of a migration that was read. *)
Definition reconcile_migration (m : VMMigration) : KM migration_result :=
  match meta_DeletionTimestamp (mig_meta m) with
  | Some _ => handleDeletion m
  | None =>
      if negb (ContainsFinalizer (meta_Finalizers (mig_meta m)) migrationFinalizer) then add_finalizer m
      else if bool_decide (mig_Phase (mig_Status m) = MigrationPhaseUnset) then initialize m
      else if bool_decide (mig_Phase (mig_Status m) = MigrationPhaseFailed) && permanently_failed m then
        Ret (no_result, None)
      else handle_phase m
  end.

Definition Migration_Reconcile (key : NamespacedName) : KM migration_result :=
  got ← kdo (KGet KVMMigration key);
  match got with
  | Err err =>
      if api_IsNotFound err then Ret (no_result, None)
      else _ ← kdo (CountError errReasonGetMigration); Ret (no_result, Some err)
  | Ok m => reconcile_migration m
  end.
End Migration.
