(* ===== verification/MigrationSpec.v ===== *)
(** * MigrationSpec: what the migration controller is allowed to do

    An abstract specification of the VMMigration controller: a state machine on
    the migration's status ([status_step]) and, for every call that changes
    something, the rule under which it may be made ([allowed]).  A rule speaks
    of the migration [m] that the reconcile read and of the calls [h] it has made
    so far.  [reconcile_conforms] shows that the controller follows the rules. *)
From S2P Require Import Prelude Contracts K8s Api Effects GoLib NetIP GrpcClient CoreApi MigrationApi Cluster Storage StorageProps TraceSpec MigrationHelpers Migration.
From stdpp Require Import base gmap strings list.
From Stdlib Require Import ZArith Lia.
Import v1beta1.
#[local] Open Scope Z_scope.

Definition sourceKey (m : VMMigration) : NamespacedName :=
  mkKey (mig_Namespace m) (lref_Name (ms_VMRef (mig_Source (mig_Spec m)))).

Definition live (m : VMMigration) : Prop := meta_DeletionTimestamp (mig_meta m) = None.
Definition phase_of (m : VMMigration) : MigrationPhase := mig_Phase (mig_Status m).
Definition in_phase (m : VMMigration) (p : MigrationPhase) : Prop := live m /\ phase_of m = p.

Definition stopped (vm : VirtualMachine) : VirtualMachine :=
  vm <| vm_Spec := vm_Spec vm <| spec_PowerState := PowerStateOff |> |>.
Definition vm_ready (vm : VirtualMachine) : bool :=
  IsConditionTrue (status_Conditions (vm_Status vm)) "Ready".

(** ** Evidence in the history *)
Section Evidence.
Context (m : VMMigration) (h : ktrace).

Definition read_source (vm : VirtualMachine) : Prop :=
  kev (KGet KVirtualMachine (sourceKey m)) (Ok vm) ∈ h.
Definition read_target (vm : VirtualMachine) : Prop :=
  kev (KGet KVirtualMachine (targetVMKey m)) (Ok vm) ∈ h.

(** The metadata and spec the handler works with: those it read, or those it
    read again after a conflicting status update. *)
Definition view (m1 : VMMigration) : Prop :=
  (mig_meta m1 = mig_meta m /\ mig_Spec m1 = mig_Spec m)
  \/ exists key fresh, kev (KGet KVMMigration key) (Ok fresh) ∈ h
       /\ mig_meta m1 = mig_meta fresh /\ mig_Spec m1 = mig_Spec fresh.

(** The source was described as off, and is meant to stay so. *)
Definition source_stopped : Prop :=
  exists vm i desc, read_source vm
    /\ kev (Describe i (status_ID (vm_Status vm))) (Ok desc) ∈ h
    /\ desc_PowerState desc = Contracts.PowerStateOff
    /\ (spec_PowerState (vm_Spec vm) = PowerStateOff
        \/ kev (KPatch KVirtualMachine (stopped vm)) None ∈ h).

(** A ready pod of the provider had the claim mounted. *)
Definition mount_seen (p : Provider) (pvcName : string) : Prop :=
  provider_Namespace p = mig_Namespace m
  /\ exists labels pods,
    kev (KListPods (provider_Namespace p) labels) (Ok pods) ∈ h /\ existsb (pod_mounts pvcName) pods = true.

(** The two providers of the migration were read and are ready. *)
Definition read_providers (source target : Provider) : Prop :=
  (exists vm, read_source vm /\ status_ID (vm_Status vm) <> ""
     /\ exists key, kev (KGet KProvider key) (Ok source) ∈ h /\ key_Name key = ref_Name (sourceProviderRef m vm))
  /\ (exists key, kev (KGet KProvider key) (Ok target) ∈ h
        /\ key_Name key = ref_Name (mt_ProviderRef (mig_Target (mig_Spec m))))
  /\ isProviderReady source = true /\ isProviderReady target = true.
End Evidence.

(** ** The state machine *)
Definition waiting_phases : list MigrationPhase :=
  [MigrationPhaseValidating; MigrationPhaseSnapshotting; MigrationPhaseCreating;
   MigrationPhaseValidatingTarget; MigrationPhaseReady].
Definition failing_phases : list MigrationPhase :=
  [MigrationPhaseValidating; MigrationPhaseSnapshotting; MigrationPhaseExporting;
   MigrationPhaseImporting; MigrationPhaseCreating; MigrationPhaseValidatingTarget].

(** What the phases pass on to one another, and the retry count. *)
Definition transfer_state (s : VMMigrationStatus) : string * string * option MigrationDiskInfo :=
  (mig_ExportID s, mig_ImportID s, mig_DiskInfo s).
Definition kept (s s' : VMMigrationStatus) : Prop :=
  mig_RetryCount s' = mig_RetryCount s /\ transfer_state s' = transfer_state s.

Definition export_recorded (s : VMMigrationStatus) (resp : ExportDiskResponse) (s' : VMMigrationStatus) : Prop :=
  mig_RetryCount s' = mig_RetryCount s /\ mig_ImportID s' = mig_ImportID s
  /\ mig_ExportID s' = exp_ExportId resp
  /\ exists d, mig_DiskInfo s' = Some d /\ di_SourceChecksum d = exp_Checksum resp.

Definition import_recorded (s : VMMigrationStatus) (format : string) (resp : ImportDiskResponse)
    (s' : VMMigrationStatus) : Prop :=
  mig_RetryCount s' = mig_RetryCount s /\ mig_ExportID s' = mig_ExportID s
  /\ mig_ImportID s' = imp_DiskId resp
  /\ exists d, mig_DiskInfo s' = Some d /\ di_TargetPath d = imp_Path resp /\ di_TargetFormat d = format
     /\ di_TargetChecksum d = imp_Checksum resp.

(** The operation was issued before this reconcile, as the status or the
    in-memory marker shows, and the task of the status, if any, succeeded. *)
Definition issued_before (m : VMMigration) (h : ktrace) (op : migrationLongOp) (id cond : string) : Prop :=
  (id <> "" \/ IsConditionTrue (mig_Conditions (mig_Status m)) cond = true
   \/ kev (MapLoad (longOpKey m op)) true ∈ h)
  /\ (mig_TaskRef (mig_Status m) = ""
      \/ exists i st, kev (IsTaskComplete i (mig_TaskRef (mig_Status m))) (Ok true) ∈ h
           /\ kev (TaskStatus i (mig_TaskRef (mig_Status m))) (Ok st) ∈ h /\ ts_Error st = "").

Section Rules.
Context `{Lib : Libraries} `{CLib : ClusterLibraries} `{Codec : OptionsCodec}.
Context (r : VMMigrationReconciler) (m : VMMigration).

(** The storage of the migration passed the checks of its backend. *)
Definition storage_checked (h : ktrace) (source target : Provider) (s : VMMigrationStatus) : Prop :=
  gateMigrationStorageBackend m source target = "" /\
  match mig_Storage (mig_Spec m) with
  | None => True
  | Some st =>
      let backend := migrationBackendType m in
      if bool_decide (backend = BackendS3) then
        exists s3, mst_S3 st = Some s3
          /\ let host := hostFromS3Endpoint (s3c_Endpoint s3) in
             host_permitted (storageHostPolicy r) (if is_empty host then "s3.amazonaws.com" else host) h
      else if bool_decide (backend = BackendNFS) then
        exists nfs, mst_NFS st = Some nfs /\ host_permitted (storageHostPolicy r) (nfsc_Server nfs) h
      else
        mig_StoragePVCName s <> ""
        /\ exists pvcName, mount_seen m h source pvcName /\ mount_seen m h target pvcName
             /\ (mig_StoragePVCName (mig_Status m) = "" -> mig_StoragePVCName s = pvcName)
  end.

Inductive status_step (h : ktrace) (s' : VMMigrationStatus) : Prop :=
  | step_initialize :
      phase_of m = MigrationPhaseUnset -> mig_Phase s' = MigrationPhasePending ->
      kept (mig_Status m) s' -> status_step h s'
  | step_validate :
      phase_of m = MigrationPhasePending -> mig_Phase s' = MigrationPhaseValidating ->
      kept (mig_Status m) s' -> status_step h s'
  | step_wait :
      phase_of m ∈ waiting_phases -> mig_Phase s' = phase_of m ->
      kept (mig_Status m) s' -> status_step h s'
  | step_validated source target m1 :
      phase_of m = MigrationPhaseValidating -> view m h m1 ->
      mig_Phase s' = (if ms_CreateSnapshot (mig_Source (mig_Spec m1))
                      then MigrationPhaseSnapshotting else MigrationPhaseExporting) ->
      read_providers m h source target ->
      storage_checked h source target s' ->
      (ms_PowerOffBeforeMigration (mig_Source (mig_Spec m1)) = true -> source_stopped m1 h) ->
      kept (mig_Status m) s' -> status_step h s'
  | step_snapshotted :
      phase_of m = MigrationPhaseSnapshotting -> mig_Phase s' = MigrationPhaseExporting ->
      ((exists ref, ms_SnapshotRef (mig_Source (mig_Spec m)) = Some ref /\ mig_SnapshotID s' = lref_Name ref)
       \/ (mig_SnapshotID (mig_Status m) <> "" /\ mig_SnapshotID s' = mig_SnapshotID (mig_Status m))
       \/ (exists i req resp, kev (SnapshotCreate i req) (Ok resp) ∈ h /\ mig_SnapshotID s' = snap_SnapshotId resp)) ->
      kept (mig_Status m) s' -> status_step h s'
  | step_export_running i req resp :
      phase_of m = MigrationPhaseExporting -> mig_Phase s' = MigrationPhaseExporting ->
      kev (ExportDisk i req) (Ok resp) ∈ h -> mig_TaskRef s' = exp_TaskRef resp -> exp_TaskRef resp <> "" ->
      export_recorded (mig_Status m) resp s' -> status_step h s'
  | step_exported i req resp :
      phase_of m = MigrationPhaseExporting -> mig_Phase s' = MigrationPhaseImporting ->
      kev (ExportDisk i req) (Ok resp) ∈ h -> exp_TaskRef resp = "" ->
      export_recorded (mig_Status m) resp s' -> status_step h s'
  | step_export_found :
      phase_of m = MigrationPhaseExporting -> mig_Phase s' = MigrationPhaseImporting ->
      issued_before m h longOpExport (mig_ExportID (mig_Status m)) VMMigrationConditionExporting ->
      kept (mig_Status m) s' -> status_step h s'
  | step_skip :
      phase_of m = MigrationPhaseTransferring \/ phase_of m = MigrationPhaseConverting ->
      mig_Phase s' = MigrationPhaseImporting -> kept (mig_Status m) s' -> status_step h s'
  | step_import_running i req resp target :
      phase_of m = MigrationPhaseImporting -> mig_Phase s' = MigrationPhaseImporting ->
      kev (ImportDisk i req) (Ok resp) ∈ h -> mig_TaskRef s' = imp_TaskRef resp -> imp_TaskRef resp <> "" ->
      import_recorded (mig_Status m) (landedTargetFormat target) resp s' -> status_step h s'
  | step_imported i req resp target :
      phase_of m = MigrationPhaseImporting -> mig_Phase s' = MigrationPhaseCreating ->
      kev (ImportDisk i req) (Ok resp) ∈ h -> imp_TaskRef resp = "" ->
      import_recorded (mig_Status m) (landedTargetFormat target) resp s' -> status_step h s'
  | step_import_found :
      phase_of m = MigrationPhaseImporting -> mig_Phase s' = MigrationPhaseCreating ->
      issued_before m h longOpImport (mig_ImportID (mig_Status m)) VMMigrationConditionImporting ->
      kept (mig_Status m) s' -> status_step h s'
  | step_created vm :
      phase_of m = MigrationPhaseCreating -> mig_Phase s' = MigrationPhaseValidatingTarget ->
      read_target m h vm -> vm_ready vm = true -> status_ID (vm_Status vm) <> "" ->
      mig_TargetVMID s' = status_ID (vm_Status vm) ->
      kept (mig_Status m) s' -> status_step h s'
  | step_ready vm at_ :
      phase_of m = MigrationPhaseValidatingTarget -> mig_Phase s' = MigrationPhaseReady ->
      read_target m h vm -> vm_ready vm = true -> mig_TargetVMID s' = status_ID (vm_Status vm) ->
      (exists e, kev (KUpdate KVirtualMachine (mark_completed vm at_)) e ∈ h) ->
      kept (mig_Status m) s' -> status_step h s'
  | step_fail :
      phase_of m ∈ failing_phases -> mig_Phase s' = MigrationPhaseFailed ->
      is_Some (mig_CompletionTime s') ->
      IsConditionTrue (mig_Conditions s') VMMigrationConditionFailed = true ->
      kept (mig_Status m) s' -> status_step h s'
  | step_retry p :
      phase_of m = MigrationPhaseFailed -> mig_Phase s' = MigrationPhasePending ->
      retryPolicy m = Some p -> mig_RetryCount (mig_Status m) < maxRetries p ->
      mig_RetryCount s' = to_int32 (mig_RetryCount (mig_Status m) + 1) ->
      transfer_state s' = transfer_state (mig_Status m) -> mig_TaskRef s' = "" ->
      status_step h s'.

(** ** The calls *)
Definition is_claim (c : kcall) : bool := match c with MapLoadOrStore _ => true | _ => false end.

(** The guard of the operation was claimed by the call just before. *)
Definition just_claimed (h : ktrace) (op : migrationLongOp) : Prop :=
  exists h0, h = h0 ++ [kev (MapLoadOrStore (longOpKey m op)) false].

Definition capability_open (h : ktrace) (i : ProviderInstance) (supported : Capabilities -> bool) : Prop :=
  EnforceCapabilities r = true -> inst_CapabilityReporter i = true ->
  exists a, kev (GetCapabilities i) a ∈ h /\ forall caps, a = Ok caps -> supported caps = true.

Definition export_allowed (h : ktrace) (i : ProviderInstance) (req : ExportDiskRequest) : Prop :=
  in_phase m MigrationPhaseExporting
  /\ mig_ExportID (mig_Status m) = ""
  /\ IsConditionTrue (mig_Conditions (mig_Status m)) VMMigrationConditionExporting = false
  /\ just_claimed h longOpExport
  /\ (exists vm, read_source m h vm /\ exp_VmId req = status_ID (vm_Status vm))
  /\ exp_SnapshotId req = mig_SnapshotID (mig_Status m)
  /\ generateStorageURL m "export" = Ok (exp_DestinationURL req)
  /\ storageOptionsJSON m = Ok (exp_StorageOptionsJSON req)
  /\ capability_open h i SupportsDiskExport.

Definition import_allowed (h : ktrace) (i : ProviderInstance) (req : ImportDiskRequest) : Prop :=
  in_phase m MigrationPhaseImporting
  /\ mig_ImportID (mig_Status m) = ""
  /\ IsConditionTrue (mig_Conditions (mig_Status m)) VMMigrationConditionImporting = false
  /\ just_claimed h longOpImport
  /\ generateStorageURL m "export" = Ok (imp_SourceURL req)
  /\ storageOptionsJSON m = Ok (imp_StorageOptionsJSON req)
  /\ imp_ExpectedChecksum req = match mig_DiskInfo (mig_Status m) with
                                | Some d => di_SourceChecksum d
                                | None => ""
                                end
  /\ capability_open h i SupportsDiskImport.

Definition release_allowed (h : ktrace) (key : string) : Prop :=
  exists h0 x, h = h0 ++ [kev (MapLoadOrStore key) false; x]
    /\ ((exists i req e, key = longOpKey m longOpExport /\ x = kev (ExportDisk i req) (Err e))
        \/ (exists i req e, key = longOpKey m longOpImport /\ x = kev (ImportDisk i req) (Err e))).

(** A virtual machine is deleted when it is the source of a finished migration
    that asks for it, or the unfinished target of a migration that is deleted. *)
Definition vm_delete_allowed (h : ktrace) (vm : VirtualMachine) : Prop :=
  (in_phase m MigrationPhaseReady /\ ms_DeleteAfterMigration (mig_Source (mig_Spec m)) = true
   /\ cleaned_up m = false /\ read_source m h vm)
  \/ (~ live m /\ (phase_of m = MigrationPhaseFailed \/ phase_of m = MigrationPhaseCreating)
      /\ partial_target m vm = true /\ read_target m h vm).

Definition snapshot_delete_allowed (h : ktrace) (vmId snapshotId : string) : Prop :=
  (in_phase m MigrationPhaseReady \/ ~ live m)
  /\ cleanupAllowed m = true /\ owns_snapshot m = true
  /\ snapshotId = mig_SnapshotID (mig_Status m)
  /\ exists vm, read_source m h vm /\ vmId = status_ID (vm_Status vm).

Definition vm_create_allowed (h : ktrace) (vm : VirtualMachine) : Prop :=
  in_phase m MigrationPhaseCreating
  /\ (exists disk, mig_DiskInfo (mig_Status m) = Some disk /\ vm = target_VM m disk)
  /\ exists e, kev (KGet KVirtualMachine (targetVMKey m)) (Err e) ∈ h /\ api_IsNotFound e = true.

Definition claim_create_allowed (h : ktrace) (pvc : PersistentVolumeClaim) : Prop :=
  in_phase m MigrationPhaseValidating
  /\ exists config quantity e,
       (s ← mig_Storage (mig_Spec m); mst_PVC s) = Some config /\ pvcc_Name config = ""
       /\ let name := mig_Name m +:+ "-storage" in
          SetControllerReference m (migration_claim m config name quantity) = Ok pvc
          /\ ParseQuantity (pvcc_Size config) = Ok quantity
          /\ kev (KGet KPVC (mkKey (mig_Namespace m) name)) (Err e) ∈ h /\ api_IsNotFound e = true.

Definition finalizer_step (m' : VMMigration) : Prop :=
  mig_Spec m' = mig_Spec m /\
  ((live m /\ ContainsFinalizer (meta_Finalizers (mig_meta m)) migrationFinalizer = false
    /\ meta_Finalizers (mig_meta m') = AddFinalizer (meta_Finalizers (mig_meta m)) migrationFinalizer)
   \/ (~ live m
       /\ meta_Finalizers (mig_meta m') = RemoveFinalizer (meta_Finalizers (mig_meta m)) migrationFinalizer)).

(** The staged object, as the clean-up looks for it. *)
Definition remove_allowed (path : string) : Prop :=
  ((in_phase m MigrationPhaseReady /\ cleanupAllowed m = true) \/ ~ live m)
  /\ cleaned_up m = false
  /\ exists storage store url,
       mig_Storage (mig_Spec m) = Some storage /\ pvcs_config store = cleanup_config m storage
       /\ generateStorageURL m "export" = Ok url /\ parsePath store url = Ok path.

Definition allowed (h : ktrace) (c : kcall) : Prop :=
  match c with
  | KStatusUpdate KVMMigration m' => live m /\ status_step h (mig_Status m')
  | KUpdate KVMMigration m' => finalizer_step m'
  | KUpdate KVirtualMachine vm =>
      in_phase m MigrationPhaseValidatingTarget
      /\ exists vm0 at_, read_target m h vm0 /\ vm_ready vm0 = true /\ vm = mark_completed vm0 at_
  | KUpdate KProvider p =>
      in_phase m MigrationPhaseValidating
      /\ exists key p0 stamp, kev (KGet KProvider key) (Ok p0) ∈ h
           /\ p = annotate_provider p0 stamp (mig_StoragePVCName (mig_Status m))
  | KPatch KVirtualMachine vm =>
      in_phase m MigrationPhaseValidating
      /\ exists m1 vm0, view m h m1 /\ ms_PowerOffBeforeMigration (mig_Source (mig_Spec m1)) = true
           /\ read_source m1 h vm0 /\ vm = stopped vm0
  | KCreate KVirtualMachine vm => vm_create_allowed h vm
  | KCreate KPVC pvc => claim_create_allowed h pvc
  | KDelete KVirtualMachine vm => vm_delete_allowed h vm
  | KDelete KPVC pvc =>
      ~ live m /\ mig_StoragePVCName (mig_Status m) <> ""
      /\ kev (KGet KPVC (mkKey (mig_Namespace m) (mig_StoragePVCName (mig_Status m)))) (Ok pvc) ∈ h
  | KUpdate _ _ | KStatusUpdate _ _ | KPatch _ _ | KCreate _ _ | KDelete _ _ => False
  | Power i id op =>
      in_phase m MigrationPhaseValidating /\ op = PowerOpOff
      /\ exists m1 vm desc, view m h m1 /\ ms_PowerOffBeforeMigration (mig_Source (mig_Spec m1)) = true
           /\ read_source m1 h vm /\ id = status_ID (vm_Status vm)
           /\ kev (Describe i id) (Ok desc) ∈ h /\ desc_PowerState desc = Contracts.PowerStateOn
  | SnapshotCreate i req =>
      in_phase m MigrationPhaseSnapshotting
      /\ ms_SnapshotRef (mig_Source (mig_Spec m)) = None /\ mig_SnapshotID (mig_Status m) = ""
      /\ exists vm, read_source m h vm /\ snap_VmId req = status_ID (vm_Status vm)
  | SnapshotDelete i vmId snapshotId => snapshot_delete_allowed h vmId snapshotId
  | ExportDisk i req => export_allowed h i req
  | ImportDisk i req => import_allowed h i req
  | MapLoadOrStore key =>
      occurs is_claim h = false
      /\ ((in_phase m MigrationPhaseExporting /\ key = longOpKey m longOpExport)
          \/ (in_phase m MigrationPhaseImporting /\ key = longOpKey m longOpImport))
  | MapDelete key => release_allowed h key
  | Remove path => remove_allowed path
  | Clone _ _ => False
  | KGet _ _ | KListPods _ _ | KListVirtualMachines | KListPVCs _ _ | KListProviders _ | ListVMs _ | Resolve _ | Describe _ _ | IsTaskComplete _ _ | TaskStatus _ _
  | GetCapabilities _ | MapLoad _ | LookupIP _ | Stat _ | TimeNow | Sleep _ | Event _ _ _ | CountError _ => True
  end.

Definition rule (h : ktrace) (x : event kcall kanswer) : Prop := allowed h (projT1 x).

(** The calls the rules restrict. *)
Definition restricted (c : kcall) : bool :=
  match c with
  | KGet _ _ | KListPods _ _ | KListVirtualMachines | KListPVCs _ _ | KListProviders _ | ListVMs _ | Resolve _ | Describe _ _ | IsTaskComplete _ _ | TaskStatus _ _
  | GetCapabilities _ | MapLoad _ | LookupIP _ | Stat _ | TimeNow | Sleep _ | Event _ _ _ | CountError _ => false
  | _ => true
  end.

Lemma rule_free h (c : kcall) (a : kanswer c) : restricted c = false -> rule h (ev c a).
Proof. by destruct c. Qed.

(** ** Evidence and rules survive further calls *)
Lemma issued_before_mono h tr op id cond : issued_before m h op id cond -> issued_before m (h ++ tr) op id cond.
Proof. unfold issued_before. intros [H1 H2]. split; naive_solver eauto with history. Qed.

Lemma mount_seen_mono h tr p pvcName : mount_seen m h p pvcName -> mount_seen m (h ++ tr) p pvcName.
Proof. unfold mount_seen. naive_solver eauto with history. Qed.

Lemma read_providers_mono h tr source target :
  read_providers m h source target -> read_providers m (h ++ tr) source target.
Proof. unfold read_providers, read_source. naive_solver eauto with history. Qed.

Lemma view_mono h tr m1 : view m h m1 -> view m (h ++ tr) m1.
Proof. unfold view. naive_solver eauto with history. Qed.

Lemma source_stopped_mono m1 h tr : source_stopped m1 h -> source_stopped m1 (h ++ tr).
Proof.
  unfold source_stopped, read_source. intros (vm & i & desc & H1 & H2 & H3 & H4).
  exists vm, i, desc. split_and!; naive_solver eauto with history.
Qed.

Lemma host_permitted_history pol host h tr :
  host_permitted pol host h -> host_permitted pol host (h ++ tr).
Proof. apply host_permitted_mono. eauto with history. Qed.

Lemma storage_checked_mono h tr source target s :
  storage_checked h source target s -> storage_checked (h ++ tr) source target s.
Proof.
  unfold storage_checked. intros [Hg H3]. split; [done|]. destruct (mig_Storage (mig_Spec m)); [|done].
  repeat case_bool_decide; naive_solver eauto using host_permitted_history, mount_seen_mono.
Qed.

Lemma status_step_mono h tr s : status_step h s -> status_step (h ++ tr) s.
Proof.
  destruct 1;
    [econstructor 1|econstructor 2|econstructor 3|eapply step_validated|eapply step_snapshotted
    |eapply step_export_running|eapply step_exported|eapply step_export_found|eapply step_skip
    |eapply step_import_running|eapply step_imported|eapply step_import_found|eapply step_created
    |eapply step_ready|eapply step_fail|eapply step_retry];
    unfold read_target in *;
    eauto using view_mono, read_providers_mono, storage_checked_mono, source_stopped_mono, issued_before_mono with history.
  - naive_solver eauto with history.
  - naive_solver eauto with history.
Qed.
End Rules.
