(* ===== verification/MigrationRefine.v ===== *)
(** * MigrationRefine: the migration controller follows its specification

    Every run of the reconciler makes only calls that the rules of
    [MigrationSpec] allow, in the order they allow ([reconcile_conforms]).  The
    proof goes handler by handler. *)
From S2P Require Import Prelude Contracts K8s Api Effects GoLib NetIP GrpcClient CoreApi MigrationApi Cluster Storage StorageProps TraceSpec MigrationHelpers Migration MigrationSpec.
From stdpp Require Import base gmap strings list.
From Stdlib Require Import ZArith Lia.
Import v1beta1.
#[local] Open Scope Z_scope.

(** ** Programs that make no restricted call *)
Section Reads.
Context `{Lib : Libraries} `{CLib : ClusterLibraries} `{COk : !ClusterLibrariesOk} `{Codec : OptionsCodec}.

Lemma silent_getProvider ref ns : silent restricted (getProvider ref ns).
Proof. unfold getProvider. solve_silent. Qed.
Lemma silent_getProviderInstance p : silent restricted (getProviderInstance p).
Proof. unfold getProviderInstance. solve_silent. Qed.
Lemma silent_getSourceVM m : silent restricted (getSourceVM m).
Proof. unfold getSourceVM. solve_silent. Qed.
#[local] Hint Resolve silent_getProvider silent_getProviderInstance silent_getSourceVM : silent.
Lemma silent_getSourceProvider m : silent restricted (getSourceProvider m).
Proof. unfold getSourceProvider. solve_silent. Qed.
#[local] Hint Resolve silent_getSourceProvider : silent.
Lemma silent_import_format m : silent restricted (import_format m).
Proof. unfold import_format. solve_silent. Qed.
Lemma silent_loadS3Credentials m : silent restricted (loadS3Credentials m).
Proof. unfold loadS3Credentials. solve_silent. Qed.
Lemma silent_ValidateHost p host : silent restricted (ValidateHost p host).
Proof. unfold ValidateHost, resolveHost. solve_silent. Qed.
Lemma silent_providerMountReady p pvcName : silent restricted (providerMountReady p pvcName).
Proof. unfold providerMountReady. solve_silent. Qed.
Lemma silent_migrationMountDeadlineExceeded m pvcName : silent restricted (migrationMountDeadlineExceeded m pvcName).
Proof. unfold migrationMountDeadlineExceeded. solve_silent. Qed.
Lemma silent_awaitSnapshotDelete i t : silent restricted (awaitSnapshotDelete i t).
Proof. unfold awaitSnapshotDelete, await_task. solve_silent. Qed.
Lemma silent_NewPVCStorage c : silent restricted (NewPVCStorage c).
Proof. unfold NewPVCStorage, verifyMount. solve_silent. Qed.
End Reads.
#[export] Hint Resolve silent_getProvider silent_getProviderInstance silent_getSourceVM
  silent_getSourceProvider silent_import_format silent_loadS3Credentials silent_ValidateHost
  silent_providerMountReady silent_migrationMountDeadlineExceeded silent_awaitSnapshotDelete
  silent_NewPVCStorage : silent.

(** ** Conditions after an update *)
Lemma util_SetCondition_get now conds t s reason msg :
  has_status (util_SetCondition now conds t s reason msg) t s = true.
Proof.
  unfold has_status. induction conds as [|c conds IH]; cbn [util_SetCondition].
  - rewrite GetCondition_cons. rewrite !bool_decide_eq_true_2; done.
  - case_bool_decide as Hc.
    + rewrite GetCondition_cons. destruct (_ || _) eqn:Hch; cbn [Type_ Status].
      * rewrite !bool_decide_eq_true_2; done.
      * rewrite bool_decide_eq_true_2 by done.
        apply orb_false_iff in Hch as [[Hch _]%orb_false_iff _]. by apply negb_false_iff in Hch.
    + rewrite GetCondition_cons, bool_decide_eq_false_2 by done. exact IH.
Qed.

Lemma util_SetCondition_other now conds t s reason msg t' :
  t <> t' -> GetCondition (util_SetCondition now conds t s reason msg) t' = GetCondition conds t'.
Proof.
  intros Hne. induction conds as [|c conds IH]; cbn [util_SetCondition]; rewrite ?GetCondition_cons.
  - cbn [Type_]. by rewrite bool_decide_eq_false_2.
  - case_bool_decide as Hc.
    + rewrite GetCondition_cons. destruct (_ || _); cbn [Type_]; subst t;
        by rewrite !bool_decide_eq_false_2.
    + rewrite GetCondition_cons. by rewrite IH.
Qed.

Section Refine.
Context `{Lib : Libraries} `{CLib : ClusterLibraries} `{COk : !ClusterLibrariesOk} `{Codec : OptionsCodec}.
Context (r : VMMigrationReconciler) (m : VMMigration).
Abbreviation rule := (rule r m).

(** The programs whose end does not matter. *)
Abbreviation safe h p := (guar rule h p (fun _ _ => True)).

(** After a program without restricted calls. *)
Lemma guar_reads h {A B} (p : KM A) (k : A -> KM B) Q :
  silent restricted p ->
  (forall tr a, occurs restricted tr = false -> guar rule (h ++ tr) (k a) Q) ->
  guar rule h (p ≫= k) Q.
Proof. apply guar_skip, rule_free. Qed.

Lemma guar_reads_wp h {A B} (p : KM A) (k : A -> KM B) Q Q0 :
  silent restricted p -> wp p Q0 ->
  (forall tr a, Q0 tr (Done a) -> guar rule (h ++ tr) (k a) Q) ->
  guar rule h (p ≫= k) Q.
Proof.
  intros Hs H0 Hk. apply guar_bind.
  eapply guar_mono; [apply (guar_silent_wp restricted _ _ _ Q0); [apply rule_free|done|done]|].
  cbn. intros tr a (tr' & ->%app_inv_head & _ & Ha). by apply Hk.
Qed.

(** ** Status updates *)
Lemma update_loop_guar left attempt m' h :
  live m -> status_step r m h (mig_Status m') ->
  guar rule h (update_loop left attempt m')
    (fun h' u => mig_Status u.2 = mig_Status m' /\ (view m h m' -> view m h' u.2)).
Proof.
  intros Hl. revert attempt m' h.
  induction left as [|left IH]; intros attempt m' h Hs; cbn [update_loop]; [by apply guar_ret|].
  assert (forall tr (e : option goerror), guar rule (h ++ tr) (Ret (e, m'))
            (fun h' u => mig_Status u.2 = mig_Status m' /\ (view m h m' -> view m h' u.2))) as Hret.
  { intros tr e. apply guar_ret. split; [done|]. apply view_mono. }
  guar_step. guar_step; [done|]. destruct r0 as [err|]; [|apply Hret].
  destruct (_ && _); [|apply Hret].
  guar_step. guar_step; [done|]. guar_step. guar_step; [done|].
  rewrite <- !app_assoc. destruct r1 as [fresh|err']; [|apply Hret].
  eapply guar_mono; [apply IH; by apply status_step_mono|].
  intros tr u [Hu Hv]. split; [by rewrite Hu|]. intros _. apply Hv. right.
  eexists _, fresh. split; [|done]. apply elem_of_app. right. right. right. by left.
Qed.

Lemma updateStatus_guar m' h :
  live m -> status_step r m h (mig_Status m') ->
  guar rule h (updateStatus m')
    (fun h' u => mig_Status u.2 = mig_Status m' /\ (view m h m' -> view m h' u.2)).
Proof. apply update_loop_guar. Qed.

Lemma save_and_return_safe m' res h :
  live m -> status_step r m h (mig_Status m') -> safe h (save_and_return m' res).
Proof.
  intros Hl Hs. unfold save_and_return. guar_use updateStatus_guar; [done|done|].
  intros tr u _. by destruct (u.1); apply guar_ret.
Qed.

Lemma transitionToFailed_safe m' msg h :
  live m -> phase_of m ∈ failing_phases -> kept (mig_Status m) (mig_Status m') ->
  safe h (transitionToFailed m' msg).
Proof.
  intros Hl Hp Hk. unfold transitionToFailed, set_condition.
  repeat (guar_step; first [exact I|idtac]).
  apply save_and_return_safe; [done|]. apply step_fail; [done|done|eauto| |done].
  unfold IsConditionTrue, has_status. cbn -[util_SetCondition GetCondition].
  rewrite util_SetCondition_other by done.
  pose proof (util_SetCondition_get r1 (mig_Conditions (mig_Status m')) VMMigrationConditionFailed
                ConditionTrue "MigrationFailed" msg) as Hc. exact Hc.
Qed.

(** Follow a handler, leaving the rules of its restricted calls, its status
    updates and its failures. *)
Ltac go := repeat (guar_step; try exact I).
Ltac in_list := repeat first [apply list_elem_of_here | apply list_elem_of_further].
Ltac in_phases := match goal with H : phase_of _ = _ |- phase_of _ ∈ _ => rewrite H end; in_list.
Ltac fails := apply transitionToFailed_safe; [done|in_phases|done].
Ltac saves := apply save_and_return_safe; [done|].
Ltac reads := apply guar_reads; [solve_silent|intros ? ? ?].

Lemma handlePendingPhase_safe h : in_phase m MigrationPhasePending -> safe h (handlePendingPhase m).
Proof.
  intros [Hl Hp]. unfold handlePendingPhase, set_condition. go. saves. by apply step_validate.
Qed.

Lemma handleTransferringPhase_safe h :
  in_phase m MigrationPhaseTransferring -> safe h (handleTransferringPhase m).
Proof.
  intros [Hl Hp]. unfold handleTransferringPhase, set_condition. go. saves. apply step_skip; [by left|done|done].
Qed.

Lemma handleConvertingPhase_safe h :
  in_phase m MigrationPhaseConverting -> safe h (handleConvertingPhase m).
Proof.
  intros [Hl Hp]. unfold handleConvertingPhase. go. saves. apply step_skip; [by right|done|done].
Qed.

Lemma initialize_safe h : in_phase m MigrationPhaseUnset -> safe h (initialize m).
Proof. intros [Hl Hp]. unfold initialize. go. saves. by apply step_initialize. Qed.

(** ** Snapshotting *)
Lemma create_snapshot_safe h vm i :
  in_phase m MigrationPhaseSnapshotting -> ms_SnapshotRef (mig_Source (mig_Spec m)) = None ->
  mig_SnapshotID (mig_Status m) = "" -> read_source m h vm -> safe h (create_snapshot m vm i).
Proof.
  intros Hin Href Hid Hvm. pose proof Hin as [Hl Hp]. unfold create_snapshot, snapshot_complete, set_condition. go.
  - split_and!; [done|done|done|]. exists vm. by split.
  - saves. apply step_wait; [in_phases|done|done].
  - saves. apply step_snapshotted; [done|done| |done]. right; right.
    eexists _, _, _. split; [|done]. eauto 9 with history.
  - fails.
Qed.

Lemma handleSnapshottingPhase_safe h :
  in_phase m MigrationPhaseSnapshotting -> safe h (handleSnapshottingPhase m).
Proof.
  intros [Hl Hp]. unfold handleSnapshottingPhase, getSourceVM, snapshot_complete, set_condition.
  guar_step. guar_step; [done|]. guar_step; [|fails]. guar_step.
  - go. saves. apply step_snapshotted; [done|done| |done]. left. eauto.
  - reads. guar_step; [|fails]. reads. guar_step; [|fails]. guar_step; emptiness.
    + go. saves. apply step_snapshotted; [done|done| |done]. right; left. done.
    + apply create_snapshot_safe; [done|done|done|]. unfold read_source. eauto 9 with history.
Qed.

(** ** Long operations *)
Lemma occurs_claim_restricted (tr : ktrace) : occurs restricted tr = false -> occurs is_claim tr = false.
Proof.
  intros Ho. rewrite <- (occurs_calls is_claim restricted) by (by intros []).
  by rewrite (calls_occurs_false restricted).
Qed.

Lemma silent_update_loop f left attempt m' :
  (forall k o, f (KStatusUpdate k o) = false) -> (forall d, f (Sleep d) = false) ->
  (forall k key, f (KGet k key) = false) -> silent f (update_loop left attempt m').
Proof.
  intros Hu Hs Hg. revert attempt m'. induction left as [|left IH]; intros attempt m'; cbn [update_loop];
    [solve_silent|].
  apply silent_bind; [exact (@silent_trigger kcall kanswer f _ (Hu KVMMigration m'))|intros [err|]]; [|solve_silent].
  destruct (_ && _); [|solve_silent].
  apply silent_bind; [exact (@silent_trigger kcall kanswer f _ (Hs _))|intros _].
  apply silent_bind; [exact (@silent_trigger kcall kanswer f _ (Hg KVMMigration _))|intros [fresh|e]];
    [apply IH|solve_silent].
Qed.

Lemma silent_transitionToFailed m' msg : silent is_claim (transitionToFailed m' msg).
Proof.
  unfold transitionToFailed, set_condition, save_and_return, updateStatus.
  solve_silent. by apply silent_update_loop.
Qed.

Lemma gateProviderCapability_guar h i supported msg :
  live m -> phase_of m ∈ failing_phases ->
  guar rule h (gateProviderCapability r m i supported msg)
    (fun h' blocked => (blocked = None -> capability_open r h' i supported)
                       /\ exists tr, h' = h ++ tr /\ occurs is_claim tr = false).
Proof.
  intros Hl Hp. apply guar_and_silent.
  { pose proof silent_transitionToFailed. unfold gateProviderCapability. solve_silent. }
  unfold gateProviderCapability. guar_step; emptiness.
  { apply guar_ret. unfold capability_open. congruence. }
  guar_step; emptiness.
  { apply guar_ret. unfold capability_open. congruence. }
  guar_step. guar_step; [done|]. destruct r0 as [caps|e].
  - guar_step.
    + apply guar_ret. intros _ _ _. exists (Ok caps). split; [apply elem_of_last|]. by intros caps' [= <-].
    + guar_use transitionToFailed_safe; [done|done|done|]. intros tr a _. by apply guar_ret.
  - apply guar_ret. intros _ _ _. exists (Err e). split; [apply elem_of_last|done].
Qed.

Lemma long_op_issued_guar h op id cond :
  guar rule h (long_op_issued m op id cond)
    (fun h' issued =>
       (if issued : bool
        then id <> "" \/ IsConditionTrue (mig_Conditions (mig_Status m)) cond = true
             \/ kev (MapLoad (longOpKey m op)) true ∈ h'
        else id = "" /\ IsConditionTrue (mig_Conditions (mig_Status m)) cond = false)
       /\ exists tr, h' = h ++ tr /\ occurs is_claim tr = false).
Proof.
  unfold long_op_issued, longOpAlreadyStarted. guar_step.
  - apply guar_ret. split; [|exists []; by rewrite app_nil_r].
    apply orb_true_iff in Heqb as [Hid|Hc]; emptiness; auto.
  - apply orb_false_iff in Heqb as [Hid Hc]. emptiness.
    guar_step; [done|]. split; [|by eexists]. destruct r0; [|done]. right; right. apply elem_of_last.
Qed.

Lemma check_long_task_guar h i name Name :
  live m -> phase_of m ∈ failing_phases ->
  guar rule h (check_long_task m i name Name)
    (fun h' x => match x with
                 | inl _ => True
                 | inr _ => mig_TaskRef (mig_Status m) = ""
                            \/ exists i st, kev (IsTaskComplete i (mig_TaskRef (mig_Status m))) (Ok true) ∈ h'
                                 /\ kev (TaskStatus i (mig_TaskRef (mig_Status m))) (Ok st) ∈ h' /\ ts_Error st = ""
                 end).
Proof.
  intros Hl Hp. unfold check_long_task. guar_step; emptiness; [by apply guar_ret; left|].
  guar_step. guar_step; [done|]. destruct r0 as [[]|e]; [|by apply guar_ret..].
  guar_step. guar_step; [done|]. destruct r0 as [st|e].
  - guar_step; emptiness.
    + apply guar_ret. right. exists i, st. split_and!; [eauto with history|apply elem_of_last|done].
    + guar_use transitionToFailed_safe; [done..|]. intros. by apply guar_ret.
  - guar_use transitionToFailed_safe; [done..|]. intros. by apply guar_ret.
Qed.

Lemma claim_absent (h tr : ktrace) : occurs is_claim h = false -> occurs is_claim tr = false -> occurs is_claim (h ++ tr) = false.
Proof. intros H1 H2. by rewrite occurs_app, H1, H2. Qed.

(** ** Exporting *)
Lemma issue_export_safe h i vm url opts creds :
  in_phase m MigrationPhaseExporting -> mig_ExportID (mig_Status m) = "" ->
  IsConditionTrue (mig_Conditions (mig_Status m)) VMMigrationConditionExporting = false ->
  occurs is_claim h = false -> read_source m h vm ->
  generateStorageURL m "export" = Ok url -> storageOptionsJSON m = Ok opts ->
  capability_open r h i SupportsDiskExport ->
  safe h (issue_export m i (export_request m vm url opts creds)).
Proof.
  intros Hin Hid Hc Hclaim Hvm Hurl Hopts Hcap. pose proof Hin as [Hl Hp].
  unfold issue_export, markLongOpStarted, export_complete, set_condition.
  guar_step. guar_step. guar_step; [split; [done|by left]|]. guar_step. guar_step; [by apply guar_ret|].
  destruct r0; [done|]. guar_step. guar_step.
  - split_and!; try done.
    + by eexists.
    + exists vm. split; [|done]. unfold read_source in *. eauto with history.
    + intros HE HR. destruct (Hcap HE HR) as (a & Ha & Hs). exists a. eauto with history.
  - destruct r0 as [resp|err].
    + guar_step; emptiness.
      * saves. eapply step_export_running; [done|done|eauto with history|done|done|].
        split_and!; [done|done|done|]. by eexists.
      * go. saves. eapply step_exported; [done|done|eauto 9 with history|done|].
        split_and!; [done|done|done|]. by eexists.
    + guar_step. guar_step; [|fails]. exists h, (kev (ExportDisk i (export_request m vm url opts creds)) (Err err)).
      rewrite <- app_assoc. split; [done|]. left. eauto 6.
Qed.

Lemma start_export_safe h vm i :
  in_phase m MigrationPhaseExporting -> mig_ExportID (mig_Status m) = "" ->
  IsConditionTrue (mig_Conditions (mig_Status m)) VMMigrationConditionExporting = false ->
  occurs is_claim h = false -> read_source m h vm -> safe h (start_export r m vm i).
Proof.
  intros Hin Hid Hc Hclaim Hvm. pose proof Hin as [Hl Hp]. unfold start_export.
  guar_step; [|fails]. guar_step; [|fails]. reads. guar_step; [|fails].
  guar_use gateProviderCapability_guar; [done|in_phases|].
  intros tr' blocked (Hcap & tr'' & ->%app_inv_head & Htr). guar_step; [by apply guar_ret|].
  apply issue_export_safe; auto using claim_absent, occurs_claim_restricted.
  unfold read_source in *. eauto with history.
Qed.

Lemma export_found_safe h event res :
  in_phase m MigrationPhaseExporting ->
  issued_before m h longOpExport (mig_ExportID (mig_Status m)) VMMigrationConditionExporting ->
  safe h (export_complete m event res).
Proof.
  intros [Hl Hp] Hi. unfold export_complete, set_condition. go. saves.
  apply step_export_found; [done|done| |done]. by do 2 apply issued_before_mono.
Qed.

Lemma handleExportingPhase_safe h :
  in_phase m MigrationPhaseExporting -> occurs is_claim h = false -> safe h (handleExportingPhase r m).
Proof.
  intros Hin Hclaim. pose proof Hin as [Hl Hp]. unfold handleExportingPhase, getSourceVM.
  guar_step. guar_step; [done|]. guar_step; [|fails]. reads. guar_step; [|fails]. reads. guar_step; [|fails].
  guar_use long_op_issued_guar. intros tr' issued (Hissued & tr'' & ->%app_inv_head & Htr). guar_step.
  - guar_use check_long_task_guar; [done|in_phases|]. intros tr2 x Hx. guar_step; [by apply guar_ret|].
    apply export_found_safe; [done|]. split; [|exact Hx]. naive_solver eauto with history.
  - destruct Hissued as [Hid Hc].
    apply start_export_safe; [done..| |].
    + repeat apply claim_absent; auto using occurs_claim_restricted.
    + unfold read_source. eauto 9 with history.
Qed.

(** ** Importing *)
Lemma issue_import_safe h i target format url opts creds :
  in_phase m MigrationPhaseImporting -> mig_ImportID (mig_Status m) = "" ->
  IsConditionTrue (mig_Conditions (mig_Status m)) VMMigrationConditionImporting = false ->
  occurs is_claim h = false ->
  generateStorageURL m "export" = Ok url -> storageOptionsJSON m = Ok opts ->
  capability_open r h i SupportsDiskImport ->
  safe h (issue_import m target i (import_request m format url opts creds)).
Proof.
  intros Hin Hid Hc Hclaim Hurl Hopts Hcap. pose proof Hin as [Hl Hp].
  unfold issue_import, markLongOpStarted, import_complete, set_condition.
  guar_step. guar_step. guar_step; [split; [done|by right]|]. guar_step. guar_step; [by apply guar_ret|].
  destruct r0; [done|]. guar_step. guar_step.
  - split_and!; try done.
    + by eexists.
    + intros HE HR. destruct (Hcap HE HR) as (a & Ha & Hs). exists a. eauto with history.
  - destruct r0 as [resp|err].
    + guar_step; emptiness.
      * saves. eapply step_import_running; [done|done|eauto with history|done|done|].
        split_and!; [done|done|done|]. by eexists.
      * go. saves. eapply step_imported; [done|done|eauto 9 with history|done|].
        split_and!; [done|done|done|]. by eexists.
    + guar_step. guar_step; [|fails].
      exists h, (kev (ImportDisk i (import_request m format url opts creds)) (Err err)).
      rewrite <- app_assoc. split; [done|]. right. eauto 6.
Qed.

Lemma import_found_safe h event res :
  in_phase m MigrationPhaseImporting ->
  issued_before m h longOpImport (mig_ImportID (mig_Status m)) VMMigrationConditionImporting ->
  safe h (import_complete m event res).
Proof.
  intros [Hl Hp] Hi. unfold import_complete, set_condition. go. saves.
  apply step_import_found; [done|done| |done]. by do 2 apply issued_before_mono.
Qed.

Lemma start_import_safe h target i :
  in_phase m MigrationPhaseImporting -> mig_ImportID (mig_Status m) = "" ->
  IsConditionTrue (mig_Conditions (mig_Status m)) VMMigrationConditionImporting = false ->
  occurs is_claim h = false -> safe h (start_import r m target i).
Proof.
  intros Hin Hid Hc Hclaim. pose proof Hin as [Hl Hp]. unfold start_import.
  guar_step; [|fails]. guar_step; [|fails]. reads. guar_step; [|fails]. reads. guar_step; [|fails].
  guar_use gateProviderCapability_guar; [done|in_phases|].
  intros tr' blocked (Hcap & tr'' & ->%app_inv_head & Htr). guar_step; [by apply guar_ret|].
  apply issue_import_safe; auto 6 using claim_absent, occurs_claim_restricted.
Qed.

Lemma handleImportingPhase_safe h :
  in_phase m MigrationPhaseImporting -> occurs is_claim h = false -> safe h (handleImportingPhase r m).
Proof.
  intros Hin Hclaim. pose proof Hin as [Hl Hp]. unfold handleImportingPhase.
  reads. guar_step; [|fails]. reads. guar_step; [|fails].
  guar_use long_op_issued_guar. intros tr' issued (Hissued & tr'' & ->%app_inv_head & Htr). guar_step.
  - guar_use check_long_task_guar; [done|in_phases|]. intros tr2 x Hx. guar_step; [by apply guar_ret|].
    apply import_found_safe; [done|]. split; [|exact Hx]. naive_solver eauto with history.
  - destruct Hissued as [Hid Hc]. apply start_import_safe; [done..|].
    repeat apply claim_absent; auto using occurs_claim_restricted.
Qed.

(** ** Creating and validating the target *)
Lemma handleCreatingPhase_safe h : in_phase m MigrationPhaseCreating -> safe h (handleCreatingPhase m).
Proof.
  intros Hin. pose proof Hin as [Hl Hp]. unfold handleCreatingPhase.
  guar_step. guar_step; [done|]. destruct r0 as [vm|err].
  - guar_step; [|by apply guar_ret]. apply andb_true_iff in Heqb as [Hid Hr]. emptiness.
    saves. apply (step_created _ _ _ _ vm); try done. apply elem_of_last.
  - guar_step; [fails|]. guar_step; [|fails]. emptiness. guar_step. guar_step.
    + split_and!; [done|eauto|]. eauto with history.
    + guar_step; [fails|]. go. saves. apply step_wait; [in_phases|done|done].
Qed.

Lemma handleValidatingTargetPhase_safe h :
  in_phase m MigrationPhaseValidatingTarget -> safe h (handleValidatingTargetPhase m).
Proof.
  intros Hin. pose proof Hin as [Hl Hp]. unfold handleValidatingTargetPhase, set_condition.
  guar_step. guar_step; [done|]. destruct r0 as [vm|err]; [|fails]. guar_step; emptiness.
  - saves. apply step_wait; [in_phases|done|done].
  - go.
    + split; [done|]. eexists vm, _. split_and!; [|done|done]. unfold read_target. eauto 9 with history.
    + saves. eapply (step_ready _ _ _ _ vm); try done; [unfold read_target; eauto 9 with history|].
      eexists. apply elem_of_last.
Qed.

(** ** Clean-up *)
Lemma NewPVCStorage_config c :
  wp (NewPVCStorage c) (fun _ o => forall store, o = Done (Ok store) -> pvcs_config store = c).
Proof. unfold NewPVCStorage, verifyMount. wp_steps; naive_solver. Qed.

Lemma cleanupIntermediateStorage_safe h :
  (in_phase m MigrationPhaseReady /\ cleanupAllowed m = true) \/ ~ live m ->
  cleaned_up m = false -> safe h (cleanupIntermediateStorage m).
Proof.
  intros Hw Hc. unfold cleanupIntermediateStorage. guar_step; [|by apply guar_ret].
  apply guar_reads_wp with (1 := silent_NewPVCStorage _) (2 := NewPVCStorage_config _).
  intros tr [store|err] Hcfg; [|by apply guar_ret]. specialize (Hcfg store eq_refl).
  guar_step; [|by apply guar_ret]. guar_step. unfold PVCStorage_Delete.
  guar_step; [|by apply guar_ret; apply guar_ret].
  assert (forall h', safe h' (e ← kdo (Remove t0);
            match e with
            | Some err => Ret (Some (StorageError ("failed to delete file: " +:+ t0) (Some err)))
            | None => Ret None
            end)) as Hrm.
  { intros h'. go. split_and!; [done|done|]. by eexists _, store, _. }
  guar_step. guar_step; [done|].
  destruct r0; [| | by apply guar_ret; apply guar_ret|];
    (eapply guar_mono; [apply Hrm|]; intros; by apply guar_ret).
Qed.

Lemma deleteSourceSnapshot_guar h :
  in_phase m MigrationPhaseReady \/ ~ live m -> cleanupAllowed m = true -> owns_snapshot m = true ->
  guar rule h (deleteSourceSnapshot m)
    (fun _ d => d.2 = m \/ d.2 = m <| mig_Status := mig_Status m <| mig_SnapshotID := "" |> |>).
Proof.
  intros Hw Hc Ho. unfold deleteSourceSnapshot, getSourceVM.
  guar_step. guar_step; [done|]. guar_step; [|apply guar_ret; by left].
  reads. guar_step; [|apply guar_ret; by left]. reads. guar_step; [|apply guar_ret; by left].
  guar_step. guar_step.
  - split_and!; try done. exists t. split; [|done]. unfold read_source. eauto 9 with history.
  - destruct r1 as [task|e]; [|apply guar_ret; by left]. reads.
    guar_step; apply guar_ret; [by left|by right].
Qed.

(** The clean-up of the Ready phase goes on with the migration it read, but for
    the snapshot's identifier. *)
Definition same_but_snapshot (m' : VMMigration) : Prop :=
  m' = m \/ m' = m <| mig_Status := mig_Status m <| mig_SnapshotID := "" |> |>.

Lemma ready_artifacts_guar h :
  in_phase m MigrationPhaseReady -> cleaned_up m = false ->
  guar rule h (ready_artifacts m)
    (fun _ a => match a with Some (_, m') => same_but_snapshot m' | None => True end).
Proof.
  intros Hin Hc. unfold ready_artifacts, ready_storage, ready_snapshot.
  guar_step; [|apply guar_ret; by left].
  assert (forall performed h', guar rule h'
            (d ← ready_snapshot m;
             Ret match d with Some (performed', m) => Some (performed || performed', m) | None => None end)
            (fun _ a => match a with Some (_, m') => same_but_snapshot m' | None => True end)) as Hs.
  { intros performed h'. unfold ready_snapshot. guar_step. guar_step; [|apply guar_ret, guar_ret; by left].
    guar_use deleteSourceSnapshot_guar; [by left|done|done|]. intros tr d Hd.
    apply guar_ret, guar_ret. by destruct (d.1). }
  guar_step. guar_step.
  - guar_use cleanupIntermediateStorage_safe; [by left|done|]. intros tr [err|] _; apply guar_ret.
    + by apply guar_ret.
    + apply Hs.
  - apply guar_ret. apply Hs.
Qed.

Lemma handleReadyPhase_safe h : in_phase m MigrationPhaseReady -> safe h (handleReadyPhase m).
Proof.
  intros Hin. pose proof Hin as [Hl Hp]. unfold handleReadyPhase. guar_step; [by apply guar_ret|].
  guar_use ready_artifacts_guar; [done|done|]. intros tr a Ha.
  guar_step; [|by apply guar_ret]. destruct p as [performed m'].
  assert (mig_Namespace m' = mig_Namespace m /\ mig_Spec m' = mig_Spec m
          /\ kept (mig_Status m) (mig_Status m') /\ phase_of m' = phase_of m) as (Hns & Hspec & Hk & Hp').
  { by destruct Ha as [->| ->]. }
  assert (forall h' b, safe h' (if b : bool then ready_done m' else Ret (no_result, None))) as Hend.
  { intros h' b. guar_step; [|by apply guar_ret]. unfold ready_done.
    guar_use updateStatus_guar; [done|apply step_wait; [in_phases|done|done]|].
    intros tr' u _. go; by apply guar_ret. }
  unfold ready_source, deleteSourceVM, getSourceVM. rewrite Hspec, Hns. guar_step. guar_step; [|apply guar_ret, Hend].
  guar_step. guar_step. guar_step; [done|]. destruct r0 as [vm|e]; [|by apply guar_ret; apply guar_ret; apply guar_ret].
  guar_step. guar_step.
  - left. split_and!; try done. apply elem_of_last.
  - destruct r0; apply guar_ret, guar_ret; [by apply guar_ret|apply Hend].
Qed.

(** ** Failed *)
Lemma handleFailedPhase_safe h :
  in_phase m MigrationPhaseFailed -> permanently_failed m = false -> safe h (handleFailedPhase m).
Proof.
  intros Hin Hpf. pose proof Hin as [Hl Hp]. unfold handleFailedPhase, permanently_failed in *.
  destruct (retryPolicy m) as [p|] eqn:Hpol; [|done]. rewrite Hpf. apply Z.leb_gt in Hpf.
  assert (forall h' now, safe h' (perform_retry m p now)) as Hr.
  { intros h' now. unfold perform_retry, set_condition. go. saves. by eapply step_retry. }
  guar_step. guar_step; [done|]. guar_step; [|apply Hr]. guar_step; [by apply guar_ret|apply Hr].
Qed.

(** ** Deletion *)
Lemma delete_storage_safe h : ~ live m -> safe h (delete_storage m).
Proof.
  intros Hl. unfold delete_storage. guar_step; [|by apply guar_ret]. guar_step; [by apply guar_ret|].
  guar_use cleanupIntermediateStorage_safe; [by right|done|]. intros. by apply guar_ret.
Qed.

Lemma delete_claim_safe h : ~ live m -> safe h (delete_claim m).
Proof.
  intros Hl. unfold delete_claim. guar_step; [by apply guar_ret|]. emptiness.
  guar_step. guar_step; [done|]. destruct r0 as [pvc|e]; [|by apply guar_ret].
  guar_step. guar_step; [|by apply guar_ret]. split_and!; [done|done|apply elem_of_last].
Qed.

Lemma delete_target_safe h m' :
  ~ live m -> same_but_snapshot m' -> safe h (delete_target m').
Proof.
  intros Hl Hm. assert (phase_of m' = phase_of m /\ mig_meta m' = mig_meta m /\ mig_Spec m' = mig_Spec m)
    as (Hp & Hmeta & Hspec) by (by destruct Hm as [->| ->]).
  unfold delete_target. guar_step; [|by apply guar_ret]. guar_step. guar_step; [done|].
  destruct r0 as [vm|e]; [|by apply guar_ret]. guar_step; [|by apply guar_ret].
  guar_step. guar_step; [|by apply guar_ret]. right. split_and!; [done| | |].
  - rewrite <- Hp. by apply orb_true_iff in Heqb as [?%bool_decide_eq_true|?%bool_decide_eq_true]; auto.
  - by destruct Hm as [->| ->].
  - unfold read_target. replace (targetVMKey m) with (targetVMKey m') by (by destruct Hm as [->| ->]).
    apply elem_of_last.
Qed.

Lemma handleDeletion_safe h : ~ live m -> safe h (handleDeletion m).
Proof.
  intros Hl. unfold handleDeletion. guar_use delete_storage_safe; [done|]. intros tr1 e1 _.
  guar_use delete_claim_safe; [done|]. intros tr2 e2 _. apply guar_bind.
  assert (forall h', guar rule h' (delete_snapshot m) (fun _ d => same_but_snapshot d.2)) as Hd.
  { intros h'. unfold delete_snapshot. guar_step; [|apply guar_ret; by left].
    apply andb_true_iff in Heqb as [Hc Ho].
    guar_use deleteSourceSnapshot_guar; [by right|done|done|]. intros. by apply guar_ret. }
  eapply guar_mono; [apply Hd|]. intros tr3 d Hm.
  guar_use delete_target_safe; [done|done|]. intros tr4 e4 _.
  assert (forall h', safe h' (remove_finalizer d.2)) as Hend.
  { intros h'. unfold remove_finalizer. guar_step. guar_step; [|by apply guar_ret].
    split; [by destruct Hm as [->| ->]|]. right. split; [done|]. by destruct Hm as [->| ->]. }
  guar_step. guar_step; [guar_step; [done|]|apply guar_ret]; apply Hend.
Qed.

(** ** Validating: the claim *)
Lemma getProvider_read ref ns :
  wp (getProvider ref ns) (fun tr o => forall p, o = Done (Ok p) ->
    exists key, kev (KGet KProvider key) (Ok p) ∈ tr /\ key_Name key = ref_Name ref).
Proof.
  unfold getProvider. wp_steps. intros p Hp. inversion Hp; subst.
  eexists. split; [by left|done].
Qed.

Lemma getSourceProvider_read :
  wp (getSourceProvider m) (fun tr o => forall p, o = Done (Ok p) ->
    exists key, kev (KGet KProvider key) (Ok p) ∈ tr).
Proof.
  unfold getSourceProvider, getSourceVM. wp_steps; [| |by intros ? [=]].
  - eapply wp_mono; [apply getProvider_read|]. cbn. intros tr out Ho p Hp.
    destruct (Ho p Hp) as (key & Hk & _). eauto.
  - eapply wp_mono; [apply getProvider_read|]. cbn. intros tr out Ho p Hp.
    destruct (Ho p Hp) as (key & Hk & _). exists key. by right.
Qed.

Lemma triggerProviderReconciliation_safe h :
  in_phase m MigrationPhaseValidating -> safe h (triggerProviderReconciliation m).
Proof.
  intros Hin. unfold triggerProviderReconciliation, getTargetProvider. guar_step. guar_step; [done|].
  apply guar_reads_wp with (1 := silent_getSourceProvider m) (2 := getSourceProvider_read).
  intros tr [sp|e] Hsp; [|by apply guar_ret]. destruct (Hsp sp eq_refl) as (key & Hkey).
  guar_step. guar_step.
  { split; [done|]. eexists key, sp, _. split; [|done]. apply elem_of_app. by right. }
  guar_step; [by apply guar_ret|].
  apply guar_reads_wp with (1 := silent_getProvider _ _) (2 := getProvider_read _ _).
  intros tr' [tp|e] Htp; [|by apply guar_ret]. destruct (Htp tp eq_refl) as (key' & Hkey' & _).
  guar_step. guar_step.
  { split; [done|]. eexists key', tp, _. split; [|done]. apply elem_of_app. by right. }
  guar_step; by apply guar_ret.
Qed.

Lemma ensureMigrationPVC_guar h :
  in_phase m MigrationPhaseValidating ->
  guar rule h (ensureMigrationPVC m) (fun _ x => forall name, x = Ok name -> name <> "").
Proof.
  intros Hin. unfold ensureMigrationPVC. guar_step; [|apply guar_ret; done].
  assert (mig_Name m +:+ "-storage" <> "") as Hne by (by destruct (mig_Name m)).
  guar_step; emptiness.
  - guar_step. guar_step; [done|]. destruct r0 as [pvc|e]; [apply guar_ret; congruence|].
    guar_step; apply guar_ret; congruence.
  - guar_step. guar_step; [done|]. destruct r0 as [pvc|e]; [apply guar_ret; congruence|].
    guar_step; [apply guar_ret; congruence|]. emptiness. unfold createMigrationPVC.
    guar_step; [|apply guar_ret; congruence]. guar_step; [|apply guar_ret; congruence].
    guar_step. guar_step.
    { split; [done|]. eexists _, _, e. split; [done|]. split; [done|]. cbn zeta.
      split_and!; [done|done|apply elem_of_last|done]. }
    guar_step; [apply guar_ret; congruence|]. guar_step. guar_step; [done|].
    guar_use triggerProviderReconciliation_safe; [done|]. intros. apply guar_ret. congruence.
Qed.

Lemma providerMountReady_seen p pvcName :
  wp (providerMountReady p pvcName) (fun tr o => o = Done (Ok None) ->
    exists labels pods, kev (KListPods (provider_Namespace p) labels) (Ok pods) ∈ tr
      /\ existsb (pod_mounts pvcName) pods = true).
Proof.
  unfold providerMountReady. wp_steps; intros [=]. eexists _, _. split; [by right; left|done].
Qed.

Lemma silent_migrationProvidersMounted source target pvcName :
  silent restricted (migrationProvidersMounted source target pvcName).
Proof. unfold migrationProvidersMounted. solve_silent. Qed.

Lemma migrationProvidersMounted_seen source target pvcName :
  provider_Namespace source = mig_Namespace m -> provider_Namespace target = mig_Namespace m ->
  wp (migrationProvidersMounted source target pvcName) (fun tr o => o = Done (Ok None) ->
    mount_seen m tr source pvcName /\ mount_seen m tr target pvcName).
Proof.
  intros Hs Ht. unfold migrationProvidersMounted.
  wp_use providerMountReady_seen. intros tr [x|w] Hx; [|done]. cbn [bind_post].
  wp_steps; try done. wp_use providerMountReady_seen. intros tr' [y|w] Hy; [|done]. cbn [bind_post].
  wp_steps; try done. intros _. destruct Hx as (l & pods & H1 & H2); [done|].
  destruct Hy as (l' & pods' & H3 & H4); [done|]. rewrite app_nil_r.
  split; (split; [done|]); eexists _, _; (split; [apply elem_of_app; eauto|done]).
Qed.

(** What a stage of the validation leaves: the status but for the claim's name,
    and the migration as it was read or read again. *)
Definition validated (h : ktrace) (m' : VMMigration) : Prop :=
  view m h m' /\ kept (mig_Status m) (mig_Status m') /\ phase_of m' = phase_of m.

Definition claim_ready (h : ktrace) (source target : Provider) (s : VMMigrationStatus) : Prop :=
  mig_StoragePVCName s <> ""
  /\ exists pvcName, mount_seen m h source pvcName /\ mount_seen m h target pvcName
       /\ (mig_StoragePVCName (mig_Status m) = "" -> mig_StoragePVCName s = pvcName).

Lemma view_refl h : view m h m.
Proof. by left. Qed.

Lemma record_claim_guar h pvcName :
  in_phase m MigrationPhaseValidating -> pvcName <> "" ->
  guar rule h
    (if is_empty (mig_StoragePVCName (mig_Status m))
     then updateStatus (with_status m (fun s => s <| mig_StoragePVCName := pvcName |>))
     else Ret (None, m))
    (fun h' rec => validated h' rec.2 /\ mig_StoragePVCName (mig_Status rec.2) <> ""
       /\ (mig_StoragePVCName (mig_Status m) = "" -> mig_StoragePVCName (mig_Status rec.2) = pvcName)).
Proof.
  intros [Hl Hp] Hne. guar_step; emptiness.
  - guar_use updateStatus_guar; [done|apply step_wait; [in_phases|done|done]|].
    intros tr u [Hu Hv]. unfold validated, phase_of. rewrite Hu. split_and!; try done.
    apply Hv. by left.
  - apply guar_ret. split_and!; try done. split_and!; [apply view_refl|done|done].
Qed.

Lemma validate_pvc_guar h source target :
  in_phase m MigrationPhaseValidating ->
  guar rule h (validate_pvc m source target)
    (fun h' x => match x with
                 | inl _ => True
                 | inr m' => validated h' m' /\ claim_ready h' source target (mig_Status m')
                 end).
Proof.
  intros Hin. pose proof Hin as [Hl Hp]. unfold validate_pvc.
  assert (forall h' m' msg, validated h' m' -> guar rule h'
            (res ← transitionToFailed m' msg; Ret (inl (B := VMMigration) res))
            (fun h' x => match x with inl _ => True | inr m' =>
               validated h' m' /\ claim_ready h' source target (mig_Status m') end)) as Hfail.
  { intros h' m' msg (_ & Hk & _). guar_use transitionToFailed_safe; [done|in_phases|done|].
    intros. by apply guar_ret. }
  guar_step; [apply Hfail; split_and!; [apply view_refl|done|done]|].
  apply orb_false_iff in Heqb as [Hs Ht]. emptiness. apply bool_decide_eq_true in Hs, Ht.
  guar_use ensureMigrationPVC_guar; [done|]. intros tr pvc Hname.
  destruct pvc as [pvcName|e]; [|apply Hfail; split_and!; [apply view_refl|done|done]].
  specialize (Hname _ eq_refl).
  guar_use record_claim_guar; [done|done|]. intros tr1 [e m'] (Hv & Hne & Hrec). cbn [fst snd] in *.
  guar_step; [by apply guar_ret|].
  apply guar_reads_wp with (1 := silent_migrationProvidersMounted _ _ _)
                           (2 := migrationProvidersMounted_seen source target pvcName Hs Ht).
  intros tr2 mounted Hm.
  assert (forall h' tr', validated h' m' -> validated (h' ++ tr') m') as Hvm.
  { intros h' tr' (H1 & H2 & H3). split_and!; [by apply view_mono|done|done]. }
  destruct mounted as [[reason|]|err]; [| |by apply Hfail, Hvm].
  - reads. guar_step; [|by apply Hfail, Hvm, Hvm]. guar_step; [by apply Hfail, Hvm, Hvm|].
    unfold set_condition. guar_step. guar_step. guar_step; [done|]. apply guar_ret.
    destruct Hv as (_ & Hk & Hp').
    guar_use save_and_return_safe; [done|apply step_wait; [in_phases|exact Hp'|exact Hk]|].
    intros. by apply guar_ret.
  - destruct (Hm eq_refl) as [Hms Hmt]. apply guar_ret. split; [by apply Hvm|]. split; [done|].
    exists pvcName. unfold mount_seen in *. split_and!; try done.
    + destruct Hms as (_ & l & pods & H1 & H2). eexists _, _. split; [apply elem_of_app; by right|done].
    + destruct Hmt as (_ & l & pods & H1 & H2). eexists _, _. split; [apply elem_of_app; by right|done].
Qed.

(** ** Validating: the storage *)
Definition config_checked (st : MigrationStorage) (h : ktrace) : Prop :=
  if bool_decide (mst_Type st = BackendS3) then
    exists s3, mst_S3 st = Some s3
      /\ let host := hostFromS3Endpoint (s3c_Endpoint s3) in
         host_permitted (storageHostPolicy r) (if is_empty host then "s3.amazonaws.com" else host) h
  else if bool_decide (mst_Type st = BackendNFS) then
    exists nfs, mst_NFS st = Some nfs /\ host_permitted (storageHostPolicy r) (nfsc_Server nfs) h
  else True.

Lemma config_checked_app st h tr : config_checked st tr -> config_checked st (h ++ tr).
Proof.
  assert (forall p host, host_permitted p host tr -> host_permitted p host (h ++ tr)) as Hh.
  { intros p host. apply host_permitted_mono. intros x Hx. apply elem_of_app. by right. }
  unfold config_checked. repeat case_bool_decide; naive_solver.
Qed.

Lemma silent_validateStorageConfig st : silent restricted (validateStorageConfig r st).
Proof. unfold validateStorageConfig, ValidateS3Endpoint. solve_silent. Qed.

Lemma validateStorageConfig_checked st :
  wp (validateStorageConfig r (Some st)) (fun tr o => o = Done None -> config_checked st tr).
Proof.
  unfold validateStorageConfig, config_checked, ValidateS3Endpoint.
  destruct (bool_decide_reflect (mst_Type st = "pvc")) as [Ht|Ht].
  { rewrite Ht. done. }
  destruct (is_empty (mst_Type st)) eqn:He; cbn [orb]; emptiness.
  { rewrite He. done. }
  destruct (bool_decide_reflect (mst_Type st = BackendS3)) as [Hs|Hs].
  { wp_steps; try (intros [=]; fail). wp_use ValidateHost_permits. intros tr [[e|]|w] Ho; cbn [bind_post wp]; try done.
    intros _. rewrite app_nil_r. eauto. }
  destruct (bool_decide_reflect (mst_Type st = BackendNFS)) as [Hn|Hn]; [|done].
  wp_steps; try (intros [=]; fail). wp_use ValidateHost_permits. intros tr [[e|]|w] Ho; cbn [bind_post wp]; try done.
  intros _. rewrite app_nil_r. eauto.
Qed.

Lemma migrationBackendType_type st :
  mig_Storage (mig_Spec m) = Some st ->
  migrationBackendType m = if is_empty (mst_Type st) then BackendPVC else mst_Type st.
Proof. intros Hst. unfold migrationBackendType. by rewrite Hst. Qed.

Lemma validate_storage_guar h source target :
  in_phase m MigrationPhaseValidating ->
  gateMigrationStorageBackend m source target = "" ->
  guar rule h (validate_storage r m source target)
    (fun h' x => match x with
                 | inl _ => True
                 | inr m' => validated h' m' /\ storage_checked r m h' source target (mig_Status m')
                 end).
Proof.
  intros Hin Hgate. pose proof Hin as [Hl Hp]. unfold validate_storage, storage_checked.
  assert (forall h', validated h' m) as Hv by (intros h'; split_and!; [apply view_refl|done|done]).
  destruct (mig_Storage (mig_Spec m)) as [st|] eqn:Hst; [|by apply guar_ret].
  pose proof (migrationBackendType_type st Hst) as Hb.
  apply guar_reads_wp with (1 := silent_validateStorageConfig _) (2 := validateStorageConfig_checked st).
  intros tr [err|] Hc.
  { guar_use transitionToFailed_safe; [done|in_phases|done|]. intros. by apply guar_ret. }
  specialize (Hc eq_refl). apply (config_checked_app st h) in Hc. unfold config_checked in Hc.
  destruct (is_empty (mst_Type st)) eqn:He; emptiness.
  { rewrite Hb, !bool_decide_eq_false_2 by done.
    eapply guar_mono; [by apply validate_pvc_guar|]. intros tr' [x|m'] Hx; [done|]. by destruct Hx. }
  rewrite <- Hb in Hc. guar_step.
  - reads. guar_step.
    + apply guar_ret. split; [done|]. split; [done|].
      destruct Hc as (s3 & H1 & H2). exists s3. split; [done|]. by apply host_permitted_history.
    + guar_use transitionToFailed_safe; [done|in_phases|done|]. intros. by apply guar_ret.
  - guar_step.
    + by apply guar_ret.
    + eapply guar_mono; [by apply validate_pvc_guar|]. intros tr' [x|m'] Hx; [done|]. by destruct Hx.
Qed.

(** ** Validating: the power gate *)
Lemma updateStatus_keeps_guar h m' :
  in_phase m MigrationPhaseValidating -> kept (mig_Status m) (mig_Status m') -> phase_of m' = phase_of m ->
  guar rule h (updateStatus m') (fun _ u => kept (mig_Status m) (mig_Status u.2)).
Proof.
  intros [Hl Hp] Hk Hp'. eapply guar_mono; [apply updateStatus_guar; [done|]|].
  - apply step_wait; [in_phases|exact Hp'|exact Hk].
  - intros tr u [-> _]. exact Hk.
Qed.

Lemma power_off_and_wait_guar h m' vm i desc :
  in_phase m MigrationPhaseValidating -> validated h m' ->
  ms_PowerOffBeforeMigration (mig_Source (mig_Spec m')) = true -> read_source m' h vm ->
  kev (Describe i (status_ID (vm_Status vm))) (Ok desc) ∈ h ->
  guar rule h (power_off_and_wait m' i (status_ID (vm_Status vm)) (desc_PowerState desc))
    (fun _ x => x.1 <> PoweredOff /\ kept (mig_Status m) (mig_Status x.2)).
Proof.
  intros Hin (Hv & Hk & Hp') Hpo Hvm Hd. unfold power_off_and_wait, poweroff_error.
  assert (forall h', guar rule h' (
      u ← updateStatus (set_message m' "Powering off source VM before migration");
      match u.1 with
      | Some err => Ret (PowerOffError err, u.2)
      | None => Ret (PoweringOff (requeue_after migrationPowerOffPollInterval), u.2)
      end) (fun _ x => x.1 <> PoweredOff /\ kept (mig_Status m) (mig_Status x.2))) as Hend.
  { intros h'. guar_use updateStatus_keeps_guar; [done|exact Hk|exact Hp'|].
    intros tr u Hu. guar_step; by apply guar_ret. }
  guar_step. guar_step; [|apply guar_ret, Hend]. apply bool_decide_eq_true in Heqb.
  guar_step. guar_step.
  - split_and!; [done|done|]. by exists m', vm, desc.
  - destruct r0 as [t|e]; [|apply guar_ret; by apply guar_ret].
    guar_step. guar_step; [done|]. apply guar_ret, Hend.
Qed.

Lemma observe_source_guar h m' vm :
  in_phase m MigrationPhaseValidating -> validated h m' ->
  ms_PowerOffBeforeMigration (mig_Source (mig_Spec m')) = true -> read_source m' h vm ->
  spec_PowerState (vm_Spec vm) = PowerStateOff \/ kev (KPatch KVirtualMachine (stopped vm)) None ∈ h ->
  guar rule h (observe_source m' vm)
    (fun h' x => kept (mig_Status m) (mig_Status x.2)
                 /\ (x.1 = PoweredOff -> x.2 = m' /\ source_stopped m' h')).
Proof.
  intros Hin (Hv & Hk & Hp') Hpo Hvm Hoff. unfold observe_source, poweroff_error, read_source in *.
  reads. guar_step; [|by apply guar_ret]. reads. guar_step; [|by apply guar_ret].
  guar_step. guar_step; [done|]. destruct r0 as [desc|e]; [|by apply guar_ret]. guar_step.
  - apply guar_ret. split; [done|]. intros _. split; [done|]. apply bool_decide_eq_true in Heqb.
    exists vm, t0, desc. unfold read_source. split_and!; [eauto 9 with history|apply elem_of_last|done|].
    destruct Hoff; [by left|right; eauto 9 with history].
  - eapply guar_mono; [eapply power_off_and_wait_guar; [done| |done| |apply elem_of_last]|].
    + split_and!; [by repeat apply view_mono|done|done].
    + unfold read_source. eauto 9 with history.
    + intros tr' x [Hx1 Hx2]. by split.
Qed.

Lemma ensureSourcePoweredOff_guar h m' :
  in_phase m MigrationPhaseValidating -> validated h m' ->
  ms_PowerOffBeforeMigration (mig_Source (mig_Spec m')) = true ->
  guar rule h (ensureSourcePoweredOff m')
    (fun h' x => kept (mig_Status m) (mig_Status x.2)
                 /\ (x.1 = PoweredOff -> x.2 = m' /\ source_stopped m' h')).
Proof.
  intros Hin (Hv & Hk & Hp') Hpo. unfold ensureSourcePoweredOff, getSourceVM.
  guar_step. guar_step; [done|]. destruct r0 as [vm|e]; [|by apply guar_ret].
  set (h1 := h ++ _). assert (read_source m' h1 vm) as Hvm by apply elem_of_last.
  assert (view m h1 m') as Hv1 by (by apply view_mono).
  clearbody h1. guar_step; [by apply guar_ret|]. guar_step. guar_step.
  - apply bool_decide_eq_true in Heqb0. apply guar_ret. by apply observe_source_guar; [|..|left].
  - guar_step; [split; [done|]; by exists m', vm|].
    destruct r0 as [e|]; [by apply guar_ret|]. apply observe_source_guar; try done.
    + split_and!; [by apply view_mono|done|done].
    + unfold read_source in *. eauto with history.
    + right. apply elem_of_last.
Qed.

Lemma validation_complete_safe h m' source target :
  in_phase m MigrationPhaseValidating -> validated h m' -> read_providers m h source target ->
  storage_checked r m h source target (mig_Status m') ->
  (ms_PowerOffBeforeMigration (mig_Source (mig_Spec m')) = true -> source_stopped m' h) ->
  safe h (validation_complete m').
Proof.
  intros [Hl Hp] (Hv & Hk & Hp') Hr Hs Hpo. unfold validation_complete, set_condition. go. saves.
  apply (step_validated _ _ _ _ source target m'); try done.
  - by do 2 apply view_mono.
  - by destruct (ms_CreateSnapshot _).
  - by do 2 apply read_providers_mono.
  - do 2 apply storage_checked_mono. by destruct (ms_CreateSnapshot _).
  - intros Ho. by do 2 apply source_stopped_mono; auto.
  - by destruct (ms_CreateSnapshot _).
Qed.

Lemma power_gate_safe h m' source target :
  in_phase m MigrationPhaseValidating -> validated h m' -> read_providers m h source target ->
  storage_checked r m h source target (mig_Status m') -> safe h (power_gate m').
Proof.
  intros Hin Hv Hr Hs. pose proof Hin as [Hl Hp]. unfold power_gate. guar_step.
  - guar_use ensureSourcePoweredOff_guar; [done|done|done|]. intros tr [[|res|err] m2] [Hk Hoff]; cbn [fst snd] in *.
    + destruct (Hoff eq_refl) as [-> Hstop]. eapply validation_complete_safe; try done.
      * destruct Hv as (H1 & H2 & H3). split_and!; [by apply view_mono|done|done].
      * by apply read_providers_mono.
      * by apply storage_checked_mono.
    + by apply guar_ret.
    + apply transitionToFailed_safe; [done|in_phases|done].
  - eapply validation_complete_safe; try done. congruence.
Qed.

Lemma handleValidatingPhase_safe h :
  in_phase m MigrationPhaseValidating -> safe h (handleValidatingPhase r m).
Proof.
  intros Hin. pose proof Hin as [Hl Hp]. unfold handleValidatingPhase, getSourceVM.
  assert (forall h' reason msg, safe h' (validation_waits m reason msg)) as Hwait.
  { intros h' reason msg. unfold validation_waits, set_condition. go. saves.
    apply step_wait; [in_phases|done|done]. }
  guar_step. guar_step; [done|]. destruct r0 as [vm|e]; [|fails]. guar_step; [apply Hwait|]. emptiness.
  apply guar_reads_wp with (1 := silent_getProvider _ _) (2 := getProvider_read _ _).
  intros tr1 [sp|e] Hsp; [|fails]. destruct (Hsp sp eq_refl) as (k1 & Hk1 & Hn1).
  apply guar_reads_wp with (1 := silent_getProvider _ _) (2 := getProvider_read _ _).
  intros tr2 [tp|e] Htp; [|fails]. destruct (Htp tp eq_refl) as (k2 & Hk2 & Hn2).
  guar_step; [apply Hwait|]. guar_step; [apply Hwait|]. guar_step; [fails|]. emptiness.
  guar_use validate_storage_guar; [done|done|]. intros tr3 [res|m'] Hx; [by apply guar_ret|].
  destruct Hx as [Hv Hs]. eapply power_gate_safe; try done. apply read_providers_mono.
  unfold read_providers, read_source. split_and!; try done.
  - exists vm. split_and!; [eauto 9 with history|done|]. exists k1. split; [|done].
    apply elem_of_history, elem_of_app. by right.
  - exists k2. split; [|done]. apply elem_of_app. by right.
Qed.

(** ** Reconcile *)
Lemma handle_phase_safe h :
  live m -> occurs is_claim h = false -> phase_of m <> MigrationPhaseFailed \/ permanently_failed m = false ->
  safe h (handle_phase r m).
Proof.
  intros Hl Hc Hf. unfold handle_phase. destruct (mig_Phase (mig_Status m)) eqn:Hp;
    try (by apply guar_ret).
  - by apply handlePendingPhase_safe.
  - by apply handleValidatingPhase_safe.
  - by apply handleSnapshottingPhase_safe.
  - by apply handleExportingPhase_safe.
  - by apply handleTransferringPhase_safe.
  - by apply handleConvertingPhase_safe.
  - by apply handleImportingPhase_safe.
  - by apply handleCreatingPhase_safe.
  - by apply handleValidatingTargetPhase_safe.
  - by apply handleReadyPhase_safe.
  - apply handleFailedPhase_safe; [done|]. by destruct Hf.
Qed.

Lemma reconcile_safe h : occurs is_claim h = false -> safe h (reconcile_migration r m).
Proof.
  intros Hc. unfold reconcile_migration.
  destruct (meta_DeletionTimestamp (mig_meta m)) eqn:Hd; [apply handleDeletion_safe; unfold live; congruence|].
  guar_step; emptiness.
  { unfold add_finalizer. guar_step. guar_step; [by split; [|left]|]. go; by apply guar_ret. }
  guar_step; [apply bool_decide_eq_true in Heqb0; by apply initialize_safe|].
  guar_step; [by apply guar_ret|]. apply handle_phase_safe; [done|done|].
  apply andb_false_iff in Heqb1 as [Hp|Hp]; [left|by right]. by apply bool_decide_eq_false in Hp.
Qed.

(** Every run of the reconciler on a migration it has read follows the rules. *)
Lemma reconcile_conforms tr o : runs (reconcile_migration r m) tr o -> conforms rule [] tr.
Proof. intros Hr. by eapply guar_runs; [apply reconcile_safe|exact Hr]. Qed.
End Refine.
