(* ===== verification/MigrationDemo.v ===== *)
(** * MigrationDemo: a small cluster for concrete migrations

    Two libvirt providers that report every backend, a running source VM and a
    migration over NFS.  [answer_call] is how this cluster answers the calls of the
    migration controller; the properties are applied to its runs. *)
From S2P Require Import Prelude Contracts K8s Api Effects GoLib NetIP GrpcClient CoreApi MigrationApi Cluster Storage StorageProps TraceSpec MigrationHelpers Migration.
From stdpp Require Import base gmap strings list.
From Stdlib Require Import ZArith.
Import v1beta1.
#[local] Open Scope Z_scope.

Module DemoMigration.
Import DemoLibraries DemoCluster.

#[export] Instance codec : OptionsCodec := {|
  json_marshal_options := fun _ => Ok "{}"; json_unmarshal_options := fun _ => Ok zero_options
|}.

Record world := mkWorld {
  w_migration : VMMigration;
  w_vms : list VirtualMachine;
  w_claims : list PersistentVolumeClaim;
  w_markers : list string;       (* the long-operation guard *)
  w_running : bool;              (* is the source machine on *)
  w_export_task : string;        (* the task an export answers with *)
  w_writes : bool                (* are status updates accepted *)
}.
#[export] Instance world_eta : Eta world := fun w =>
  mkWorld (w_migration w) (w_vms w) (w_claims w) (w_markers w) (w_running w) (w_export_task w) (w_writes w).

Definition not_found : goerror := EApi (mkApiError true false false "not found").
Definition unavailable : goerror := ENew "connection refused".

Definition vm_key (vm : VirtualMachine) : NamespacedName :=
  mkKey (meta_Namespace (vm_meta vm)) (meta_Name (vm_meta vm)).
Definition find_vm (w : world) (key : NamespacedName) : res VirtualMachine :=
  match List.find (fun vm => bool_decide (vm_key vm = key)) (w_vms w) with
  | Some vm => Ok vm
  | None => Err not_found
  end.
Definition put_vm (w : world) (vm : VirtualMachine) : world :=
  w <| w_vms := vm :: List.filter (fun v => negb (bool_decide (vm_key v = vm_key vm))) (w_vms w) |>.
Definition drop_vm (w : world) (vm : VirtualMachine) : world :=
  w <| w_vms := List.filter (fun v => negb (bool_decide (vm_key v = vm_key vm))) (w_vms w) |>.
Definition find_claim (w : world) (key : NamespacedName) : res PersistentVolumeClaim :=
  match List.find (fun c => bool_decide (meta_Name (pvc_meta c) = key_Name key)) (w_claims w) with
  | Some c => Ok c
  | None => Err not_found
  end.

Definition ready_condition : Condition := mkCondition "Ready" ConditionTrue "Ready" "" 0 0.

Definition backends : list string := [BackendPVC; BackendS3; BackendNFS].
Definition demo_provider (name : string) : Provider :=
  mkProvider (mkObjectMeta name "default" "p-uid" 1 "1" ∅ ∅ [] None None) (bare_spec "libvirt" None)
    (no_provider_status
       <| ps_ReportedCapabilities := Some (mkReportedCapabilities false false false false false false [] [] false false [] [] false backends backends ["relay"]) |>
       <| ps_Conditions := [mkCondition "ProviderAvailable" ConditionTrue "Up" "" 0 0] |>).
Definition demo_instance (p : Provider) : ProviderInstance := mkInstance (provider_Name p) false true true.
Definition demo_capabilities : Capabilities :=
  mkCapabilities false false true false false false [] [] true true [] [] false backends backends ["relay"].

(** A created VM is provisioned at once, as the VirtualMachine controller would. *)
Definition provisioned (vm : VirtualMachine) : VirtualMachine :=
  vm <| vm_Status := vm_Status vm <| status_ID := "vm-2" |> <| status_Conditions := [ready_condition] |> |>.

Definition get (k : kind) (key : NamespacedName) (w : world) : res (object k) :=
  match k return res (object k) with
  | KVirtualMachine => find_vm w key
  | KProvider => Ok (demo_provider (key_Name key))
  | KSecret => Err not_found
  | KVMMigration => Ok (w_migration w)
  | KPVC => find_claim w key
  | KDeployment | KVMSnapshot | KVMClone | KVMClass | KService => Err not_found
  end.

Definition store (k : kind) (o : object k) (w : world) : world :=
  match k return object k -> world with
  | KVirtualMachine => put_vm w
  | KVMMigration => fun m => w <| w_migration := m |>
  | KPVC => fun c => w <| w_claims := c :: w_claims w |>
  | _ => fun _ => w
  end o.

Definition create (k : kind) (o : object k) (w : world) : world :=
  match k return object k -> world with
  | KVirtualMachine => fun vm => put_vm w (provisioned vm)
  | KPVC => fun c => w <| w_claims := c :: w_claims w |>
  | _ => fun _ => w
  end o.

Definition delete (k : kind) (o : object k) (w : world) : world :=
  match k return object k -> world with
  | KVirtualMachine => drop_vm w
  | KPVC => fun c =>
      w <| w_claims := List.filter
             (fun d => negb (bool_decide (meta_Name (pvc_meta d) = meta_Name (pvc_meta c)))) (w_claims w) |>
  | _ => fun _ => w
  end o.

Definition answer_call (c : kcall) (w : world) : kanswer c * world :=
  match c return kanswer c * world with
  | KGet k key => (get k key w, w)
  | KUpdate k o => (None, store k o w)
  | KPatch k o => (None, store k o w)
  | KStatusUpdate k o => if w_writes w then (None, store k o w) else (Some unavailable, w)
  | KCreate k o => (None, create k o w)
  | KDelete k o => (None, delete k o w)
  | KListPods _ _ => (Ok [], w)
  | KListVirtualMachines => (Ok [], w)
  | KListPVCs _ _ => (Ok [], w)
  | KListProviders _ => (Ok [], w)
  | Resolve p => (Ok (demo_instance p), w)
  | Describe _ _ => (Ok (mkDescribeResponse true (if w_running w then "On" else "Off") [] "" ∅), w)
  | Power _ _ _ => (Ok "", w <| w_running := false |>)
  | IsTaskComplete _ _ => (Ok true, w)
  | TaskStatus _ _ => (Ok (mkTaskStatus true "" ""), w)
  | SnapshotCreate _ _ => (Ok (mkSnapshotCreateResponse "snap-1" None), w)
  | SnapshotDelete _ _ _ => (Ok "", w)
  | ExportDisk _ _ => (Ok (mkExportDiskResponse "exp-1" (w_export_task w) 4096 "sha256:aa"), w)
  | ImportDisk _ _ => (Ok (mkImportDiskResponse "disk-9" "/images/disk-9.qcow2" "" 4096 "sha256:bb"), w)
  | GetCapabilities _ => (Ok demo_capabilities, w)
  | Clone _ _ => (Err unavailable, w)
  | ListVMs _ => (Ok [], w)
  | MapLoad key => (bool_decide (key ∈ w_markers w), w)
  | MapLoadOrStore key => (bool_decide (key ∈ w_markers w), w <| w_markers := key :: w_markers w |>)
  | MapDelete key => (tt, w <| w_markers := List.filter (fun k => negb (bool_decide (k = key))) (w_markers w) |>)
  | LookupIP _ => (Err not_found, w)
  | Stat path => (StatDir, w)
  | Remove _ => (None, w)
  | TimeNow => (0, w)
  | Sleep _ => (tt, w)
  | Event _ _ _ => (tt, w)
  | CountError _ => (tt, w)
  end.

Definition demo_reconciler : VMMigrationReconciler := mkMigrationReconciler true None.

Definition demo_spec : VMMigrationSpec :=
  mkVMMigrationSpec
    (mkMigrationSource (mkLocalRef "web") None None true true true)
    (mkMigrationTarget "web-2" "" (mkObjectRef "kvm-b" "") None [] None ∅ ∅)
    (Some (mkMigrationOptions "" false true (Some (mkMigrationRetryPolicy (Some 2) None None)) "OnSuccess"))
    (Some (mkMigrationStorage "nfs" "" None
             (Some (mkNFSStorageConfig "10.0.0.9" "/exports" "" None None)) None)).

Definition fresh_status : VMMigrationStatus :=
  mkVMMigrationStatus MigrationPhaseUnset "" "" "" "" "" "" None None None None "" [] 0 None.

Definition demo_meta : ObjectMeta :=
  mkObjectMeta "move" "default" "0123456789ab" 1 "1" ∅ ∅ [migrationFinalizer] None None.
Definition demo_migration : VMMigration := mkVMMigration demo_meta demo_spec fresh_status.

Definition demo_source : VirtualMachine :=
  mkVM (mkObjectMeta "web" "default" "vm-uid" 1 "1" ∅ ∅ [] None None)
    (mkVMSpec (mkObjectRef "kvm-a" "") (mkObjectRef "small" "") None None [] [] None None None "On" [] None None)
    (mkVMStatus "vm-1" "On" [] "" [ready_condition] 1 "" ∅ "" None None VirtualMachinePhaseRunning).

Definition demo_world (m : VMMigration) : world := mkWorld m [demo_source] [] [] true "" true.

(** The trace, the outcome and the world after one reconcile of the stored
    migration, and after several. *)
Definition one (w : world) : ktrace * outcome migration_result * world :=
  exec answer_call (reconcile_migration demo_reconciler (w_migration w)) w.
Fixpoint after (n : nat) (w : world) : world :=
  match n with O => w | S n' => after n' (one w).2 end.

Definition phases (n : nat) (w : world) : list MigrationPhase :=
  (fun k => mig_Phase (mig_Status (w_migration (after k w)))) <$> seq 0 n.

Lemma one_runs w : runs (reconcile_migration demo_reconciler (w_migration w)) (one w).1.1 (one w).1.2.
Proof. apply exec_runs. Qed.

(** The migration of the demo after [n] reconciles, and the trace of the next. *)
Definition start : world := demo_world demo_migration.
Definition migration_at (n : nat) : VMMigration := w_migration (after n start).
Definition trace_at (n : nat) : ktrace := (one (after n start)).1.1.

Lemma trace_at_runs n :
  runs (reconcile_migration demo_reconciler (migration_at n)) (trace_at n) (one (after n start)).1.2.
Proof. apply one_runs. Qed.

(** The demo migration runs through its phases, then cleans up. *)
Example demo_migration_completes :
  phases 10 (demo_world demo_migration)
    = [MigrationPhaseUnset; MigrationPhasePending; MigrationPhaseValidating; MigrationPhaseValidating;
       MigrationPhaseSnapshotting; MigrationPhaseExporting; MigrationPhaseImporting; MigrationPhaseCreating;
       MigrationPhaseCreating; MigrationPhaseValidatingTarget]
  /\ mig_Phase (mig_Status (w_migration (after 11 (demo_world demo_migration)))) = MigrationPhaseReady.
Proof. vm_compute. split; reflexivity. Qed.
End DemoMigration.
