(* ===== verification/MigrationProps.v ===== *)
(** * MigrationProps: what the migration controller guarantees

    Consequences of [MigrationRefine] for one reconcile, for the sequence of
    reconciles of a migration, and for reconciles that run side by side. *)
From S2P Require Import Prelude Contracts K8s Api Effects GoLib NetIP GrpcClient CoreApi MigrationApi Cluster Storage StorageProps TraceSpec MigrationHelpers Migration MigrationSpec MigrationRefine MigrationDemo.
From stdpp Require Import base gmap strings list.
From Stdlib Require Import ZArith Lia.
Import v1beta1.
#[local] Open Scope Z_scope.

(** The statuses a run wrote, and the one that was stored last. *)
Definition accepted (x : event kcall kanswer) : option VMMigrationStatus :=
  match x with
  | existT (KStatusUpdate KVMMigration m') None => Some (mig_Status m')
  | _ => None
  end.
Definition stored (s : VMMigrationStatus) (tr : ktrace) : VMMigrationStatus :=
  List.last (omap accepted tr) s.

(** ** The life of a migration

    [life r m n m']: reconciles that each read what was stored last lead from [m]
    to [m'], the spec stays, and [n] of them changed the phase.  Other writers may
    change the metadata. *)
Section Life.
Context `{Lib : Libraries} `{CLib : ClusterLibraries} `{COk : !ClusterLibrariesOk} `{Codec : OptionsCodec}.
Context (r : VMMigrationReconciler).

Inductive life (m : VMMigration) : nat -> VMMigration -> Prop :=
  | life_start m' : mig_Spec m' = mig_Spec m -> mig_Status m' = mig_Status m -> life m 0 m'
  | life_step n m1 m2 tr o :
      life m n m1 -> runs (reconcile_migration r m1) tr o ->
      mig_Spec m2 = mig_Spec m1 -> mig_Status m2 = stored (mig_Status m1) tr ->
      life m (if bool_decide (phase_of m2 = phase_of m1) then n else S n) m2.

Definition phase_rank (p : MigrationPhase) : Z :=
  match p with
  | MigrationPhaseUnset => 11
  | MigrationPhasePending => 10
  | MigrationPhaseValidating => 9
  | MigrationPhaseSnapshotting => 8
  | MigrationPhaseExporting => 7
  | MigrationPhaseTransferring | MigrationPhaseConverting => 6
  | MigrationPhaseImporting => 5
  | MigrationPhaseCreating => 4
  | MigrationPhaseValidatingTarget => 3
  | MigrationPhaseFailed => 1
  | MigrationPhaseReady | MigrationPhaseOther _ => 0
  end.

Definition retries_left (m : VMMigration) : Z :=
  match retryPolicy m with
  | Some p => Z.max 0 (maxRetries p - mig_RetryCount (mig_Status m))
  | None => 0
  end.
Definition life_measure (m : VMMigration) : Z := 12 * retries_left m + phase_rank (phase_of m).

(** The retry count and its bound are [int32]. *)
Definition int32_counts (m : VMMigration) : Prop :=
  - 2 ^ 31 <= mig_RetryCount (mig_Status m) < 2 ^ 31
  /\ forall p, retryPolicy m = Some p -> maxRetries p < 2 ^ 31.

Lemma life_measure_nonneg m : 0 <= life_measure m.
Proof.
  unfold life_measure, retries_left. destruct (retryPolicy m), (phase_of m); cbn [phase_rank]; lia.
Qed.

Lemma status_step_measure h m m' :
  int32_counts m -> mig_Spec m' = mig_Spec m -> status_step r m h (mig_Status m') ->
  int32_counts m' /\ (phase_of m' = phase_of m -> life_measure m' <= life_measure m)
  /\ (phase_of m' <> phase_of m -> life_measure m' < life_measure m).
Proof.
  intros [Hc Hmax] Hspec Hs.
  assert (retryPolicy m' = retryPolicy m) as Hpol by (unfold retryPolicy; by rewrite Hspec).
  assert (mig_RetryCount (mig_Status m') = mig_RetryCount (mig_Status m) ->
          phase_rank (phase_of m') < phase_rank (phase_of m) \/ phase_of m' = phase_of m ->
          int32_counts m' /\ (phase_of m' = phase_of m -> life_measure m' <= life_measure m)
          /\ (phase_of m' <> phase_of m -> life_measure m' < life_measure m)) as Hsame.
  { intros Hn Hrank. unfold int32_counts, life_measure, retries_left. rewrite Hpol, Hn.
    split; [done|]. split; [intros ->; lia|]. intros Hne. destruct Hrank; [lia|done]. }
  destruct Hs as [Hp Hp' [Hn _]|Hp Hp' [Hn _]|Hp Hp' [Hn _]|? ? ? Hp _ Hp' _ _ _ [Hn _]|Hp Hp' _ [Hn _]
                 |? ? ? Hp Hp' _ _ _ (Hn & _)|? ? ? Hp Hp' _ _ (Hn & _)|Hp Hp' _ [Hn _]
                 |Hp Hp' [Hn _]|? ? ? ? Hp Hp' _ _ _ (Hn & _)|? ? ? ? Hp Hp' _ _ (Hn & _)|Hp Hp' _ [Hn _]
                 |? Hp Hp' _ _ _ _ [Hn _]|? ? Hp Hp' _ _ _ _ [Hn _]|Hp Hp' _ _ [Hn _]
                 |p Hp Hp' Hpp Hlt Hn _ _].
  all: try (apply Hsame; [exact Hn|]; change (mig_Phase (mig_Status m')) with (phase_of m') in Hp').
  all: try (rewrite Hp, Hp'; cbn [phase_rank]; first [by right|left; lia]).
  - by right.
  - rewrite Hp, Hp'. left. destruct (ms_CreateSnapshot _); cbn [phase_rank]; lia.
  - rewrite Hp'. left. destruct Hp as [->| ->]; cbn [phase_rank]; lia.
  - rewrite Hp'. left. unfold failing_phases in Hp. set_unfold in Hp.
    repeat destruct Hp as [->|Hp]; try done; cbn [phase_rank]; lia.
  - clear Hsame. specialize (Hmax _ Hpp). rewrite to_int32_id in Hn by lia.
    change (mig_Phase (mig_Status m')) with (phase_of m') in Hp'.
    unfold int32_counts, life_measure, retries_left. rewrite Hpol, Hpp, Hn, Hp, Hp'. cbn [phase_rank].
    split; [split; [lia|by intros ? [= <-]]|]. split; [done|]. intros _. lia.
Qed.

(** What is stored after a reconcile is what was read, or a step from it. *)
Lemma migration_stored_cases m tr o :
  runs (reconcile_migration r m) tr o ->
  stored (mig_Status m) tr = mig_Status m
  \/ exists h, status_step r m h (stored (mig_Status m) tr).
Proof.
  intros Hr%reconcile_conforms. unfold stored.
  destruct (omap accepted tr) as [|s l] eqn:Hl; [by left|right].
  assert (List.last (s :: l) (mig_Status m) ∈ omap accepted tr) as Hin.
  { rewrite Hl.
    destruct (exists_last (l := s :: l)) as (l' & x & ->); [done|].
    rewrite last_last. apply elem_of_app. right. by left. }
  rewrite <- Hl. rewrite <- Hl in Hin. apply list_elem_of_omap in Hin as (x & Hx & Ha).
  destruct (conforms_elem _ _ _ Hr Hx) as (pre & post & _ & Hrule). exists pre.
  destruct x as [[] ans]; try done. destruct k; try done. destruct ans; [done|].
  cbn in Ha. injection Ha as Ha. rewrite <- Ha. apply Hrule.
Qed.

Lemma life_measure_bound m n m' :
  int32_counts m -> life m n m' ->
  int32_counts m' /\ Z.of_nat n + life_measure m' <= life_measure m.
Proof.
  intros Hc. induction 1 as [m' Hspec Hst|n m1 m2 tr o _ [Hc1 IH] Hr Hspec Hst].
  - unfold int32_counts, life_measure, retries_left, phase_of, retryPolicy in *. rewrite Hspec, Hst.
    split; [done|lia].
  - destruct (migration_stored_cases m1 tr o Hr) as [Heq|(h & Hs)].
    + rewrite Heq in Hst.
      assert (phase_of m2 = phase_of m1) as Hp by (unfold phase_of; by rewrite Hst).
      rewrite bool_decide_eq_true_2 by done.
      unfold int32_counts, life_measure, retries_left, phase_of, retryPolicy in *. rewrite Hspec, Hst.
      split; [done|lia].
    + rewrite <- Hst in Hs. destruct (status_step_measure h m1 m2 Hc1 Hspec Hs) as (Hc2 & H1 & H2).
      split; [done|]. case_bool_decide as Hp; [specialize (H1 Hp)|specialize (H2 Hp)]; lia.
Qed.
End Life.

Section Props.
Context `{Lib : Libraries} `{CLib : ClusterLibraries} `{COk : !ClusterLibrariesOk} `{Codec : OptionsCodec}.
Context (r : VMMigrationReconciler).

(** A call of a run, with the calls before it and the rule it followed. *)
Lemma run_allowed m tr o (c : kcall) (a : kanswer c) :
  runs (reconcile_migration r m) tr o -> kev c a ∈ tr ->
  exists pre post, tr = pre ++ kev c a :: post /\ allowed r m pre c.
Proof. intros Hr%reconcile_conforms Hin. exact (conforms_elem _ _ _ Hr Hin). Qed.

(** C2. A reconcile begins by reading the migration and then only makes calls
    that the abstract specification of the controller allows: every status it
    writes is a step of the phase machine, and every call that changes the
    cluster, a provider or the guard is made under its rule. *)
Theorem Reconcile_follows_the_rules key tr o :
  runs (Migration_Reconcile r key) tr o ->
  exists got rest, tr = kev (KGet KVMMigration key) got :: rest
    /\ match got with
       | Ok m => conforms (rule r m) [] rest
       | Err e => api_IsNotFound e = true /\ rest = []
                  \/ api_IsNotFound e = false /\ o = Done (no_result, Some e)
       end.
Proof.
  unfold Migration_Reconcile.
  intros [(tr1 & tr2 & got & -> & Hg & Hr)|(w & Hg & ->)]%runs_bind_inv.
  - destruct Hg as (a & tr' & -> & -> & [= ->]). exists a, tr2. split; [done|].
    destruct a as [m|e]; [by apply reconcile_conforms in Hr|].
    destruct (api_IsNotFound e) eqn:He; [left; by destruct Hr|right]. split; [done|].
    destruct Hr as (u & tr' & -> & _ & ->). done.
  - by destruct Hg as (a & tr' & _ & _ & [=]).
Qed.

(** C6. However often a migration is reconciled, as long as each reconcile reads
    what was stored last its phase changes at most twelve times per retry it has
    left, and eleven times more: retries end, and every migration comes to rest. *)
Theorem phase_changes_are_bounded m n m' :
  int32_counts m -> life r m n m' -> Z.of_nat n <= 12 * retries_left m + 11.
Proof.
  intros Hc Hl. destruct (life_measure_bound r m n m' Hc Hl) as [_ Hb].
  pose proof (life_measure_nonneg m'). unfold life_measure in Hb at 2.
  assert (phase_rank (phase_of m) <= 11) by (by destruct (phase_of m)). lia.
Qed.

(** C14. The controller deletes a virtual machine only in two cases: the source of
    a migration that is Ready, not yet cleaned up and asks for it, or, when the
    migration itself is deleted before it got past its target, a target VM that
    names this migration in its annotations and is not marked as completed.  The
    VM is the one it read under the source's, or the target's, key. *)
Theorem deleted_vms_are_the_migrations_own m tr o vm a :
  runs (reconcile_migration r m) tr o -> kev (KDelete KVirtualMachine vm) a ∈ tr ->
  (meta_DeletionTimestamp (mig_meta m) = None /\ phase_of m = MigrationPhaseReady
   /\ ms_DeleteAfterMigration (mig_Source (mig_Spec m)) = true /\ cleaned_up m = false
   /\ kev (KGet KVirtualMachine (sourceKey m)) (Ok vm) ∈ tr)
  \/ (meta_DeletionTimestamp (mig_meta m) <> None
      /\ (phase_of m = MigrationPhaseFailed \/ phase_of m = MigrationPhaseCreating)
      /\ meta_Annotations (vm_meta vm) !! migration_completed_annotation <> Some "true"
      /\ meta_Annotations (vm_meta vm) !! "virtrigaud.io/migration"
         = Some (mig_Namespace m +:+ "/" +:+ mig_Name m)
      /\ kev (KGet KVirtualMachine (targetVMKey m)) (Ok vm) ∈ tr).
Proof.
  intros Hr Hin. destruct (run_allowed _ _ _ _ _ Hr Hin) as (pre & post & -> & Hd).
  cbn in Hd. destruct Hd as [([Hl Hp] & Hdel & Hc & Hget)|(Hl & Hp & Hpt & Hget)].
  - left. split_and!; try done. by apply elem_of_history.
  - right. apply andb_true_iff in Hpt as [Hn Hm]. emptiness.
    apply bool_decide_eq_false in Hn. apply bool_decide_eq_true in Hm.
    split_and!; try done. by apply elem_of_history.
Qed.

(** A status that leaves validation for the snapshot or the export. *)
Lemma leaving_validation m h s :
  phase_of m = MigrationPhaseValidating -> status_step r m h s ->
  mig_Phase s = MigrationPhaseSnapshotting \/ mig_Phase s = MigrationPhaseExporting ->
  exists source target m1, view m h m1 /\ read_providers m h source target
    /\ storage_checked r m h source target s
    /\ (ms_PowerOffBeforeMigration (mig_Source (mig_Spec m1)) = true -> source_stopped m1 h).
Proof.
  intros Hp Hs Hp'.
  destruct Hs as [| | | source target m1 _ Hv Hm' Hr Hst Hpo _ | | | | | | | | | | | | ]; try congruence.
  - destruct Hp'; congruence.
  - eauto 8.
  - naive_solver congruence.
  - destruct Hp'; congruence.
Qed.

(** A migration leaves validation for the snapshot or the export only when
    the migration, as read or re-read, does not ask for the source to be stopped,
    or the provider has just described the source as Off and its desired power
    state is Off too. *)
Theorem export_starts_from_a_stopped_source m tr o m' a :
  runs (reconcile_migration r m) tr o -> phase_of m = MigrationPhaseValidating ->
  kev (KStatusUpdate KVMMigration m') a ∈ tr ->
  phase_of m' = MigrationPhaseSnapshotting \/ phase_of m' = MigrationPhaseExporting ->
  exists m1, view m tr m1
    /\ (ms_PowerOffBeforeMigration (mig_Source (mig_Spec m1)) = true -> source_stopped m1 tr).
Proof.
  intros Hr Hp Hin Hp'. destruct (run_allowed _ _ _ _ _ Hr Hin) as (pre & post & -> & _ & Hs).
  destruct (leaving_validation m pre (mig_Status m') Hp Hs Hp') as (_ & _ & m1 & Hv & _ & _ & Ho).
  exists m1. split; [by apply view_mono|]. intros Hpo. apply source_stopped_mono; auto.
Qed.

(** A migration staged over the network leaves validation only when the NFS
    server, or the host of the S3 endpoint, resolved to addresses that the host
    policy permits: no loopback, link-local, multicast or unspecified address, and
    none outside a configured allow list. *)
Theorem staging_hosts_are_permitted m tr o m' a st :
  runs (reconcile_migration r m) tr o -> phase_of m = MigrationPhaseValidating ->
  kev (KStatusUpdate KVMMigration m') a ∈ tr ->
  phase_of m' = MigrationPhaseSnapshotting \/ phase_of m' = MigrationPhaseExporting ->
  mig_Storage (mig_Spec m) = Some st ->
  (mst_Type st = BackendNFS ->
     exists nfs, mst_NFS st = Some nfs /\ host_permitted (storageHostPolicy r) (nfsc_Server nfs) tr)
  /\ (mst_Type st = BackendS3 ->
     exists s3, mst_S3 st = Some s3
       /\ let host := hostFromS3Endpoint (s3c_Endpoint s3) in
          host_permitted (storageHostPolicy r) (if is_empty host then "s3.amazonaws.com" else host) tr).
Proof.
  intros Hr Hp Hin Hp' Hst. destruct (run_allowed _ _ _ _ _ Hr Hin) as (pre & post & -> & _ & Hs).
  destruct (leaving_validation m pre (mig_Status m') Hp Hs Hp') as (source & target & _ & _ & _ & [_ Hc] & _).
  rewrite Hst, (migrationBackendType_type m st Hst) in Hc.
  split; intros Ht; rewrite Ht in Hc; cbn in Hc; naive_solver eauto using host_permitted_history.
Qed.

(** A migration becomes Ready only from target validation, in a reconcile that
    read the target VM with a true Ready condition and tried to mark it as
    completed, and it records the VM's provider identifier. *)
Theorem ready_means_a_ready_target m tr o m' a :
  runs (reconcile_migration r m) tr o -> kev (KStatusUpdate KVMMigration m') a ∈ tr ->
  phase_of m' = MigrationPhaseReady -> phase_of m <> MigrationPhaseReady ->
  phase_of m = MigrationPhaseValidatingTarget
  /\ exists vm at_ e, kev (KGet KVirtualMachine (targetVMKey m)) (Ok vm) ∈ tr
       /\ IsConditionTrue (status_Conditions (vm_Status vm)) "Ready" = true
       /\ mig_TargetVMID (mig_Status m') = status_ID (vm_Status vm)
       /\ kev (KUpdate KVirtualMachine (mark_completed vm at_)) e ∈ tr.
Proof.
  intros Hr Hin Hp' Hne. destruct (run_allowed _ _ _ _ _ Hr Hin) as (pre & post & -> & _ & Hs).
  destruct Hs as [| | | ? ? ? _ _ Hm' | | | | | | | | | |vm at_ Hp Hm' Hg Hrd Hid [e He] _ | | ];
    unfold phase_of in *; try congruence.
  - destruct (ms_CreateSnapshot _); congruence.
  - split; [done|]. exists vm, at_, e. split_and!; [by apply elem_of_history|done|done|by apply elem_of_history].
Qed.

(** ** Failures *)

(** A failed migration without a retry policy, or with its retries used up, is
    left alone: its reconcile makes no call at all, so the snapshot it took of the
    source stays, although the handler of the failed phase would remove it. *)
Theorem terminal_failure_keeps_the_snapshot m tr o :
  runs (reconcile_migration r m) tr o ->
  meta_DeletionTimestamp (mig_meta m) = None ->
  ContainsFinalizer (meta_Finalizers (mig_meta m)) migrationFinalizer = true ->
  phase_of m = MigrationPhaseFailed -> permanently_failed m = true ->
  tr = [] /\ o = Done (no_result, None).
Proof.
  intros Hr Hd Hf Hp Hpf. unfold reconcile_migration in Hr. unfold phase_of in Hp.
  rewrite Hd, Hf, Hp, Hpf in Hr. exact Hr.
Qed.

(** A retry keeps the identifiers and the disk record of the attempt that
    failed.  When that attempt had started its export, no later reconcile that
    still has them exports again: an export that failed on the provider is taken
    for done. *)
Theorem retry_does_not_export_again m tr o m' a m2 tr2 o2 i req x :
  runs (reconcile_migration r m) tr o -> phase_of m = MigrationPhaseFailed ->
  mig_ExportID (mig_Status m) <> "" ->
  kev (KStatusUpdate KVMMigration m') a ∈ tr ->
  runs (reconcile_migration r m2) tr2 o2 ->
  transfer_state (mig_Status m2) = transfer_state (mig_Status m') ->
  phase_of m' = MigrationPhasePending /\ ~ kev (ExportDisk i req) x ∈ tr2.
Proof.
  intros Hr Hp Hid Hin Hr2 Hts. destruct (run_allowed _ _ _ _ _ Hr Hin) as (pre & post & -> & _ & Hs).
  assert (phase_of m' = MigrationPhasePending /\ transfer_state (mig_Status m') = transfer_state (mig_Status m))
    as [Hp' Hk].
  { destruct Hs; try congruence; try done.
    - exfalso. unfold waiting_phases in *. rewrite Hp in *. set_solver.
    - naive_solver congruence.
    - exfalso. unfold failing_phases in *. rewrite Hp in *. set_solver. }
  split; [done|]. intros Hx. destruct (run_allowed _ _ _ _ _ Hr2 Hx) as (pre2 & post2 & _ & He).
  destruct He as (_ & Hid2 & _). unfold transfer_state in *. congruence.
Qed.

(** ** Deleting a migration *)
Definition is_claim_read (c : kcall) : bool := match c with KGet KPVC _ => true | _ => false end.

(** The claim an event read. *)
Definition claim_read (x : event kcall kanswer) : option PersistentVolumeClaim :=
  match x with existT (KGet KPVC _) (Ok pvc) => Some pvc | _ => None end.

(** Every claim that was read was then deleted. *)
Definition claims_deleted (tr : ktrace) : Prop :=
  forall key pvc, kev (KGet KPVC key) (Ok pvc) ∈ tr -> exists a, kev (KDelete KPVC pvc) a ∈ tr.

Lemma claims_deleted_app tr1 tr2 : claims_deleted tr1 -> claims_deleted tr2 -> claims_deleted (tr1 ++ tr2).
Proof.
  intros H1 H2 key pvc [Hin|Hin]%elem_of_app.
  - destruct (H1 key pvc Hin) as [a Ha]. exists a. apply elem_of_app. by left.
  - destruct (H2 key pvc Hin) as [a Ha]. exists a. apply elem_of_app. by right.
Qed.

Lemma claims_deleted_silent {A} (p : KM A) :
  silent is_claim_read p -> wp p (fun tr _ => claims_deleted tr).
Proof.
  intros Hs. eapply wp_mono; [exact Hs|]. cbn. intros tr o Ho key pvc Hin. exfalso.
  by refine (occurs_false_elem (R := kanswer) is_claim_read _ _ tr Ho _ Hin).
Qed.

Lemma silent_deleteSourceSnapshot m : silent is_claim_read (deleteSourceSnapshot m).
Proof.
  unfold deleteSourceSnapshot, getSourceVM, getProvider, getProviderInstance, awaitSnapshotDelete, await_task.
  solve_silent.
Qed.

Lemma silent_cleanupIntermediateStorage m : silent is_claim_read (cleanupIntermediateStorage m).
Proof.
  unfold cleanupIntermediateStorage, NewPVCStorage, verifyMount, PVCStorage_Delete. solve_silent.
Qed.

Lemma delete_claim_deletes m : wp (delete_claim m) (fun tr _ => claims_deleted tr).
Proof.
  unfold delete_claim. destruct (is_empty _); [by apply claims_deleted_silent, silent_Ret|].
  cbn. intros [pvc|e]; cbn.
  - intros a key pvc' Hin. set_unfold in Hin. destruct Hin as [Hin|[Hin|[]]]; [|done].
    apply (f_equal claim_read) in Hin. injection Hin as ->. exists a. set_solver.
  - intros key pvc' Hin. set_unfold in Hin. destruct Hin as [Hin|[]].
    by apply (f_equal claim_read) in Hin.
Qed.

(** Deleting a migration deletes the claim it staged through, also when the
    claim was there before and the user named it in the spec: whatever claim the
    clean-up reads, it deletes, with no look at who made it. *)
Theorem deletion_removes_the_claim m tr o pvc :
  runs (reconcile_migration r m) tr o -> meta_DeletionTimestamp (mig_meta m) <> None ->
  kev (KGet KPVC (mkKey (mig_Namespace m) (mig_StoragePVCName (mig_Status m)))) (Ok pvc) ∈ tr ->
  exists a, kev (KDelete KPVC pvc) a ∈ tr.
Proof.
  intros Hr Hd Hin. unfold reconcile_migration in Hr.
  destruct (meta_DeletionTimestamp (mig_meta m)) as [t|]; [|done].
  assert (claims_deleted tr) as Hc; [|by eapply Hc].
  revert Hr. apply (proj1 (wp_runs _ (fun tr _ => claims_deleted tr))). clear Hin. unfold handleDeletion.
  apply wp_bind_closed; [exact claims_deleted_app| |intros e1].
  { apply claims_deleted_silent. pose proof silent_cleanupIntermediateStorage. unfold delete_storage. solve_silent. }
  apply wp_bind_closed; [exact claims_deleted_app|apply delete_claim_deletes|intros e2].
  apply claims_deleted_silent. pose proof silent_deleteSourceSnapshot.
  unfold delete_snapshot, delete_target, remove_finalizer. solve_silent.
Qed.
End Props.

(** ** Witnesses on the demo cluster *)
Section Witnesses.
Import DemoLibraries DemoCluster DemoMigration.

Lemma Reconcile_follows_the_rules_witness :
  exists got rest,
    (exec answer_call (Migration_Reconcile demo_reconciler (mkKey "default" "move")) start).1.1
      = kev (KGet KVMMigration (mkKey "default" "move")) got :: rest
    /\ match got with
       | Ok m => conforms (rule demo_reconciler m) [] rest
       | Err e => api_IsNotFound e = true /\ rest = []
                  \/ api_IsNotFound e = false
                     /\ (exec answer_call (Migration_Reconcile demo_reconciler (mkKey "default" "move")) start).1.2
                        = Done (no_result, Some e)
       end.
Proof. exact (Reconcile_follows_the_rules demo_reconciler _ _ _ (exec_runs answer_call _ start)). Defined.

Lemma phase_changes_are_bounded_witness : (Z.of_nat 2 <= 12 * retries_left demo_migration + 11)%Z.
Proof.
  refine (phase_changes_are_bounded demo_reconciler demo_migration 2 (migration_at 2) _ _).
  - split; [by vm_compute|]. intros p [= <-]. by vm_compute.
  - refine (life_step demo_reconciler demo_migration 1 (migration_at 1) (migration_at 2) (trace_at 1) _ _
              (trace_at_runs 1) _ _); [|by vm_compute..].
    refine (life_step demo_reconciler demo_migration 0 demo_migration (migration_at 1) (trace_at 0) _ _
              (trace_at_runs 0) _ _); [|by vm_compute..].
    by apply life_start.
Defined.

Lemma deleted_vms_are_the_migrations_own_witness :
  kev (KGet KVirtualMachine (sourceKey (migration_at 10))) (Ok (stopped demo_source)) ∈ trace_at 10.
Proof.
  destruct (deleted_vms_are_the_migrations_own demo_reconciler (migration_at 10) (trace_at 10) _
              (stopped demo_source) None (trace_at_runs 10)) as [(_ & _ & _ & _ & Hin)|(Hd & _)].
  - apply (list_elem_of_lookup_2 _ 8). vm_compute. reflexivity.
  - exact Hin.
  - destruct Hd. vm_compute. reflexivity.
Defined.

End Witnesses.
