(* ===== verification/MigrationTransfer.v ===== *)
(** * MigrationTransfer: disks in transit

    What the status keeps of an export or an import: the disk an import landed is
    the one the target VM boots from, and what is forgotten when the status could
    not be written. *)
From S2P Require Import Prelude Contracts K8s Api Effects GoLib NetIP GrpcClient CoreApi MigrationApi Cluster Storage StorageProps TraceSpec MigrationHelpers Migration MigrationSpec MigrationRefine MigrationDemo MigrationProps.
From stdpp Require Import base gmap strings list.
From Stdlib Require Import ZArith Lia.
Import v1beta1.
#[local] Open Scope Z_scope.

(** ** What a handler writes *)
Lemma update_loop_writes left attempt m' :
  wp (update_loop left attempt m') (fun tr _ => forall s, s ∈ omap accepted tr -> s = mig_Status m').
Proof.
  revert attempt m'. induction left as [|left IH]; intros attempt m'; cbn [update_loop].
  - cbn. set_solver.
  - wp_step. wp_step. wp_step. destruct r as [err|]; [|cbn; set_solver].
    destruct (_ && _); [|cbn; set_solver]. do 3 wp_step. do 3 wp_step.
    destruct r0 as [fresh|e]; [|cbn; set_solver]. eapply wp_mono; [apply IH|]. cbn. auto.
Qed.

Lemma save_writes m' res :
  wp (save_and_return m' res) (fun tr _ => forall s, s ∈ omap accepted tr -> s = mig_Status m').
Proof.
  unfold save_and_return, updateStatus. apply wp_bind. eapply wp_mono; [apply update_loop_writes|].
  intros tr [[e ?]|w] Htr; cbn [bind_post]; [|done]. destruct e; cbn; by rewrite app_nil_r.
Qed.

(** A test on calls, for silence. *)
Definition is_load (c : kcall) : bool := match c with MapLoad _ => true | _ => false end.
Definition is_poll (c : kcall) : bool := match c with IsTaskComplete _ _ => true | _ => false end.
Definition is_import (c : kcall) : bool := match c with ImportDisk _ _ => true | _ => false end.

(** Tests that ignore the bookkeeping of a handler: status writes, clock, events. *)
Definition ignores_status (f : kcall -> bool) : Prop :=
  (forall k o, f (KStatusUpdate k o) = false) /\ (forall d, f (Sleep d) = false)
  /\ (forall k key, f (KGet k key) = false) /\ f TimeNow = false /\ (forall a b c, f (Event a b c) = false).

Lemma silent_save f m' res : ignores_status f -> silent f (save_and_return m' res).
Proof.
  intros (Hu & Hs & Hg & _). unfold save_and_return, updateStatus.
  apply silent_bind; [by apply silent_update_loop|]. intros [[e|] ?]; apply silent_Ret.
Qed.

Lemma silent_migration_condition f m' t s reason msg : ignores_status f -> silent f (set_condition m' t s reason msg).
Proof. intros (_ & _ & _ & Ht & _). unfold set_condition. solve_silent. Qed.

Lemma silent_event f a b c : ignores_status f -> silent f (kdo (Event a b c)).
Proof. intros (_ & _ & _ & _ & He). exact (@silent_trigger kcall kanswer f _ (He a b c)). Qed.

Lemma silent_fail f m' msg : ignores_status f -> silent f (transitionToFailed m' msg).
Proof.
  intros Hf. pose proof Hf as (_ & _ & _ & Ht & _). pose proof silent_migration_condition. pose proof silent_event.
  unfold transitionToFailed. apply silent_bind; [exact (@silent_trigger kcall kanswer f _ Ht)|intros now].
  apply silent_bind; [auto|intros m1]. apply silent_bind; [auto|intros m2].
  apply silent_bind; [auto|intros _]. by apply silent_save.
Qed.

Lemma silent_export_complete f m' event res : ignores_status f -> silent f (export_complete m' event res).
Proof.
  intros Hf. unfold export_complete. apply silent_bind; [by apply silent_migration_condition|intros m1].
  apply silent_bind; [by apply silent_event|intros _]. by apply silent_save.
Qed.

Lemma ignores_load : ignores_status is_load. Proof. by split_and!. Qed.
Lemma ignores_poll : ignores_status is_poll. Proof. by split_and!. Qed.
Lemma ignores_import : ignores_status is_import. Proof. by split_and!. Qed.
#[local] Hint Resolve ignores_load ignores_poll ignores_import : core.
#[local] Hint Resolve silent_save silent_migration_condition silent_fail silent_export_complete : silent.

Section Transfer.
Context `{Lib : Libraries} `{CLib : ClusterLibraries} `{COk : !ClusterLibrariesOk} `{Codec : OptionsCodec}.
Context (r : VMMigrationReconciler).

(** ** The guard without the status *)
Definition marker_seen (x : event kcall kanswer) : option bool :=
  match x with existT (MapLoad _) b => Some b | _ => None end.

(** A trace in which the guard was found set only moves the phase on. *)
Definition moves_on (tr : ktrace) : Prop :=
  (exists key, kev (MapLoad key) true ∈ tr) ->
  occurs is_poll tr = false /\ forall s, s ∈ omap accepted tr -> mig_Phase s = MigrationPhaseImporting.

Lemma moves_on_silent {A} (p : KM A) : silent is_load p -> wp p (fun tr _ => moves_on tr).
Proof.
  intros Hs. eapply wp_mono; [exact Hs|]. cbn. intros tr o Ho [key Hin]. exfalso.
  by refine (occurs_false_elem (R := kanswer) is_load _ _ tr Ho _ Hin).
Qed.

Definition is_busy (c : kcall) : bool := restricted c || is_load c || is_poll c.

Lemma moves_on_prefix tr1 tr2 : occurs is_busy tr1 = false -> moves_on tr2 -> moves_on (tr1 ++ tr2).
Proof.
  intros Ho Hm [key [Hin|Hin]%elem_of_app].
  - exfalso. by refine (occurs_false_elem (R := kanswer) is_busy _ _ tr1 Ho _ Hin).
  - destruct Hm as [Hp Hs]; [eauto|]. rewrite occurs_app, Hp, orb_false_r.
    assert (occurs is_poll tr1 = false /\ omap accepted tr1 = []) as [-> Ha].
    { clear -Ho. induction tr1 as [|[c a] tr1 IH]; [done|]. rewrite occurs_cons in Ho |- *.
      apply orb_false_iff in Ho as [Hc Ho]. destruct (IH Ho) as [-> Hacc].
      destruct c; try discriminate Hc; (split; [done|exact Hacc]). }
    split; [done|]. intros s. rewrite omap_app, Ha. apply Hs.
Qed.

Lemma export_found_writes m event res :
  wp (export_complete m event res)
    (fun tr _ => forall s, s ∈ omap accepted tr -> mig_Phase s = MigrationPhaseImporting).
Proof.
  unfold export_complete, set_condition. wp_steps.
  eapply wp_mono; [apply save_writes|]. cbn. intros tr o Htr s Hs. by rewrite (Htr s Hs).
Qed.

Lemma silent_start_export m vm i : silent is_load (start_export r m vm i).
Proof.
  unfold start_export, loadS3Credentials, gateProviderCapability, issue_export, markLongOpStarted. solve_silent.
Qed.

Lemma handleExportingPhase_moves_on m :
  mig_TaskRef (mig_Status m) = "" -> wp (handleExportingPhase r m) (fun tr _ => moves_on tr).
Proof.
  intros Ht. unfold handleExportingPhase, getSourceVM, getProvider, getProviderInstance.
  assert (moves_on []) as H0 by (intros [? []%not_elem_of_nil]).
  assert (forall m' msg, wp (transitionToFailed m' msg) (fun tr _ => moves_on tr)) as Hfail.
  { intros. apply moves_on_silent. auto with silent. }
  apply (wp_silent_prefix is_busy); [exact moves_on_prefix|done|solve_silent|intros [vm|e]; [|apply Hfail]].
  apply (wp_silent_prefix is_busy); [exact moves_on_prefix|done|solve_silent|intros [p|e]; [|apply Hfail]].
  apply (wp_silent_prefix is_busy); [exact moves_on_prefix|done|solve_silent|intros [i|e]; [|apply Hfail]].
  unfold long_op_issued, check_long_task, longOpAlreadyStarted. rewrite Ht. cbn [is_empty].
  destruct (_ || _); cbn [mbind prog_mbind prog_bind].
  { apply moves_on_silent. solve_silent. }
  intros [|]; cbn [mbind prog_mbind prog_bind trigger].
  - eapply wp_mono; [eapply wp_and; [apply export_found_writes|by apply (silent_export_complete is_poll)]|].
    cbn. intros tr o [Hw Hp] _. by split.
  - eapply wp_mono; [apply silent_start_export|]. cbn. intros tr o Ho [key Hin].
    exfalso. set_unfold in Hin. destruct Hin as [Hin|Hin].
    + by apply (f_equal marker_seen) in Hin.
    + by refine (occurs_false_elem (R := kanswer) is_load _ _ tr Ho _ Hin).
Qed.

(** The phase a live migration that carries the finalizer is handled in. *)
Lemma reconcile_handles m :
  meta_DeletionTimestamp (mig_meta m) = None ->
  ContainsFinalizer (meta_Finalizers (mig_meta m)) migrationFinalizer = true ->
  phase_of m <> MigrationPhaseUnset -> phase_of m <> MigrationPhaseFailed ->
  reconcile_migration r m = handle_phase r m.
Proof.
  intros Hd Hf Hu Hp. unfold reconcile_migration, phase_of in *. rewrite Hd, Hf.
  by rewrite !bool_decide_eq_false_2.
Qed.

(** When an export was issued but the status that should record it could not
    be written, the next reconcile finds only the in-memory marker: it polls no
    task and writes no phase but Importing, so the import of an export that still
    runs on the provider begins at once. *)
Theorem unrecorded_export_is_not_awaited m tr o key :
  runs (reconcile_migration r m) tr o ->
  meta_DeletionTimestamp (mig_meta m) = None ->
  ContainsFinalizer (meta_Finalizers (mig_meta m)) migrationFinalizer = true ->
  phase_of m = MigrationPhaseExporting -> mig_TaskRef (mig_Status m) = "" ->
  kev (MapLoad key) true ∈ tr ->
  (forall i t a, ~ kev (IsTaskComplete i t) a ∈ tr)
  /\ forall m', kev (KStatusUpdate KVMMigration m') None ∈ tr -> phase_of m' = MigrationPhaseImporting.
Proof.
  intros Hr Hd Hf Hp Ht Hin. rewrite reconcile_handles in Hr by congruence.
  unfold handle_phase in Hr. unfold phase_of in Hp. rewrite Hp in Hr.
  destruct (proj1 (wp_runs _ _) (handleExportingPhase_moves_on m Ht) _ _ Hr) as [Hpoll Hw]; [eauto|].
  split.
  - intros i t a Hx. by refine (occurs_false_elem (R := kanswer) is_poll _ _ tr Hpoll _ Hx).
  - intros m' Hx. apply Hw. apply list_elem_of_omap. by eexists.
Qed.

(** ** From the import to the target VM *)

Definition import_answer (x : event kcall kanswer) : option (res ImportDiskResponse) :=
  match x with existT (ImportDisk _ _) a => Some a | _ => None end.

(** The instance an import goes to. *)
Definition import_instance (x : event kcall kanswer) : option ProviderInstance :=
  match projT1 x with ImportDisk i _ => Some i | _ => None end.

(** Every status written after an import over [i] records what it answered, with the
    format of the provider [target]. *)
Definition import_kept (m : VMMigration) (target : Provider) (i : ProviderInstance) (tr : ktrace) : Prop :=
  forall pre i' req resp post, tr = pre ++ kev (ImportDisk i' req) (Ok resp) :: post ->
  i' = i /\ forall s, s ∈ omap accepted post ->
  import_recorded (mig_Status m) (landedTargetFormat target) resp s.

Lemma import_kept_prefix m target i0 tr1 tr2 :
  occurs is_import tr1 = false -> import_kept m target i0 tr2 -> import_kept m target i0 (tr1 ++ tr2).
Proof.
  intros Ho Hk pre i req resp post [(k & -> & Heq)|(k & -> & ->)]%app_eq_inv.
  - destruct k as [|x k]; cbn in Heq.
    + apply (Hk [] i req). by rewrite Heq.
    + injection Heq as <- _. exfalso.
      refine (occurs_false_elem (R := kanswer) is_import (ImportDisk i req) (Ok resp) _ Ho eq_refl _).
      apply elem_of_app. right. by left.
  - exact (Hk k i req resp post eq_refl).
Qed.

Lemma import_kept_silent {A} m target i0 (p : KM A) :
  silent is_import p -> wp p (fun tr _ => import_kept m target i0 tr).
Proof.
  intros Hs. eapply wp_mono; [exact Hs|]. cbn. intros tr o Ho pre i req resp post ->. exfalso.
  refine (occurs_false_elem (R := kanswer) is_import (ImportDisk i req) (Ok resp) _ Ho eq_refl _).
  apply elem_of_app. right. by left.
Qed.

(** After the import, the handler only writes the record. *)
Lemma import_kept_issued m target i req resp tr :
  (forall s, s ∈ omap accepted tr -> import_recorded (mig_Status m) (landedTargetFormat target) resp s) ->
  occurs is_import tr = false ->
  import_kept m target i (kev (ImportDisk i req) (Ok resp) :: tr).
Proof.
  intros Hw Ho pre i' req' resp' post Heq.
  destruct (first_occurrence_unique (R := kanswer) is_import [] [] (kev (ImportDisk i req) (Ok resp))
              (kev (ImportDisk i' req') (Ok resp')) tr post) as (_ & Heq' & ->); try done.
  - destruct pre as [|x pre]; [exact Heq|]. exfalso. injection Heq as _ ->.
    refine (occurs_false_elem (R := kanswer) is_import (ImportDisk i' req') (Ok resp') _ Ho eq_refl _).
    apply elem_of_app. right. by left.
  - pose proof (f_equal import_answer Heq') as Ha. injection Ha as <-.
    apply (f_equal import_instance) in Heq'. injection Heq' as <-. auto.
Qed.

Lemma import_kept_failed m target i req e tr :
  occurs is_import tr = false -> import_kept m target i (kev (ImportDisk i req) (Err e) :: tr).
Proof.
  intros Ho [|x pre] i' req' resp post Heq.
  - exfalso. by apply (f_equal (fun l => head l ≫= import_answer)) in Heq.
  - injection Heq as _ ->. exfalso.
    refine (occurs_false_elem (R := kanswer) is_import (ImportDisk i' req') (Ok resp) _ Ho eq_refl _).
    apply elem_of_app. right. by left.
Qed.

Lemma record_import_recorded m target resp s :
  transfer_state s = transfer_state (mig_Status (record_import m target resp)) ->
  mig_RetryCount s = mig_RetryCount (mig_Status m) ->
  import_recorded (mig_Status m) (landedTargetFormat target) resp s.
Proof.
  unfold transfer_state, import_recorded. intros Ht Hr. injection Ht as He Hi Hd.
  split_and!; [done|done|done|]. by eexists.
Qed.

Lemma issue_import_kept m target i req :
  wp (issue_import m target i req) (fun tr _ => import_kept m target i tr).
Proof.
  unfold issue_import, markLongOpStarted.
  assert (import_kept m target i []) as H0 by (intros [] ? ? ? ?; discriminate).
  apply (wp_silent_prefix is_import); [exact (import_kept_prefix m target i)|done|solve_silent|intros claimed].
  destruct (negb claimed); [by apply import_kept_silent, silent_Ret|].
  wp_step. wp_step. wp_step. destruct r0 as [resp|e]; cbn [app].
  - assert (forall p, wp p (fun tr _ => forall s, s ∈ omap accepted tr ->
              transfer_state s = transfer_state (mig_Status (record_import m target resp))
              /\ mig_RetryCount s = mig_RetryCount (mig_Status m)) -> silent is_import p ->
            wp p (fun tr (_ : outcome migration_result) => import_kept m target i (kev (ImportDisk i req) (Ok resp) :: tr))) as Hw.
    { intros p Hp Hs. eapply wp_mono; [apply (wp_and _ _ _ Hp Hs)|]. cbn. intros tr o [Ht Ho].
      apply import_kept_issued; [|done]. intros s Hin. destruct (Ht s Hin).
      by apply record_import_recorded. }
    destruct (negb _); apply Hw.
    + eapply wp_mono; [apply save_writes|]. cbn. intros tr o Htr s Hs. by rewrite (Htr s Hs).
    + apply silent_save, ignores_import.
    + unfold import_complete, set_condition. wp_steps.
      eapply wp_mono; [apply save_writes|]. cbn. intros tr o Htr s Hs. by rewrite (Htr s Hs).
    + unfold import_complete. apply silent_bind; [by apply silent_migration_condition|intros m1].
      apply silent_bind; [by apply silent_event|intros _]. by apply silent_save.
  - eapply wp_mono; [eapply (silent_bind is_import (kdo (MapDelete (longOpKey m longOpImport))));
                     [solve_silent|intros _; by apply silent_fail]|].
    cbn. intros tr o Ho. by apply import_kept_failed.
Qed.

Lemma start_import_kept m target i :
  wp (start_import r m target i) (fun tr _ => import_kept m target i tr).
Proof.
  unfold start_import.
  assert (import_kept m target i []) as H0 by (intros [] ? ? ? ?; discriminate).
  assert (forall m' msg, wp (transitionToFailed m' msg) (fun tr _ => import_kept m target i tr)) as Hfail.
  { intros. apply import_kept_silent. auto with silent. }
  pose proof (import_kept_prefix m target i) as Hpre.
  destruct (generateStorageURL m "export"); [|apply Hfail].
  destruct (storageOptionsJSON m); [|apply Hfail].
  apply (wp_silent_prefix is_import);
    [done|done|unfold loadS3Credentials; solve_silent|intros [creds|e]; [|apply Hfail]].
  apply (wp_silent_prefix is_import);
    [done|done|unfold import_format, getSourceProvider, getSourceVM, getProvider; solve_silent
    |intros [format|e]; [|apply Hfail]].
  apply (wp_silent_prefix is_import);
    [done|done|unfold gateProviderCapability; solve_silent|intros [res|]].
  - by apply import_kept_silent, silent_Ret.
  - apply issue_import_kept.
Qed.

(** The provider a migration imports with: the one its target refers to. *)
Definition target_provider_key (m : VMMigration) : NamespacedName :=
  let ref := mt_ProviderRef (mig_Target (mig_Spec m)) in
  mkKey (if is_empty (ref_Namespace ref) then mig_Namespace m else ref_Namespace ref) (ref_Name ref).

(** An import goes to the provider of the target, which was read and resolved before, and
    every status written after it records what it answered, in the format of that
    provider. *)
Definition landed (m : VMMigration) (tr : ktrace) : Prop :=
  forall pre i req resp post, tr = pre ++ kev (ImportDisk i req) (Ok resp) :: post ->
  exists target, kev (KGet KProvider (target_provider_key m)) (Ok target) ∈ pre
    /\ kev (Resolve target) (Ok i) ∈ pre
    /\ forall s, s ∈ omap accepted post ->
       import_recorded (mig_Status m) (landedTargetFormat target) resp s.

Lemma kept_landed m target i tr :
  import_kept m target i tr ->
  landed m (kev (KGet KProvider (target_provider_key m)) (Ok target) :: kev (Resolve target) (Ok i) :: tr).
Proof.
  intros Hk [|x [|y pre]] i' req resp post Heq.
  - by apply (f_equal (fun l => head l ≫= import_answer)) in Heq.
  - by apply (f_equal (fun l => head (tail l) ≫= import_answer)) in Heq.
  - injection Heq as <- <- ->. destruct (Hk pre i' req resp post eq_refl) as [-> Hs].
    exists target. split_and!; [by left|by right; left|exact Hs].
Qed.

Lemma landed_silent m tr : occurs is_import tr = false -> landed m tr.
Proof.
  intros Ho pre i req resp post ->. exfalso.
  refine (occurs_false_elem (R := kanswer) is_import (ImportDisk i req) (Ok resp) _ Ho eq_refl _).
  apply elem_of_app. right. by left.
Qed.

Lemma handleImportingPhase_lands m : wp (handleImportingPhase r m) (fun tr _ => landed m tr).
Proof.
  unfold handleImportingPhase, getProvider, getProviderInstance. fold (target_provider_key m).
  assert (forall m' msg tr, occurs is_import tr = false ->
            wp (transitionToFailed m' msg) (fun tr' _ => landed m (tr ++ tr'))) as Hfail.
  { intros m' msg tr Htr. eapply (wp_mono _ (fun tr' _ => occurs is_import tr' = false)).
    - apply silent_fail, ignores_import.
    - intros tr' o Ho. apply landed_silent. by rewrite occurs_app, Htr. }
  wp_step. wp_step. destruct r0 as [tp|e]; cbn [bind_post]; [|by apply (Hfail _ _ [_])].
  wp_step. wp_step. wp_step. destruct r0 as [i|e]; cbn [bind_post]; [|by apply (Hfail _ _ [_; _])].
  cbn [wp bind_post app]. eapply wp_mono; [|intros tr o; apply kept_landed].
  assert (import_kept m tp i []) as H0 by (intros [] ? ? ? ?; discriminate).
  apply (wp_silent_prefix is_import);
    [exact (import_kept_prefix m tp i)|done|unfold long_op_issued, longOpAlreadyStarted; solve_silent|intros [|]].
  - apply import_kept_silent. unfold check_long_task, import_complete.
    pose proof (silent_event is_import). solve_silent.
  - apply start_import_kept.
Qed.

(** C22. The disk an import landed is the disk the target VM is made with: when a
    reconcile imports and its status is stored, the import went to the provider the
    target refers to, which that reconcile read, and a later reconcile that still holds
    the record creates the VM with the disk identifier and the path that provider
    answered, in its native format: vmdk for vSphere, and qcow2 otherwise. *)
Theorem imported_disk_reaches_the_target_vm m1 tr1 o1 pre i req resp post s m2 tr2 o2 vm a :
  runs (reconcile_migration r m1) tr1 o1 ->
  tr1 = pre ++ kev (ImportDisk i req) (Ok resp) :: post ->
  ContainsFinalizer (meta_Finalizers (mig_meta m1)) migrationFinalizer = true ->
  s ∈ omap accepted post ->
  runs (reconcile_migration r m2) tr2 o2 ->
  transfer_state (mig_Status m2) = transfer_state s ->
  kev (KCreate KVirtualMachine vm) a ∈ tr2 ->
  exists target, kev (KGet KProvider (target_provider_key m1)) (Ok target) ∈ pre
    /\ kev (Resolve target) (Ok i) ∈ pre
    /\ spec_ImportedDisk (vm_Spec vm)
       = Some (mkImportedDiskRef (imp_DiskId resp) (imp_Path resp)
                 (if bool_decide (provider_Type target = "vsphere") then "vmdk" else "qcow2") "migration"
                 (Some (mkLocalRef (mig_Name m2)))).
Proof.
  intros Hr1 Htr Hf Hs Hr2 Hts Hc.
  destruct (run_allowed r m1 tr1 o1 (ImportDisk i req) (Ok resp) Hr1) as (pre' & post' & _ & Hal).
  { rewrite Htr. apply elem_of_app. right. by left. }
  destruct Hal as ([Hl Hp] & _).
  rewrite reconcile_handles in Hr1 by congruence. unfold handle_phase in Hr1. unfold phase_of in Hp.
  rewrite Hp in Hr1.
  destruct (proj1 (wp_runs _ _) (handleImportingPhase_lands m1) _ _ Hr1 pre i req resp post Htr)
    as (target & Hget & Hres & Hrec). destruct (Hrec s Hs) as (_ & _ & Hid & d & Hd & Hpath & Hfmt & _).
  destruct (run_allowed r m2 tr2 o2 _ _ Hr2 Hc) as (pre2 & post2 & _ & Hal2).
  destruct Hal2 as (_ & (disk & Hdisk & ->) & _). exists target. split_and!; [done..|].
  change (if bool_decide _ then _ else _) with (landedTargetFormat target).
  unfold transfer_state in Hts. cbn. congruence.
Qed.
End Transfer.

(** ** Witnesses on the demo cluster *)
Section Witnesses.
Import DemoLibraries DemoCluster DemoMigration.

Definition demo_import_request : ImportDiskRequest :=
  mkImportDiskRequest "nfs://10.0.0.9/exports/vmmigrations-default-move-export.qcow2" "" "qcow2" "web-2-migrated"
    true "sha256:aa" ∅ "nfs" "relay" "{}".
Definition demo_import_response : ImportDiskResponse :=
  mkImportDiskResponse "disk-9" "/images/disk-9.qcow2" "" 4096 "sha256:bb".
Definition demo_target_vm : VirtualMachine :=
  target_VM (migration_at 7) (deref no_disk_info (mig_DiskInfo (mig_Status (migration_at 7)))).

Lemma imported_disk_reaches_the_target_vm_witness :
  exists target, kev (KGet KProvider (target_provider_key (migration_at 6))) (Ok target) ∈ take 5 (trace_at 6)
    /\ kev (Resolve target) (Ok (demo_instance (demo_provider "kvm-b"))) ∈ take 5 (trace_at 6)
    /\ spec_ImportedDisk (vm_Spec demo_target_vm)
       = Some (mkImportedDiskRef "disk-9" "/images/disk-9.qcow2"
                 (if bool_decide (provider_Type target = "vsphere") then "vmdk" else "qcow2") "migration"
                 (Some (mkLocalRef (mig_Name (migration_at 7))))).
Proof.
  refine (imported_disk_reaches_the_target_vm demo_reconciler (migration_at 6) (trace_at 6) _
            (take 5 (trace_at 6)) (demo_instance (demo_provider "kvm-b")) demo_import_request demo_import_response
            (drop 6 (trace_at 6)) (mig_Status (migration_at 7)) (migration_at 7) (trace_at 7) _ demo_target_vm None
            (trace_at_runs 6) _ _ _ (trace_at_runs 7) eq_refl _).
  - vm_compute. reflexivity.
  - vm_compute. reflexivity.
  - apply (list_elem_of_lookup_2 _ 0). vm_compute. reflexivity.
  - apply (list_elem_of_lookup_2 _ 1). vm_compute. reflexivity.
Defined.
End Witnesses.
