(* ===== verification/MigrationGuard.v ===== *)
(** * MigrationGuard: one export and one import per generation

    Reconciles of a manager run side by side and share the in-memory guard of long
    operations, a [sync.Map].  A schedule is the list of their calls in the order
    they happened, each with the reconcile it belongs to; the guard answers each
    of its calls atomically. *)
From S2P Require Import Prelude Contracts K8s Api Effects GoLib NetIP GrpcClient CoreApi MigrationApi Cluster Storage StorageProps TraceSpec MigrationHelpers Migration MigrationSpec MigrationRefine MigrationDemo MigrationProps.
From stdpp Require Import base gmap strings list.
From Stdlib Require Import ZArith Lia.
Import v1beta1.

Abbreviation schedule := (list (nat * event kcall kanswer)).

(** The calls of one reconcile. *)
Definition proj (s : nat) (L : schedule) : ktrace :=
  omap (fun x => if bool_decide (x.1 = s) then Some x.2 else None) L.

(** The guard answers what its keys say, and keeps them. *)
Definition guard_answers (keys : gset string) (x : event kcall kanswer) : Prop :=
  match x with
  | existT (MapLoad k) b => b = bool_decide (k ∈ keys)
  | existT (MapLoadOrStore k) b => b = bool_decide (k ∈ keys)
  | _ => True
  end.
Definition guard_after (keys : gset string) (x : event kcall kanswer) : gset string :=
  match projT1 x with
  | MapLoadOrStore k => {[k]} ∪ keys
  | MapDelete k => keys ∖ {[k]}
  | _ => keys
  end.
Fixpoint guarded (keys : gset string) (L : schedule) : Prop :=
  match L with
  | [] => True
  | (_, x) :: L' => guard_answers keys x /\ guarded (guard_after keys x) L'
  end.

(** The same as a test. *)
Definition guard_answers_b (keys : gset string) (x : event kcall kanswer) : bool :=
  match x with
  | existT (MapLoad k) b => Bool.eqb b (bool_decide (k ∈ keys))
  | existT (MapLoadOrStore k) b => Bool.eqb b (bool_decide (k ∈ keys))
  | _ => true
  end.
Fixpoint guarded_b (keys : gset string) (L : schedule) : bool :=
  match L with
  | [] => true
  | (_, x) :: L' => guard_answers_b keys x && guarded_b (guard_after keys x) L'
  end.
Lemma guarded_b_sound keys L : guarded_b keys L = true -> guarded keys L.
Proof.
  revert keys; induction L as [|[s x] L IH]; intros keys; cbn; [done|].
  intros [Hx HL]%andb_true_iff. split; [|by apply IH].
  destruct x as [[] a]; try done; by apply Bool.eqb_prop in Hx.
Qed.

Definition final_keys (keys : gset string) (L : schedule) : gset string :=
  fold_left (fun ks x => guard_after ks x.2) L keys.

Lemma proj_app s L1 L2 : proj s (L1 ++ L2) = proj s L1 ++ proj s L2.
Proof. apply omap_app. Qed.
Lemma proj_snoc_same s L x : proj s (L ++ [(s, x)]) = proj s L ++ [x].
Proof. rewrite proj_app. unfold proj at 2. cbn. by rewrite bool_decide_eq_true_2. Qed.
Lemma proj_snoc_other s s' L x : s' <> s -> proj s' (L ++ [(s, x)]) = proj s' L.
Proof.
  intros Hne. rewrite proj_app. unfold proj at 2. cbn.
  rewrite bool_decide_eq_false_2 by congruence. apply app_nil_r.
Qed.

Lemma guarded_app keys L1 L2 :
  guarded keys (L1 ++ L2) <-> guarded keys L1 /\ guarded (final_keys keys L1) L2.
Proof.
  revert keys; induction L1 as [|[s x] L1 IH]; intros keys; cbn; [tauto|]. rewrite IH. tauto.
Qed.
Lemma final_keys_snoc keys L s x : final_keys keys (L ++ [(s, x)]) = guard_after (final_keys keys L) x.
Proof. unfold final_keys. by rewrite fold_left_app. Qed.

(** ** Holding a key

    A reconcile holds a key from the call that claimed it until it releases it. *)
Definition claims (k : string) (x : event kcall kanswer) : bool :=
  match x with existT (MapLoadOrStore k') false => bool_decide (k' = k) | _ => false end.
Definition releases (k : string) (x : event kcall kanswer) : bool :=
  match projT1 x with MapDelete k' => bool_decide (k' = k) | _ => false end.
Definition holds_after (k : string) (held : bool) (x : event kcall kanswer) : bool :=
  (held || claims k x) && negb (releases k x).
Definition holds (k : string) (tr : ktrace) : bool := fold_left (holds_after k) tr false.

Lemma holds_snoc k tr x : holds k (tr ++ [x]) = holds_after k (holds k tr) x.
Proof. unfold holds. by rewrite fold_left_app. Qed.

Lemma holds_quiet k tr1 tr2 :
  Forall (fun x => releases k x = false) tr2 -> holds k tr1 = true -> holds k (tr1 ++ tr2) = true.
Proof.
  intros Hq. revert tr1. induction Hq as [|x tr2 Hx _ IH]; intros tr1 Ht; [by rewrite app_nil_r|].
  rewrite cons_middle, app_assoc. apply IH. rewrite holds_snoc. unfold holds_after. by rewrite Ht, Hx.
Qed.

Section Guard.
Context `{Lib : Libraries} `{CLib : ClusterLibraries} `{COk : !ClusterLibrariesOk} `{Codec : OptionsCodec}.
Context (r : VMMigrationReconciler).

(** ** One reconcile *)
Lemma claimed_once m tr h0 rest k b :
  conforms (rule r m) [] tr -> tr = h0 ++ kev (MapLoadOrStore k) b :: rest ->
  occurs is_claim h0 = false.
Proof. intros Hc Htr. apply (conforms_split _ _ _ _ _ _ Hc Htr). Qed.

Definition op_failed (x : event kcall kanswer) : bool :=
  match x with
  | existT (ExportDisk _ _) (Err _) => true
  | existT (ImportDisk _ _) (Err _) => true
  | _ => false
  end.

(** A release comes right after the failed operation of the reconcile's claim. *)
Lemma release_shape m tr pre post k u :
  conforms (rule r m) [] tr -> tr = pre ++ kev (MapDelete k) u :: post ->
  exists h0 x, pre = h0 ++ [kev (MapLoadOrStore k) false; x] /\ op_failed x = true.
Proof.
  intros Hc Htr. assert (release_allowed m pre k) as (h0 & x & -> & Hx)
    by exact (conforms_split _ _ _ _ _ _ Hc Htr).
  exists h0, x. split; [done|]. by destruct Hx as [(i & req & e & _ & ->)|(i & req & e & _ & ->)].
Qed.

Lemma holds_claimed k h0 : holds k (h0 ++ [kev (MapLoadOrStore k) false]) = true.
Proof. rewrite holds_snoc. unfold holds_after. cbn. by rewrite bool_decide_eq_true_2, orb_true_r. Qed.

Lemma release_holds m tr pre post k u :
  conforms (rule r m) [] tr -> tr = pre ++ kev (MapDelete k) u :: post -> holds k pre = true.
Proof.
  intros Hc Htr. destruct (release_shape _ _ _ _ _ _ Hc Htr) as (h0 & x & -> & Hx).
  rewrite cons_middle, app_assoc. apply holds_quiet; [|apply holds_claimed].
  repeat constructor. destruct x as [[] a]; done.
Qed.

Definition completed (op : migrationLongOp) (tr : ktrace) : Prop :=
  match op with
  | longOpExport => exists i req resp, kev (ExportDisk i req) (Ok resp) ∈ tr
  | longOpImport => exists i req resp, kev (ImportDisk i req) (Ok resp) ∈ tr
  end.

(** A completed operation comes right after its claim. *)
Lemma completed_shape m op tr :
  conforms (rule r m) [] tr -> completed op tr ->
  exists h0 x rest, tr = h0 ++ kev (MapLoadOrStore (longOpKey m op)) false :: x :: rest /\ op_failed x = false.
Proof.
  intros Hc Hop. destruct op; destruct Hop as (i & req & resp & Hin);
    destruct (conforms_elem _ _ _ Hc Hin) as (pre & post & Htr & Hal);
    destruct Hal as (_ & _ & _ & [h0 Hh0] & _); subst tr pre; rewrite <- app_assoc;
    eexists h0, _, post; (split; [reflexivity|reflexivity]).
Qed.

(** It is never released. *)
Lemma completed_holds m op tr :
  conforms (rule r m) [] tr -> completed op tr -> holds (longOpKey m op) tr = true.
Proof.
  intros Hc Hop. destruct (completed_shape m op tr Hc Hop) as (h0 & x & rest & Htr & Hx).
  rewrite Htr, cons_middle, app_assoc. apply holds_quiet; [|apply holds_claimed].
  apply Forall_forall. intros y Hy. destruct (releases (longOpKey m op) y) eqn:Hrel; [exfalso|done].
  assert (exists u, y = kev (MapDelete (longOpKey m op)) u) as [u ->].
  { destruct y as [[] a]; try done. cbn in Hrel. apply bool_decide_eq_true in Hrel as ->. by exists a. }
  apply list_elem_of_split in Hy as (t1 & t2 & Heq).
  assert (tr = (h0 ++ kev (MapLoadOrStore (longOpKey m op)) false :: t1)
               ++ kev (MapDelete (longOpKey m op)) u :: t2) as Htr2.
  { rewrite Htr, Heq, <- app_assoc. done. }
  destruct (release_shape _ _ _ _ _ _ Hc Htr2) as (h1 & x' & Hpre & Hx').
  assert (tr = h1 ++ kev (MapLoadOrStore (longOpKey m op)) false
                 :: x' :: kev (MapDelete (longOpKey m op)) u :: t2) as Htr3.
  { rewrite Htr2, Hpre, <- app_assoc. done. }
  pose proof (claimed_once m tr h0 _ _ _ Hc Htr) as Ho0.
  pose proof (claimed_once m tr h1 _ _ _ Hc Htr3) as Ho1. rewrite Htr in Htr3.
  destruct (first_occurrence_unique (R := kanswer) is_claim h0 h1
              (kev (MapLoadOrStore (longOpKey m op)) false) (kev (MapLoadOrStore (longOpKey m op)) false)
              _ _ Ho0 Ho1 eq_refl eq_refl Htr3) as (_ & _ & Hrest). injection Hrest as -> _. congruence.
Qed.

(** ** A schedule *)
Context (mig : nat -> VMMigration).

(** Every reconcile of the schedule is a run, or the beginning of one. *)
Definition reconciles (L : schedule) : Prop :=
  forall s, s ∈ L.*1 -> exists rest o, runs (reconcile_migration r (mig s)) (proj s L ++ rest) o.

Lemma proj_conforms L s : reconciles L -> conforms (rule r (mig s)) [] (proj s L).
Proof.
  intros HL. destruct (decide (s ∈ L.*1)) as [Hin|Hin].
  - destruct (HL s Hin) as (rest & o & Hr%reconcile_conforms). by apply conforms_app in Hr as [Hr _].
  - assert (proj s L = []) as ->; [|done]. clear HL. induction L as [|[s' x] L IH]; [done|].
    rewrite fmap_cons in Hin. apply not_elem_of_cons in Hin as [Hne Hin]. cbn in Hne. unfold proj. cbn.
    rewrite bool_decide_eq_false_2 by congruence. by apply IH.
Qed.

(** A key is held by at most one reconcile, and is in the guard then. *)
Definition exclusive (keys : gset string) (L : schedule) : Prop :=
  forall k s, holds k (proj s L) = true ->
    k ∈ keys /\ forall s', holds k (proj s' L) = true -> s' = s.

Lemma exclusive_step keys L s x :
  (forall s', conforms (rule r (mig s')) [] (proj s' (L ++ [(s, x)]))) ->
  exclusive keys L -> guard_answers keys x -> exclusive (guard_after keys x) (L ++ [(s, x)]).
Proof.
  intros Hc He Ha.
  assert (forall k s', holds k (proj s' (L ++ [(s, x)])) = true ->
            (holds k (proj s' L) = true /\ (s' = s -> releases k x = false))
            \/ (s' = s /\ claims k x = true)) as Hcase.
  { intros k s' Hh. destruct (decide (s' = s)) as [->|Hne].
    - rewrite proj_snoc_same, holds_snoc in Hh. unfold holds_after in Hh.
      apply andb_true_iff in Hh as [Hh Hr%negb_true_iff]. apply orb_true_iff in Hh as [Hh|Hh]; auto.
    - rewrite proj_snoc_other in Hh by done. left. by split. }
  assert (forall k, claims k x = true -> k ∉ keys /\ k ∈ guard_after keys x) as Hclaim.
  { intros k Hk. destruct x as [[] a]; try done. cbn in Hk, Ha. destruct a; [done|].
    apply bool_decide_eq_true in Hk as ->. symmetry in Ha. apply bool_decide_eq_false in Ha.
    split; [done|]. unfold guard_after. cbn. set_solver. }
  assert (forall k s', holds k (proj s' L) = true -> releases k x = true -> s' = s) as Hown.
  { intros k s' Hh Hrel. destruct x as [[] a]; try done. cbn in Hrel.
    apply bool_decide_eq_true in Hrel as ->. specialize (Hc s). rewrite proj_snoc_same in Hc.
    pose proof (release_holds _ _ (proj s L) [] _ _ Hc eq_refl) as Hs.
    destruct (He k s Hs) as [_ Hu]. by apply Hu. }
  intros k s' Hh. destruct (Hcase k s' Hh) as [[Hold Hnr]|[-> Hcl]].
  - destruct (He k s' Hold) as [Hin Hu]. split.
    + assert (releases k x = false) as Hr.
      { destruct (releases k x) eqn:Hr; [|done]. apply Hnr. by eapply Hown. }
      destruct x as [[] a]; unfold guard_after; cbn in *; try done; [set_solver|].
      apply bool_decide_eq_false in Hr. set_solver.
    + intros s2 Hs2. destruct (Hcase k s2 Hs2) as [[Hold2 _]|[-> Hcl]]; [by apply Hu|].
      by destruct (Hclaim k Hcl).
  - destruct (Hclaim k Hcl) as [Hnin Hin]. split; [done|]. intros s2 Hs2.
    destruct (Hcase k s2 Hs2) as [[Hold2 _]|[-> _]]; [|done]. by destruct (He k s2 Hold2).
Qed.

Lemma schedule_exclusive L :
  reconciles L -> guarded ∅ L -> exclusive (final_keys ∅ L) L.
Proof.
  intros HL. assert (forall s, conforms (rule r (mig s)) [] (proj s L)) as Hc by (intros; by apply proj_conforms).
  clear HL. induction L as [|[s x] L IH] using rev_ind; intros Hg.
  - intros k s Hh. done.
  - apply guarded_app in Hg as [Hg [Ha _]]. rewrite final_keys_snoc. apply exclusive_step; [done| |done].
    apply IH; [|done]. intros s'. specialize (Hc s'). rewrite proj_app in Hc. by apply conforms_app in Hc as [Hc _].
Qed.

(** C4. However the reconciles of a manager are interleaved, and whatever
    (possibly outdated) copies of the migration they read, at most one of them
    completes the export, and at most one the import, of a migration's generation:
    a second call would overwrite the staged, or the landed, disk. *)
Theorem long_operation_completes_once L op s1 s2 :
  reconciles L -> guarded ∅ L ->
  meta_UID (mig_meta (mig s1)) = meta_UID (mig_meta (mig s2)) ->
  meta_Generation (mig_meta (mig s1)) = meta_Generation (mig_meta (mig s2)) ->
  completed op (proj s1 L) -> completed op (proj s2 L) -> s1 = s2.
Proof.
  intros HL Hg Hu Hgen H1 H2.
  pose proof (completed_holds (mig s1) op _ (proj_conforms L s1 HL) H1) as Hh1.
  pose proof (completed_holds (mig s2) op _ (proj_conforms L s2 HL) H2) as Hh2.
  replace (longOpKey (mig s2) op) with (longOpKey (mig s1) op) in Hh2 by (unfold longOpKey; congruence).
  symmetry. exact (proj2 (schedule_exclusive L HL Hg _ s1 Hh1) s2 Hh2).
Qed.
End Guard.

(** ** A witness on the demo cluster: a second reconcile reads an outdated copy *)
Section Witnesses.
Import DemoLibraries DemoCluster DemoMigration.

Definition stale_world : world := after 6 start <| w_migration := migration_at 5 |>.
Definition stale_trace : ktrace := (one stale_world).1.1.
Definition two_reconciles : schedule := (pair 0 <$> trace_at 5) ++ (pair 1 <$> stale_trace).

Lemma stale_runs :
  runs (reconcile_migration demo_reconciler (migration_at 5)) stale_trace (one stale_world).1.2.
Proof.
  assert (migration_at 5 = w_migration stale_world) as Hw by (vm_compute; reflexivity).
  rewrite Hw. apply one_runs.
Qed.

Lemma long_operation_completes_once_witness :
  completed longOpExport (proj 0 two_reconciles) /\ 0 = 0.
Proof.
  assert (completed longOpExport (proj 0 two_reconciles)) as Hdone.
  { eexists _, _, _. apply (list_elem_of_lookup_2 _ 6). vm_compute. reflexivity. }
  split; [exact Hdone|].
  refine (long_operation_completes_once demo_reconciler (fun _ => migration_at 5) two_reconciles longOpExport 0 0
            _ _ eq_refl eq_refl Hdone Hdone).
  - intros s Hs. assert (s = 0 \/ s = 1) as [->| ->].
    { assert (forallb (fun n => bool_decide (n = 0) || bool_decide (n = 1)) two_reconciles.*1 = true) as Hb
        by (vm_compute; reflexivity).
      rewrite forallb_forall in Hb. apply list_elem_of_In, Hb, orb_true_iff in Hs.
      by destruct Hs as [?%bool_decide_eq_true|?%bool_decide_eq_true]; auto. }
    + exists [], (one (after 5 start)).1.2.
      replace (proj 0 two_reconciles ++ []) with (trace_at 5) by (vm_compute; reflexivity).
      apply trace_at_runs.
    + exists [], (one stale_world).1.2.
      replace (proj 1 two_reconciles ++ []) with stale_trace by (vm_compute; reflexivity).
      exact stale_runs.
  - apply guarded_b_sound. vm_compute. reflexivity.
Defined.
End Witnesses.
