(* ===== verification/MigrationStaging.v ===== *)
(** * MigrationStaging: where a migration stages its disk

    The staging URL of a claim-backed migration is read back by the store that
    cleans up: the file it names lies in the migration's own directory of the
    claim. *)
From S2P Require Import Prelude Contracts K8s Api Effects GoLib NetIP GrpcClient CoreApi MigrationApi Cluster Storage StorageProps MigrationHelpers MigrationDemo.
From stdpp Require Import base gmap strings list.
From Stdlib Require Import Ascii ZArith Lia.
Import v1beta1.

(** ** Strings *)
Section Strings.
#[local] Arguments String.append !_ _ /.

Lemma rev_app_spec s t : String.rev_app s t = String.rev s +:+ t.
Proof.
  unfold String.rev. revert t. induction s as [|c s IH]; intros t; cbn; [done|].
  rewrite IH, (IH (String c "")). by rewrite <- string_app_assoc.
Qed.

Lemma rev_cons c s : String.rev (String c s) = String.rev s +:+ String c "".
Proof. unfold String.rev at 1. cbn. apply rev_app_spec. Qed.

Lemma rev_app s t : String.rev (s +:+ t) = String.rev t +:+ String.rev s.
Proof.
  induction s as [|c s IH]; cbn [String.append].
  - by rewrite string_app_nil_r.
  - by rewrite !rev_cons, IH, string_app_assoc.
Qed.

Lemma rev_involutive s : String.rev (String.rev s) = s.
Proof. induction s as [|c s IH]; [done|]. by rewrite rev_cons, rev_app, IH. Qed.

(** Nothing is trimmed from a string that starts with none of the encodings. *)
Lemma drop_encodings_none fuel es s :
  List.find (has_prefix s) es = None -> drop_encodings fuel es s = s.
Proof. intros Hf. destruct fuel; cbn; [done|]. by rewrite Hf. Qed.

Lemma TrimSpace_id s :
  List.find (has_prefix s) space_encodings = None ->
  List.find (has_prefix (String.rev s)) (String.rev <$> space_encodings) = None ->
  TrimSpace s = s.
Proof.
  intros H1 H2. unfold TrimSpace. rewrite (drop_encodings_none _ _ s H1). cbn zeta.
  rewrite drop_encodings_none by done. apply rev_involutive.
Qed.

(** Two dots do not straddle a separator. *)
Lemma contains_dots_sep s t :
  contains (s +:+ String "/" t) ".." = contains s ".." || contains t "..".
Proof.
  induction s as [|c s IH]; cbn [String.append].
  - reflexivity.
  - change (contains (String c (s +:+ String "/" t)) "..")
      with (has_prefix (String c (s +:+ String "/" t)) ".." || contains (s +:+ String "/" t) "..").
    change (contains (String c s) "..") with (has_prefix (String c s) ".." || contains s "..").
    rewrite IH, orb_assoc. f_equal. f_equal. destruct s as [|d s]; cbn; [|by destruct s].
    change (Ascii.eqb "." "/") with false. done.
Qed.
End Strings.

(** A path made of segments has these segments. *)
Lemma segments_join s : segments (String "/" (join_path (segments s))) = segments s.
Proof.
  rewrite segments_slash. destruct (segments s) as [|w ws] eqn:Hs; [done|]. rewrite <- Hs.
  unfold segments at 1. rewrite Split_join; [|apply segments_free|by rewrite Hs].
  pose proof (elem_of_segments s) as Hp. revert Hp. generalize (segments s). intros l Hp.
  induction l as [|v l IH]; [done|]. cbn. destruct (Hp v) as [_ ->]; [by left|].
  f_equal. apply IH. intros u Hu. apply Hp. by right.
Qed.

(** ** Names

    The names the API server accepts for the objects involved. *)
Definition name_char (c : ascii) : bool :=
  is_digit c || (Ascii.leb "a" c && Ascii.leb c "z") || Ascii.eqb c "-" || Ascii.eqb c ".".
Definition object_name (s : string) : Prop :=
  all_chars name_char s = true /\ s <> "" /\ s <> "." /\ contains s ".." = false.

Lemma object_name_free s : object_name s -> all_chars (fun d => negb (Ascii.eqb d "/")) s = true.
Proof.
  intros [Hs _]. eapply all_chars_impl; [|exact Hs]. intros c Hc.
  destruct (Ascii.eqb c "/") eqn:He; [|done]. apply Ascii.eqb_eq in He as ->. done.
Qed.

Lemma object_name_segments s : object_name s -> segments s = [s].
Proof.
  intros Hs. unfold segments. rewrite Split_single by (by apply object_name_free).
  destruct Hs as (_ & H1 & H2 & _). cbn. unfold plain_segment. by rewrite !bool_decide_eq_false_2.
Qed.

Lemma object_name_dots s : object_name s -> s <> "..".
Proof. intros (_ & _ & _ & Hd) ->. done. Qed.

Section Staging.
Context `{Lib : Libraries} `{CLib : ClusterLibraries} `{Codec : OptionsCodec}.

Definition staged_file (m : VMMigration) : string :=
  "vmmigrations/" +:+ mig_Namespace m +:+ "/" +:+ mig_Name m +:+ "/" +:+ "export" +:+ ".qcow2".

Lemma staged_file_segments m :
  object_name (mig_Namespace m) -> object_name (mig_Name m) ->
  segments (staged_file m) = ["vmmigrations"; mig_Namespace m; mig_Name m; "export.qcow2"]
  /\ contains (staged_file m) ".." = false.
Proof.
  intros Hns Hn. unfold staged_file.
  change ("vmmigrations/" +:+ mig_Namespace m +:+ "/" +:+ mig_Name m +:+ "/" +:+ "export" +:+ ".qcow2")
    with ("vmmigrations" +:+ String "/" (mig_Namespace m +:+ String "/" (mig_Name m +:+ String "/" "export.qcow2"))).
  rewrite !segments_app, !contains_dots_sep, (object_name_segments _ Hns), (object_name_segments _ Hn).
  destruct Hns as (_ & _ & _ & ->), Hn as (_ & _ & _ & ->). done.
Qed.

Lemma staged_url_kept m name :
  let url := "pvc://" +:+ name +:+ String "/" (staged_file m) in TrimSpace url = url.
Proof.
  cbn zeta.
  assert ("pvc://" +:+ name +:+ String "/" (staged_file m)
          = ("pvc://" +:+ name +:+ "/vmmigrations/" +:+ mig_Namespace m +:+ "/" +:+ mig_Name m +:+ "/export")
            +:+ ".qcow2") as ->.
  { unfold staged_file. rewrite <- !string_app_assoc. reflexivity. }
  apply TrimSpace_id; [done|]. rewrite rev_app. done.
Qed.

(** The staging URL of a claim-backed migration and the path the clean-up
    makes of it agree: under a clean mount point, the path is the mount point
    followed by the migration's namespace and name, from which both can be read
    back, so migrations with different names never share, or remove, each other's
    staged disk. *)
Theorem staged_path_names_the_migration m url store root :
  match mig_Storage (mig_Spec m) with Some st => mst_Type st = "pvc" | None => False end ->
  generateStorageURL m "export" = Ok url ->
  object_name (mig_Namespace m) -> object_name (mig_Name m) -> object_name (mig_StoragePVCName (mig_Status m)) ->
  pvcs_mountPath store = "/" +:+ root -> ".." ∉ Split "/" root ->
  exists path, parsePath store url = Ok path
    /\ path = "/" +:+ join_path (segments root ++ ["vmmigrations"; mig_Namespace m; mig_Name m; "export.qcow2"])
    /\ segments path = segments root ++ ["vmmigrations"; mig_Namespace m; mig_Name m; "export.qcow2"].
Proof.
  intros Hst Hu Hns Hn Hpvc Hmount Hroot.
  destruct (staged_file_segments m Hns Hn) as [Hseg Hdots].
  assert (url = "pvc://" +:+ mig_StoragePVCName (mig_Status m) +:+ String "/" (staged_file m)) as ->.
  { unfold generateStorageURL in Hu. destruct (mig_Storage (mig_Spec m)) as [st|]; [|done].
    rewrite Hst, bool_decide_eq_true_2 in Hu by done. cbn [orb] in Hu.
    destruct (is_empty _); [done|]. by injection Hu as <-. }
  assert (".." ∉ Split "/" (root +:+ String "/" (staged_file m))) as Hnd.
  { apply dotdot_segments. rewrite segments_app, Hseg. apply dotdot_segments in Hroot.
    pose proof (object_name_dots _ Hns). pose proof (object_name_dots _ Hn). set_solver. }
  eexists. split; [unfold parsePath|].
  - rewrite staged_url_kept, TrimPrefix_app, contains_dots_sep, Hdots. destruct Hpvc as (Hc & H1 & H2 & H3).
    rewrite H3. cbn [orb]. rewrite Cut_app by (by apply object_name_free).
    unfold filepath_Join. rewrite Hmount. reflexivity.
  - change (("/" +:+ root) +:+ "/" +:+ staged_file m) with (String "/" (root +:+ String "/" (staged_file m))).
    rewrite Clean_rooted by done. rewrite segments_app, Hseg. split; [done|].
    rewrite <- Hseg, <- segments_app. apply segments_join.
Qed.
End Staging.

(** ** A witness *)
Section Witnesses.
Import DemoLibraries DemoCluster DemoMigration.

End Witnesses.
