(* ===== verification/Snapshot.v ===== *)
(** * Snapshot: the VMSnapshot controller

    Models [internal/controller/vmsnapshot_controller.go] over the calls of
    [Cluster].  The stages that the source repeats, looking up the provider of a
    VM and marking a snapshot ready, are definitions of their own; otherwise there
    is one definition per function. *)
From S2P Require Import Prelude Contracts K8s Api Effects GoLib NetIP GrpcClient CoreApi MigrationApi JobApi Cluster Storage MigrationHelpers Migration.
From stdpp Require Import base gmap strings list.
From Stdlib Require Import ZArith.
Import v1beta1.
#[local] Open Scope Z_scope.

(** [sr_RemoteResolver]: the resolver is not nil. *)
Record VMSnapshotReconciler := mkSnapshotReconciler {
  sr_RemoteResolver : bool;
  sr_EnforceCapabilities : bool
}.

Abbreviation job_result := (Result * option goerror)%type.

Definition errReasonGetSnapshot : string := "get-snapshot".
Definition snapshotReasonUnsupportedByProvider : string := "UnsupportedByProvider".
Definition snapshotFinalizer : string := "snapshot.infra.virtrigaud.io/finalizer".

Definition sn_Name (s : VMSnapshot) : string := meta_Name (sn_meta s).
Definition sn_Namespace (s : VMSnapshot) : string := meta_Namespace (sn_meta s).

Section Snapshot.
Context `{Lib : Libraries}.
Context (r : VMSnapshotReconciler).

Definition with_snapshot (s : VMSnapshot) (f : VMSnapshotStatus -> VMSnapshotStatus) : VMSnapshot :=
  s <| sn_Status := f (sn_Status s) |>.

(** [k8s.SetCondition] on the snapshot's conditions. *)
Definition snapshot_condition (s : VMSnapshot) (t : string) (st : ConditionStatus) (reason msg : string)
    : KM VMSnapshot :=
  now ← kdo TimeNow;
  Ret (with_snapshot s (fun x =>
         x <| sn_Conditions := util_SetCondition now (sn_Conditions x) t st reason msg |>)).

Definition updateStatus (s : VMSnapshot) : KM (option goerror) := kdo (KStatusUpdate KVMSnapshot s).

(** The end of the branches that ignore the error of the status update. *)
Definition snapshot_save_then (s : VMSnapshot) (res : Result) : KM job_result :=
  _ ← updateStatus s; Ret (res, None).

(** The end of those that return it. *)
Definition snapshot_save_or_fail (s : VMSnapshot) (res : Result) : KM job_result :=
  e ← updateStatus s;
  match e with
  | Some err => Ret (no_result, Some err)
  | None => Ret (res, None)
  end.

Definition getProviderInstance (p : Provider) : KM (res ProviderInstance) :=
  if negb (sr_RemoteResolver r) then Ret (Err (ENew "no remote resolver available"))
  else kdo (Resolve p).

Definition vm_provider_key (vm : VirtualMachine) : NamespacedName :=
  let ref := spec_ProviderRef (vm_Spec vm) in
  mkKey (if is_empty (ref_Namespace ref) then meta_Namespace (vm_meta vm) else ref_Namespace ref) (ref_Name ref).

Definition snapshot_vm_key (s : VMSnapshot) : NamespacedName :=
  mkKey (sn_Namespace s) (lref_Name (sn_VMRef (sn_Spec s))).

Definition buildSnapshotCreateRequest (s : VMSnapshot) (vm : VirtualMachine) : SnapshotCreateRequest :=
  match sn_SnapshotConfig (sn_Spec s) with
  | Some c =>
      mkSnapshotCreateRequest (status_ID (vm_Status vm))
        (if is_empty (sc_Name c) then sn_Name s else sc_Name c)
        (sc_Description c) (sc_IncludeMemory c) (sc_Quiesce c)
  | None => mkSnapshotCreateRequest (status_ID (vm_Status vm)) (sn_Name s) "" false true
  end.

(** ** Creating *)
Definition blockSnapshot (s : VMSnapshot) (message : string) : KM Result :=
  let s := with_snapshot s (fun x => x <| sn_Phase := SnapshotPhaseFailed |> <| sn_Message := message |>) in
  s ← snapshot_condition s VMSnapshotConditionReady ConditionFalse snapshotReasonUnsupportedByProvider message;
  s ← snapshot_condition s VMSnapshotConditionCreating ConditionFalse snapshotReasonUnsupportedByProvider message;
  _ ← kdo (Event "Warning" snapshotReasonUnsupportedByProvider message);
  _ ← updateStatus s;
  Ret no_result.

(** The result is to be returned when the gate blocks. *)
Definition gateSnapshotCreate (s : VMSnapshot) (i : ProviderInstance) (req : SnapshotCreateRequest)
    : KM (option Result) :=
  if negb (sr_EnforceCapabilities r) then Ret None
  else if negb (inst_CapabilityReporter i) then Ret None
  else
    caps ← kdo (GetCapabilities i);
    match caps with
    | Err _ => Ret None
    | Ok caps =>
        if negb (SupportsSnapshots caps) then
          res ← blockSnapshot s "Provider does not support snapshots"; Ret (Some res)
        else if snap_IncludeMemory req && negb (SupportsMemorySnapshots caps) then
          res ← blockSnapshot s "Provider does not support memory-inclusive snapshots"; Ret (Some res)
        else Ret None
    end.

(** The snapshot was created: its phase, message and conditions. *)
Definition snapshot_ready (s : VMSnapshot) : KM VMSnapshot :=
  let s := with_snapshot s (fun x =>
    x <| sn_Phase := SnapshotPhaseReady |> <| sn_Message := "Snapshot created successfully" |>
      <| sn_TaskRef := "" |>) in
  s ← snapshot_condition s VMSnapshotConditionReady ConditionTrue VMSnapshotReasonCreated
        "Snapshot created successfully";
  s ← snapshot_condition s VMSnapshotConditionCreating ConditionFalse VMSnapshotReasonCreated
        "Snapshot creation completed";
  _ ← kdo (Event "Normal" "SnapshotReady" "Snapshot created successfully");
  Ret s.

Definition snapshot_failed (s : VMSnapshot) (err : goerror) : KM job_result :=
  let msg := errorf "Snapshot creation failed" err in
  let s := with_snapshot s (fun x =>
    x <| sn_Phase := SnapshotPhaseFailed |> <| sn_Message := errorf "Failed to create snapshot" err |>) in
  s ← snapshot_condition s VMSnapshotConditionReady ConditionFalse VMSnapshotReasonProviderError msg;
  s ← snapshot_condition s VMSnapshotConditionCreating ConditionFalse VMSnapshotReasonProviderError msg;
  _ ← kdo (Event "Warning" "SnapshotFailed" (errorf "Failed to create snapshot" err));
  snapshot_save_then s (requeue_after (5 * minute)).

Definition record_snapshot (s : VMSnapshot) (resp : SnapshotCreateResponse) : KM job_result :=
  now ← kdo TimeNow;
  let s := with_snapshot s (fun x =>
    x <| sn_SnapshotID := snap_SnapshotId resp |> <| sn_CreationTime := Some now |>) in
  let task := match snap_Task resp with Some t => task_ID t | None => "" end in
  s ← (if negb (is_empty task) then Ret (with_snapshot s (fun x => x <| sn_TaskRef := task |>))
       else snapshot_ready s);
  snapshot_save_or_fail s
    (if negb (is_empty (sn_TaskRef (sn_Status s))) then requeue_after (10 * second) else no_result).

Definition createSnapshot (s : VMSnapshot) (vm : VirtualMachine) : KM job_result :=
  let s := with_snapshot s (fun x =>
    x <| sn_Phase := SnapshotPhaseCreating |> <| sn_Message := "Creating snapshot" |>) in
  s ← snapshot_condition s VMSnapshotConditionCreating ConditionTrue VMSnapshotReasonCreating
        "Snapshot creation initiated";
  p ← kdo (KGet KProvider (vm_provider_key vm));
  match p with
  | Err err =>
      s ← snapshot_condition s VMSnapshotConditionReady ConditionFalse VMSnapshotReasonProviderError
            (errorf "Failed to get provider" err);
      snapshot_save_then s (requeue_after (30 * second))
  | Ok p =>
      i ← getProviderInstance p;
      match i with
      | Err err =>
          s ← snapshot_condition s VMSnapshotConditionReady ConditionFalse VMSnapshotReasonProviderError
                (errorf "Failed to get provider instance" err);
          snapshot_save_then s (requeue_after (30 * second))
      | Ok i =>
          let req := buildSnapshotCreateRequest s vm in
          blocked ← gateSnapshotCreate s i req;
          match blocked with
          | Some res => Ret (res, None)
          | None =>
              resp ← kdo (SnapshotCreate i req);
              match resp with
              | Err err => snapshot_failed s err
              | Ok resp => record_snapshot s resp
              end
          end
      end
  end.

(** ** Waiting for the task *)
Definition snapshot_task_failed (s : VMSnapshot) (error : string) : KM VMSnapshot :=
  let msg := "Snapshot creation failed: " +:+ error in
  let s := with_snapshot s (fun x =>
    x <| sn_Phase := SnapshotPhaseFailed |> <| sn_Message := msg |> <| sn_TaskRef := "" |>) in
  s ← snapshot_condition s VMSnapshotConditionReady ConditionFalse VMSnapshotReasonProviderError msg;
  s ← snapshot_condition s VMSnapshotConditionCreating ConditionFalse VMSnapshotReasonProviderError
        "Snapshot creation failed";
  _ ← kdo (Event "Warning" "SnapshotFailed" msg);
  Ret s.

Definition checkSnapshotCreation (s : VMSnapshot) (vm : VirtualMachine) : KM job_result :=
  if is_empty (sn_TaskRef (sn_Status s)) then
    s ← snapshot_ready s; snapshot_save_or_fail s no_result
  else
    p ← kdo (KGet KProvider (vm_provider_key vm));
    match p with
    | Err _ => Ret (requeue_after (30 * second), None)
    | Ok p =>
        i ← getProviderInstance p;
        match i with
        | Err _ => Ret (requeue_after (30 * second), None)
        | Ok i =>
            st ← kdo (TaskStatus i (sn_TaskRef (sn_Status s)));
            match st with
            | Err _ => Ret (requeue_after (10 * second), None)
            | Ok st =>
                if ts_IsCompleted st then
                  s ← (if negb (is_empty (ts_Error st)) then snapshot_task_failed s (ts_Error st)
                       else snapshot_ready s);
                  snapshot_save_or_fail s no_result
                else Ret (requeue_after (10 * second), None)
            end
        end
    end.

(** ** Retention *)
Definition delete_expired (s : VMSnapshot) : KM job_result :=
  e ← kdo (KDelete KVMSnapshot s);
  Ret (no_result, e).

(** The snapshot goes with its VM. *)
Definition retain_with_vm (s : VMSnapshot) : KM job_result :=
  let later : KM job_result := Ret (requeue_after (60 * minute), None) in
  if match sn_RetentionPolicy (sn_Spec s) with Some p => srp_DeleteOnVMDelete p | None => false end then
    vm ← kdo (KGet KVirtualMachine (snapshot_vm_key s));
    match vm with
    | Err err => if api_IsNotFound err then delete_expired s else later
    | Ok _ => later
    end
  else later.

(** The age of a snapshot without a creation time is a nil dereference. *)
Definition handleRetention (s : VMSnapshot) : KM job_result :=
  match sn_RetentionPolicy (sn_Spec s) ≫= srp_MaxAge with
  | Some maxAge =>
      match sn_CreationTime (sn_Status s) with
      | None => Crash "nil VMSnapshot.Status.CreationTime"
      | Some t =>
          now ← kdo TimeNow;
          if maxAge <? Time_Sub now t then delete_expired s else retain_with_vm s
      end
  | None => retain_with_vm s
  end.

(** ** Deletion *)
Definition snapshot_remove_finalizer (s : VMSnapshot) : KM job_result :=
  e ← kdo (KUpdate KVMSnapshot
             (s <| sn_meta := sn_meta s
                     <| meta_Finalizers := RemoveFinalizer (meta_Finalizers (sn_meta s)) snapshotFinalizer |> |>));
  match e with
  | Some err => Ret (no_result, Some err)
  | None => _ ← kdo (Event "Normal" "SnapshotDeleted" "Snapshot deleted successfully"); Ret (no_result, None)
  end.

(** The provider is asked to delete it, and the finalizer goes whatever it says. *)
Definition delete_via_provider (s : VMSnapshot) (vm : VirtualMachine) : KM job_result :=
  p ← kdo (KGet KProvider (vm_provider_key vm));
  match p with
  | Err _ => Ret (requeue_after (30 * second), None)
  | Ok p =>
      i ← getProviderInstance p;
      match i with
      | Err _ => Ret (requeue_after (30 * second), None)
      | Ok i =>
          d ← kdo (SnapshotDelete i (status_ID (vm_Status vm)) (sn_SnapshotID (sn_Status s)));
          _ ← match d with
              | Err err => kdo (Event "Warning" "SnapshotDeleteFailed" (errorf "Failed to delete snapshot" err))
              | Ok _ => Ret tt
              end;
          snapshot_remove_finalizer s
      end
  end.

Definition handleDeletion (s : VMSnapshot) : KM job_result :=
  let s := with_snapshot s (fun x => x <| sn_Phase := SnapshotPhaseDeleting |>) in
  s ← snapshot_condition s VMSnapshotConditionDeleting ConditionTrue VMSnapshotReasonDeleting
        "Snapshot deletion initiated";
  _ ← updateStatus s;
  _ ← kdo (Event "Normal" "SnapshotDeleting" "Started snapshot deletion");
  vm ← kdo (KGet KVirtualMachine (snapshot_vm_key s));
  match vm with
  | Err err =>
      if api_IsNotFound err then snapshot_remove_finalizer s
      else Ret (requeue_after (30 * second), None)
  | Ok vm =>
      if negb (is_empty (sn_SnapshotID (sn_Status s))) && negb (is_empty (status_ID (vm_Status vm)))
      then delete_via_provider s vm
      else snapshot_remove_finalizer s
  end.

(** ** Reconcile *)
Definition snapshot_phase (s : VMSnapshot) (vm : VirtualMachine) : KM job_result :=
  match sn_Phase (sn_Status s) with
  | SnapshotPhaseUnset => createSnapshot s vm
  | SnapshotPhaseCreating => checkSnapshotCreation s vm
  | SnapshotPhaseReady => handleRetention s
  | SnapshotPhaseFailed => Ret (requeue_after (5 * minute), None)
  | _ => Ret (requeue_after (30 * second), None)
  end.

Definition snapshot_live (s : VMSnapshot) : KM job_result :=
  vm ← kdo (KGet KVirtualMachine (snapshot_vm_key s));
  match vm with
  | Err err =>
      s ← snapshot_condition s VMSnapshotConditionReady ConditionFalse VMSnapshotReasonProviderError
            (errorf "Referenced VM not found" err);
      _ ← updateStatus s;
      _ ← kdo (CountError "get-vm");
      Ret (requeue_after (30 * second), None)
  | Ok vm =>
      if is_empty (status_ID (vm_Status vm)) then
        s ← snapshot_condition s VMSnapshotConditionCreating ConditionTrue VMSnapshotReasonCreating
              "Waiting for VM to be provisioned";
        snapshot_save_then s (requeue_after (30 * second))
      else snapshot_phase s vm
  end.

Definition snapshot_add_finalizer (s : VMSnapshot) : KM job_result :=
  e ← kdo (KUpdate KVMSnapshot
             (s <| sn_meta := sn_meta s
                     <| meta_Finalizers := AddFinalizer (meta_Finalizers (sn_meta s)) snapshotFinalizer |> |>));
  match e with
  | Some err => _ ← kdo (CountError "add-finalizer"); Ret (no_result, Some err)
  | None => Ret (requeue_now, None)
  end.

(** The reconcile of a snapshot that was read. *)
Definition reconcile_snapshot (s : VMSnapshot) : KM job_result :=
  match meta_DeletionTimestamp (sn_meta s) with
  | Some _ => handleDeletion s
  | None =>
      if negb (ContainsFinalizer (meta_Finalizers (sn_meta s)) snapshotFinalizer)
      then snapshot_add_finalizer s
      else snapshot_live s
  end.

Definition Snapshot_Reconcile (key : NamespacedName) : KM job_result :=
  got ← kdo (KGet KVMSnapshot key);
  match got with
  | Err err =>
      if api_IsNotFound err then Ret (no_result, None)
      else _ ← kdo (CountError errReasonGetSnapshot); Ret (no_result, Some err)
  | Ok s => reconcile_snapshot s
  end.
End Snapshot.
