(* ===== verification/SnapshotProps.v ===== *)
(** * SnapshotProps: what the VMSnapshot controller guarantees

    The rules of the controller ([snapshot_allowed]) with the phases of a snapshot
    as a state machine ([snapshot_step]), the proof that every reconcile keeps to
    them, and what follows for the life of a snapshot; then the ways the controller
    departs from its own comments. *)
From S2P Require Import Prelude Contracts K8s Api Effects GoLib NetIP GrpcClient CoreApi MigrationApi JobApi Cluster Storage TraceSpec MigrationHelpers Migration Snapshot.
From stdpp Require Import base gmap strings list.
From Stdlib Require Import ZArith Lia.
Import v1beta1.
#[local] Open Scope Z_scope.

Definition is_snapshot_create (c : kcall) : bool := match c with SnapshotCreate _ _ => true | _ => false end.

(** What identifies the snapshot on the hypervisor. *)
Definition snapshot_core (x : VMSnapshotStatus) : string * string * option time :=
  (sn_SnapshotID x, sn_TaskRef x, sn_CreationTime x).

Definition snapshot_task (resp : SnapshotCreateResponse) : string :=
  match snap_Task resp with Some t => task_ID t | None => "" end.

Section Rules.
Context `{Lib : Libraries}.
Context (r : VMSnapshotReconciler) (s : VMSnapshot).

Definition snapshot_is_live : Prop := meta_DeletionTimestamp (sn_meta s) = None.
Definition snapshot_in (p : SnapshotPhase) : Prop := snapshot_is_live /\ sn_Phase (sn_Status s) = p.
Definition read_vm (h : ktrace) (a : res VirtualMachine) : Prop :=
  kev (KGet KVirtualMachine (snapshot_vm_key s)) a ∈ h.

(** The provider was asked what it can do, and cannot. *)
Definition unsupported (h : ktrace) (i : ProviderInstance) (req : SnapshotCreateRequest) : Prop :=
  exists caps, kev (GetCapabilities i) (Ok caps) ∈ h
    /\ (SupportsSnapshots caps = false
        \/ snap_IncludeMemory req = true /\ SupportsMemorySnapshots caps = false).

Inductive snapshot_step (h : ktrace) (x : VMSnapshotStatus) : Prop :=
  | snap_wait :
      snapshot_is_live -> sn_Phase x = sn_Phase (sn_Status s) ->
      snapshot_core x = snapshot_core (sn_Status s) -> occurs is_snapshot_create h = false ->
      snapshot_step h x
  | snap_start :
      snapshot_in SnapshotPhaseUnset -> sn_Phase x = SnapshotPhaseCreating ->
      snapshot_core x = snapshot_core (sn_Status s) -> occurs is_snapshot_create h = false ->
      snapshot_step h x
  | snap_refused i req :
      snapshot_in SnapshotPhaseUnset -> sn_Phase x = SnapshotPhaseFailed ->
      snapshot_core x = snapshot_core (sn_Status s) ->
      unsupported h i req \/ (exists e, kev (SnapshotCreate i req) (Err e) ∈ h) -> snapshot_step h x
  | snap_running i req resp now :
      snapshot_in SnapshotPhaseUnset -> kev (SnapshotCreate i req) (Ok resp) ∈ h ->
      sn_Phase x = SnapshotPhaseCreating -> snapshot_task resp <> "" ->
      snapshot_core x = (snap_SnapshotId resp, snapshot_task resp, Some now) -> snapshot_step h x
  | snap_taken i req resp now :
      snapshot_in SnapshotPhaseUnset -> kev (SnapshotCreate i req) (Ok resp) ∈ h ->
      sn_Phase x = SnapshotPhaseReady -> snapshot_task resp = "" ->
      snapshot_core x = (snap_SnapshotId resp, "", Some now) -> snapshot_step h x
  | snap_completed :
      snapshot_in SnapshotPhaseCreating -> sn_Phase x = SnapshotPhaseReady ->
      snapshot_core x = (sn_SnapshotID (sn_Status s), "", sn_CreationTime (sn_Status s)) ->
      sn_TaskRef (sn_Status s) = ""
      \/ (exists i st, kev (TaskStatus i (sn_TaskRef (sn_Status s))) (Ok st) ∈ h
                       /\ ts_IsCompleted st = true /\ ts_Error st = "") ->
      snapshot_step h x
  | snap_broken i st :
      snapshot_in SnapshotPhaseCreating -> sn_Phase x = SnapshotPhaseFailed ->
      snapshot_core x = (sn_SnapshotID (sn_Status s), "", sn_CreationTime (sn_Status s)) ->
      kev (TaskStatus i (sn_TaskRef (sn_Status s))) (Ok st) ∈ h ->
      ts_IsCompleted st = true -> ts_Error st <> "" -> snapshot_step h x
  | snap_deleting :
      ~ snapshot_is_live -> sn_Phase x = SnapshotPhaseDeleting ->
      snapshot_core x = snapshot_core (sn_Status s) -> snapshot_step h x.

(** Nothing of the snapshot is left on the hypervisor, as far as the controller
    can tell, or its provider was asked to delete it. *)
Definition released (h : ktrace) : Prop :=
  (exists e, read_vm h (Err e) /\ api_IsNotFound e = true)
  \/ exists vm, read_vm h (Ok vm)
       /\ (sn_SnapshotID (sn_Status s) = "" \/ status_ID (vm_Status vm) = ""
           \/ exists i a, kev (SnapshotDelete i (status_ID (vm_Status vm)) (sn_SnapshotID (sn_Status s))) a ∈ h).

Definition finalizer_rule (h : ktrace) (s' : VMSnapshot) : Prop :=
  (snapshot_is_live /\ ContainsFinalizer (meta_Finalizers (sn_meta s)) snapshotFinalizer = false
   /\ meta_Finalizers (sn_meta s') = AddFinalizer (meta_Finalizers (sn_meta s)) snapshotFinalizer)
  \/ (~ snapshot_is_live /\ released h
      /\ meta_Finalizers (sn_meta s') = RemoveFinalizer (meta_Finalizers (sn_meta s)) snapshotFinalizer).

Definition expired (h : ktrace) : Prop :=
  exists maxAge now t, sn_RetentionPolicy (sn_Spec s) ≫= srp_MaxAge = Some maxAge
    /\ sn_CreationTime (sn_Status s) = Some t /\ kev TimeNow now ∈ h /\ maxAge < Time_Sub now t.

Definition vm_gone (h : ktrace) : Prop :=
  (exists p, sn_RetentionPolicy (sn_Spec s) = Some p /\ srp_DeleteOnVMDelete p = true)
  /\ exists e, read_vm h (Err e) /\ api_IsNotFound e = true.

Definition create_rule (h : ktrace) (i : ProviderInstance) (req : SnapshotCreateRequest) : Prop :=
  snapshot_in SnapshotPhaseUnset /\ occurs is_snapshot_create h = false
  /\ (exists vm, read_vm h (Ok vm) /\ status_ID (vm_Status vm) <> ""
                 /\ req = buildSnapshotCreateRequest s vm)
  /\ (sr_EnforceCapabilities r = true -> inst_CapabilityReporter i = true ->
      exists a, kev (GetCapabilities i) a ∈ h
        /\ forall caps, a = Ok caps ->
             SupportsSnapshots caps = true
             /\ (snap_IncludeMemory req = true -> SupportsMemorySnapshots caps = true)).

Definition snapshot_allowed (h : ktrace) (c : kcall) : Prop :=
  match c with
  | KStatusUpdate KVMSnapshot s' =>
      sn_meta s' = sn_meta s /\ sn_Spec s' = sn_Spec s /\ snapshot_step h (sn_Status s')
  | KUpdate KVMSnapshot s' => sn_Spec s' = sn_Spec s /\ finalizer_rule h s'
  | KDelete KVMSnapshot s' => s' = s /\ snapshot_in SnapshotPhaseReady /\ (expired h \/ vm_gone h)
  | SnapshotCreate i req => create_rule h i req
  | SnapshotDelete i vmId id =>
      ~ snapshot_is_live /\ id = sn_SnapshotID (sn_Status s) /\ id <> ""
      /\ exists vm, read_vm h (Ok vm) /\ vmId = status_ID (vm_Status vm) /\ vmId <> ""
  | KGet _ _ | Resolve _ | TaskStatus _ _ | GetCapabilities _ | TimeNow | Event _ _ _ | CountError _ => True
  | _ => False
  end.

Definition snapshot_rule (h : ktrace) (x : event kcall kanswer) : Prop := snapshot_allowed h (projT1 x).

(** ** The controller keeps to the rules *)
Abbreviation safe h p := (guar snapshot_rule h p (fun _ _ => True)).
Ltac go := repeat (guar_step; try exact I).

(** A copy of the snapshot in memory: only its status may have changed. *)
Definition same_object (s' : VMSnapshot) : Prop := sn_meta s' = sn_meta s /\ sn_Spec s' = sn_Spec s.

Lemma save_then_safe h s' res :
  same_object s' -> snapshot_step h (sn_Status s') -> safe h (snapshot_save_then s' res).
Proof.
  intros [Hm Hs] Hst. unfold snapshot_save_then, updateStatus. guar_step. guar_step; [done|]. by apply guar_ret.
Qed.

Lemma save_or_fail_safe h s' res :
  same_object s' -> snapshot_step h (sn_Status s') -> safe h (snapshot_save_or_fail s' res).
Proof.
  intros [Hm Hs] Hst. unfold snapshot_save_or_fail, updateStatus. guar_step. guar_step; [done|].
  guar_step; by apply guar_ret.
Qed.

(** An event of the history, up to the copies of the snapshot in its calls. *)
Ltac in_history := solve [repeat first [exact (elem_of_last (R := kanswer) _ _) | apply elem_of_history]].
Ltac saves := first [apply save_then_safe | apply save_or_fail_safe]; [done|].

Lemma handleRetention_safe h : snapshot_in SnapshotPhaseReady -> safe h (handleRetention s).
Proof.
  intros Hin.
  assert (forall h', safe h' (retain_with_vm s)) as Hvm.
  { intros h'. unfold retain_with_vm, delete_expired. guar_step; [|by apply guar_ret].
    guar_step. guar_step; [done|]. guar_step; [by apply guar_ret|]. guar_step; [|by apply guar_ret].
    guar_step. guar_step; [|by apply guar_ret]. split_and!; [done|done|]. right. split.
    - destruct (sn_RetentionPolicy (sn_Spec s)) as [p|]; [by exists p|done].
    - eexists. split; [apply elem_of_last|done]. }
  unfold handleRetention. guar_step; [|apply Hvm]. guar_step; [|apply guar_crash].
  guar_step. guar_step; [done|]. guar_step; [|apply Hvm].
  unfold delete_expired. guar_step. guar_step; [|by apply guar_ret].
  split_and!; [done|done|]. left. eexists _, _, _. split_and!; [done|done|apply elem_of_last|lia].
Qed.

Lemma remove_finalizer_safe h s' :
  same_object s' -> ~ snapshot_is_live -> released h -> safe h (snapshot_remove_finalizer s').
Proof.
  intros [Hm Hs] Hl Hr. unfold snapshot_remove_finalizer. guar_step. guar_step.
  - split; [done|]. right. cbn. by rewrite Hm.
  - go; by apply guar_ret.
Qed.

Lemma snapshot_deletion_safe h : ~ snapshot_is_live -> safe h (handleDeletion r s).
Proof.
  intros Hl. unfold handleDeletion, delete_via_provider, getProviderInstance, snapshot_condition, updateStatus.
  go; emptiness; try (by apply guar_ret).
  1: split_and!; [done|done|by apply snap_deleting].
  1: apply andb_true_iff in Heqb as [Hid Hv]; emptiness;
     split_and!; [done|done|done|]; exists t; split_and!; [in_history|done|done].
  all: apply remove_finalizer_safe; [done|done|].
  - apply andb_true_iff in Heqb as [Hid Hv]; emptiness. right. exists t. split; [in_history|].
    right; right. eexists _, _. in_history.
  - apply andb_true_iff in Heqb as [Hid Hv]; emptiness. right. exists t. split; [in_history|].
    right; right. eexists _, _. in_history.
  - right. exists t. split; [in_history|]. apply andb_false_iff in Heqb as [Hid|Hv]; emptiness; auto.
  - left. exists e. split; [in_history|done].
Qed.

Lemma checkSnapshotCreation_safe h vm :
  snapshot_in SnapshotPhaseCreating -> safe h (checkSnapshotCreation r s vm).
Proof.
  intros Hin. unfold checkSnapshotCreation, snapshot_ready, snapshot_task_failed, getProviderInstance,
    snapshot_condition.
  go; emptiness; try (by apply guar_ret); saves.
  - apply snap_completed; [done|done|by rewrite <- Heqb|by left].
  - eapply snap_broken; [done|done|done|in_history|done|done].
  - apply snap_completed; [done|done|done|]. right. eexists _, _. split_and!; [in_history|done|done].
Qed.

Lemma gateSnapshotCreate_guar h s' i req :
  snapshot_in SnapshotPhaseUnset -> same_object s' -> snapshot_core (sn_Status s') = snapshot_core (sn_Status s) ->
  occurs is_snapshot_create h = false ->
  guar snapshot_rule h (gateSnapshotCreate r s' i req) (fun h' blocked =>
    blocked = None -> (exists tr, h' = h ++ tr /\ occurs is_snapshot_create tr = false)
      /\ (sr_EnforceCapabilities r = true -> inst_CapabilityReporter i = true ->
          exists a, kev (GetCapabilities i) a ∈ h'
            /\ forall caps, a = Ok caps ->
                 SupportsSnapshots caps = true
                 /\ (snap_IncludeMemory req = true -> SupportsMemorySnapshots caps = true))).
Proof.
  intros Hin [Hm Hsp] Hc Ho. unfold gateSnapshotCreate, blockSnapshot, snapshot_condition, updateStatus.
  go; emptiness; try apply guar_ret; try done.
  all: try (intros _; split; [exists []; by rewrite app_nil_r|congruence]).
  all: try (split_and!; [done|done|]; apply (snap_refused _ _ i req); [done|done|done|left; exists t; split; [in_history|]]).
  - by left.
  - apply andb_true_iff in Heqb2 as [? ?]; emptiness. by right.
  - intros _. split; [by eexists|]. intros _ _. eexists. split; [in_history|]. intros caps [= <-].
    split; [done|]. intros Hmem. rewrite Hmem in Heqb2. cbn in Heqb2. by emptiness.
  - intros _. split; [by eexists|]. intros _ _. eexists. split; [in_history|done].
Qed.
Lemma createSnapshot_safe h vm :
  snapshot_in SnapshotPhaseUnset -> occurs is_snapshot_create h = false ->
  read_vm h (Ok vm) -> status_ID (vm_Status vm) <> "" -> safe h (createSnapshot r s vm).
Proof.
  intros Hin Ho Hvm Hid. unfold createSnapshot, getProviderInstance, snapshot_condition.
  go.
  all: try (saves; apply snap_start; [done|done|done|]; by rewrite ?occurs_app, Ho).
  guar_use gateSnapshotCreate_guar; [done|done|done|by rewrite ?occurs_app, Ho|].
  intros tr [res|] Hgate; [by apply guar_ret|]. destruct (Hgate eq_refl) as [(tr' & ->%app_inv_head & Htr) Hcap].
  guar_step. guar_step.
  - split_and!; [done|by rewrite ?occurs_app, Ho, Htr|eexists vm; split_and!; [|done|done]|done].
    unfold read_vm. in_history || by repeat apply elem_of_history.
  - unfold snapshot_failed, record_snapshot, snapshot_ready, snapshot_condition. go; emptiness; saves.
    + eapply snap_running; [done|in_history|done|done|done].
    + eapply snap_taken; [done|in_history|done|done|done].
    + eapply snap_refused; [done|done|done|right; eexists; in_history].
Qed.

Lemma reconcile_snapshot_safe : safe [] (reconcile_snapshot r s).
Proof.
  unfold reconcile_snapshot.
  destruct (meta_DeletionTimestamp (sn_meta s)) eqn:Hd;
    [apply snapshot_deletion_safe; unfold snapshot_is_live; congruence|].
  guar_step; emptiness.
  { unfold snapshot_add_finalizer. guar_step. guar_step; [split; [done|by left]|]. go; by apply guar_ret. }
  unfold snapshot_live, snapshot_condition, updateStatus. go; emptiness; try (by apply guar_ret).
  - saves. by apply snap_wait.
  - unfold snapshot_phase. destruct (sn_Phase (sn_Status s)) eqn:Hp; try (by apply guar_ret).
    + apply createSnapshot_safe; [done|done|apply elem_of_last|done].
    + by apply checkSnapshotCreation_safe.
    + by apply handleRetention_safe.
  - split_and!; [done|done|by apply snap_wait].
Qed.

Lemma snapshot_conforms tr o : runs (reconcile_snapshot r s) tr o -> conforms snapshot_rule [] tr.
Proof. intros Hr. by eapply guar_runs; [apply reconcile_snapshot_safe|exact Hr]. Qed.
End Rules.

(** ** The life of a snapshot *)
Definition snapshot_written (x : event kcall kanswer) : option VMSnapshotStatus :=
  match x with existT (KStatusUpdate KVMSnapshot s') None => Some (sn_Status s') | _ => None end.

Lemma snapshot_written_inv x y :
  snapshot_written x = Some y -> exists s', x = kev (KStatusUpdate KVMSnapshot s') None /\ y = sn_Status s'.
Proof.
  destruct x as [c a]. destruct c; try done. destruct k; try done. destruct a; [done|].
  intros [= <-]. by eexists.
Qed.

(** Every status the reconcile wrote was stored. *)
Definition snapshot_writes_succeed (tr : ktrace) : Prop :=
  forall s' a, kev (KStatusUpdate KVMSnapshot s') a ∈ tr -> a = None.

Definition stores (x : event kcall kanswer) : bool :=
  match x with existT (KStatusUpdate KVMSnapshot _) (Some _) => false | _ => true end.
Lemma snapshot_writes_succeed_b tr : forallb stores tr = true -> snapshot_writes_succeed tr.
Proof.
  intros Hb s' a Hin. rewrite forallb_forall in Hb. apply list_elem_of_In, Hb in Hin. by destruct a.
Qed.

Definition ends_with_save (tr : ktrace) : Prop :=
  exists pre s' a, tr = pre ++ [kev (KStatusUpdate KVMSnapshot s') a].

Section Life.
Context `{Lib : Libraries}.
Context (r : VMSnapshotReconciler).

Lemma snapshot_run_allowed s tr o (c : kcall) (a : kanswer c) :
  runs (reconcile_snapshot r s) tr o -> kev c a ∈ tr ->
  exists pre post, tr = pre ++ kev c a :: post /\ snapshot_allowed r s pre c.
Proof. intros Hr%snapshot_conforms Hin. exact (conforms_elem _ _ _ Hr Hin). Qed.

Lemma snapshot_create_once s tr o :
  runs (reconcile_snapshot r s) tr o -> (length (calls is_snapshot_create tr) <= 1)%nat.
Proof.
  intros Hr%snapshot_conforms. eapply conforms_at_most_once; [|exact Hr].
  intros h [c a] Hc Hx. destruct c; try done. by destruct Hx as (_ & Ho & _).
Qed.

(** Once it has left the initial phase a snapshot is not taken, and stays out of it. *)
Lemma spent_snapshot s tr o :
  runs (reconcile_snapshot r s) tr o -> sn_Phase (sn_Status s) <> SnapshotPhaseUnset ->
  occurs is_snapshot_create tr = false
  /\ sn_Phase (stored snapshot_written (sn_Status s) tr) <> SnapshotPhaseUnset.
Proof.
  intros Hr Hp. split.
  - apply not_true_iff_false. intros [[c a] [Hin Hc]]%existsb_exists. apply list_elem_of_In in Hin.
    destruct c; try done. destruct (snapshot_run_allowed _ _ _ _ _ Hr Hin) as (pre & post & _ & Hx).
    by destruct Hx as [[_ Hx] _].
  - destruct (stored_cases snapshot_written (sn_Status s) tr) as [->|(x & Hin & Hw)]; [done|].
    apply snapshot_written_inv in Hw as (s' & Hw & ->). rewrite Hw in Hin.
    destruct (snapshot_run_allowed _ _ _ _ _ Hr Hin) as (pre & post & _ & _ & _ & Hx).
    destruct Hx as [? ->| | | | | | |]; congruence.
Qed.

(** *** Taking a snapshot ends with its record *)
Lemma ends_app tr1 tr2 : ends_with_save tr2 -> ends_with_save (tr1 ++ tr2).
Proof. intros (pre & s' & a & ->). exists (tr1 ++ pre), s', a. by rewrite app_assoc. Qed.

Abbreviation ends p := (wp p (fun tr _ => ends_with_save tr)).

Lemma ends_bind {A B} (p : KM A) (k : A -> KM B) :
  wp p (fun _ o => exists a, o = Done a) -> (forall a, ends (k a)) -> ends (p ≫= k).
Proof.
  intros Hp Hk. apply wp_bind. eapply wp_mono; [exact Hp|]. intros tr o [a ->]; cbn.
  eapply wp_mono; [apply Hk|]. cbn. eauto using ends_app.
Qed.

Lemma ends_save_then s res : ends (snapshot_save_then s res).
Proof. cbn. intros a. by exists [], s, a. Qed.
Lemma ends_save_or_fail s res : ends (snapshot_save_or_fail s res).
Proof. cbn. intros [e|]; by eexists [], s, _. Qed.

Ltac returns := unfold getProviderInstance; repeat case_match; cbn; repeat (intros ?; cbn); eauto.
Ltac ends_step :=
  cbn beta zeta;
  lazymatch goal with
  | |- ends (_ ≫= _) => apply ends_bind; [by returns|intros ?]
  | |- ends (snapshot_save_then _ _) => apply ends_save_then
  | |- ends (snapshot_save_or_fail _ _) => apply ends_save_or_fail
  | |- ends (match ?x with _ => _ end) => destruct x
  end.

Lemma gate_ends s i req :
  wp (gateSnapshotCreate r s i req)
    (fun tr o => exists b, o = Done b /\ (b <> None -> ends_with_save tr)).
Proof.
  unfold gateSnapshotCreate, blockSnapshot, snapshot_condition, updateStatus.
  repeat case_match; cbn; try (by exists None).
  all: intros [caps|e]; cbn; repeat case_match; cbn.
  all: try (by exists None).
  all: intros t1 t2 [] a; eexists; split; [done|]; intros _; by eexists [_; _; _; _], _, a.
Qed.

Lemma createSnapshot_ends s vm : ends (createSnapshot r s vm).
Proof.
  unfold createSnapshot. do 5 ends_step; [|repeat ends_step].
  apply wp_bind. eapply wp_mono; [apply gate_ends|]. intros tr o ([res|] & -> & Hb); cbn beta iota.
  - cbn. rewrite app_nil_r. auto.
  - eapply wp_mono; [|intros tr' o Ht; apply ends_app, Ht].
    unfold record_snapshot, snapshot_ready, snapshot_failed. repeat ends_step.
Qed.

(** A reconcile that takes the snapshot ends with the write of its status. *)
Lemma taking_ends_with_save s tr o :
  runs (reconcile_snapshot r s) tr o -> occurs is_snapshot_create tr = true -> ends_with_save tr.
Proof.
  intros Hr. revert Hr. apply (proj1 (wp_runs _ (fun tr _ => occurs is_snapshot_create tr = true -> ends_with_save tr))).
  assert (forall A (p : KM A), silent is_snapshot_create p ->
            wp p (fun tr _ => occurs is_snapshot_create tr = true -> ends_with_save tr)) as Hs.
  { intros A p Hp. eapply wp_mono; [exact Hp|]. cbn. congruence. }
  unfold reconcile_snapshot, snapshot_live, snapshot_phase.
  destruct (meta_DeletionTimestamp _).
  { apply Hs. unfold handleDeletion, delete_via_provider, getProviderInstance, snapshot_remove_finalizer,
      snapshot_condition, updateStatus. solve_silent. }
  destruct (negb _); [apply Hs; unfold snapshot_add_finalizer; solve_silent|].
  apply (wp_silent_prefix is_snapshot_create);
    [intros tr1 tr2 H1 H2; rewrite occurs_app, H1; eauto using ends_app|done|solve_silent|].
  intros [vm|e]; [|apply Hs; unfold snapshot_condition, updateStatus; solve_silent].
  destruct (is_empty _); [apply Hs; unfold snapshot_condition, snapshot_save_then, updateStatus; solve_silent|].
  destruct (sn_Phase (sn_Status s)).
  1: eapply wp_mono; [apply createSnapshot_ends|]; done.
  all: apply Hs; try apply silent_Ret.
  - unfold checkSnapshotCreation, snapshot_ready, snapshot_task_failed, getProviderInstance, snapshot_condition,
      snapshot_save_or_fail, updateStatus. solve_silent.
  - unfold handleRetention, retain_with_vm, delete_expired. solve_silent.
Qed.

Lemma snapshot_lifetime_step s tr o :
  runs (reconcile_snapshot r s) tr o -> snapshot_writes_succeed tr ->
  (length (calls is_snapshot_create tr) <= 1)%nat
  /\ (sn_Phase (sn_Status s) <> SnapshotPhaseUnset ->
      occurs is_snapshot_create tr = false
      /\ sn_Phase (stored snapshot_written (sn_Status s) tr) <> SnapshotPhaseUnset)
  /\ (occurs is_snapshot_create tr = true ->
      sn_Phase (stored snapshot_written (sn_Status s) tr) <> SnapshotPhaseUnset).
Proof.
  intros Hr Hw. split; [by eapply snapshot_create_once|]. split; [by apply spent_snapshot with o|].
  intros Ho. destruct (taking_ends_with_save s tr o Hr Ho) as (pre & s' & a & ->).
  assert (a = None) as -> by (eapply Hw, elem_of_app; right; by left).
  rewrite stored_app. cbn. rewrite occurs_app, orb_false_r in Ho.
  destruct (conforms_split _ [] _ pre _ [] (snapshot_conforms r s _ o Hr) eq_refl) as (_ & _ & Hst).
  cbn in Hst. destruct Hst; congruence.
Qed.

(** However often a snapshot is reconciled, as long as its status writes
    succeed and each reconcile reads what was stored last, the provider is asked to
    take it at most once. *)
Theorem snapshot_is_taken_once s trs s' :
  lifetime sn_Status (reconcile_snapshot r) snapshot_written s trs s' ->
  Forall snapshot_writes_succeed trs ->
  (length (calls is_snapshot_create (concat trs)) <= 1)%nat.
Proof.
  exact (done_once sn_Status (reconcile_snapshot r) snapshot_written is_snapshot_create
           snapshot_writes_succeed (fun x => sn_Phase x <> SnapshotPhaseUnset) snapshot_lifetime_step s trs s').
Qed.
End Life.

Section Props.
Context `{Lib : Libraries}.
Context (r : VMSnapshotReconciler).

(** C9. A reconcile of a VMSnapshot begins by reading it and then only makes calls
    its rules allow: every status it writes is a step of the phase machine, a
    snapshot is taken only in the initial phase, of the VM it names, once, and when
    the provider did not say that it cannot; the resource is deleted only when it
    is Ready and expired or its VM is gone; the finalizer goes only when the VM is
    gone, no snapshot is on record, or the provider was asked to delete it. *)
Theorem Snapshot_Reconcile_follows_the_rules key tr o :
  runs (Snapshot_Reconcile r key) tr o ->
  exists got rest, tr = kev (KGet KVMSnapshot key) got :: rest
    /\ match got with
       | Ok s => conforms (snapshot_rule r s) [] rest
       | Err e => api_IsNotFound e = true /\ rest = []
                  \/ api_IsNotFound e = false /\ o = Done (no_result, Some e)
       end.
Proof.
  unfold Snapshot_Reconcile.
  intros [(tr1 & tr2 & got & -> & Hg & Hr)|(w & Hg & ->)]%runs_bind_inv.
  - destruct Hg as (a & tr' & -> & -> & [= ->]). exists a, tr2. split; [done|].
    destruct a as [s|e]; [by apply snapshot_conforms in Hr|].
    destruct (api_IsNotFound e) eqn:He; [left; by destruct Hr|right]. split; [done|].
    destruct Hr as (u & tr' & -> & _ & ->). done.
  - by destruct Hg as (a & tr' & _ & _ & [=]).
Qed.

(** ** A snapshot that was never taken *)

(** The reconcile began by reading the VM, and it is provisioned. *)
Definition vm_provisioned (tr : ktrace) : bool :=
  match head tr ≫= vm_answer with
  | Some (Ok vm) => negb (is_empty (status_ID (vm_Status vm)))
  | _ => false
  end.

(** The reconcile of a live snapshot that has its finalizer. *)
Definition managed (s : VMSnapshot) : Prop :=
  meta_DeletionTimestamp (sn_meta s) = None
  /\ ContainsFinalizer (meta_Finalizers (sn_meta s)) snapshotFinalizer = true.

Lemma reconcile_managed s tr o :
  runs (reconcile_snapshot r s) tr o -> managed s ->
  exists a rest, tr = kev (KGet KVirtualMachine (snapshot_vm_key s)) a :: rest
    /\ (vm_provisioned tr = true -> exists vm, a = Ok vm /\ runs (snapshot_phase r s vm) rest o).
Proof.
  unfold reconcile_snapshot, snapshot_live. intros Hr [Hd Hf]. rewrite Hd, Hf in Hr. cbn [negb] in Hr.
  apply runs_bind_inv in Hr as [(tr1 & tr2 & got & -> & Hg & Hr)|(w & Hg & ->)];
    [|by destruct Hg as (a & tr' & _ & _ & [=])].
  destruct Hg as (a & tr' & -> & -> & [= ->]). exists a, tr2. split; [done|].
  cbn. destruct a as [vm|e]; [|done]. destruct (is_empty _); [done|]. eauto.
Qed.

Lemma reconcile_provisioned s tr o :
  runs (reconcile_snapshot r s) tr o -> managed s -> vm_provisioned tr = true ->
  exists vm rest, tr = kev (KGet KVirtualMachine (snapshot_vm_key s)) (Ok vm) :: rest
    /\ runs (snapshot_phase r s vm) rest o.
Proof.
  intros Hr Hm Hv. destruct (reconcile_managed s tr o Hr Hm) as (a & rest & -> & Hp).
  destruct (Hp Hv) as (vm & -> & Hp'). eauto.
Qed.

(** A snapshot in the creating phase without a task is made Ready at once. *)
Lemma creating_without_task s tr o :
  runs (reconcile_snapshot r s) tr o -> managed s -> vm_provisioned tr = true ->
  sn_Phase (sn_Status s) = SnapshotPhaseCreating -> sn_TaskRef (sn_Status s) = "" ->
  occurs is_snapshot_create tr = false
  /\ exists s' a, kev (KStatusUpdate KVMSnapshot s') a ∈ tr /\ sn_meta s' = sn_meta s /\ sn_Spec s' = sn_Spec s
       /\ sn_Phase (sn_Status s') = SnapshotPhaseReady
       /\ snapshot_core (sn_Status s') = snapshot_core (sn_Status s).
Proof.
  intros Hr Hm Hv Hp Ht. destruct (reconcile_provisioned s tr o Hr Hm Hv) as (vm & rest & -> & Hr').
  unfold snapshot_phase, checkSnapshotCreation in Hr'. rewrite Hp, Ht in Hr'. cbn in Hr'.
  destruct Hr' as (t1 & ? & -> & t2 & ? & -> & u & ? & -> & a & ? & -> & Hr').
  split.
  - destruct a; by destruct Hr' as [-> ->].
  - eexists _, a. split; [do 4 apply list_elem_of_further; apply list_elem_of_here|].
    unfold snapshot_core. cbn. by rewrite Ht.
Qed.

(** A snapshot can become Ready without having been taken.  When the first
    reconcile cannot reach the provider it stores the phase Creating without a
    task; the next reconcile takes that for a finished synchronous snapshot and
    marks it Ready with no snapshot on record; and if the snapshot has a maximal
    age, the reconcile after that panics on its missing creation time. *)
Theorem snapshot_is_ready_but_never_taken s tr o s1 tr1 o1 :
  runs (reconcile_snapshot r s) tr o -> managed s ->
  sn_Phase (sn_Status s) = SnapshotPhaseUnset -> snapshot_core (sn_Status s) = ("", "", None) ->
  occurs is_snapshot_create tr = false ->
  kev (KStatusUpdate KVMSnapshot s1) None ∈ tr -> sn_Phase (sn_Status s1) = SnapshotPhaseCreating ->
  runs (reconcile_snapshot r s1) tr1 o1 -> vm_provisioned tr1 = true ->
  occurs is_snapshot_create tr1 = false
  /\ exists s2 a, kev (KStatusUpdate KVMSnapshot s2) a ∈ tr1
       /\ sn_Phase (sn_Status s2) = SnapshotPhaseReady /\ sn_SnapshotID (sn_Status s2) = ""
       /\ forall tr2 o2, sn_RetentionPolicy (sn_Spec s2) ≫= srp_MaxAge <> None ->
            runs (reconcile_snapshot r s2) tr2 o2 -> vm_provisioned tr2 = true ->
            o2 = Panicked "nil VMSnapshot.Status.CreationTime".
Proof.
  intros Hr Hm Hp Hc Ho Hin Hp1 Hr1 Hv1.
  assert (sn_meta s1 = sn_meta s /\ sn_Spec s1 = sn_Spec s /\ snapshot_core (sn_Status s1) = ("", "", None))
    as (Hmeta & Hspec & Hc1).
  { destruct (snapshot_run_allowed r _ _ _ _ _ Hr Hin) as (pre & post & -> & Hmeta & Hspec & Hst).
    split_and!; [done|done|]. rewrite occurs_app in Ho. apply orb_false_iff in Ho as [Ho _].
    destruct Hst as [| | |i req resp now _ Hin'| | | |]; try congruence.
    exfalso. by eapply (occurs_false_elem is_snapshot_create); [exact Ho| |exact Hin']. }
  assert (managed s1) as Hm1 by (unfold managed; by rewrite Hmeta).
  unfold snapshot_core in Hc1. injection Hc1 as Hid Ht Hct.
  destruct (creating_without_task s1 tr1 o1 Hr1 Hm1 Hv1 Hp1 Ht) as (Hno & s2 & a & Hin2 & Hmeta2 & _ & Hp2 & Hc2).
  split; [done|]. exists s2, a. unfold snapshot_core in Hc2. injection Hc2 as Hid2 _ Hct2.
  split_and!; [done|done|congruence|]. intros tr2 o2 Hage Hr2 Hv2.
  assert (managed s2) as Hm2 by (unfold managed; by rewrite Hmeta2).
  destruct (reconcile_provisioned s2 tr2 o2 Hr2 Hm2 Hv2) as (vm & rest & -> & Hr3).
  unfold snapshot_phase, handleRetention in Hr3. rewrite Hp2 in Hr3.
  destruct (_ ≫= srp_MaxAge); [|done]. cbn in Hr3. rewrite Hct2, Hct in Hr3.
  by destruct Hr3 as [-> ->].
Qed.

(** Retention looks at the age alone: a Ready snapshot that has outlived its
    maximal age is deleted also when it is pinned and its policy preserves pinned
    snapshots. *)
Theorem pinned_snapshot_expires s tr o p maxAge t :
  runs (reconcile_snapshot r s) tr o -> managed s -> vm_provisioned tr = true ->
  sn_Phase (sn_Status s) = SnapshotPhaseReady -> sn_CreationTime (sn_Status s) = Some t ->
  sn_RetentionPolicy (sn_Spec s) = Some p -> srp_MaxAge p = Some maxAge -> srp_PreservePinned p = true ->
  sn_Metadata (sn_Spec s) = Some (mkSnapshotMetadata true) ->
  (forall now, kev TimeNow now ∈ tr -> maxAge < Time_Sub now t) ->
  exists a, kev (KDelete KVMSnapshot s) a ∈ tr.
Proof.
  intros Hr Hm Hv Hp Ht Hpol Hage _ _ Hold.
  destruct (reconcile_provisioned s tr o Hr Hm Hv) as (vm & rest & -> & Hr').
  unfold snapshot_phase, handleRetention in Hr'. rewrite Hp, Hpol in Hr'. cbn in Hr'. rewrite Hage, Ht in Hr'.
  destruct Hr' as (now & rest' & -> & Hr'). specialize (Hold now ltac:(right; left)).
  apply Z.ltb_lt in Hold. rewrite Hold in Hr'. destruct Hr' as (a & ? & -> & _).
  exists a. do 2 right. left.
Qed.

Definition is_snapshot_delete (c : kcall) : bool :=
  match c with KDelete KVMSnapshot _ => true | _ => false end.

(** A snapshot that should go with its VM stays: when the VM is gone the
    reconcile stops where it looks the VM up, reports an error, and never gets to
    the retention policy. *)
Theorem snapshot_outlives_its_vm s tr o p e :
  runs (reconcile_snapshot r s) tr o -> managed s ->
  sn_RetentionPolicy (sn_Spec s) = Some p -> srp_DeleteOnVMDelete p = true ->
  head tr = Some (kev (KGet KVirtualMachine (snapshot_vm_key s)) (Err e)) -> api_IsNotFound e = true ->
  occurs is_snapshot_delete tr = false /\ o = Done (requeue_after (30 * second), None).
Proof.
  intros Hr [Hd Hf] _ _ Hh _. unfold reconcile_snapshot, snapshot_live in Hr. rewrite Hd, Hf in Hr.
  cbn [negb] in Hr.
  destruct Hr as (a & rest & -> & Hr). injection Hh as Hh. apply (f_equal vm_answer) in Hh. injection Hh as ->.
  cbn in Hr. destruct Hr as (t & ? & -> & u & ? & -> & [] & ? & -> & -> & ->). by destruct u.
Qed.
End Props.

(** ** A small cluster *)
Module DemoSnapshot.
Import DemoLibraries.

(** The snapshot, its VM, whether the provider can be resolved, and the clock. *)
Record world := mkWorld {
  w_snapshot : VMSnapshot; w_vm : option VirtualMachine; w_reachable : bool; w_clock : time
}.
#[export] Instance world_eta : Eta world := fun w =>
  mkWorld (w_snapshot w) (w_vm w) (w_reachable w) (w_clock w).

Definition demo_provider : Provider :=
  mkProvider (mkObjectMeta "prov" "default" "p" 1 "1" ∅ ∅ [] None None) (bare_spec "libvirt" None) no_provider_status.
Definition demo_vm : VirtualMachine :=
  mkVM (mkObjectMeta "web" "default" "v" 1 "1" ∅ ∅ [] None None)
    (mkVMSpec (mkObjectRef "prov" "") (mkObjectRef "small" "") None None [] [] None None None "On" [] None None)
    (mkVMStatus "vm-1" "On" [] "" [] 1 "" ∅ "" None None VirtualMachinePhaseUnset).
Definition fresh_status : VMSnapshotStatus := mkVMSnapshotStatus "" SnapshotPhaseUnset "" None "" [].
Definition demo_snapshot : VMSnapshot :=
  mkVMSnapshot (mkObjectMeta "nightly" "default" "s" 1 "1" ∅ ∅ [snapshotFinalizer] None None)
    (mkVMSnapshotSpec (mkLocalRef "web") None
       (Some (mkSnapshotRetentionPolicy (Some (60 * minute)) true true))
       (Some (mkSnapshotMetadata true))) fresh_status.

Definition not_found : goerror := EApi (mkApiError true false false "not found").

Definition get (k : kind) (w : world) : res (object k) :=
  match k return res (object k) with
  | KVMSnapshot => Ok (w_snapshot w)
  | KVirtualMachine => match w_vm w with Some vm => Ok vm | None => Err not_found end
  | KProvider => Ok demo_provider
  | _ => Err not_found
  end.
Definition put (k : kind) (o : object k) (w : world) : world :=
  match k return object k -> world with
  | KVMSnapshot => fun s => w <| w_snapshot := s |>
  | _ => fun _ => w
  end o.

Definition serve (c : kcall) (w : world) : kanswer c * world :=
  match c return kanswer c * world with
  | KGet k _ => (get k w, w)
  | KUpdate k o => (None, put k o w)
  | KStatusUpdate k o => (None, put k o w)
  | Resolve p =>
      (if w_reachable w then Ok (mkInstance "prov" false true true) else Err (ENew "connection refused"), w)
  | SnapshotCreate _ _ => (Ok (mkSnapshotCreateResponse "snap-1" None), w)
  | TimeNow => (w_clock w, w)
  | c => (DemoCluster.idle c, w)
  end.

Definition demo_reconciler : VMSnapshotReconciler := mkSnapshotReconciler true false.
Definition one (w : world) := exec serve (reconcile_snapshot demo_reconciler (w_snapshot w)) w.
Definition start : world := mkWorld demo_snapshot (Some demo_vm) true 5.
Definition after (w : world) : world := (one w).2.

Lemma snapshot_one_runs w : runs (reconcile_snapshot demo_reconciler (w_snapshot w)) (one w).1.1 (one w).1.2.
Proof. apply exec_runs. Qed.

Lemma Snapshot_Reconcile_follows_the_rules_witness :
  let run := exec serve (Snapshot_Reconcile demo_reconciler (mkKey "default" "nightly")) start in
  exists got rest, run.1.1 = kev (KGet KVMSnapshot (mkKey "default" "nightly")) got :: rest
    /\ match got with
       | Ok s => conforms (snapshot_rule demo_reconciler s) [] rest
       | Err e => api_IsNotFound e = true /\ rest = []
                  \/ api_IsNotFound e = false /\ run.1.2 = Done (no_result, Some e)
       end.
Proof. exact (Snapshot_Reconcile_follows_the_rules demo_reconciler _ _ _ (exec_runs serve _ start)). Defined.

End DemoSnapshot.
