(* ===== verification/Clone.v ===== *)
(** * Clone: the VMClone controller

    Models [internal/controller/vmclone_controller.go] over the calls of
    [Cluster].  A clone is made on the provider of its source VM; its VirtualMachine
    is made with the adopted label and is then given the identifier of the cloned
    machine.  The JSON encoder is a parameter ([CloneCodec]). *)
From S2P Require Import Prelude Contracts K8s Api Effects GoLib NetIP GrpcClient CoreApi MigrationApi JobApi Cluster Storage MigrationHelpers Migration VirtualMachine Snapshot.
From stdpp Require Import base gmap strings list.
From Stdlib Require Import ZArith.
Import v1beta1.
#[local] Open Scope Z_scope.

(** [json.Marshal] on the types the controller encodes. *)
Class CloneCodec := {
  marshal_class : VMClassSpec -> res string;
  marshal_placement : LocalObjectReference -> res string;
  marshal_customization : VMCustomization -> res string
}.

(** [cr_RemoteResolver]: the resolver is not nil. *)
Record VMCloneReconciler := mkCloneReconciler { cr_RemoteResolver : bool }.

Definition vmCloneFinalizer : string := "clone.infra.virtrigaud.io/finalizer".
Definition errReasonGetClone : string := "get-clone".
Definition CloneAnnotationClonedFrom : string := "virtrigaud.io/cloned-from".
Definition CloneAnnotationClone : string := "virtrigaud.io/clone".
Definition cloneReasonUnsupportedSource : string := "UnsupportedSource".
Definition cloneReasonLinkedUnsupported : string := "LinkedCloneUnsupported".

Definition cl_Name (c : VMClone) : string := meta_Name (cl_meta c).
Definition cl_Namespace (c : VMClone) : string := meta_Namespace (cl_meta c).

(** The name a reference gives, if it gives one. *)
Definition ref_name (ref : option LocalObjectReference) : option string :=
  match ref with
  | Some l => if is_empty (lref_Name l) then None else Some (lref_Name l)
  | None => None
  end.

Section Clone.
Context `{Lib : Libraries} `{Codec : CloneCodec}.
Context (r : VMCloneReconciler).

Definition with_clone (c : VMClone) (f : VMCloneStatus -> VMCloneStatus) : VMClone :=
  c <| cl_Status := f (cl_Status c) |>.

(** [k8s.SetCondition] on the clone's conditions. *)
Definition clone_condition (c : VMClone) (t : string) (st : ConditionStatus) (reason msg : string)
    : KM VMClone :=
  now ← kdo TimeNow;
  Ret (with_clone c (fun x =>
         x <| cl_Conditions := util_SetCondition now (cl_Conditions x) t st reason msg |>)).

Definition updateStatus (c : VMClone) : KM (option goerror) := kdo (KStatusUpdate KVMClone c).

Definition markFailed (c : VMClone) (reason message : string) : KM Result :=
  let c := with_clone c (fun x =>
    x <| cl_Phase := ClonePhaseFailed |> <| cl_Message := message |> <| cl_TaskRef := "" |>) in
  c ← clone_condition c VMCloneConditionReady ConditionFalse reason message;
  c ← clone_condition c VMCloneConditionFailed ConditionTrue reason message;
  _ ← kdo (Event "Warning" reason message);
  _ ← updateStatus c;
  Ret no_result.

Definition markPending (c : VMClone) (reason message : string) : KM Result :=
  let c := with_clone c (fun x => x <| cl_Phase := ClonePhasePending |> <| cl_Message := message |>) in
  c ← clone_condition c VMCloneConditionReady ConditionFalse reason message;
  _ ← updateStatus c;
  Ret (requeue_after (30 * second)).

(** The branches that end so return no error. *)
Definition fail (c : VMClone) (reason message : string) : KM job_result :=
  res ← markFailed c reason message; Ret (res, None).
Definition wait (c : VMClone) (reason message : string) : KM job_result :=
  res ← markPending c reason message; Ret (res, None).

Definition requestedCloneType (c : VMClone) : string :=
  match cl_Options (cl_Spec c) with
  | Some o => if is_empty (co_Type o) then CloneTypeFullClone else co_Type o
  | None => CloneTypeFullClone
  end.

Definition getProviderInstance (p : Provider) : KM (res ProviderInstance) :=
  if negb (cr_RemoteResolver r) then Ret (Err (ENew "no remote resolver available"))
  else kdo (Resolve p).

(** An encoding that fails is left out. *)
Definition or_empty (s : res string) : string := match s with Ok s => s | Err _ => "" end.

Definition classJSON (c : VMClone) : KM string :=
  match ref_name (ct_ClassRef (cl_Target (cl_Spec c))) with
  | None => Ret ""
  | Some name =>
      cls ← kdo (KGet KVMClass (mkKey (cl_Namespace c) name));
      Ret match cls with
          | Err _ => ""
          | Ok cls => or_empty (marshal_class (class_Spec cls))
          end
  end.
Definition placementJSON (c : VMClone) : string :=
  match ct_PlacementRef (cl_Target (cl_Spec c)) with
  | Some ref => if is_empty (lref_Name ref) then "" else or_empty (marshal_placement ref)
  | None => ""
  end.
Definition customizeJSON (c : VMClone) : string :=
  match cl_Customization (cl_Spec c) with
  | Some cz => or_empty (marshal_customization cz)
  | None => ""
  end.

(** The result is to be returned when the gate blocks. *)
Definition gateLinkedClone (c : VMClone) (i : ProviderInstance) : KM (option Result) :=
  if negb (inst_CapabilityReporter i) then Ret None
  else
    caps ← kdo (GetCapabilities i);
    match caps with
    | Err _ => Ret None
    | Ok caps =>
        if negb (SupportsLinkedClones caps) then
          res ← markFailed c cloneReasonLinkedUnsupported "provider does not support linked clones";
          Ret (Some res)
        else Ret None
    end.

(** ** Binding the target *)
Definition buildTargetVM (c : VMClone) (sourceVM : VirtualMachine) (targetNamespace : string)
    : VirtualMachine :=
  let target := cl_Target (cl_Spec c) in
  let labels := <[AdoptedLabel := AdoptedLabelValue]> (ct_Labels target) in
  let annotations := ct_Annotations target
    ∪ {[ CloneAnnotationClonedFrom := meta_Name (vm_meta sourceVM); CloneAnnotationClone := cl_Name c ]} in
  let classRef := match ref_name (ct_ClassRef target) with
                  | Some name => mkObjectRef name ""
                  | None => spec_ClassRef (vm_Spec sourceVM)
                  end in
  mkVM (mkObjectMeta (ct_Name target) targetNamespace "" 0 "" labels annotations [] None None)
    (mkVMSpec (spec_ProviderRef (vm_Spec sourceVM)) classRef None None (ct_Networks target) [] None None
       None "" [] None (mkLocalRef <$> ref_name (ct_PlacementRef target)))
    (mkVMStatus "" "" [] "" [] 0 "" ∅ "" None None VirtualMachinePhaseUnset).

Definition finalizeReady (c : VMClone) (targetName : string) : KM job_result :=
  now ← kdo TimeNow;
  let c := with_clone c (fun x =>
    x <| cl_Phase := ClonePhaseReady |> <| cl_Message := "Clone completed successfully" |>
      <| cl_TaskRef := "" |> <| cl_CompletionTime := Some now |>
      <| cl_TargetRef := Some (mkLocalRef targetName) |>) in
  c ← clone_condition c VMCloneConditionReady ConditionTrue VMCloneReasonCompleted "Clone completed successfully";
  c ← clone_condition c VMCloneConditionCloning ConditionFalse VMCloneReasonCompleted "Clone completed";
  e ← updateStatus c;
  Ret (no_result, e).

(** The target's identifier is written on top of a fresh read, and again after a
    conflict. *)
Definition seed_id (key : NamespacedName) (targetVMID : string) : KM (res unit) :=
  RetryOnConflict
    (latest ← kdo (KGet KVirtualMachine key);
     match latest with
     | Err err => Ret (Err err)
     | Ok latest =>
         if bool_decide (status_ID (vm_Status latest) = targetVMID) then Ret (Ok tt)
         else
           e ← kdo (KStatusUpdate KVirtualMachine
                      (latest <| vm_Status := vm_Status latest <| status_ID := targetVMID |> |>));
           Ret match e with Some err => Err err | None => Ok tt end
     end).

Definition seed_and_finalize (c : VMClone) (key : NamespacedName) (targetVMID targetName : string)
    : KM job_result :=
  seeded ← seed_id key targetVMID;
  match seeded with
  | Err _ => Ret (requeue_after (5 * second), None)
  | Ok _ => finalizeReady c targetName
  end.

Definition bindTargetVM (c : VMClone) (sourceVM : VirtualMachine) (targetNamespace targetVMID : string)
    : KM job_result :=
  if is_empty targetVMID then
    fail c VMCloneReasonProviderError "clone completed but provider returned no target VM ID"
  else
    let key := mkKey targetNamespace (ct_Name (cl_Target (cl_Spec c))) in
    got ← kdo (KGet KVirtualMachine key);
    match got with
    | Ok vm => seed_and_finalize c key targetVMID (meta_Name (vm_meta vm))
    | Err err =>
        if api_IsNotFound err then
          let vm := buildTargetVM c sourceVM targetNamespace in
          created ← kdo (KCreate KVirtualMachine vm);
          match created with
          | Some cerr =>
              if negb (api_IsAlreadyExists cerr) then
                fail c VMCloneReasonProviderError (errorf "failed to create target VM" cerr)
              else
                _ ← kdo (Event "Normal" VMCloneReasonCompleted ("Created target VM " +:+ fmt_q (key_Name key)));
                seed_and_finalize c key targetVMID (meta_Name (vm_meta vm))
          | None =>
              _ ← kdo (Event "Normal" VMCloneReasonCompleted ("Created target VM " +:+ fmt_q (key_Name key)));
              seed_and_finalize c key targetVMID (meta_Name (vm_meta vm))
          end
        else Ret (requeue_after (30 * second), None)
    end.

(** ** Cloning *)
Definition record_clone (c : VMClone) (sourceVM : VirtualMachine) (targetNamespace : string)
    (resp : CloneResponse) : KM job_result :=
  let c := with_clone c (fun x =>
    x <| cl_TargetVMID := clr_TargetVmID resp |> <| cl_TaskRef := clr_TaskRef resp |>) in
  e ← updateStatus c;
  match e with
  | Some err => Ret (no_result, Some err)
  | None =>
      if is_empty (clr_TaskRef resp) then bindTargetVM c sourceVM targetNamespace (clr_TargetVmID resp)
      else Ret (requeue_after (10 * second), None)
  end.

Definition startClone (c : VMClone) (sourceVM : VirtualMachine) (i : ProviderInstance)
    (targetNamespace : string) (linked : bool) : KM job_result :=
  if negb (inst_Cloner i) then fail c VMCloneReasonUnsupported "provider does not support clone"
  else
    cls ← classJSON c;
    let req := mkCloneRequest (status_ID (vm_Status sourceVM)) (ct_Name (cl_Target (cl_Spec c))) linked cls
                 (placementJSON c) (customizeJSON c) in
    now ← kdo TimeNow;
    let c := with_clone c (fun x =>
      x <| cl_Phase := ClonePhaseCloning |> <| cl_StartTime := Some now |>
        <| cl_ActualCloneType := if linked then CloneTypeLinkedClone else CloneTypeFullClone |>) in
    c ← clone_condition c VMCloneConditionCloning ConditionTrue VMCloneReasonCloning "Clone operation initiated";
    resp ← kdo (Cluster.Clone i req);
    match resp with
    | Err err =>
        _ ← kdo (Event "Warning" VMCloneReasonProviderError (errorf "Clone failed" err));
        fail c VMCloneReasonProviderError (errorf "clone failed" err)
    | Ok resp => record_clone c sourceVM targetNamespace resp
    end.

Definition pollCloneTask (c : VMClone) (sourceVM : VirtualMachine) (i : ProviderInstance)
    (targetNamespace : string) : KM job_result :=
  done ← kdo (IsTaskComplete i (cl_TaskRef (cl_Status c)));
  match done with
  | Err err =>
      _ ← kdo (Event "Warning" VMCloneReasonProviderError (errorf "Clone task failed" err));
      fail c VMCloneReasonProviderError (errorf "clone task failed" err)
  | Ok false => Ret (requeue_after (10 * second), None)
  | Ok true =>
      let c := with_clone c (fun x => x <| cl_TaskRef := "" |>) in
      e ← updateStatus c;
      match e with
      | Some err => Ret (no_result, Some err)
      | None => bindTargetVM c sourceVM targetNamespace (cl_TargetVMID (cl_Status c))
      end
  end.

(** ** Reconcile *)
Definition clone_target_namespace (c : VMClone) : string :=
  let ns := ct_Namespace (cl_Target (cl_Spec c)) in if is_empty ns then cl_Namespace c else ns.

(** With the provider resolved: resume what is under way, or start. *)
Definition clone_resume (c : VMClone) (sourceVM : VirtualMachine) (i : ProviderInstance) (linked : bool)
    : KM job_result :=
  let ns := clone_target_namespace c in
  if negb (is_empty (cl_TaskRef (cl_Status c))) then pollCloneTask c sourceVM i ns
  else if negb (is_empty (cl_TargetVMID (cl_Status c)))
  then bindTargetVM c sourceVM ns (cl_TargetVMID (cl_Status c))
  else
    existing ← kdo (KGet KVirtualMachine (mkKey ns (ct_Name (cl_Target (cl_Spec c)))));
    match existing with
    | Ok _ =>
        fail c VMCloneReasonProviderError
          ("target VM " +:+ fmt_q (ct_Name (cl_Target (cl_Spec c)))
             +:+ " already exists and was not created by this clone")
    | Err err =>
        if negb (api_IsNotFound err) then Ret (requeue_after (30 * second), None)
        else startClone c sourceVM i ns linked
    end.

Definition clone_on_provider (c : VMClone) (sourceVM : VirtualMachine) (i : ProviderInstance)
    : KM job_result :=
  let linked := bool_decide (requestedCloneType c = CloneTypeLinkedClone) in
  blocked ← (if linked then gateLinkedClone c i else Ret None);
  match blocked with
  | Some res => Ret (res, None)
  | None => clone_resume c sourceVM i linked
  end.

(** The source VM was read and is provisioned. *)
Definition clone_from (c : VMClone) (sourceVM : VirtualMachine) : KM job_result :=
  let key := vm_provider_key sourceVM in
  p ← kdo (KGet KProvider key);
  match p with
  | Err _ => wait c VMCloneReasonProviderError ("provider " +:+ fmt_q (key_Name key) +:+ " not found")
  | Ok p =>
      i ← getProviderInstance p;
      match i with
      | Err err =>
          wait c VMCloneReasonProviderError
            (errorf ("failed to resolve provider " +:+ fmt_q (key_Name key)) err)
      | Ok i => clone_on_provider c sourceVM i
      end
  end.

Definition clone_pending (c : VMClone) : KM job_result :=
  let c := with_clone c (fun x => x <| cl_ObservedGeneration := meta_Generation (cl_meta c) |>) in
  match ref_name (cs_VMRef (cl_Source (cl_Spec c))) with
  | None => fail c cloneReasonUnsupportedSource "clone source type not yet supported; use source.vmRef"
  | Some name =>
      vm ← kdo (KGet KVirtualMachine (mkKey (cl_Namespace c) name));
      match vm with
      | Err err =>
          if api_IsNotFound err
          then wait c VMCloneReasonSourceNotFound ("source VM " +:+ fmt_q name +:+ " not found")
          else _ ← kdo (CountError errReasonGetVM); Ret (requeue_after (30 * second), None)
      | Ok vm =>
          if is_empty (status_ID (vm_Status vm))
          then wait c VMCloneReasonCloning "waiting for source VM to be provisioned"
          else clone_from c vm
      end
  end.

Definition handleDeletion (c : VMClone) : KM job_result :=
  e ← kdo (KUpdate KVMClone
             (c <| cl_meta := cl_meta c
                     <| meta_Finalizers := RemoveFinalizer (meta_Finalizers (cl_meta c)) vmCloneFinalizer |> |>));
  match e with
  | Some err => _ ← kdo (CountError errReasonRemoveFinalizer); Ret (no_result, Some err)
  | None => Ret (no_result, None)
  end.

Definition clone_add_finalizer (c : VMClone) : KM job_result :=
  e ← kdo (KUpdate KVMClone
             (c <| cl_meta := cl_meta c
                     <| meta_Finalizers := AddFinalizer (meta_Finalizers (cl_meta c)) vmCloneFinalizer |> |>));
  match e with
  | Some err => _ ← kdo (CountError errReasonAddFinalizer); Ret (no_result, Some err)
  | None => Ret (requeue_now, None)
  end.

(** The reconcile of a clone that was read. *)
Definition reconcile_clone (c : VMClone) : KM job_result :=
  match meta_DeletionTimestamp (cl_meta c) with
  | Some _ => handleDeletion c
  | None =>
      if negb (ContainsFinalizer (meta_Finalizers (cl_meta c)) vmCloneFinalizer) then clone_add_finalizer c
      else
        match cl_Phase (cl_Status c) with
        | ClonePhaseReady | ClonePhaseFailed => Ret (no_result, None)
        | _ => clone_pending c
        end
  end.

Definition Clone_Reconcile (key : NamespacedName) : KM job_result :=
  got ← kdo (KGet KVMClone key);
  match got with
  | Err err =>
      if api_IsNotFound err then Ret (no_result, None)
      else _ ← kdo (CountError errReasonGetClone); Ret (no_result, Some err)
  | Ok c => reconcile_clone c
  end.
End Clone.
