(* ===== verification/CloneProps.v ===== *)
(** * CloneProps: what the VMClone controller guarantees

    The rules of the controller ([clone_allowed]), the proof that every reconcile
    keeps to them, and what follows: the provider is asked to clone once, a clone
    that is Ready is bound to the machine the provider made, and the VirtualMachine
    controller does not make a second one. *)
From S2P Require Import Prelude Contracts K8s Api Effects GoLib NetIP GrpcClient CoreApi MigrationApi JobApi Cluster Storage TraceSpec MigrationHelpers Migration VirtualMachine VirtualMachineSpec VirtualMachineProps Snapshot Clone.
From stdpp Require Import base gmap strings list.
From Stdlib Require Import ZArith Lia.
Import v1beta1.
#[local] Open Scope Z_scope.

Definition is_clone (c : kcall) : bool := match c with Cluster.Clone _ _ => true | _ => false end.

Definition clone_core (x : VMCloneStatus) : string * string := (cl_TargetVMID x, cl_TaskRef x).

Section Rules.
Context `{Lib : Libraries} `{LOk : !LibrariesOk} `{Codec : CloneCodec}.
Context (r : VMCloneReconciler) (c : VMClone).
Abbreviation st := (cl_Status c).

Definition clone_live : Prop := meta_DeletionTimestamp (cl_meta c) = None.
Definition clone_active : Prop :=
  clone_live /\ cl_Phase st <> ClonePhaseReady /\ cl_Phase st <> ClonePhaseFailed.

Definition clone_target_key : NamespacedName :=
  mkKey (clone_target_namespace c) (ct_Name (cl_Target (cl_Spec c))).
Definition read_clone_source (h : ktrace) (vm : VirtualMachine) : Prop :=
  exists name, ref_name (cs_VMRef (cl_Source (cl_Spec c))) = Some name
    /\ kev (KGet KVirtualMachine (mkKey (cl_Namespace c) name)) (Ok vm) ∈ h
    /\ status_ID (vm_Status vm) <> "".
Definition target_absent (h : ktrace) : Prop :=
  exists e, kev (KGet KVirtualMachine clone_target_key) (Err e) ∈ h /\ api_IsNotFound e = true.

(** The provider has made the machine [id] for this clone. *)
Definition cloned (h : ktrace) (id : string) : Prop :=
  id <> ""
  /\ ((id = cl_TargetVMID st
       /\ (cl_TaskRef st = "" \/ exists i, kev (IsTaskComplete i (cl_TaskRef st)) (Ok true) ∈ h))
      \/ exists i req resp, kev (Cluster.Clone i req) (Ok resp) ∈ h
           /\ clr_TargetVmID resp = id /\ clr_TaskRef resp = "").

Definition with_id (vm : VirtualMachine) (id : string) : VirtualMachine :=
  vm <| vm_Status := vm_Status vm <| status_ID := id |> |>.

(** The target VM carries [id]: it was read with it, or given it. *)
Definition bound (h : ktrace) (id : string) : Prop :=
  exists vm, kev (KGet KVirtualMachine clone_target_key) (Ok vm) ∈ h
    /\ (status_ID (vm_Status vm) = id \/ kev (KStatusUpdate KVirtualMachine (with_id vm id)) None ∈ h).

Inductive clone_step (h : ktrace) (x : VMCloneStatus) : Prop :=
  | clone_waits :
      cl_Phase x = ClonePhasePending -> clone_core x = clone_core st -> occurs is_clone h = false ->
      clone_step h x
  | clone_fails :
      cl_Phase x = ClonePhaseFailed -> cl_TaskRef x = "" -> clone_step h x
  | clone_recorded i req resp :
      kev (Cluster.Clone i req) (Ok resp) ∈ h -> cl_Phase x = ClonePhaseCloning ->
      clone_core x = (clr_TargetVmID resp, clr_TaskRef resp) -> clone_step h x
  | clone_task_done i :
      cl_TaskRef st <> "" -> kev (IsTaskComplete i (cl_TaskRef st)) (Ok true) ∈ h ->
      cl_Phase x = cl_Phase st -> clone_core x = (cl_TargetVMID st, "") -> clone_step h x
  | clone_bound :
      cl_Phase x = ClonePhaseReady -> cl_TaskRef x = "" -> cloned h (cl_TargetVMID x) ->
      bound h (cl_TargetVMID x) -> clone_step h x.

(** The provider can make linked clones, or has not said that it cannot. *)
Definition linked_open (h : ktrace) (i : ProviderInstance) : Prop :=
  inst_CapabilityReporter i = true ->
  exists a, kev (GetCapabilities i) a ∈ h /\ forall caps, a = Ok caps -> SupportsLinkedClones caps = true.

(** The kind of clone that is asked for.  Every kind but the linked one, the instant clone
    among them, is made as a full clone. *)
Definition kind_allowed (h : ktrace) (i : ProviderInstance) (linked : bool) : Prop :=
  linked = bool_decide (requestedCloneType c = CloneTypeLinkedClone)
  /\ (linked = true -> linked_open h i).

Definition clone_rule_for (h : ktrace) (i : ProviderInstance) (req : CloneRequest) : Prop :=
  clone_active /\ clone_core st = ("", "") /\ occurs is_clone h = false /\ target_absent h
  /\ (exists vm, read_clone_source h vm /\ clq_SourceVmID req = status_ID (vm_Status vm))
  /\ clq_TargetName req = ct_Name (cl_Target (cl_Spec c))
  /\ inst_Cloner i = true /\ kind_allowed h i (clq_Linked req).

Definition clone_allowed (h : ktrace) (k : kcall) : Prop :=
  match k with
  | KStatusUpdate KVMClone c' =>
      clone_active /\ cl_meta c' = cl_meta c /\ cl_Spec c' = cl_Spec c /\ clone_step h (cl_Status c')
  | KUpdate KVMClone c' =>
      cl_Spec c' = cl_Spec c
      /\ ((clone_live /\ ContainsFinalizer (meta_Finalizers (cl_meta c)) vmCloneFinalizer = false
           /\ meta_Finalizers (cl_meta c') = AddFinalizer (meta_Finalizers (cl_meta c)) vmCloneFinalizer)
          \/ (~ clone_live
              /\ meta_Finalizers (cl_meta c') = RemoveFinalizer (meta_Finalizers (cl_meta c)) vmCloneFinalizer))
  | KCreate KVirtualMachine vm =>
      clone_active /\ target_absent h /\ (exists id, cloned h id)
      /\ exists src, read_clone_source h src /\ vm = buildTargetVM c src (clone_target_namespace c)
  | KStatusUpdate KVirtualMachine vm' =>
      clone_active /\ exists id vm, cloned h id /\ kev (KGet KVirtualMachine clone_target_key) (Ok vm) ∈ h
        /\ status_ID (vm_Status vm) <> id /\ vm' = with_id vm id
  | Cluster.Clone i req => clone_rule_for h i req
  | KGet _ _ | Resolve _ | IsTaskComplete _ _ | GetCapabilities _ | TimeNow | Event _ _ _ | CountError _ => True
  | _ => False
  end.

Definition clone_rule (h : ktrace) (x : event kcall kanswer) : Prop := clone_allowed h (projT1 x).

(** ** The controller keeps to the rules *)
Abbreviation safe h p := (guar clone_rule h p (fun _ _ => True)).
Ltac go := repeat (guar_step; try exact I).
Ltac in_history := solve [repeat first [exact (elem_of_last (R := kanswer) _ _) | apply elem_of_history; try eassumption]].

Definition clone_copy (c' : VMClone) : Prop := cl_meta c' = cl_meta c /\ cl_Spec c' = cl_Spec c.

Lemma target_absent_mono h tr : target_absent h -> target_absent (h ++ tr).
Proof. unfold target_absent. naive_solver eauto with history. Qed.
Lemma read_clone_source_mono h tr vm : read_clone_source h vm -> read_clone_source (h ++ tr) vm.
Proof. unfold read_clone_source. naive_solver eauto with history. Qed.
Lemma cloned_mono h tr id : cloned h id -> cloned (h ++ tr) id.
Proof.
  intros [Hid [[He [Ht|[i Hi]]]|(i & req & resp & Hin & Hr)]]; (split; [done|]);
    [left|left|right]; eauto 9 with history.
Qed.
Lemma kind_allowed_mono h tr i linked : kind_allowed h i linked -> kind_allowed (h ++ tr) i linked.
Proof.
  intros [Hk Hl]. split; [done|]. intros Hlk Hrep. destruct (Hl Hlk Hrep) as (a & Hin & Ha). eauto with history.
Qed.
Lemma bound_mono h tr id : bound h id -> bound (h ++ tr) id.
Proof. unfold bound. naive_solver eauto with history. Qed.

Lemma fail_safe h c' reason msg : clone_active -> clone_copy c' -> safe h (fail c' reason msg).
Proof.
  intros Ha [Hm Hs]. unfold fail, markFailed, clone_condition, updateStatus. go.
  split_and!; [done|done|done|]. by apply clone_fails.
Qed.

Lemma wait_safe h c' reason msg :
  clone_active -> clone_copy c' -> clone_core (cl_Status c') = clone_core st ->
  occurs is_clone h = false -> safe h (wait c' reason msg).
Proof.
  intros Ha [Hm Hs] Hc Ho. unfold wait, markPending, clone_condition, updateStatus. go.
  split_and!; [done|done|done|]. apply clone_waits; [done|done|]. by rewrite occurs_app, Ho.
Qed.

Lemma finalizeReady_safe h c' name :
  clone_active -> clone_copy c' -> cloned h (cl_TargetVMID (cl_Status c')) ->
  bound h (cl_TargetVMID (cl_Status c')) -> safe h (finalizeReady c' name).
Proof.
  intros Ha [Hm Hs] Hc Hb. unfold finalizeReady, clone_condition, updateStatus. go.
  split_and!; [done|done|done|]. apply clone_bound; [done|done| |].
  - by do 3 apply cloned_mono.
  - by do 3 apply bound_mono.
Qed.

Lemma seed_id_guar h id :
  clone_active -> cloned h id ->
  guar clone_rule h (seed_id clone_target_key id) (fun h' res => forall u, res = Ok u -> bound h' id).
Proof.
  intros Ha Hc. unfold seed_id. apply guar_RetryOnConflict. intros tr.
  guar_step. guar_step; [done|]. destruct r0 as [vm|e]; [|by apply guar_ret].
  case_bool_decide as Hid.
  - apply guar_ret. intros _ _. exists vm. split; [apply elem_of_last|by left].
  - guar_step. guar_step.
    + split; [done|]. exists id, vm. split_and!; [by do 2 apply cloned_mono|apply elem_of_last|done|done].
    + apply guar_ret. intros u Hu. destruct r0; [done|]. exists vm. split; [in_history|right; in_history].
Qed.

Lemma bindTargetVM_safe h c' src id :
  clone_active -> clone_copy c' -> cl_TargetVMID (cl_Status c') = id -> read_clone_source h src ->
  (id <> "" -> cloned h id) -> safe h (bindTargetVM c' src (clone_target_namespace c) id).
Proof.
  intros Ha Hcp Hid Hsrc Hcl. pose proof Hcp as [Hm Hs]. unfold bindTargetVM. rewrite Hs.
  change (mkKey (clone_target_namespace c) (ct_Name (cl_Target (cl_Spec c)))) with clone_target_key.
  assert (forall tr name, id <> "" -> safe (h ++ tr) (seed_and_finalize c' clone_target_key id name)) as Hseed.
  { intros tr name Hne. unfold seed_and_finalize.
    guar_use seed_id_guar; [done|by apply cloned_mono, Hcl|]. intros tr' [u|e] Hb; [|by apply guar_ret].
    apply finalizeReady_safe; [done|done| |]; rewrite Hid; [|by eapply Hb].
    rewrite <- app_assoc. by apply cloned_mono, Hcl. }
  guar_step; [by apply fail_safe|]. emptiness.
  guar_step. guar_step; [done|]. destruct r0 as [vm|e]; [by apply Hseed|].
  destruct (api_IsNotFound e) eqn:He; [|by apply guar_ret].
  guar_step. guar_step.
  - split_and!; [done|exists e; split; [apply elem_of_last|done]|exists id; by apply cloned_mono, Hcl|].
    exists src. split; [by apply read_clone_source_mono|]. unfold buildTargetVM, cl_Name. by rewrite Hm, Hs.
  - destruct r0 as [cerr|]; [guar_step; [by apply fail_safe|]|]; go; rewrite <- !app_assoc; by apply Hseed.
Qed.
Lemma record_clone_safe h c' src i req resp :
  clone_active -> clone_copy c' -> cl_Phase (cl_Status c') = ClonePhaseCloning -> read_clone_source h src ->
  kev (Cluster.Clone i req) (Ok resp) ∈ h -> safe h (record_clone c' src (clone_target_namespace c) resp).
Proof.
  intros Ha [Hm Hs] Hp Hsrc Hin. unfold record_clone, updateStatus. guar_step. guar_step.
  - split_and!; [done|done|done|]. by eapply clone_recorded.
  - destruct r0; [by apply guar_ret|]. guar_step; emptiness; [|by apply guar_ret].
    apply bindTargetVM_safe; [done|done|done|by apply read_clone_source_mono|].
    intros Hne. split; [done|]. right. exists i, req, resp. eauto with history.
Qed.

Lemma silent_classJSON c' : silent is_clone (classJSON c').
Proof. unfold classJSON. solve_silent. Qed.

Lemma classJSON_guar h c' :
  guar clone_rule h (classJSON c') (fun h' _ => exists tr, h' = h ++ tr /\ occurs is_clone tr = false).
Proof.
  unfold classJSON. guar_step; [|apply guar_ret; exists []; by rewrite app_nil_r].
  guar_step. guar_step; [done|]. apply guar_ret. by eexists.
Qed.

Lemma startClone_safe h c' src i linked :
  clone_active -> clone_copy c' -> clone_core st = ("", "") -> occurs is_clone h = false -> target_absent h ->
  read_clone_source h src -> kind_allowed h i linked ->
  safe h (startClone c' src i (clone_target_namespace c) linked).
Proof.
  intros Ha Hcp Hc Ho Habs Hsrc Hl. pose proof Hcp as [Hm Hs]. unfold startClone, clone_condition.
  guar_step; [by apply fail_safe|]. emptiness. guar_use classJSON_guar. intros tr cls (tr' & ->%app_inv_head & Htr').
  do 8 (guar_step; try exact I).
  - split_and!; try done.
    + by rewrite !occurs_app, Ho, Htr'.
    + by do 3 apply target_absent_mono.
    + exists src. split; [by do 3 apply read_clone_source_mono|done].
    + cbn. by rewrite Hs.
    + by do 3 apply kind_allowed_mono.
  - destruct r2 as [resp|err].
    + eapply record_clone_safe; [done|done|done|by do 4 apply read_clone_source_mono|apply elem_of_last].
    + guar_step. guar_step; [done|]. by apply fail_safe.
Qed.

Lemma pollCloneTask_safe h c' src i :
  clone_active -> clone_copy c' -> clone_core (cl_Status c') = clone_core st ->
  cl_Phase (cl_Status c') = cl_Phase st -> cl_TaskRef st <> "" ->
  read_clone_source h src -> safe h (pollCloneTask c' src i (clone_target_namespace c)).
Proof.
  intros Ha Hcp Hc Hp Ht Hsrc. pose proof Hcp as [Hm Hs]. unfold clone_core in Hc. injection Hc as Hid Htask.
  unfold pollCloneTask, updateStatus. rewrite Htask.
  guar_step. guar_step; [done|]. destruct r0 as [[]|err]; [|by apply guar_ret|].
  - guar_step. guar_step.
    + split_and!; [done|done|done|]. eapply clone_task_done; [done|apply elem_of_last|done|].
      unfold clone_core. cbn. by rewrite Hid.
    + destruct r0; [by apply guar_ret|].
      apply bindTargetVM_safe; [done|done|done|by do 2 apply read_clone_source_mono|].
      cbn. rewrite Hid. intros Hne. split; [done|]. left. split; [done|]. right. exists i. in_history.
  - guar_step. guar_step; [done|]. by apply fail_safe.
Qed.

Lemma clone_resume_safe h c' src i linked :
  clone_active -> clone_copy c' -> clone_core (cl_Status c') = clone_core st ->
  cl_Phase (cl_Status c') = cl_Phase st -> occurs is_clone h = false -> read_clone_source h src ->
  kind_allowed h i linked -> safe h (clone_resume c' src i linked).
Proof.
  intros Ha Hcp Hc Hp Ho Hsrc Hl. pose proof Hcp as [Hm Hs]. pose proof Hc as Hc'.
  unfold clone_core in Hc'. injection Hc' as Hid Htask. unfold clone_resume.
  assert (clone_target_namespace c' = clone_target_namespace c) as Hns
    by (unfold clone_target_namespace, cl_Namespace; by rewrite Hm, Hs).
  rewrite Hid, Htask, Hns, Hs.
  guar_step; emptiness; [by apply pollCloneTask_safe|].
  guar_step; emptiness.
  { apply bindTargetVM_safe; [done|done|done|done|]. intros Hne. split; [done|]. left. auto. }
  guar_step. guar_step; [done|]. destruct r0 as [vm|err]; [by apply fail_safe|].
  guar_step; emptiness; [by apply guar_ret|].
  apply startClone_safe; [done|done|unfold clone_core; congruence|by rewrite occurs_app, Ho| | |].
  - exists err. split; [apply elem_of_last|done].
  - by apply read_clone_source_mono.
  - by apply kind_allowed_mono.
Qed.

Lemma gateLinkedClone_guar h c' i :
  clone_active -> clone_copy c' ->
  guar clone_rule h (gateLinkedClone c' i) (fun h' blocked =>
    (exists tr, h' = h ++ tr /\ occurs is_clone tr = false) /\ (blocked = None -> linked_open h' i)).
Proof.
  intros Ha [Hm Hs]. apply (guar_mono _ _ _ (fun h' b => (b = None -> linked_open h' i)
    /\ exists tr, h' = h ++ tr /\ occurs is_clone tr = false)); [|naive_solver].
  apply guar_and_silent.
  { unfold gateLinkedClone, markFailed, clone_condition, updateStatus. solve_silent. }
  unfold gateLinkedClone, markFailed, clone_condition, updateStatus, linked_open.
  go; emptiness; try done; try congruence.
  - split_and!; [done|done|done|by apply clone_fails].
  - intros _ _. eexists. split; [apply elem_of_last|]. by intros caps [= <-].
  - intros _ _. eexists. split; [apply elem_of_last|done].
Qed.

Lemma clone_on_provider_safe h c' src i :
  clone_active -> clone_copy c' -> clone_core (cl_Status c') = clone_core st ->
  cl_Phase (cl_Status c') = cl_Phase st -> occurs is_clone h = false -> read_clone_source h src ->
  safe h (clone_on_provider c' src i).
Proof.
  intros Ha Hcp Hc Hp Ho Hsrc. pose proof Hcp as [Hm Hs]. unfold clone_on_provider. case_bool_decide as Hlk.
  - guar_use gateLinkedClone_guar; [done|done|]. intros tr [res|] [(tr' & ->%app_inv_head & Ht) Hop];
      [by apply guar_ret|].
    apply clone_resume_safe; [done|done|done|done|by rewrite occurs_app, Ho, Ht|by apply read_clone_source_mono|].
    split; [|auto]. symmetry. apply bool_decide_true. unfold requestedCloneType in *. by rewrite <- Hs.
  - guar_step. guar_step. apply clone_resume_safe; [done..|].
    split; [|done]. symmetry. apply bool_decide_false. unfold requestedCloneType in *. by rewrite <- Hs.
Qed.

Lemma clone_pending_safe h : clone_active -> occurs is_clone h = false -> safe h (clone_pending r c).
Proof.
  intros Ha Ho. unfold clone_pending, clone_from, getProviderInstance. guar_step; [|by apply fail_safe].
  guar_step. guar_step; [done|]. destruct r0 as [vm|e].
  - guar_step; emptiness; [apply wait_safe; [done|done|done|by rewrite occurs_app, Ho]|].
    assert (forall tr, read_clone_source ((h ++ [kev (KGet KVirtualMachine (mkKey (cl_Namespace c) s)) (Ok vm)]) ++ tr) vm)
      as Hsrc.
    { intros tr. apply read_clone_source_mono. exists s. split_and!; [done|apply elem_of_last|done]. }
    go; try (apply wait_safe; [done|done|done|by rewrite !occurs_app, Ho]).
    apply clone_on_provider_safe; [done|done|done|done|by rewrite !occurs_app, Ho|]. rewrite <- app_assoc. apply Hsrc.
  - guar_step; [apply wait_safe; [done|done|done|by rewrite occurs_app, Ho]|]. go.
Qed.

Lemma reconcile_clone_safe : safe [] (reconcile_clone r c).
Proof.
  unfold reconcile_clone.
  destruct (meta_DeletionTimestamp (cl_meta c)) eqn:Hd.
  { unfold handleDeletion. guar_step. guar_step; [|go]. split; [done|]. right. unfold clone_live. split; [congruence|done]. }
  guar_step; emptiness.
  { unfold clone_add_finalizer. guar_step. guar_step; [split; [done|by left]|]. go. }
  destruct (cl_Phase st) eqn:Hp; try (by apply guar_ret);
    (apply clone_pending_safe; [split_and!; [done|congruence|congruence]|done]).
Qed.

Lemma clone_conforms tr o : runs (reconcile_clone r c) tr o -> conforms clone_rule [] tr.
Proof. intros Hr. by eapply guar_runs; [apply reconcile_clone_safe|exact Hr]. Qed.

Lemma clone_run_allowed tr o (k : kcall) (a : kanswer k) :
  runs (reconcile_clone r c) tr o -> kev k a ∈ tr ->
  exists pre post, tr = pre ++ kev k a :: post /\ clone_allowed pre k.
Proof. intros Hr%clone_conforms Hin. exact (conforms_elem _ _ _ Hr Hin). Qed.
End Rules.

(** ** The life of a clone *)
Definition is_clone_write (k : kcall) : bool := match k with KStatusUpdate KVMClone _ => true | _ => false end.
Definition clone_written (x : event kcall kanswer) : option VMCloneStatus :=
  match x with existT (KStatusUpdate KVMClone c') None => Some (cl_Status c') | _ => None end.

(** Every status the reconcile wrote was stored. *)
Definition clone_writes_succeed (tr : ktrace) : Prop :=
  forall c' a, kev (KStatusUpdate KVMClone c') a ∈ tr -> a = None.

Lemma clone_written_inv x y :
  clone_written x = Some y -> exists c', x = kev (KStatusUpdate KVMClone c') None /\ y = cl_Status c'.
Proof.
  destruct x as [k a]. destruct k; try done. destruct k; try done. destruct a; [done|].
  intros [= <-]. by eexists.
Qed.

Definition stores_clone (x : event kcall kanswer) : bool :=
  match x with existT (KStatusUpdate KVMClone _) (Some _) => false | _ => true end.
Lemma clone_writes_succeed_b tr : forallb stores_clone tr = true -> clone_writes_succeed tr.
Proof.
  intros Hb c' a Hin. rewrite forallb_forall in Hb. apply list_elem_of_In, Hb in Hin. by destruct a.
Qed.

Lemma clone_writes_app tr1 tr2 :
  clone_writes_succeed (tr1 ++ tr2) -> clone_writes_succeed tr1 /\ clone_writes_succeed tr2.
Proof. intros H. split; intros c' a Hin; eapply H, elem_of_app; eauto. Qed.

(** The clone was made, or given up. *)
Definition spent (x : VMCloneStatus) : Prop :=
  cl_TargetVMID x <> "" \/ cl_TaskRef x <> "" \/ cl_Phase x = ClonePhaseReady \/ cl_Phase x = ClonePhaseFailed.

Section Life.
Context `{Lib : Libraries} `{LOk : !LibrariesOk} `{Codec : CloneCodec}.
Context (r : VMCloneReconciler).
Abbreviation kept := (stored clone_written).

(** After [settles p] the clone is spent whatever it was before; [keeps x p] says
    that it is spent if it was before, or was cloned. *)
Definition settles {A} (p : KM A) : Prop :=
  wp p (fun tr _ => clone_writes_succeed tr -> forall y, spent (kept y tr)).
Definition keeps (x : VMCloneStatus) {A} (p : KM A) : Prop :=
  wp p (fun tr _ => clone_writes_succeed tr -> spent x \/ occurs is_clone tr = true -> spent (kept x tr)).

Lemma settles_keeps x {A} (p : KM A) : settles p -> keeps x p.
Proof. intros Hp. eapply wp_mono; [exact Hp|]. cbn. auto. Qed.

Lemma kept_quiet x tr : occurs is_clone_write tr = false -> kept x tr = x.
Proof.
  revert x; induction tr as [|e tr IH]; intros x Ho; [done|]. rewrite occurs_cons in Ho.
  apply orb_false_iff in Ho as [He Ho]. cbn [stored].
  destruct (clone_written e) as [y|] eqn:Hw; [|by apply IH].
  apply clone_written_inv in Hw as (c' & -> & _). done.
Qed.

Lemma keeps_quiet x {A B} (p : KM A) (k : A -> KM B) :
  silent is_clone p -> silent is_clone_write p -> (forall a, keeps x (k a)) -> keeps x (p ≫= k).
Proof.
  intros Hc Hw Hk. apply wp_bind. eapply wp_mono; [apply (wp_and _ _ _ Hc Hw)|].
  intros tr [a|w] [H1 H2]; cbn in *.
  - eapply wp_mono; [apply Hk|]. cbn. intros tr' _ H [_ Hs]%clone_writes_app.
    rewrite occurs_app, H1, stored_app, (kept_quiet x tr) by done. by apply H.
  - intros _ [Hx|]; [by rewrite kept_quiet|congruence].
Qed.

Lemma keeps_silent x {A} (p : KM A) : silent is_clone p -> silent is_clone_write p -> keeps x p.
Proof.
  intros Hc Hw. eapply wp_mono; [apply (wp_and _ _ _ Hc Hw)|]. intros tr o [H1 H2] _ [Hx|]; [|congruence].
  by rewrite kept_quiet.
Qed.

Lemma settles_after {A B} (p : KM A) (k : A -> KM B) :
  wp p (fun _ o => exists a, o = Done a) -> (forall a, settles (k a)) -> settles (p ≫= k).
Proof.
  intros Hp Hk. apply wp_bind. eapply wp_mono; [exact Hp|]. intros tr o [a ->]; cbn.
  eapply wp_mono; [apply Hk|]. cbn. intros tr' _ H [_ Hs]%clone_writes_app y. rewrite stored_app. by apply H.
Qed.

Lemma settles_fail c reason msg : settles (fail c reason msg).
Proof.
  cbn. intros t1 t2 [] a Hw y.
  assert (a = None) as ->.
  { eapply Hw. do 3 apply list_elem_of_further. apply list_elem_of_here. }
  cbn. right; right; by right.
Qed.

(** All that was sent as the status of the clone is spent. *)
Definition final_event (x : event kcall kanswer) : Prop :=
  match projT1 x with KStatusUpdate KVMClone c' => spent (cl_Status c') | _ => True end.
Abbreviation final p := (wp p (fun tr _ => Forall final_event tr)).

Lemma final_bind {A B} (p : KM A) (k : A -> KM B) : final p -> (forall a, final (k a)) -> final (p ≫= k).
Proof. apply wp_bind_closed. apply Forall_app_2. Qed.

Lemma final_silent {A} (p : KM A) : silent is_clone_write p -> final p.
Proof.
  intros Hs. eapply wp_mono; [exact Hs|]. cbn. intros tr o Ho. induction tr as [|[k a] tr IH]; [constructor|].
  rewrite occurs_cons in Ho. apply orb_false_iff in Ho as [Hk Ho]. constructor; [|by apply IH].
  unfold final_event. cbn in *. destruct k; try done. by destruct k.
Qed.

Ltac all_final := repeat (apply Forall_cons_2; [try exact I|]); [..|apply Forall_nil_2].

Lemma final_kept {A} (p : KM A) x : final p -> wp p (fun tr _ => spent x -> spent (kept x tr)).
Proof.
  intros Hp. eapply wp_mono; [exact Hp|]. cbn. intros tr o Hf Hx.
  destruct (stored_cases clone_written x tr) as [->|(e & Hin & He)]; [done|].
  apply clone_written_inv in He as (c' & -> & ->). rewrite Forall_forall in Hf. exact (Hf _ Hin).
Qed.

Lemma final_fail c reason msg : final (fail c reason msg).
Proof. cbn. intros t1 t2 [] a. all_final. right; right; by right. Qed.

Lemma final_finalizeReady c name : final (finalizeReady c name).
Proof. cbn. intros t1 t2 t3 a. all_final. right; right; by left. Qed.

Lemma silent_seed_id f key id :
  (forall k key, f (KGet k key) = false) -> (forall vm, f (KStatusUpdate KVirtualMachine vm) = false) ->
  silent f (seed_id key id).
Proof.
  intros Hg Hu. apply silent_RetryOnConflict.
  apply silent_bind; [exact (@silent_trigger kcall kanswer f _ (Hg KVirtualMachine key))|intros [vm|e]]; [|solve_silent].
  case_bool_decide; [solve_silent|].
  apply silent_bind; [exact (@silent_trigger kcall kanswer f _ (Hu _))|solve_silent].
Qed.

Lemma final_seed c key id name : final (seed_and_finalize c key id name).
Proof.
  unfold seed_and_finalize. apply final_bind; [apply final_silent; by apply silent_seed_id|].
  intros [u|e]; [apply final_finalizeReady|apply final_silent; solve_silent].
Qed.

Lemma final_bindTargetVM c src ns id : final (bindTargetVM c src ns id).
Proof.
  pose proof final_fail as Hf. pose proof final_seed as Hs. unfold bindTargetVM.
  repeat first [ apply Hf | apply Hs
               | apply final_bind; [apply final_silent; solve_silent|intros ?]
               | apply final_silent; solve [solve_silent]
               | case_match ].
Qed.

(** Binding settles a clone without an identifier, and keeps one with. *)
Lemma binds c src ns id :
  wp (bindTargetVM c src ns id)
    (fun tr _ => clone_writes_succeed tr -> forall x, id = "" \/ spent x -> spent (kept x tr)).
Proof.
  destruct (is_empty id) eqn:Hid.
  - unfold bindTargetVM. rewrite Hid. eapply wp_mono; [apply settles_fail|]. cbn. auto.
  - emptiness. apply wp_runs. intros tr o Hr _ x [?|Hx]; [done|].
    exact (proj1 (wp_runs _ _) (final_kept _ x (final_bindTargetVM c src ns id)) tr o Hr Hx).
Qed.

(** Write a status, and go on only if it was stored. *)
Lemma after_update c {B} (k : option goerror -> KM B) (Q : VMCloneStatus -> Prop) :
  wp (k None) (fun tr _ => clone_writes_succeed tr -> Q (kept (cl_Status c) tr)) ->
  wp (updateStatus c ≫= k) (fun tr _ => clone_writes_succeed tr -> forall y, Q (kept y tr)).
Proof.
  intros Hk. cbn [mbind prog_mbind updateStatus]. unfold updateStatus, trigger. cbn [prog_bind wp].
  intros [err|].
  - apply wp_runs. intros tr o _ Hw. exfalso. by specialize (Hw c (Some err) ltac:(left)).
  - eapply wp_mono; [exact Hk|]. intros tr o H [_ Hs]%(clone_writes_app [_]) y. by apply H.
Qed.

Lemma settles_record c src ns resp : settles (record_clone c src ns resp).
Proof.
  unfold record_clone, settles. apply after_update. destruct (is_empty (clr_TaskRef resp)) eqn:Ht.
  - eapply wp_mono; [apply binds|]. cbn. intros tr _ H Hw. apply H; [done|].
    destruct (decide (clr_TargetVmID resp = "")); [by left|right; by left].
  - emptiness. cbn. intros _. right. by left.
Qed.

Lemma keeps_poll x c src i ns : keeps x (pollCloneTask c src i ns).
Proof.
  unfold pollCloneTask. apply keeps_quiet; [solve_silent|solve_silent|]. intros [[]|err].
  - apply settles_keeps. apply after_update. eapply wp_mono; [apply binds|]. cbn. intros tr _ H Hw.
    apply H; [done|]. destruct (decide (cl_TargetVMID (cl_Status c) = "")); [by left|right; by left].
  - apply keeps_silent; solve_silent.
  - apply settles_keeps, settles_after; [by eexists|intros _; apply settles_fail].
Qed.

Lemma keeps_start x c src i ns linked : keeps x (startClone c src i ns linked).
Proof.
  unfold startClone. destruct (negb _); [apply settles_keeps, settles_fail|].
  apply settles_keeps, settles_after.
  { unfold classJSON. case_match; cbn; eauto. }
  intros cls. apply settles_after; [cbn; eauto|intros now].
  apply settles_after; [cbn; eauto|intros c'].
  apply settles_after; [cbn; eauto|intros [resp|err]]; [apply settles_record|].
  apply settles_after; [cbn; eauto|intros _; apply settles_fail].
Qed.

Lemma keeps_wait x c reason msg :
  clone_core (cl_Status c) = clone_core x -> cl_Phase x <> ClonePhaseReady -> cl_Phase x <> ClonePhaseFailed ->
  keeps x (wait c reason msg).
Proof.
  intros [= Hid Ht] Hr Hf. cbn. intros t [e|]; cbn; intros Hw [Hx|?]; try done.
  unfold spent in *. cbn. rewrite Hid, Ht. tauto.
Qed.

Lemma keeps_bind x c src ns id : spent x -> keeps x (bindTargetVM c src ns id).
Proof.
  intros Hx. eapply wp_mono; [apply binds|]. cbn. auto.
Qed.

Lemma keeps_resume x c src i linked :
  clone_core (cl_Status c) = clone_core x -> keeps x (clone_resume c src i linked).
Proof.
  intros [= Hid Ht]. unfold clone_resume. destruct (negb _) eqn:Hn; [apply keeps_poll|].
  destruct (negb (is_empty (cl_TargetVMID _))) eqn:Hn2.
  - emptiness. apply keeps_bind. left. by rewrite <- Hid.
  - apply keeps_quiet; [solve_silent|solve_silent|]. intros [vm|e]; [apply settles_keeps, settles_fail|].
    destruct (negb (api_IsNotFound e)); [apply keeps_silent; solve_silent|apply keeps_start].
Qed.

Lemma keeps_gate c i :
  wp (gateLinkedClone c i) (fun tr o => occurs is_clone tr = false /\ exists b, o = Done b
    /\ if b : option Result then clone_writes_succeed tr -> forall y, spent (kept y tr)
       else occurs is_clone_write tr = false).
Proof.
  unfold gateLinkedClone. destruct (negb _); cbn; [split; [done|by exists None]|].
  intros [caps|e]; cbn; [|split; [done|by exists None]].
  destruct (negb _); cbn; [|split; [done|by exists None]].
  intros t1 t2 [] a. split; [done|]. eexists. split; [done|]. intros Hw y.
  assert (a = None) as -> by (eapply Hw; do 4 apply list_elem_of_further; apply list_elem_of_here).
  cbn. right; right; by right.
Qed.

Lemma keeps_on_provider x c src i :
  clone_core (cl_Status c) = clone_core x -> keeps x (clone_on_provider c src i).
Proof.
  intros Hc. unfold clone_on_provider. case_bool_decide.
  - apply wp_bind. eapply wp_mono; [apply keeps_gate|]. intros tr o (Ho & b & -> & Hb); cbn.
    destruct b as [res|]; cbn.
    + rewrite app_nil_r. auto.
    + eapply wp_mono; [by apply keeps_resume|]. cbn. intros tr' _ Hres [_ Hs]%clone_writes_app.
      rewrite occurs_app, Ho, stored_app, (kept_quiet x tr) by done. by apply Hres.
  - by apply keeps_resume.
Qed.

Lemma keeps_reconcile c : keeps (cl_Status c) (reconcile_clone r c).
Proof.
  unfold reconcile_clone. destruct (meta_DeletionTimestamp _); [apply keeps_silent; unfold handleDeletion; solve_silent|].
  destruct (negb _); [apply keeps_silent; unfold clone_add_finalizer; solve_silent|].
  assert (cl_Phase (cl_Status c) <> ClonePhaseReady -> cl_Phase (cl_Status c) <> ClonePhaseFailed ->
          keeps (cl_Status c) (clone_pending r c)) as Hp.
  { intros Hr Hf. unfold clone_pending. destruct (ref_name _); [|apply settles_keeps, settles_fail].
    apply keeps_quiet; [solve_silent|solve_silent|]. intros [vm|e].
    - destruct (is_empty _); [by apply keeps_wait|]. unfold clone_from.
      apply keeps_quiet; [solve_silent|solve_silent|]. intros [p|e]; [|by apply keeps_wait].
      apply keeps_quiet; [unfold getProviderInstance; solve_silent|unfold getProviderInstance; solve_silent|].
      intros [i|e]; [by apply keeps_on_provider|by apply keeps_wait].
    - destruct (api_IsNotFound e); [by apply keeps_wait|]. apply keeps_silent; solve_silent. }
  destruct (cl_Phase (cl_Status c)) eqn:Hph; try (by apply Hp); apply keeps_silent; solve_silent.
Qed.

Lemma clone_lifetime_step c tr o :
  runs (reconcile_clone r c) tr o -> clone_writes_succeed tr ->
  (length (calls is_clone tr) <= 1)%nat
  /\ (spent (cl_Status c) -> occurs is_clone tr = false /\ spent (kept (cl_Status c) tr))
  /\ (occurs is_clone tr = true -> spent (kept (cl_Status c) tr)).
Proof.
  intros Hr Hw. pose proof (proj1 (wp_runs _ _) (keeps_reconcile c) tr o Hr Hw) as Hk. split_and!.
  - eapply (conforms_at_most_once is_clone); [|exact (clone_conforms r c tr o Hr)].
    intros h [k a] Hk' Hx. destruct k; try done. by destruct Hx as (_ & _ & Ho & _).
  - intros Hs. split; [|auto]. apply not_true_iff_false. intros [[k a] [Hin Hk']]%existsb_exists.
    apply list_elem_of_In in Hin. destruct k; try done.
    destruct (clone_run_allowed r c _ _ _ _ Hr Hin) as (pre & post & _ & Hx).
    destruct Hx as ((_ & Hre & Hfa) & [= Hid Ht] & _). unfold spent in Hs. tauto.
  - auto.
Qed.

(** C7. However often a clone is reconciled, as long as its status writes succeed
    and each reconcile reads what was stored last, the provider is asked to clone
    at most once: a clone that is resumed, polled, bound again after a conflict or
    failed never makes a second machine. *)
Theorem clone_is_issued_once c trs c' :
  lifetime cl_Status (reconcile_clone r) clone_written c trs c' ->
  Forall clone_writes_succeed trs ->
  (length (calls is_clone (concat trs)) <= 1)%nat.
Proof.
  exact (done_once cl_Status (reconcile_clone r) clone_written is_clone clone_writes_succeed spent
           clone_lifetime_step c trs c').
Qed.
End Life.

Section Props.
Context `{Lib : Libraries} `{LOk : !LibrariesOk} `{Codec : CloneCodec}.
Context (r : VMCloneReconciler).

(** C8. A reconcile of a VMClone begins by reading it and then only makes calls
    its rules allow: it clones only a provisioned source, under a target name that
    is free, when nothing is under way, over a provider that implements cloning; the
    clone is linked exactly when a linked clone was asked for, and then not if the
    provider has just reported that it makes none (one that does not report, or whose
    report fails, is let through; any other kind, an instant clone too, is issued as a
    full clone); it creates the target VM and gives it an identifier only when the
    provider has made that machine; it deletes nothing. *)
Theorem Clone_Reconcile_follows_the_rules key tr o :
  runs (Clone_Reconcile r key) tr o ->
  exists got rest, tr = kev (KGet KVMClone key) got :: rest
    /\ match got with
       | Ok c => conforms (clone_rule c) [] rest
       | Err e => api_IsNotFound e = true /\ rest = []
                  \/ api_IsNotFound e = false /\ o = Done (no_result, Some e)
       end.
Proof.
  unfold Clone_Reconcile.
  intros [(tr1 & tr2 & got & -> & Hg & Hr)|(w & Hg & ->)]%runs_bind_inv.
  - destruct Hg as (a & tr' & -> & -> & [= ->]). exists a, tr2. split; [done|].
    destruct a as [c|e]; [by apply clone_conforms in Hr|].
    destruct (api_IsNotFound e) eqn:He; [left; by destruct Hr|right]. split; [done|].
    destruct Hr as (u & tr' & -> & _ & ->). done.
  - by destruct Hg as (a & tr' & _ & _ & [=]).
Qed.

(** A clone that becomes Ready has the identifier of a machine the provider
    made for it, its task if any complete, and its target VM was read with that
    identifier or has just been given it. *)
Theorem ready_clone_is_bound c tr o c' a :
  runs (reconcile_clone r c) tr o -> kev (KStatusUpdate KVMClone c') a ∈ tr ->
  cl_Phase (cl_Status c') = ClonePhaseReady ->
  cloned c tr (cl_TargetVMID (cl_Status c')) /\ bound c tr (cl_TargetVMID (cl_Status c')).
Proof.
  intros Hr Hin Hp. destruct (clone_run_allowed r c _ _ _ _ Hr Hin) as (pre & post & -> & (_ & Hre & _) & _ & _ & Hs).
  destruct Hs as [| | | |Hp' _ Hc Hb]; try congruence.
  split; [by apply cloned_mono|by apply bound_mono].
Qed.

(** C15. The two controllers together make one machine per clone: whenever the
    VirtualMachine controller reconciles a VM that a clone created, it does not
    create a machine while the VM has no identifier, and afterwards only when the
    provider has just said that the machine of that identifier does not exist. *)
Theorem cloned_vm_is_not_made_twice c tr o vm a r' vm' :
  runs (reconcile_clone r c) tr o -> kev (KCreate KVirtualMachine vm) a ∈ tr ->
  meta_Labels (vm_meta vm') = meta_Labels (vm_meta vm) ->
  wp (reconcileVM r' vm') (fun tr' _ => occurs Effects.is_create tr' = true ->
    status_ID (vm_Status vm') <> ""
    /\ exists desc, (status_ID (vm_Status vm'), desc) ∈ described tr' /\ Contracts.Exists desc = false).
Proof.
  intros Hr Hin Hl.
  destruct (clone_run_allowed r c _ _ _ _ Hr Hin) as (pre & post & _ & _ & _ & _ & src & _ & ->).
  assert (vmIsAdopted vm' = true) as Ha.
  { unfold vmIsAdopted. rewrite Hl. cbn. apply bool_decide_eq_true. unfold map_get.
    by rewrite lookup_insert_eq. }
  eapply wp_mono; [apply reconcileVM_meets_spec|]. intros tr' o' Hs Hc.
  destruct (live_spec_create r' vm' tr' o' Hs Hc) as [[[_ Hj]|Hj] _]; [congruence|]. split; [|done].
  intros Hid. pose proof (live_spec_adopted r' vm' tr' o' Hs Hid Ha) as Hno.
  rewrite <- (occurs_calls Effects.is_create mutates_hypervisor) in Hc
    by (intros e He; unfold mutates_hypervisor; by rewrite He).
  by rewrite (calls_occurs_false _ _ Hno) in Hc.
Qed.

(** The answers to the reads of a VM. *)
Definition vm_reads (key : NamespacedName) (tr : ktrace) (vm : VirtualMachine) : Prop :=
  forall a, kev (KGet KVirtualMachine key) a ∈ tr -> a = Ok vm.

(** Binding does not look at who made the target VM: when a VM of the target's
    name appeared while the provider was cloning, whatever its labels and
    annotations and whatever machine it stands for, its identifier is overwritten
    with that of the clone. *)
Theorem clone_takes_over_a_namesake c src ns id tr o vm :
  runs (bindTargetVM c src ns id) tr o -> id <> "" ->
  vm_reads (mkKey ns (ct_Name (cl_Target (cl_Spec c)))) tr vm -> status_ID (vm_Status vm) <> id ->
  exists a, kev (KStatusUpdate KVirtualMachine (with_id vm id)) a ∈ tr.
Proof.
  intros Hr Hne%is_empty_false Hreads Hid. unfold bindTargetVM in Hr. rewrite Hne in Hr.
  destruct Hr as (a & rest & -> & Hr). assert (a = Ok vm) as -> by (apply Hreads; left).
  change (runs (seed_and_finalize c (mkKey ns (ct_Name (cl_Target (cl_Spec c)))) id (meta_Name (vm_meta vm)))
            rest o) in Hr.
  apply runs_bind_inv in Hr as [(tr1 & tr2 & got & -> & Hs & _)|(w & Hs & ->)];
    apply retry_on_conflict_spec in Hs as (t1 & t2 & -> & _ & Hlast);
    destruct Hlast as (a & rest' & -> & Hlast).
  - assert (a = Ok vm) as ->.
    { apply Hreads. right. rewrite !elem_of_app. left. right. left. }
    cbn in Hlast. rewrite bool_decide_eq_false_2 in Hlast by done. destruct Hlast as (u & ? & -> & _).
    exists u. right. rewrite !elem_of_app. left. right. right. left.
  - assert (a = Ok vm) as ->.
    { apply Hreads. right. rewrite !elem_of_app. right. left. }
    cbn in Hlast. rewrite bool_decide_eq_false_2 in Hlast by done. by destruct Hlast as (u & ? & _ & _ & [=]).
Qed.
End Props.

(** ** A small cluster *)
Module DemoClone.
Import DemoLibraries.

#[export] Instance codec : CloneCodec := {|
  marshal_class _ := Ok "{}"; marshal_placement _ := Ok "{}"; marshal_customization _ := Ok "{}"
|}.

(** The clone, the target VM if there is one, and whether the clone task is done. *)
Record world := mkWorld { w_clone : VMClone; w_target : option VirtualMachine; w_done : bool }.
#[export] Instance world_eta : Eta world := fun w => mkWorld (w_clone w) (w_target w) (w_done w).

Definition named (name : string) (id : string) : VirtualMachine :=
  mkVM (mkObjectMeta name "default" "v" 1 "1" ∅ ∅ [] None None)
    (mkVMSpec (mkObjectRef "prov" "") (mkObjectRef "small" "") None None [] [] None None None "On" [] None None)
    (mkVMStatus id "On" [] "" [] 1 "" ∅ "" None None VirtualMachinePhaseUnset).
Definition demo_provider : Provider :=
  mkProvider (mkObjectMeta "prov" "default" "p" 1 "1" ∅ ∅ [] None None) (bare_spec "libvirt" None) no_provider_status.
Definition demo_clone : VMClone :=
  mkVMClone (mkObjectMeta "copy" "default" "c" 1 "1" ∅ ∅ [vmCloneFinalizer] None None)
    (mkVMCloneSpec (mkCloneSource (Some (mkLocalRef "web")))
       (mkVMCloneTarget "web-2" "" None None [] ∅ ∅) None None)
    (mkVMCloneStatus None "" ClonePhaseUnset "" None None "" [] 0 "").

Definition not_found : goerror := EApi (mkApiError true false false "not found").
Definition get (k : kind) (key : NamespacedName) (w : world) : res (object k) :=
  match k return res (object k) with
  | KVMClone => Ok (w_clone w)
  | KVirtualMachine =>
      if bool_decide (key_Name key = "web") then Ok (named "web" "vm-1")
      else match w_target w with Some vm => Ok vm | None => Err not_found end
  | KProvider => Ok demo_provider
  | _ => Err not_found
  end.
Definition put (k : kind) (o : object k) (w : world) : world :=
  match k return object k -> world with
  | KVMClone => fun c => w <| w_clone := c |>
  | KVirtualMachine => fun vm => w <| w_target := Some vm |>
  | _ => fun _ => w
  end o.

Definition serve (c : kcall) (w : world) : kanswer c * world :=
  match c return kanswer c * world with
  | KGet k key => (get k key w, w)
  | KUpdate k o => (None, put k o w)
  | KStatusUpdate k o => (None, put k o w)
  | KCreate k o => (None, put k o w)
  | Resolve p => (Ok (mkInstance "prov" false true true), w)
  | Cluster.Clone _ _ => (Ok (mkCloneResponse "vm-2" "task-7"), w)
  | IsTaskComplete _ _ => (Ok (w_done w), w)
  | c => (DemoCluster.idle c, w)
  end.

Definition demo_reconciler : VMCloneReconciler := mkCloneReconciler true.
Definition one (w : world) := exec serve (reconcile_clone demo_reconciler (w_clone w)) w.
Definition after (w : world) : world := (one w).2.
Definition start : world := mkWorld demo_clone None true.

Lemma clone_one_runs w : runs (reconcile_clone demo_reconciler (w_clone w)) (one w).1.1 (one w).1.2.
Proof. apply exec_runs. Qed.

Lemma Clone_Reconcile_follows_the_rules_witness :
  let run := exec serve (Clone_Reconcile demo_reconciler (mkKey "default" "copy")) start in
  exists got rest, run.1.1 = kev (KGet KVMClone (mkKey "default" "copy")) got :: rest
    /\ match got with
       | Ok c => conforms (clone_rule c) [] rest
       | Err e => api_IsNotFound e = true /\ rest = []
                  \/ api_IsNotFound e = false /\ run.1.2 = Done (no_result, Some e)
       end.
Proof. exact (Clone_Reconcile_follows_the_rules demo_reconciler _ _ _ (exec_runs serve _ start)). Defined.

Lemma clone_is_issued_once_witness :
  let trs := [(one start).1.1; (one (after start)).1.1] in
  (length (calls is_clone (concat trs)) <= 1)%nat /\ occurs is_clone (concat trs) = true
  /\ cl_Phase (cl_Status (w_clone (after (after start)))) = ClonePhaseReady.
Proof.
  split; [|split; vm_compute; reflexivity].
  refine (clone_is_issued_once demo_reconciler demo_clone _ (w_clone (after (after start))) _ _).
  - refine (lived_more _ _ _ _ [(one start).1.1] (w_clone (after start)) _ (one (after start)).1.2 _ _
              (clone_one_runs (after start)) _); [|vm_compute; reflexivity].
    refine (lived_more _ _ _ _ [] demo_clone _ (one start).1.2 _ (lived_none _ _ _ _) (clone_one_runs start) _).
    vm_compute; reflexivity.
  - repeat constructor; apply clone_writes_succeed_b; vm_compute; reflexivity.
Defined.

Definition target : VirtualMachine := buildTargetVM demo_clone (named "web" "vm-1") "default".

Lemma cloned_vm_is_not_made_twice_witness :
  wp (reconcileVM (mkReconciler true) target) (fun tr' _ => occurs Effects.is_create tr' = true ->
    status_ID (vm_Status target) <> ""
    /\ exists desc, (status_ID (vm_Status target), desc) ∈ described tr' /\ Contracts.Exists desc = false).
Proof.
  refine (cloned_vm_is_not_made_twice demo_reconciler (w_clone (after start)) (one (after start)).1.1 _
            target None (mkReconciler true) target (clone_one_runs (after start)) _ eq_refl).
  apply (list_elem_of_lookup_2 _ 6). vm_compute. reflexivity.
Defined.

End DemoClone.
