(* ===== verification/Utf8.v ===== *)
(** * Utf8: strings as sequences of runes

    Go strings are byte strings; [range], [strings.Map], [strings.ToLower] and
    [strings.Builder.WriteRune] read and write UTF-8.  The case table of the unicode
    package is a parameter, used for strings that are not ASCII only.  DNS labels are
    defined here too. *)
From S2P Require Import Prelude GoLib.
From stdpp Require Import base strings list.
From Stdlib Require Import Ascii String ZArith Lia.
#[local] Open Scope Z_scope.

Definition byte (c : ascii) : Z := Z.of_nat (nat_of_ascii c).
Definition char (z : Z) : ascii := ascii_of_nat (Z.to_nat z).

Lemma char_byte c : char (byte c) = c.
Proof. unfold char, byte. by rewrite Nat2Z.id, ascii_nat_embedding. Qed.

Lemma byte_range c : 0 <= byte c < 256.
Proof. unfold byte. pose proof (nat_ascii_bounded c). lia. Qed.

Definition RuneError : Z := 65533.
Definition cont (b : Z) : bool := (128 <=? b) && (b <=? 191).

(** The second byte a leading byte accepts. *)
Definition accepts (x y : Z) : bool :=
  cont y && (if x =? 224 then 160 <=? y
             else if x =? 237 then y <=? 159
             else if x =? 240 then 144 <=? y
             else if x =? 244 then y <=? 143 else true).

Definition low6 (b : Z) : Z := Z.land b 63.

(** [range] over a string: a byte that starts no encoding counts as [RuneError]. *)
Fixpoint runes (s : string) : list Z :=
  match s with
  | EmptyString => []
  | String a s1 =>
      let x := byte a in
      if x <? 128 then x :: runes s1
      else
        match s1 with
        | EmptyString => [RuneError]
        | String b s2 =>
            let y := byte b in
            if (194 <=? x) && (x <=? 223) && cont y
            then (Z.shiftl (Z.land x 31) 6 + low6 y) :: runes s2
            else
              match s2 with
              | EmptyString => RuneError :: runes s1
              | String c s3 =>
                  let z := byte c in
                  if (224 <=? x) && (x <=? 239) && accepts x y && cont z
                  then (Z.shiftl (Z.land x 15) 12 + Z.shiftl (low6 y) 6 + low6 z) :: runes s3
                  else
                    match s3 with
                    | EmptyString => RuneError :: runes s1
                    | String d s4 =>
                        let w := byte d in
                        if (240 <=? x) && (x <=? 244) && accepts x y && cont z && cont w
                        then (Z.shiftl (Z.land x 7) 18 + Z.shiftl (low6 y) 12 + Z.shiftl (low6 z) 6 + low6 w)
                               :: runes s4
                        else RuneError :: runes s1
                    end
              end
        end
  end.

(** [utf8.AppendRune]. *)
Definition encode3 (r : Z) : string :=
  String (char (224 + Z.shiftr r 12)) (String (char (128 + low6 (Z.shiftr r 6)))
    (String (char (128 + low6 r)) "")).
Definition encode (r : Z) : string :=
  if (r <? 0) || (1114111 <? r) || ((55296 <=? r) && (r <=? 57343)) then encode3 RuneError
  else if r <? 128 then String (char r) ""
  else if r <? 2048 then String (char (192 + Z.shiftr r 6)) (String (char (128 + low6 r)) "")
  else if r <? 65536 then encode3 r
  else String (char (240 + Z.shiftr r 18)) (String (char (128 + low6 (Z.shiftr r 12)))
         (String (char (128 + low6 (Z.shiftr r 6))) (String (char (128 + low6 r)) ""))).

Definition encode_all (rs : list Z) : string := foldr (fun r s => encode r +:+ s) "" rs.

(** [strings.Map] with a function that drops no rune. *)
Definition Map (f : Z -> Z) (s : string) : string := encode_all (f <$> runes s).

Fixpoint map_chars (f : ascii -> ascii) (s : string) : string :=
  match s with
  | EmptyString => EmptyString
  | String c s' => String (f c) (map_chars f s')
  end.

Definition is_ascii (c : ascii) : bool := byte c <? 128.
Definition in_range (lo hi : ascii) (c : ascii) : bool := (byte lo <=? byte c) && (byte c <=? byte hi).
Definition lower_ascii (c : ascii) : ascii := if in_range "A" "Z" c then char (byte c + 32) else c.

(** [unicode.ToLower]. *)
Class UnicodeTable := { unicode_ToLower : Z -> Z }.

Definition ToLower `{UnicodeTable} (s : string) : string :=
  if all_chars is_ascii s then map_chars lower_ascii s else Map unicode_ToLower s.

(** [strings.ReplaceAll] of one byte by another. *)
Definition ReplaceAll (s : string) (old new : ascii) : string :=
  map_chars (fun c => if Ascii.eqb c old then new else c) s.

(** Keep the runes that pass a test ([range] and [WriteRune]). *)
Definition keep_runes (f : Z -> bool) (s : string) : string := encode_all (List.filter f (runes s)).

(** ** Strings of ASCII characters *)
Lemma runes_ascii s : all_chars is_ascii s = true -> runes s = byte <$> list_ascii_of_string s.
Proof.
  induction s as [|c s IH]; [done|]. cbn [all_chars]. intros [Hc Hs]%andb_true_iff. cbn [runes].
  unfold is_ascii in Hc. rewrite Hc, IH by done. done.
Qed.

Lemma encode_byte c : is_ascii c = true -> encode (byte c) = String c "".
Proof.
  unfold is_ascii, encode. intros Hc%Z.ltb_lt. pose proof (byte_range c).
  assert ((byte c <? 0) || (1114111 <? byte c) || ((55296 <=? byte c) && (byte c <=? 57343)) = false) as -> by lia.
  assert (byte c <? 128 = true) as -> by lia. by rewrite char_byte.
Qed.

Lemma encode_ascii r : 0 <= r < 128 -> encode r = String (char r) "" /\ byte (char r) = r.
Proof.
  intros Hr. unfold encode.
  assert ((r <? 0) || (1114111 <? r) || ((55296 <=? r) && (r <=? 57343)) = false) as -> by lia.
  assert (r <? 128 = true) as -> by lia. split; [done|].
  unfold byte, char. rewrite nat_ascii_embedding by lia. lia.
Qed.

Lemma encode_bytes s : all_chars is_ascii s = true -> encode_all (byte <$> list_ascii_of_string s) = s.
Proof.
  induction s as [|c s IH]; [done|]. cbn [all_chars]. intros [Hc Hs]%andb_true_iff.
  change (encode (byte c) +:+ encode_all (byte <$> list_ascii_of_string s) = String c s).
  by rewrite encode_byte, IH.
Qed.

(** A filter that only passes ASCII leaves ASCII that passes it. *)
Lemma keep_runes_chars (f : Z -> bool) s :
  (forall r, f r = true -> 0 <= r < 128) -> all_chars (fun c => f (byte c)) (keep_runes f s) = true.
Proof.
  intros Hf. unfold keep_runes. induction (runes s) as [|r rs IH]; [done|]. cbn [List.filter].
  destruct (f r) eqn:Hr; [|done]. destruct (encode_ascii r (Hf r Hr)) as [He Hb].
  change (all_chars (fun c => f (byte c)) (encode r +:+ encode_all (List.filter f rs)) = true).
  rewrite He, all_chars_app. cbn [all_chars]. rewrite Hb, Hr. exact IH.
Qed.

Lemma keep_runes_id (f : Z -> bool) s :
  all_chars is_ascii s = true -> all_chars (fun c => f (byte c)) s = true -> keep_runes f s = s.
Proof.
  intros Ha Hf. unfold keep_runes. rewrite runes_ascii by done.
  assert (List.filter f (byte <$> list_ascii_of_string s) = byte <$> list_ascii_of_string s) as ->.
  { clear Ha. induction s as [|c s IH]; [done|]. cbn [all_chars] in Hf. apply andb_true_iff in Hf as [Hc Hf].
    change (List.filter f (byte c :: (byte <$> list_ascii_of_string s)) = byte c :: (byte <$> list_ascii_of_string s)).
    cbn [List.filter]. by rewrite Hc, IH. }
  by apply encode_bytes.
Qed.

Lemma map_chars_id (f : ascii -> ascii) (p : ascii -> bool) s :
  (forall c, p c = true -> f c = c) -> all_chars p s = true -> map_chars f s = s.
Proof.
  intros Hf. induction s as [|c s IH]; [done|]. cbn. intros [Hc Hs]%andb_true_iff. by rewrite Hf, IH.
Qed.

(** ** Trimming and cutting *)
Lemma all_chars_TrimLeft f p s : all_chars p s = true -> all_chars p (TrimLeft f s) = true.
Proof.
  induction s as [|c s IH]; [done|]. cbn. intros Hs. destruct (f c); [|done].
  apply IH. by apply andb_true_iff in Hs as [_ Hs].
Qed.

Lemma TrimRight_cons f c s :
  TrimRight f (String c s) = "" /\ f c = true \/ TrimRight f (String c s) = String c (TrimRight f s).
Proof. cbn. destruct (TrimRight f s) eqn:Hs; [destruct (f c); auto|auto]. Qed.

Lemma all_chars_TrimRight f p s : all_chars p s = true -> all_chars p (TrimRight f s) = true.
Proof.
  induction s as [|c s IH]; [done|]. intros [Hc Hs]%andb_true_iff.
  destruct (TrimRight_cons f c s) as [[-> _]| ->]; [done|]. cbn. by rewrite Hc, IH.
Qed.

Lemma all_chars_Trim f p s : all_chars p s = true -> all_chars p (Trim f s) = true.
Proof. intros Hs. by apply all_chars_TrimRight, all_chars_TrimLeft. Qed.

Lemma length_TrimLeft f s : (String.length (TrimLeft f s) <= String.length s)%nat.
Proof. induction s as [|c s IH]; cbn; [done|]. destruct (f c); cbn; lia. Qed.

Lemma length_TrimRight f s : (String.length (TrimRight f s) <= String.length s)%nat.
Proof.
  induction s as [|c s IH]; [done|].
  destruct (TrimRight_cons f c s) as [[-> _]| ->]; cbn [String.length]; lia.
Qed.

Lemma length_Trim f s : (String.length (Trim f s) <= String.length s)%nat.
Proof. unfold Trim. etransitivity; [apply length_TrimRight|apply length_TrimLeft]. Qed.

(** The first and the last character of a string. *)
Definition first_char (s : string) : option ascii := String.get 0 s.
Fixpoint last_char (s : string) : option ascii :=
  match s with
  | EmptyString => None
  | String c EmptyString => Some c
  | String _ s' => last_char s'
  end.

(** *** DNS labels *)
Definition label_char (c : ascii) : bool :=
  let r := byte c in ((97 <=? r) && (r <=? 122)) || ((48 <=? r) && (r <=? 57)) || (r =? 45).

(** RFC 1123: 1 to 63 characters, lower-case letters, digits and hyphens, with no
    hyphen at either end. *)
Definition dns_label (s : string) : Prop :=
  (1 <= String.length s <= 63)%nat /\ all_chars label_char s = true
  /\ forall c, first_char s = Some c \/ last_char s = Some c -> c <> "-"%char.

Lemma last_char_cons c s : s <> "" -> last_char (String c s) = last_char s.
Proof. by destruct s. Qed.
Lemma last_char_app s t : t <> "" -> last_char (s +:+ t) = last_char t.
Proof.
  intros Ht. induction s as [|c s IH]; [done|]. rewrite <- IH. apply last_char_cons. by destruct s.
Qed.

(** A label behind a prefix that could begin one is a label, if it is not too long. *)
Lemma dns_label_prefix s t :
  s <> "" -> all_chars label_char s = true -> first_char s <> Some "-"%char ->
  dns_label t -> (String.length s + String.length t <= 63)%nat -> dns_label (s +:+ t).
Proof.
  intros Hs Hc Hf ([Hl _] & Ht & He) Hlen.
  assert (String.length (s +:+ t) = String.length s + String.length t)%nat as Hlt.
  { clear. induction s as [|c s IH]; [done|]. exact (f_equal S IH). }
  assert (t <> "") as Hne by (intros ->; cbn in Hl; lia).
  split; [rewrite Hlt; lia|]. split; [by rewrite all_chars_app, Hc, Ht|]. destruct s as [|c0 s]; [done|].
  intros c [[= <-]|H]; [intros ->; by apply Hf|]. rewrite last_char_app in H by done. apply He. by right.
Qed.

Lemma first_TrimLeft f s c : first_char (TrimLeft f s) = Some c -> f c = false.
Proof.
  induction s as [|d s IH]; [done|]. cbn. destruct (f d) eqn:Hd; [done|]. cbn. by intros [= <-].
Qed.

Lemma first_TrimRight f s c : first_char (TrimRight f s) = Some c -> first_char s = Some c.
Proof. destruct s as [|d s]; [done|]. by destruct (TrimRight_cons f d s) as [[-> _]| ->]. Qed.

Lemma last_TrimRight f s c : last_char (TrimRight f s) = Some c -> f c = false.
Proof.
  induction s as [|d s IH]; [done|]. cbn. destruct (TrimRight f s) eqn:Hs; [|exact IH].
  destruct (f d) eqn:Hd; [done|]. cbn. by intros [= <-].
Qed.

(** What is trimmed has nothing to trim at its ends, and such a string stays. *)
Lemma Trim_ends f s c :
  first_char (Trim f s) = Some c \/ last_char (Trim f s) = Some c -> f c = false.
Proof.
  unfold Trim. intros [H|H]; [|by eapply last_TrimRight].
  apply first_TrimRight in H. by eapply first_TrimLeft.
Qed.

Lemma TrimRight_id f s : (forall c, last_char s = Some c -> f c = false) -> TrimRight f s = s.
Proof.
  induction s as [|d [|e s] IH]; intros Hl; [done| |].
  - cbn. by rewrite (Hl d).
  - change (TrimRight f (String d (String e s))) with
      (match TrimRight f (String e s) with
       | EmptyString => if f d then EmptyString else String d EmptyString
       | t => String d t end).
    by rewrite IH.
Qed.

Lemma Trim_id f s :
  (forall c, first_char s = Some c \/ last_char s = Some c -> f c = false) -> Trim f s = s.
Proof.
  intros He. unfold Trim. assert (TrimLeft f s = s) as ->; [|by apply TrimRight_id; auto].
  destruct s as [|d s]; [done|]. cbn. by rewrite (He d) by auto.
Qed.

Lemma substring_all f n s : all_chars f s = true -> all_chars f (String.substring 0 n s) = true.
Proof.
  revert s. induction n as [|n IH]; intros [|c s]; [done..|]. cbn. intros [Hc Hs]%andb_true_iff.
  by rewrite Hc, IH.
Qed.

Lemma substring_length n s : (String.length (String.substring 0 n s) <= n)%nat.
Proof. revert s. induction n as [|n IH]; intros [|c s]; cbn; try lia. specialize (IH s). lia. Qed.
