(* ===== verification/ProviderController.v ===== *)
(** * ProviderController: the controller of the provider runtimes

    Models [internal/controller/provider_controller.go] over the calls of [Cluster].
    For each Provider it keeps a Service and a Deployment that run the remote
    provider, counts the virtual machines that use it, asks it what it can do, and
    writes all that into the status.  It deploys nothing until the Provider says
    whether its connection is encrypted. *)
From S2P Require Import Prelude Contracts K8s Api CoreApi Effects GoLib NetIP GrpcClient MigrationApi JobApi Cluster Storage MigrationHelpers Migration Snapshot.
From stdpp Require Import base gmap strings list.
From Stdlib Require Import ZArith.
Import v1beta1.
#[local] Open Scope Z_scope.

Definition errReasonGetProvider : string := "get-provider".
Definition errReasonRuntimeSpecInvalid : string := "runtime-spec-invalid".
Definition errReasonServiceReconcile : string := "service-reconcile-failed".
Definition errReasonDeploymentReconcile : string := "deployment-reconcile-failed".
Definition errReasonCleanupFailed : string := "cleanup-failed".
Definition errReasonTLSNotConfigured : string := "tls-not-configured".

Definition providerConditionTLSConfigured : string := "TLSConfigured".
Definition providerReasonTLSBlockMissing : string := "TLSBlockMissing".
Definition providerReasonTLSDisabled : string := "ExplicitlyDisabled".
Definition providerReasonTLSSecretRefEmpty : string := "SecretRefMissing".
Definition providerReasonTLSEnabled : string := "Enabled".
Definition tlsBlockMissingMessage : string :=
  "TLS is on-by-default in v0.3.7. To proceed: (a) provision a Secret with tls.crt/tls.key/ca.crt and set spec.runtime.service.tls.enabled=true with secretRef pointing at it, OR (b) explicitly set spec.runtime.service.tls.enabled=false to keep plaintext (lab / migration scenarios). See umbrella #156 for the runbook.".
Definition tlsDisabledMessage : string :=
  "TLS is explicitly disabled (tls.enabled=false); manager↔provider gRPC traffic will be plaintext. Compensating controls (NetworkPolicy + encrypted CNI) are the operator's responsibility.".
Definition tlsSecretRefMessage : string :=
  "spec.runtime.service.tls.enabled=true but secretRef is missing. Set secretRef.name to a Secret containing tls.crt / tls.key / ca.crt.".

Definition providerTLSMountPath : string := "/etc/virtrigaud/tls".
Definition envProviderInsecure : string := "VIRTRIGAUD_PROVIDER_INSECURE".
Definition providerTLSVolumeName : string := "provider-tls".
Definition sshKeyVolumeName : string := "libvirt-ssh-key".
Definition sshKeyMountPath : string := "/tmp/virtrigaud-libvirt".
Definition migrationPVCLabelKey : string := "virtrigaud.io/component".
Definition migrationPVCLabelValue : string := "migration-storage".

Definition providerConditionCapabilitiesReported : string := "CapabilitiesReported".
Definition providerReasonCapabilitiesFetched : string := "CapabilitiesFetched".
Definition providerReasonCapabilitiesUnavailable : string := "CapabilitiesUnavailable".
Definition RuntimeReady : string := "ProviderRuntimeReady".
Definition Available : string := "ProviderAvailable".

(** [prr_RemoteResolver]: the resolver is not nil. *)
Record ProviderReconciler := mkProviderReconciler { prr_RemoteResolver : bool }.

(** [controllerutil.SetControllerReference] adds an owner reference, which is not
    part of the modelled objects, or fails. *)
Class OwnerReferences := {
  own_service : Provider -> Service -> option goerror;
  own_deployment : Provider -> Deployment -> option goerror
}.

Definition with_provider (p : Provider) (f : ProviderStatus -> ProviderStatus) : Provider :=
  p <| provider_Status := f (provider_Status p) |>.

(** [k8s.SetCondition] on the Provider's conditions. *)
Definition provider_condition (p : Provider) (t : string) (s : ConditionStatus) (reason msg : string)
    : KM Provider :=
  now ← kdo TimeNow;
  now' ← kdo TimeNow;
  Ret (with_provider p (fun x => x <| ps_Conditions := SetCondition now now' (ps_Conditions x) t s reason msg |>)).

(** Assignments to fields of [Status.Runtime], which Reconcile has made non-nil. *)
Definition with_runtime (p : Provider) (f : ProviderRuntimeStatus -> ProviderRuntimeStatus) : Provider :=
  with_provider p (fun x => x <| ps_Runtime := f <$> ps_Runtime x |>).
Definition runtime_phase (p : Provider) (phase msg : string) : Provider :=
  with_runtime p (fun x => x <| rt_Phase := phase |> <| rt_Message := msg |>).

(** [fmt.Sprintf("%t", b)]. *)
Definition fmt_t (b : bool) : string := if b then "true" else "false".

(** ** Naming *)
Definition getDeploymentName (p : Provider) : string :=
  "virtrigaud-provider-" +:+ provider_Namespace p +:+ "-" +:+ provider_Name p.
Definition getServiceName (p : Provider) : string :=
  "virtrigaud-provider-" +:+ provider_Namespace p +:+ "-" +:+ provider_Name p.

Definition provider_selector (p : Provider) : gmap string string :=
  {[ "app.kubernetes.io/name" := "virtrigaud-provider"; "app.kubernetes.io/instance" := provider_Name p ]}.
Definition provider_labels (p : Provider) : gmap string string :=
  {[ "app.kubernetes.io/name" := "virtrigaud-provider"; "app.kubernetes.io/instance" := provider_Name p;
     "app.kubernetes.io/component" := "provider"; "app.kubernetes.io/managed-by" := "virtrigaud";
     "virtrigaud.io/provider-type" := provider_Type p ]}.

Definition runtime_port (rt : ProviderRuntimeSpec) : Z :=
  match rts_Service rt with
  | Some s => if svc_Port s =? 0 then 9443 else svc_Port s
  | None => 9443
  end.

(** ** TLS posture *)
Definition providerTLSEnabled (p : Provider) : bool :=
  match (rt ← provider_Runtime p; s ← rts_Service rt; svc_TLS s) with
  | Some tls => tls_Enabled tls
  | None => false
  end.

Section ProviderController.
Context `{Lib : Libraries} `{Own : OwnerReferences}.
Context (r : ProviderReconciler).

(** May the runtime be deployed? *)
Definition evaluateTLSPosture (p : Provider) : KM (Provider * bool) :=
  match (rt ← provider_Runtime p; s ← rts_Service rt; svc_TLS s) with
  | None =>
      p ← provider_condition p providerConditionTLSConfigured ConditionFalse providerReasonTLSBlockMissing
            tlsBlockMissingMessage;
      Ret (p, false)
  | Some tls =>
      if negb (tls_Enabled tls) then
        p ← provider_condition p providerConditionTLSConfigured ConditionFalse providerReasonTLSDisabled
              tlsDisabledMessage;
        Ret (p, true)
      else
        let name := match tls_SecretRef tls with Some ref => lref_Name ref | None => "" end in
        if is_empty name then
          p ← provider_condition p providerConditionTLSConfigured ConditionFalse providerReasonTLSSecretRefEmpty
                tlsSecretRefMessage;
          Ret (p, false)
        else
          p ← provider_condition p providerConditionTLSConfigured ConditionTrue providerReasonTLSEnabled
                ("TLS enabled; using Secret " +:+ fmt_q name);
          Ret (p, true)
  end.

Definition validateRemoteRuntimeSpec (p : Provider) : res ProviderRuntimeSpec :=
  match provider_Runtime p with
  | None => Err (ENew "runtime configuration is required for remote mode")
  | Some rt => if is_empty (rts_Image rt) then Err (ENew "image is required for remote runtime") else Ok rt
  end.

(** ** Service *)
Definition desired_service (p : Provider) (rt : ProviderRuntimeSpec) (name : string) : Service :=
  mkService (mkObjectMeta name (provider_Namespace p) "" 0 "" (provider_labels p) ∅ [] None None)
    "ClusterIP" (provider_selector p)
    [mkServicePort "grpc" (runtime_port rt) (runtime_port rt) "TCP"; mkServicePort "metrics" 8080 8080 "TCP"].

Definition reconcileService (p : Provider) (rt : ProviderRuntimeSpec) (name : string) : KM (res Service) :=
  let desired := desired_service p rt name in
  match own_service p desired with
  | Some err => Ret (Err (EWrap "failed to set controller reference" err))
  | None =>
      got ← kdo (KGet KService (mkKey (provider_Namespace p) name));
      match got with
      | Err err =>
          if api_IsNotFound err then
            e ← kdo (KCreate KService desired);
            match e with
            | Some err => Ret (Err (EWrap "failed to create service" err))
            | None => Ret (Ok desired)
            end
          else Ret (Err (EWrap "failed to get service" err))
      | Ok existing =>
          let existing := existing <| svc_Ports := svc_Ports desired |>
                            <| svc_meta := svc_meta existing <| meta_Labels := provider_labels p |> |> in
          e ← kdo (KUpdate KService existing);
          match e with
          | Some err => Ret (Err (EWrap "failed to update service" err))
          | None => Ret (Ok existing)
          end
      end
  end.

(** ** Migration claims *)
Definition migrationPVCIsMountable (pvc : PersistentVolumeClaim) : bool :=
  bool_decide (meta_DeletionTimestamp (pvc_meta pvc) = None).

Definition migration_volume_name (pvc : PersistentVolumeClaim) : string :=
  "migration-" +:+ meta_Name (pvc_meta pvc).
Definition migration_volume (pvc : PersistentVolumeClaim) : Volume :=
  mkVolume (migration_volume_name pvc) (SourceClaim (meta_Name (pvc_meta pvc))).
Definition migration_mount (pvc : PersistentVolumeClaim) : VolumeMount :=
  mkVolumeMount (migration_volume_name pvc) ("/mnt/migration-storage/" +:+ meta_Name (pvc_meta pvc)) false.

Definition migration_labels : gmap string string := {[ migrationPVCLabelKey := migrationPVCLabelValue ]}.

Definition discoverMigrationPVCs (namespace : string) : KM (list Volume) :=
  pvcs ← kdo (KListPVCs namespace migration_labels);
  Ret match pvcs with
      | Err _ => []
      | Ok pvcs => migration_volume <$> List.filter migrationPVCIsMountable pvcs
      end.

Definition discoverMigrationVolumeMounts (namespace : string) : KM (list VolumeMount) :=
  pvcs ← kdo (KListPVCs namespace migration_labels);
  Ret match pvcs with
      | Err _ => []
      | Ok pvcs => migration_mount <$> List.filter migrationPVCIsMountable pvcs
      end.

(** ** Deployment *)
Definition default_resources : ResourceRequirements :=
  mkResourceRequirements {[ "cpu" := "100m"; "memory" := "128Mi" ]} {[ "cpu" := "1"; "memory" := "512Mi" ]}.
Definition default_security : SecurityContext :=
  mkSecurityContext (Some true) (Some 65532) (Some true) (Some false) ["ALL"].

Definition plain_env (name value : string) : EnvVar := mkEnvVar name value None.
(** An environment variable that is left out when it is empty. *)
Definition optional_env (name value : string) : list EnvVar :=
  if is_empty value then [] else [plain_env name value].

Definition defaults_env (p : Provider) : list EnvVar :=
  match psp_Defaults (provider_Spec p) with
  | Some d =>
      optional_env "PROVIDER_DEFAULT_DATASTORE" (pd_Datastore d)
        ++ optional_env "PROVIDER_DEFAULT_STORAGE_POD" (pd_StoragePod d)
        ++ optional_env "PROVIDER_DEFAULT_CLUSTER" (pd_Cluster d)
        ++ optional_env "PROVIDER_DEFAULT_FOLDER" (pd_Folder d)
  | None => []
  end.

Definition provider_env (p : Provider) (rt : ProviderRuntimeSpec) : list EnvVar :=
  let tlsEnabled := providerTLSEnabled p in
  [plain_env "PROVIDER_TYPE" (provider_Type p);
   plain_env "PROVIDER_ENDPOINT" (psp_Endpoint (provider_Spec p));
   mkEnvVar "PROVIDER_NAMESPACE" "" (Some "metadata.namespace");
   mkEnvVar "PROVIDER_NAME" "" (Some "metadata.labels['app.kubernetes.io/instance']");
   plain_env "TLS_ENABLED" (fmt_t tlsEnabled)]
  ++ (if tlsEnabled then [] else [plain_env envProviderInsecure "true"])
  ++ [plain_env "TLS_INSECURE_SKIP_VERIFY" (fmt_t (psp_InsecureSkipVerify (provider_Spec p)))]
  ++ optional_env "LOG_LEVEL" (rts_LogLevel rt) ++ optional_env "LOG_FORMAT" (rts_LogFormat rt)
  ++ defaults_env p ++ rts_Env rt.

(** The mounts, with those of the migration claims. *)
Definition provider_mounts (p : Provider) (migration : list VolumeMount) : list VolumeMount :=
  [mkVolumeMount "provider-credentials" "/etc/virtrigaud/credentials" true]
  ++ (if providerTLSEnabled p then [mkVolumeMount providerTLSVolumeName providerTLSMountPath true] else [])
  ++ migration
  ++ [mkVolumeMount "tmp" "/tmp" false]
  ++ (if bool_decide (provider_Type p = ProviderTypeLibvirt)
      then [mkVolumeMount sshKeyVolumeName sshKeyMountPath false] else []).

Definition health_probe (delay period : Z) : Probe := mkProbe "/healthz" 8080 delay period.

Definition provider_container (p : Provider) (rt : ProviderRuntimeSpec) (mounts : list VolumeMount) : Container :=
  let grpcPort := runtime_port rt in
  mkContainer "provider" (rts_Image rt)
    (if is_empty (rts_ImagePullPolicy rt) then "IfNotPresent" else rts_ImagePullPolicy rt)
    ["--port=" +:+ FormatInt grpcPort; "--health-port=8080"]
    (provider_env p rt)
    (default default_resources (rts_Resources rt))
    mounts
    (Some (default default_security (rts_SecurityContext rt)))
    [mkContainerPort "grpc" grpcPort "TCP"; mkContainerPort "metrics" 8080 "TCP"]
    (Some (health_probe 15 20)) (Some (health_probe 5 10)) ["/bin/sh"; "-c"; "sleep 15"].

Definition buildProviderContainer (p : Provider) (rt : ProviderRuntimeSpec) : KM Container :=
  migration ← discoverMigrationVolumeMounts (provider_Namespace p);
  Ret (provider_container p rt (provider_mounts p migration)).

Definition provider_volumes (p : Provider) (tls migration : list Volume) : list Volume :=
  [mkVolume "provider-credentials" (SourceSecret (ref_Name (psp_CredentialSecretRef (provider_Spec p))))]
  ++ tls ++ migration
  ++ [mkVolume "tmp" (SourceEmptyDir "" None)]
  ++ (if bool_decide (provider_Type p = ProviderTypeLibvirt)
      then [mkVolume sshKeyVolumeName (SourceEmptyDir "Memory" (Some "4Mi"))] else []).

(** A missing [SecretRef] is a nil dereference here. *)
Definition buildPodVolumes (p : Provider) : KM (list Volume) :=
  tls ← (if providerTLSEnabled p then
           match (rt ← provider_Runtime p; s ← rts_Service rt; t ← svc_TLS s; tls_SecretRef t) with
           | Some ref => Ret [mkVolume providerTLSVolumeName (SourceSecret (lref_Name ref))]
           | None => Crash "nil Provider.Spec.Runtime.Service.TLS.SecretRef"
           end
         else Ret []);
  migration ← discoverMigrationPVCs (provider_Namespace p);
  Ret (provider_volumes p tls migration).

Definition desired_deployment (p : Provider) (rt : ProviderRuntimeSpec) (name : string) (replicas : Z)
    (container : Container) (volumes : list Volume) : Deployment :=
  mkDeployment (mkObjectMeta name (provider_Namespace p) "" 0 "" (provider_labels p) ∅ [] None None)
    (Some replicas) (provider_selector p)
    (mkPodTemplateSpec (provider_labels p)
       (mkPodSpec [container] volumes (rts_NodeSelector rt) (rts_Tolerations rt) (rts_Affinity rt) "Always"
          (Some 30)))
    0 0.

(** An update succeeds only if the object is still the one that was read, so what
    the API server sends back has the status of that read. *)
Definition update_deployment (p : Provider) (name : string) (replicas : Z) (desired : Deployment)
    : KM (res Deployment) :=
  RetryOnConflict
    (got ← kdo (KGet KDeployment (mkKey (provider_Namespace p) name));
     match got with
     | Err err => Ret (Err err)
     | Ok existing =>
         let existing := existing <| dep_Replicas := Some replicas |> <| dep_Template := dep_Template desired |>
                           <| dep_meta := dep_meta existing <| meta_Labels := provider_labels p |> |> in
         e ← kdo (KUpdate KDeployment existing);
         Ret match e with Some err => Err err | None => Ok existing end
     end).

Definition reconcileDeployment (p : Provider) (rt : ProviderRuntimeSpec) (name : string) : KM (res Deployment) :=
  let replicas := deref 1 (rts_Replicas rt) in
  container ← buildProviderContainer p rt;
  volumes ← buildPodVolumes p;
  let desired := desired_deployment p rt name replicas container volumes in
  match own_deployment p desired with
  | Some err => Ret (Err (EWrap "failed to set controller reference" err))
  | None =>
      got ← kdo (KGet KDeployment (mkKey (provider_Namespace p) name));
      match got with
      | Err err =>
          if api_IsNotFound err then
            e ← kdo (KCreate KDeployment desired);
            match e with
            | Some err => Ret (Err (EWrap "failed to create deployment" err))
            | None => Ret (Ok desired)
            end
          else Ret (Err (EWrap "failed to get deployment" err))
      | Ok _ =>
          u ← update_deployment p name replicas desired;
          Ret match u with
              | Err err => Err (EWrap "failed to update deployment" err)
              | Ok existing => Ok existing
              end
      end
  end.

(** ** The runtime *)
Definition runtime_failed (p : Provider) (reason msg : string) (err : goerror) (counted : string)
    : KM (Provider * job_result) :=
  p ← provider_condition p RuntimeReady ConditionFalse reason msg;
  let p := runtime_phase p ProviderRuntimePhaseFailed (Error err) in
  _ ← kdo (CountError counted);
  Ret (p, (requeue_after minute, Some err)).

Definition runtime_endpoint (p : Provider) (rt : ProviderRuntimeSpec) (service : Service) : string :=
  meta_Name (svc_meta service) +:+ "." +:+ provider_Namespace p +:+ ".svc.cluster.local:"
    +:+ FormatInt (runtime_port rt).

(** With the Service and the Deployment in place. *)
Definition runtime_deployed (p : Provider) (rt : ProviderRuntimeSpec) (service : Service) (d : Deployment)
    : KM (Provider * job_result) :=
  let p := with_runtime p (fun x => x <| rt_Endpoint := runtime_endpoint p rt service |>
                                      <| rt_ServiceRef := Some (mkLocalRef (meta_Name (svc_meta service))) |>) in
  if 0 <? dep_ReadyReplicas d then
    let p := runtime_phase p ProviderRuntimePhaseRunning "Remote provider runtime is ready" in
    p ← provider_condition p RuntimeReady ConditionTrue "DeploymentReady"
          ("Deployment has " +:+ FormatInt (dep_ReadyReplicas d) +:+ " ready replicas");
    p ← provider_condition p Available ConditionTrue "RemoteAvailable" "Remote provider is available";
    Ret (p, (no_result, None))
  else
    let p := runtime_phase p ProviderRuntimePhasePending "Waiting for deployment to be ready" in
    p ← provider_condition p RuntimeReady ConditionFalse "DeploymentNotReady" "Deployment pods are not ready yet";
    Ret (p, (requeue_after (30 * second), None)).

Definition deploy_runtime (p : Provider) (rt : ProviderRuntimeSpec) : KM (Provider * job_result) :=
  service ← reconcileService p rt (getServiceName p);
  match service with
  | Err err =>
      runtime_failed p "ServiceError" (errorf "Failed to create service" err) err errReasonServiceReconcile
  | Ok service =>
      d ← reconcileDeployment p rt (getDeploymentName p);
      match d with
      | Err err =>
          runtime_failed p "DeploymentError" (errorf "Failed to create deployment" err) err
            errReasonDeploymentReconcile
      | Ok d => runtime_deployed p rt service d
      end
  end.

Definition reconcileRemoteRuntime (p : Provider) : KM (Provider * job_result) :=
  match validateRemoteRuntimeSpec p with
  | Err err => runtime_failed p "InvalidConfiguration" (Error err) err errReasonRuntimeSpecInvalid
  | Ok rt =>
      posture ← evaluateTLSPosture p;
      let '(p, proceed) := (posture : Provider * bool) in
      if negb proceed then
        let p := runtime_phase p ProviderRuntimePhaseFailed
                   "TLS configuration required (see TLSConfigured Condition)" in
        p ← provider_condition p RuntimeReady ConditionFalse "TLSNotConfigured"
              "Refusing to deploy provider runtime without an explicit TLS decision";
        _ ← kdo (CountError errReasonTLSNotConfigured);
        Ret (p, (requeue_after minute, None))
      else deploy_runtime p rt
  end.

(** ** Capabilities *)
Definition capabilitiesToReported (c : Capabilities) : ReportedCapabilities :=
  mkReportedCapabilities (SupportsReconfigureOnline c) (SupportsDiskExpansionOnline c) (SupportsSnapshots c)
    (SupportsMemorySnapshots c) (SupportsLinkedClones c) (SupportsImageImport c) (SupportedDiskTypes c)
    (SupportedNetworkTypes c) (SupportsDiskExport c) (SupportsDiskImport c) (SupportedExportFormats c)
    (SupportedImportFormats c) (SupportsExportCompression c) (SupportedExportBackends c)
    (SupportedImportBackends c) (SupportedTransferModes c).

Definition capabilities_unavailable (p : Provider) (msg : string) : KM Provider :=
  provider_condition p providerConditionCapabilitiesReported ConditionFalse
    providerReasonCapabilitiesUnavailable msg.

Definition reconcileReportedCapabilities (p : Provider) : KM Provider :=
  if negb (prr_RemoteResolver r) then capabilities_unavailable p "No remote resolver configured"
  else
    i ← kdo (Resolve p);
    match i with
    | Err err => capabilities_unavailable p (errorf "Failed to resolve provider" err)
    | Ok i =>
        if negb (inst_CapabilityReporter i) then
          capabilities_unavailable p "Provider does not report capabilities"
        else
          caps ← kdo (GetCapabilities i);
          match caps with
          | Err err => capabilities_unavailable p (errorf "GetCapabilities RPC failed" err)
          | Ok caps =>
              let p := with_provider p (fun x =>
                x <| ps_ReportedCapabilities := Some (capabilitiesToReported caps) |>) in
              provider_condition p providerConditionCapabilitiesReported ConditionTrue
                providerReasonCapabilitiesFetched "Provider capabilities reported"
          end
    end.

(** ** Virtual machines of the provider *)
Definition refers_to (p : Provider) (vm : VirtualMachine) : bool :=
  let ref := spec_ProviderRef (vm_Spec vm) in
  bool_decide (ref_Name ref = provider_Name p)
  && bool_decide ((if is_empty (ref_Namespace ref) then meta_Namespace (vm_meta vm) else ref_Namespace ref)
                  = provider_Namespace p).

(** The count is an [int32]. *)
Definition count_vms (p : Provider) (vms : list VirtualMachine) : Z :=
  fold_left (fun n vm => if refers_to p vm then to_int32 (n + 1) else n) vms 0.

Definition countConnectedVMs (p : Provider) : KM (res Z) :=
  vms ← kdo KListVirtualMachines;
  Ret match vms with
      | Err err => Err (EWrap "failed to list VirtualMachines" err)
      | Ok vms => Ok (count_vms p vms)
      end.

(** ** Deletion *)
Definition named_deployment (p : Provider) : Deployment :=
  mkDeployment (mkObjectMeta (getDeploymentName p) (provider_Namespace p) "" 0 "" ∅ ∅ [] None None) None ∅
    (mkPodTemplateSpec ∅ (mkPodSpec [] [] ∅ [] None "" None)) 0 0.
Definition named_service (p : Provider) : Service :=
  mkService (mkObjectMeta (getServiceName p) (provider_Namespace p) "" 0 "" ∅ ∅ [] None None) "" ∅ [].

Definition cleanupRemoteRuntime (p : Provider) : KM (option goerror) :=
  e ← kdo (KDelete KDeployment (named_deployment p));
  let delete_service :=
    e ← kdo (KDelete KService (named_service p));
    Ret match e with
        | Some err => if api_IsNotFound err then None else Some (EWrap "failed to delete service" err)
        | None => None
        end in
  match e with
  | Some err =>
      if api_IsNotFound err then delete_service else Ret (Some (EWrap "failed to delete deployment" err))
  | None => delete_service
  end.

Definition handleDeletion (p : Provider) : KM job_result :=
  e ← cleanupRemoteRuntime p;
  match e with
  | Some err => _ ← kdo (CountError errReasonCleanupFailed); Ret (requeue_after minute, Some err)
  | None => Ret (no_result, None)
  end.

(** ** Reconcile *)

(** The status is written on top of a fresh read, and again after a conflict. *)
Definition write_status (p : Provider) : KM (res unit) :=
  RetryOnConflict
    (got ← kdo (KGet KProvider (mkKey (provider_Namespace p) (provider_Name p)));
     match got with
     | Err err => Ret (Err err)
     | Ok latest =>
         e ← kdo (KStatusUpdate KProvider (latest <| provider_Status := provider_Status p |>));
         Ret match e with Some err => Err err | None => Ok tt end
     end).

Definition observe_health (p : Provider) : KM Provider :=
  let healthy := match GetCondition (ps_Conditions (provider_Status p)) Available with
                 | Some c => bool_decide (Status c = ConditionTrue)
                 | None => false
                 end in
  let p := with_provider p (fun x => x <| ps_Healthy := healthy |>) in
  if healthy then
    now ← kdo TimeNow;
    Ret (with_provider p (fun x => x <| ps_LastHealthCheck := Some now |>))
  else Ret p.

Definition running (p : Provider) : bool :=
  match ps_Runtime (provider_Status p) with
  | Some rt => bool_decide (rt_Phase rt = ProviderRuntimePhaseRunning)
  | None => false
  end.

(** After the runtime: counts, health, capabilities and the status. *)
Definition report_status (p : Provider) (res : job_result) : KM job_result :=
  count ← countConnectedVMs p;
  let p := match count with
           | Ok n => with_provider p (fun x => x <| ps_ConnectedVMs := n |>)
           | Err _ => p
           end in
  p ← observe_health p;
  p ← (if ps_Healthy (provider_Status p) && running p then reconcileReportedCapabilities p else Ret p);
  let p := with_provider p (fun x => x <| ps_ObservedGeneration := meta_Generation (provider_meta p) |>) in
  written ← write_status p;
  match written with
  | Err err => Ret (res.1, match res.2 with Some e => Some e | None => Some err end)
  | Ok _ => Ret res
  end.

Definition missing_runtime (p : Provider) : KM job_result :=
  let err := ENew "runtime configuration is required" in
  p ← provider_condition p RuntimeReady ConditionFalse "MissingRuntime" (Error err);
  let p := with_provider p (fun x => x <| ps_ObservedGeneration := meta_Generation (provider_meta p) |>) in
  _ ← kdo (KStatusUpdate KProvider p);
  _ ← kdo (CountError errReasonRuntimeSpecInvalid);
  Ret (no_result, Some err).

(** A status without a runtime gets an empty one. *)
Definition initialized (p : Provider) : Provider :=
  with_provider p (fun x =>
    x <| ps_Runtime := Some (default (mkProviderRuntimeStatus "" "" "" None "") (ps_Runtime x)) |>).

(** The reconcile of a Provider that was read. *)
Definition reconcile_provider (p : Provider) : KM job_result :=
  match meta_DeletionTimestamp (provider_meta p) with
  | Some _ => handleDeletion p
  | None =>
      let p := initialized p in
      match provider_Runtime p with
      | None => missing_runtime p
      | Some _ =>
          let p := with_runtime p (fun x => x <| rt_Mode := RuntimeModeRemote |>) in
          done ← reconcileRemoteRuntime p;
          let '(p, res) := (done : Provider * job_result) in
          report_status p res
      end
  end.

Definition Provider_Reconcile (key : NamespacedName) : KM job_result :=
  got ← kdo (KGet KProvider key);
  match got with
  | Err err =>
      if api_IsNotFound err then Ret (no_result, None)
      else _ ← kdo (CountError errReasonGetProvider); Ret (no_result, Some err)
  | Ok p => reconcile_provider p
  end.

(** ** The watch on claims *)
Definition providersForMigrationPVC (pvc : PersistentVolumeClaim) : KM (list NamespacedName) :=
  if negb (bool_decide (map_get (meta_Labels (pvc_meta pvc)) migrationPVCLabelKey = migrationPVCLabelValue))
  then Ret []
  else
    providers ← kdo (KListProviders (meta_Namespace (pvc_meta pvc)));
    Ret match providers with
        | Err _ => []
        | Ok ps => (fun p => mkKey (provider_Namespace p) (provider_Name p)) <$> ps
        end.
End ProviderController.
