(* ===== verification/ProviderControllerProps.v ===== *)
(** * ProviderControllerProps: what the Provider controller guarantees

    The rules of the controller ([provider_allowed]), the proof that every reconcile
    keeps to them and that none of them panics; the pod it deploys; the way the
    claims of migrations reach it; and two ways in which the status it writes is
    wrong. *)
From S2P Require Import Prelude Contracts K8s Api CoreApi Effects GoLib NetIP GrpcClient MigrationApi JobApi Cluster Storage TraceSpec MigrationHelpers Migration Snapshot Utf8 ProviderController.
From stdpp Require Import base gmap strings list.
From Stdlib Require Import ZArith Lia.
Import v1beta1.
#[local] Open Scope Z_scope.

Section Rules.
Context `{Lib : Libraries} `{LOk : !LibrariesOk} `{Own : OwnerReferences}.
Context (r : ProviderReconciler) (p : Provider).
Abbreviation st := (provider_Status p).

(** The Provider with another status, which is all the controller changes of it. *)
Abbreviation at_ x := (p <| provider_Status := x |>).

Definition provider_live : Prop := meta_DeletionTimestamp (provider_meta p) = None.

(** The Provider says whether its connection is encrypted, and with which secret. *)
Definition tls_decided (rt : ProviderRuntimeSpec) : Prop :=
  exists s tls, rts_Service rt = Some s /\ svc_TLS s = Some tls
    /\ (tls_Enabled tls = false \/ exists ref, tls_SecretRef tls = Some ref /\ lref_Name ref <> "").

Definition deployable (rt : ProviderRuntimeSpec) : Prop :=
  provider_live /\ provider_Runtime p = Some rt /\ rts_Image rt <> "" /\ tls_decided rt.

Definition service_key : NamespacedName := mkKey (provider_Namespace p) (getServiceName p).
Definition deployment_key : NamespacedName := mkKey (provider_Namespace p) (getDeploymentName p).

Definition absent (k : kind) (key : NamespacedName) (h : ktrace) : Prop :=
  exists e, kev (KGet k key) (Err e) ∈ h /\ api_IsNotFound e = true.

Definition claim_volumes (a : res (list PersistentVolumeClaim)) : list Volume :=
  match a with
  | Err _ => []
  | Ok pvcs => migration_volume <$> List.filter migrationPVCIsMountable pvcs
  end.
Definition claim_mounts (a : res (list PersistentVolumeClaim)) : list VolumeMount :=
  match a with
  | Err _ => []
  | Ok pvcs => migration_mount <$> List.filter migrationPVCIsMountable pvcs
  end.
Definition tls_volumes : list Volume :=
  if providerTLSEnabled p then
    match (rt ← provider_Runtime p; s ← rts_Service rt; t ← svc_TLS s; tls_SecretRef t) with
    | Some ref => [mkVolume providerTLSVolumeName (SourceSecret (lref_Name ref))]
    | None => []
    end
  else [].

(** The Deployment for two answers to the listing of the migration claims. *)
Definition deployment_for (rt : ProviderRuntimeSpec) (mounts volumes : res (list PersistentVolumeClaim))
    : Deployment :=
  desired_deployment p rt (getDeploymentName p) (deref 1 (rts_Replicas rt))
    (provider_container p rt (provider_mounts p (claim_mounts mounts)))
    (provider_volumes p tls_volumes (claim_volumes volumes)).

Definition listed_claims (h : ktrace) (a : res (list PersistentVolumeClaim)) : Prop :=
  kev (KListPVCs (provider_Namespace p) migration_labels) a ∈ h.
Definition desired_for (h : ktrace) (rt : ProviderRuntimeSpec) (d : Deployment) : Prop :=
  exists a1 a2, listed_claims h a1 /\ listed_claims h a2 /\ d = deployment_for rt a1 a2.

(** The runtime is up: a ready Deployment was read and the Service is in place. *)
Definition service_in_place (h : ktrace) (s : Service) : Prop :=
  kev (KCreate KService s) None ∈ h \/ kev (KUpdate KService s) None ∈ h.
Definition up (h : ktrace) (endpoint : string) : Prop :=
  exists rt d s, deployable rt
    /\ kev (KGet KDeployment deployment_key) (Ok d) ∈ h /\ 0 < dep_ReadyReplicas d
    /\ service_in_place h s /\ endpoint = runtime_endpoint p rt s.

Definition caps_origin (h : ktrace) (x : ProviderStatus) : Prop :=
  ps_ReportedCapabilities x = ps_ReportedCapabilities st
  \/ exists i caps, kev (GetCapabilities i) (Ok caps) ∈ h
       /\ ps_ReportedCapabilities x = Some (capabilitiesToReported caps).
Definition count_origin (h : ktrace) (x : ProviderStatus) : Prop :=
  ps_ConnectedVMs x = ps_ConnectedVMs st
  \/ exists vms, kev KListVirtualMachines (Ok vms) ∈ h /\ ps_ConnectedVMs x = count_vms p vms.

(** What the status says of the runtime. *)
Definition runtime_sound (h : ktrace) (x : ProviderStatus) : Prop :=
  exists rt, ps_Runtime x = Some rt /\ rt_Mode rt = RuntimeModeRemote
    /\ (rt_Phase rt = ProviderRuntimePhaseRunning -> up h (rt_Endpoint rt))
    /\ ((forall spec, ~ deployable spec) -> rt_Phase rt = ProviderRuntimePhaseFailed).
Definition health_sound (h : ktrace) (x : ProviderStatus) : Prop :=
  ps_Healthy x = IsConditionTrue (ps_Conditions x) Available
  /\ (ps_Healthy x = true -> exists t, kev TimeNow t ∈ h /\ ps_LastHealthCheck x = Some t).

(** The adoption status stays as it was read, and availability is not withdrawn. *)
Definition available (x : ProviderStatus) : Prop := IsConditionTrue (ps_Conditions x) Available = true.
Definition carried (x x' : ProviderStatus) : Prop :=
  ps_Adoption x' = ps_Adoption x /\ (available x -> available x').

Definition status_sound (h : ktrace) (x : ProviderStatus) : Prop :=
  ps_ObservedGeneration x = meta_Generation (provider_meta p)
  /\ runtime_sound h x /\ health_sound h x /\ caps_origin h x /\ count_origin h x /\ carried st x.

(** Without a runtime in the spec the status stays as it was read: only the condition on
    the runtime, the observed generation and a missing runtime section change. *)
Definition status_without_runtime (x : ProviderStatus) : Prop :=
  provider_Runtime p = None
  /\ exists conds, x = st <| ps_Runtime := Some (default (mkProviderRuntimeStatus "" "" "" None "") (ps_Runtime st)) |>
                         <| ps_Conditions := conds |>
                         <| ps_ObservedGeneration := meta_Generation (provider_meta p) |>
    /\ IsConditionTrue conds RuntimeReady = false
    /\ forall t, t <> RuntimeReady -> GetCondition conds t = GetCondition (ps_Conditions st) t.

Definition provider_allowed (h : ktrace) (c : kcall) : Prop :=
  match c with
  | KCreate KService s =>
      exists rt, deployable rt /\ absent KService service_key h /\ s = desired_service p rt (getServiceName p)
  | KUpdate KService s =>
      exists rt s0, deployable rt /\ kev (KGet KService service_key) (Ok s0) ∈ h
        /\ s = s0 <| svc_Ports := svc_Ports (desired_service p rt (getServiceName p)) |>
                  <| svc_meta := svc_meta s0 <| meta_Labels := provider_labels p |> |>
  | KCreate KDeployment d =>
      exists rt, deployable rt /\ absent KDeployment deployment_key h /\ desired_for h rt d
  | KUpdate KDeployment d =>
      exists rt d0 d1, deployable rt /\ kev (KGet KDeployment deployment_key) (Ok d0) ∈ h /\ desired_for h rt d1
        /\ d = d0 <| dep_Replicas := Some (deref 1 (rts_Replicas rt)) |> <| dep_Template := dep_Template d1 |>
                  <| dep_meta := dep_meta d0 <| meta_Labels := provider_labels p |> |>
  | KDelete KDeployment d => ~ provider_live /\ d = named_deployment p
  | KDelete KService s => ~ provider_live /\ s = named_service p
  | Resolve _ | GetCapabilities _ => exists endpoint, up h endpoint
  | KStatusUpdate KProvider p' =>
      provider_live
      /\ ((exists latest, kev (KGet KProvider (mkKey (provider_Namespace p) (provider_Name p))) (Ok latest) ∈ h
             /\ exists x, p' = latest <| provider_Status := x |> /\ status_sound h x)
          \/ exists x, p' = at_ x /\ status_without_runtime x)
  | KGet _ _ | KListPVCs _ _ | KListVirtualMachines | TimeNow | CountError _ => True
  | _ => False
  end.

Definition provider_rule (h : ktrace) (x : event kcall kanswer) : Prop := provider_allowed h (projT1 x).

(** ** The controller keeps to the rules *)
Abbreviation keeps h p Q := (guar provider_rule h p Q).
Ltac go := repeat (guar_step; try exact I).

Lemma up_mono h tr e : up h e -> up (h ++ tr) e.
Proof.
  intros (rt & d & s & Hd & Hin & Hr & Hs & He). exists rt, d, s.
  split_and!; eauto with history. destruct Hs; [left|right]; eauto with history.
Qed.
Lemma desired_for_mono h tr rt d : desired_for h rt d -> desired_for (h ++ tr) rt d.
Proof.
  unfold desired_for, listed_claims. intros (a1 & a2 & H1 & H2 & ->).
  exists a1, a2. split_and!; [| |done]; by apply elem_of_history.
Qed.
Lemma service_in_place_mono h tr s : service_in_place h s -> service_in_place (h ++ tr) s.
Proof. intros [?|?]; [left|right]; eauto with history. Qed.

Lemma available_kept now now' conds t s reason msg :
  t <> Available \/ s = ConditionTrue -> IsConditionTrue conds Available = true ->
  IsConditionTrue (SetCondition now now' conds t s reason msg) Available = true.
Proof.
  intros Ht Ha. destruct (decide (t = Available)) as [->|Hne].
  - destruct Ht as [?| ->]; [done|]. apply SetCondition_true.
  - unfold IsConditionTrue. by rewrite has_status_SetCondition_ne.
Qed.

Lemma carried_trans x y z : carried x y -> carried y z -> carried x z.
Proof. unfold carried. intuition congruence. Qed.

Lemma condition_keeps h x t s reason msg :
  keeps h (provider_condition (at_ x) t s reason msg)
    (fun h' p' => exists tr now now',
       h' = h ++ tr /\ p' = at_ (x <| ps_Conditions := SetCondition now now' (ps_Conditions x) t s reason msg |>)).
Proof.
  unfold provider_condition. go. eexists _, r0, r1. split; [by rewrite <- app_assoc|done].
Qed.

Lemma evaluate_keeps h x :
  keeps h (evaluateTLSPosture (at_ x))
    (fun h' a => exists tr now now' s reason msg, h' = h ++ tr
       /\ a.1 = at_ (x <| ps_Conditions :=
                         SetCondition now now' (ps_Conditions x) providerConditionTLSConfigured s reason msg |>)
       /\ (a.2 = true <-> exists rt, provider_Runtime p = Some rt /\ tls_decided rt)).
Proof.
  assert (forall s reason msg b,
    (b = true <-> exists rt, provider_Runtime p = Some rt /\ tls_decided rt) ->
    keeps h (p' ← provider_condition (at_ x) providerConditionTLSConfigured s reason msg; Ret (p', b))
      (fun h' a => exists tr now now' s reason msg, h' = h ++ tr
         /\ a.1 = at_ (x <| ps_Conditions :=
                           SetCondition now now' (ps_Conditions x) providerConditionTLSConfigured s reason msg |>)
         /\ (a.2 = true <-> exists rt, provider_Runtime p = Some rt /\ tls_decided rt))) as Hk.
  { intros s reason msg b Hb. guar_use condition_keeps. intros tr p' (tr' & n & n' & ->%app_inv_head & ->).
    apply guar_ret. eauto 10. }
  unfold evaluateTLSPosture. change (provider_Runtime (at_ x)) with (provider_Runtime p).
  destruct (provider_Runtime p) as [rt|] eqn:Hrt; cbn [mbind option_bind];
    [|apply Hk; split; [done|naive_solver]].
  destruct (rts_Service rt) as [s|] eqn:Hs; cbn [mbind option_bind];
    [|apply Hk; split; [done|unfold tls_decided; naive_solver]].
  destruct (svc_TLS s) as [tls|] eqn:Ht; cbn [mbind option_bind];
    [|apply Hk; split; [done|unfold tls_decided; naive_solver]].
  destruct (tls_Enabled tls) eqn:He; cbn [negb];
    [|apply Hk; split; [intros _; exists rt; split; [done|]; exists s, tls; auto|done]].
  destruct (tls_SecretRef tls) as [ref|] eqn:Href; cbn zeta;
    [destruct (is_empty (lref_Name ref)) eqn:Hn|]; cbn.
  - apply Hk. split; [done|]. intros (? & [= <-] & s' & tls' & Hs' & Ht' & Hd).
    rewrite Hs in Hs'. simplify_eq. destruct Hd as [?|(ref' & ? & Hne)]; [congruence|]. simplify_eq.
    by apply is_empty_true in Hn.
  - apply Hk. split; [|done]. intros _. exists rt. split; [done|]. exists s, tls. split_and!; [done|done|].
    right. exists ref. split; [done|]. by apply is_empty_false.
  - apply Hk. split; [done|]. intros (? & [= <-] & s' & tls' & Hs' & Ht' & Hd).
    rewrite Hs in Hs'. simplify_eq. naive_solver.
Qed.

Lemma service_keeps h x rt :
  deployable rt ->
  keeps h (reconcileService (at_ x) rt (getServiceName p))
    (fun h' a => (exists tr, h' = h ++ tr) /\ forall s, a = Ok s -> service_in_place h' s).
Proof.
  intros Hd. unfold reconcileService.
  destruct (own_service _ _); [apply guar_ret; split; [exists []; by rewrite app_nil_r|done]|].
  guar_step. guar_step; [exact I|]. rename r0 into got.
  destruct got as [s0|e]; [|destruct (api_IsNotFound e) eqn:He].
  - guar_step. guar_step.
    { exists rt, s0. split_and!; [done|apply elem_of_last|done]. }
    rename r0 into a. destruct a; apply guar_ret; (split; [rewrite <- app_assoc; by eexists|]); [done|].
    intros s [= <-]. right. apply elem_of_last.
  - guar_step. guar_step.
    { exists rt. split_and!; [done|exists e; split; [apply elem_of_last|done]|done]. }
    rename r0 into a. destruct a; apply guar_ret; (split; [rewrite <- app_assoc; by eexists|]); [done|].
    intros s [= <-]. left. apply elem_of_last.
  - apply guar_ret. split; [by eexists|done].
Qed.

Lemma container_keeps h x rt :
  keeps h (buildProviderContainer (at_ x) rt)
    (fun h' c => exists a, h' = h ++ [kev (KListPVCs (provider_Namespace p) migration_labels) a]
       /\ c = provider_container p rt (provider_mounts p (claim_mounts a))).
Proof.
  unfold buildProviderContainer, discoverMigrationVolumeMounts. go. by exists r0.
Qed.

Lemma volumes_keeps h x :
  keeps h (buildPodVolumes (at_ x))
    (fun h' v => exists a, h' = h ++ [kev (KListPVCs (provider_Namespace p) migration_labels) a]
       /\ v = provider_volumes p tls_volumes (claim_volumes a)).
Proof.
  unfold buildPodVolumes, discoverMigrationPVCs, tls_volumes.
  change (providerTLSEnabled (at_ x)) with (providerTLSEnabled p).
  change (provider_Runtime (at_ x)) with (provider_Runtime p).
  destruct (providerTLSEnabled p);
    [destruct (rt ← provider_Runtime p; s ← rts_Service rt; t ← svc_TLS s; tls_SecretRef t)|]; go;
    by eexists.
Qed.

Lemma update_deployment_keeps h x rt d1 :
  deployable rt -> desired_for h rt d1 ->
  keeps h (update_deployment (at_ x) (getDeploymentName p) (deref 1 (rts_Replicas rt)) d1)
    (fun h' a => (exists tr, h' = h ++ tr) /\ forall d, a = Ok d ->
       exists d0, kev (KGet KDeployment deployment_key) (Ok d0) ∈ h' /\ dep_ReadyReplicas d = dep_ReadyReplicas d0).
Proof.
  intros Hd Hdes. unfold update_deployment. apply guar_RetryOnConflict. intros tr0.
  guar_step. guar_step; [exact I|]. rename r0 into got.
  destruct got as [d0|e]; [|apply guar_ret; split; [rewrite <- app_assoc; by eexists|done]].
  guar_step. guar_step.
  { exists rt, d0, d1. split_and!; [done|apply elem_of_last| |done]. by do 2 apply desired_for_mono. }
  rename r0 into a. apply guar_ret. split; [rewrite <- !app_assoc; by eexists|].
  intros d Hok. destruct a; simplify_eq. exists d0. split; [|done]. apply elem_of_history, elem_of_last.
Qed.

Lemma deployment_keeps h x rt :
  deployable rt ->
  keeps h (reconcileDeployment (at_ x) rt (getDeploymentName p))
    (fun h' a => (exists tr, h' = h ++ tr) /\ forall d, a = Ok d -> dep_ReadyReplicas d = 0 \/
       exists d0, kev (KGet KDeployment deployment_key) (Ok d0) ∈ h' /\ dep_ReadyReplicas d = dep_ReadyReplicas d0).
Proof.
  intros Hd. unfold reconcileDeployment.
  guar_use container_keeps. intros tr c (a1 & ->%app_inv_head & ->).
  guar_use volumes_keeps. intros tr v (a2 & ->%app_inv_head & ->). cbn zeta.
  change (desired_deployment (at_ x)) with (desired_deployment p).
  fold (deployment_for rt a1 a2). set (h2 := (h ++ _) ++ _).
  assert (desired_for h2 rt (deployment_for rt a1 a2)) as Hdes.
  { exists a1, a2. split_and!; [apply elem_of_history, elem_of_last|apply elem_of_last|done]. }
  assert (exists tr, h2 = h ++ tr) as [tr2 H2] by (unfold h2; rewrite <- app_assoc; by eexists).
  destruct (own_deployment _ _); [apply guar_ret; split; [by exists tr2|done]|].
  guar_step. guar_step; [exact I|]. rename r0 into got.
  destruct got as [d0|e]; [|destruct (api_IsNotFound e) eqn:He].
  - guar_use update_deployment_keeps; [done|by apply desired_for_mono|].
    intros tr a [_ Ha]. apply guar_ret. split; [rewrite H2, <- !app_assoc; by eexists|].
    intros d Hok. right. apply Ha. destruct a; naive_solver.
  - guar_step. guar_step.
    { exists rt. split_and!; [done|exists e; split; [apply elem_of_last|done]|by apply desired_for_mono]. }
    rename r0 into a. destruct a; apply guar_ret; (split; [rewrite H2, <- !app_assoc; by eexists|]); [done|].
    intros d [= <-]. by left.
  - apply guar_ret. split; [rewrite H2, <- !app_assoc; by eexists|done].
Qed.

(** The runtime part of a reconcile leaves the rest of the status alone. *)
Definition rest_kept (x x' : ProviderStatus) : Prop :=
  ps_ReportedCapabilities x' = ps_ReportedCapabilities x /\ ps_ConnectedVMs x' = ps_ConnectedVMs x
  /\ carried x x'.
Ltac keep_rest :=
  split_and!; [done|done|split; [done|]];
  let H := fresh in
  intros H; unfold available in *; cbn; repeat (apply available_kept; [first [by left|by right]|]); exact H.
Definition remote (x : ProviderStatus) : Prop :=
  exists rt, ps_Runtime x = Some rt /\ rt_Mode rt = RuntimeModeRemote.
Definition runtime_done (x : ProviderStatus) (h' : ktrace) (a : Provider * job_result) : Prop :=
  exists x', a.1 = at_ x' /\ rest_kept x x' /\ runtime_sound h' x'.

Lemma runtime_failed_keeps h x reason msg err counted :
  remote x -> keeps h (runtime_failed (at_ x) reason msg err counted) (runtime_done x).
Proof.
  intros (rt & Hrt & Hm). unfold runtime_failed.
  guar_use condition_keeps. intros tr p' (tr' & n & n' & _ & ->). go.
  eexists. split; [reflexivity|]. split; [keep_rest|]. cbn. rewrite Hrt. eexists. split; [reflexivity|]. done.
Qed.

Lemma runtime_deployed_keeps h x rt s d :
  deployable rt -> remote x -> service_in_place h s ->
  (dep_ReadyReplicas d = 0 \/
   exists d0, kev (KGet KDeployment deployment_key) (Ok d0) ∈ h /\ dep_ReadyReplicas d = dep_ReadyReplicas d0) ->
  keeps h (runtime_deployed (at_ x) rt s d) (runtime_done x).
Proof.
  intros Hd (rt0 & Hrt & Hm) Hs Hready. unfold runtime_deployed. cbn zeta.
  destruct (Z.ltb_spec 0 (dep_ReadyReplicas d)) as [Hlt|_].
  - guar_use condition_keeps. intros tr p' (tr1 & n & n' & _ & ->).
    guar_use condition_keeps. intros tr2 p' (tr3 & m & m' & _ & ->). apply guar_ret.
    eexists. split; [reflexivity|]. split; [keep_rest|].
    cbn. rewrite Hrt. eexists. split; [reflexivity|].
    split_and!; [done| |intros Hno; destruct (Hno rt Hd)].
    intros _. destruct Hready as [H0|(d0 & Hin & He)]; [lia|].
    apply up_mono, up_mono. exists rt, d0, s. split_and!; [done|done|lia|done|done].
  - guar_use condition_keeps. intros tr p' (tr1 & n & n' & _ & ->). apply guar_ret.
    eexists. split; [reflexivity|].
    split; [keep_rest|].
    cbn. rewrite Hrt. eexists. split; [reflexivity|].
    split_and!; [done|done|intros Hno; destruct (Hno rt Hd)].
Qed.

Lemma deploy_keeps h x rt :
  deployable rt -> remote x -> keeps h (deploy_runtime (at_ x) rt) (runtime_done x).
Proof.
  intros Hd Hx. unfold deploy_runtime. guar_use service_keeps; [done|]. intros tr s [_ Hs].
  destruct s as [s|e]; [|by apply runtime_failed_keeps].
  guar_use deployment_keeps; [done|]. intros tr' d [_ Hdep].
  destruct d as [d|e]; [|by apply runtime_failed_keeps].
  apply runtime_deployed_keeps; [done|done| |by apply Hdep]. by apply service_in_place_mono, Hs.
Qed.

Lemma remote_runtime_keeps h x :
  provider_live -> remote x -> keeps h (reconcileRemoteRuntime (at_ x)) (runtime_done x).
Proof.
  intros Hl Hx. unfold reconcileRemoteRuntime, validateRemoteRuntimeSpec.
  change (provider_Runtime (at_ x)) with (provider_Runtime p).
  destruct (provider_Runtime p) as [rt|] eqn:Hrt; [|by apply runtime_failed_keeps].
  destruct (is_empty (rts_Image rt)) eqn:Himg; [by apply runtime_failed_keeps|]. apply is_empty_false in Himg.
  guar_use evaluate_keeps. intros tr [p' proceed] (tr' & n & n' & s & reason & msg & _ & Hp & Hdec).
  cbn [fst snd] in *. subst p'. rewrite Hrt in Hdec.
  destruct proceed; cbn [negb].
  - destruct (proj1 Hdec eq_refl) as (? & [= <-] & Ht).
    eapply guar_mono; [apply deploy_keeps; [by repeat split|exact Hx]|]. intros tr2 a (x' & Ha & (Hc & Hn & Had & Hav) & Hsound).
    exists x'. split; [done|]. split; [|done]. split_and!; [done|done|split; [done|]].
    intros H. by apply Hav, available_kept; [left|].
  - guar_use condition_keeps. intros tr2 p' (tr3 & m & m' & _ & ->). go.
    destruct Hx as (rt0 & Hr0 & Hm). eexists. split; [reflexivity|]. split; [keep_rest|].
    cbn. rewrite Hr0. eexists. split; [reflexivity|]. done.
Qed.

Lemma runtime_sound_mono h tr x : runtime_sound h x -> runtime_sound (h ++ tr) x.
Proof. intros (rt & Hrt & Hm & Hup & Hf). exists rt. split_and!; eauto using up_mono. Qed.
Lemma health_sound_mono h tr x : health_sound h x -> health_sound (h ++ tr) x.
Proof. intros [He Ht]. split; [done|]. intros Hh. destruct (Ht Hh) as (t & ? & ?). eauto with history. Qed.
Lemma caps_origin_mono h tr x : caps_origin h x -> caps_origin (h ++ tr) x.
Proof. intros [?|(i & c & ? & ?)]; [by left|right; exists i, c; eauto with history]. Qed.
Lemma count_origin_mono h tr x : count_origin h x -> count_origin (h ++ tr) x.
Proof. intros [?|(i & ? & ?)]; [by left|right; exists i; eauto with history]. Qed.
Lemma status_sound_mono h tr x : status_sound h x -> status_sound (h ++ tr) x.
Proof.
  intros (? & ? & ? & ? & ? & ?). split_and!;
    auto using runtime_sound_mono, health_sound_mono, caps_origin_mono, count_origin_mono.
Qed.

Lemma write_keeps h x :
  provider_live -> status_sound h x -> keeps h (write_status (at_ x)) (fun _ _ => True).
Proof.
  intros Hl Hx. unfold write_status. apply guar_RetryOnConflict. intros tr.
  guar_step. guar_step; [exact I|]. rename r0 into got. destruct got as [latest|e]; [|by apply guar_ret].
  guar_step. guar_step; [|by apply guar_ret].
  split; [done|]. left. exists latest. split; [apply elem_of_last|].
  exists x. split; [done|]. by do 2 apply status_sound_mono.
Qed.

Lemma count_keeps h x :
  keeps h (countConnectedVMs (at_ x))
    (fun h' a => (exists tr, h' = h ++ tr) /\ forall n, a = Ok n ->
       exists vms, kev KListVirtualMachines (Ok vms) ∈ h' /\ n = count_vms p vms).
Proof.
  unfold countConnectedVMs. guar_step. guar_step; [exact I|]. rename r0 into a. apply guar_ret.
  split; [by eexists|]. destruct a as [vms|e]; [|done]. intros n [= <-].
  exists vms. split; [apply elem_of_last|done].
Qed.

Lemma health_keeps h x :
  keeps h (observe_health (at_ x))
    (fun h' p' => exists tr x', h' = h ++ tr /\ p' = at_ x' /\ health_sound h' x'
       /\ ps_Runtime x' = ps_Runtime x /\ rest_kept x x').
Proof.
  unfold observe_health. cbn zeta.
  assert (match GetCondition (ps_Conditions (provider_Status (at_ x))) Available with
          | Some c => bool_decide (Status c = ConditionTrue) | None => false end
          = IsConditionTrue (ps_Conditions x) Available) as -> by done.
  destruct (IsConditionTrue (ps_Conditions x) Available) eqn:Hc.
  - guar_step. guar_step; [exact I|]. apply guar_ret. eexists _, _. split; [reflexivity|].
    split; [reflexivity|]. split_and!; [split; cbn; [by rewrite Hc|]|done|done].
    intros _. exists r0. split; [apply elem_of_last|done].
  - apply guar_ret. eexists [], _. rewrite app_nil_r. split; [done|]. split; [reflexivity|].
    split_and!; [split; cbn; [by rewrite Hc|done]|done|done].
Qed.

(** What fetching the capabilities after [h] does to the status [x]. *)
Definition caps_done (h : ktrace) (x : ProviderStatus) (h' : ktrace) (x' : ProviderStatus) : Prop :=
  (exists tr, h' = h ++ tr) /\ health_sound h' x' /\ ps_Runtime x' = ps_Runtime x
  /\ ps_ConnectedVMs x' = ps_ConnectedVMs x /\ carried x x'
  /\ (ps_ReportedCapabilities x' = ps_ReportedCapabilities x
      \/ exists i caps, kev (GetCapabilities i) (Ok caps) ∈ h'
           /\ ps_ReportedCapabilities x' = Some (capabilitiesToReported caps)).

Lemma caps_condition_keeps h x h1 y s reason msg :
  caps_done h x h1 y ->
  keeps h1 (provider_condition (at_ y) providerConditionCapabilitiesReported s reason msg)
    (fun h' p' => exists x', p' = at_ x' /\ caps_done h x h' x').
Proof.
  intros ([tr ->] & Hx & Hr & Hn & [Ha Hv] & Hc). guar_use condition_keeps.
  intros tr' p' (tr2 & n & n' & ->%app_inv_head & ->). eexists. split; [reflexivity|].
  split_and!; [rewrite <- app_assoc; by eexists| |done|done| |].
  - apply (health_sound_mono _ tr2) in Hx as [He Ht]. split; cbn; [|done].
    rewrite He. unfold IsConditionTrue. by rewrite has_status_SetCondition_ne.
  - split; [done|]. intros H. apply available_kept; [by left|exact (Hv H)].
  - destruct Hc as [?|(i & caps & ? & ?)]; [by left|right; exists i, caps; eauto with history].
Qed.

(** Capabilities are fetched into the status, or the attempt becomes a condition. *)
Lemma capabilities_keeps h x endpoint :
  up h endpoint -> health_sound h x ->
  keeps h (reconcileReportedCapabilities r (at_ x)) (fun h' p' => exists x', p' = at_ x' /\ caps_done h x h' x').
Proof.
  intros Hup Hx.
  assert (forall tr, caps_done h x (h ++ tr) x) as Hk.
  { intros tr. split_and!; [by eexists|by apply health_sound_mono|done|done|done|by left]. }
  unfold reconcileReportedCapabilities, capabilities_unavailable.
  destruct (prr_RemoteResolver r); cbn [negb];
    [|apply caps_condition_keeps; specialize (Hk []); by rewrite app_nil_r in Hk].
  guar_step. guar_step; [by exists endpoint|]. rename r0 into i.
  destruct i as [i|e]; [|by apply caps_condition_keeps].
  destruct (inst_CapabilityReporter i); cbn [negb]; [|by apply caps_condition_keeps].
  guar_step. guar_step; [exists endpoint; by apply up_mono|]. rename r0 into caps.
  destruct caps as [caps|e]; apply caps_condition_keeps; rewrite <- app_assoc; [|done].
  destruct (Hk [kev (Resolve (at_ x)) (Ok i); kev (GetCapabilities i) (Ok caps)]) as (? & ? & ? & ? & ? & _).
  split_and!; try done. right. exists i, caps. split; [|done]. rewrite app_assoc. apply elem_of_last.
Qed.

Lemma report_keeps h x result :
  provider_live -> caps_origin h x -> count_origin h x -> carried st x -> runtime_sound h x ->
  keeps h (report_status r (at_ x) result) (fun _ _ => True).
Proof.
  intros Hl Hcaps Hcount Hcar Hrt. unfold report_status.
  guar_use count_keeps. intros tr n [_ Hn].
  assert (exists y, (match n with
                     | Ok n => with_provider (at_ x) (fun z => z <| ps_ConnectedVMs := n |>)
                     | Err _ => at_ x end) = at_ y
                    /\ ps_ReportedCapabilities y = ps_ReportedCapabilities x /\ ps_Runtime y = ps_Runtime x
                    /\ carried st y /\ count_origin (h ++ tr) y) as (y & -> & Hyc & Hyr & Hya & Hyn).
  { destruct n as [n|e]; (eexists; split; [reflexivity|]; split; [done|]; split; [done|]; split; [done|]).
    - right. by apply Hn.
    - by apply (count_origin_mono h tr x). }
  guar_use health_keeps. intros tr2 p' (tr3 & z & ->%app_inv_head & -> & Hz & Hzr & Hzc & Hzn & Hzv).
  apply (runtime_sound_mono _ tr), (runtime_sound_mono _ tr3) in Hrt.
  apply (caps_origin_mono _ tr), (caps_origin_mono _ tr3) in Hcaps.
  apply (count_origin_mono _ tr3) in Hyn.
  set (h2 := (h ++ tr) ++ tr3) in *.
  assert (carried st z) as Hvz by by eapply carried_trans.
  assert (runtime_sound h2 z /\ caps_origin h2 z /\ count_origin h2 z) as (Hrz & Hcz & Hnz).
  { unfold runtime_sound, caps_origin, count_origin. rewrite Hzr, Hyr, Hzc, Hyc, Hzn. done. }
  guar_step. eapply guar_mono with (Q := fun h' p' => exists tr w, h' = h2 ++ tr /\ p' = at_ w
    /\ health_sound h' w /\ runtime_sound h' w /\ caps_origin h' w /\ count_origin h' w /\ carried st w).
  - change (provider_Status (at_ z)) with z. unfold running. cbn.
    destruct (ps_Healthy z); [destruct (ps_Runtime z) as [rt|] eqn:Hr;
      [destruct (bool_decide_reflect (rt_Phase rt = ProviderRuntimePhaseRunning)) as [Hrun|]|]|]; cbn [andb];
      try (apply guar_ret; exists [], z; rewrite app_nil_r; by split_and!).
    assert (up h2 (rt_Endpoint rt)) as Hup by (destruct Hrz as (rt' & Hr' & _ & Hup & _); simplify_eq; auto).
    eapply guar_mono; [by apply (capabilities_keeps h2 z (rt_Endpoint rt))|]. cbn.
    intros tr4 p' (w & -> & [tr5 ->%app_inv_head] & Hw & Hwr & Hwn & Hwv & Hwc).
    exists tr5, w. split_and!; [done|done|done| | | |by eapply carried_trans].
    + unfold runtime_sound. rewrite Hwr. by apply runtime_sound_mono.
    + destruct Hwc as [Hwc|Hwc]; [|by right]. unfold caps_origin. rewrite Hwc. by apply caps_origin_mono.
    + unfold count_origin. rewrite Hwn. by apply count_origin_mono.
  - intros tr4 p' (tr5 & w & ->%app_inv_head & -> & Hw1 & Hw2 & Hw3 & Hw4 & Hw5). cbn zeta.
    guar_use write_keeps; [done|by split_and!|]. intros tr6 a _. destruct a; by apply guar_ret.
Qed.

Lemma deletion_keeps h : ~ provider_live -> keeps h (handleDeletion p) (fun _ _ => True).
Proof.
  intros Hl. unfold handleDeletion, cleanupRemoteRuntime. guar_step.
  eapply guar_mono with (Q := fun _ _ => True); [|intros tr [e|] _; go].
  guar_step. guar_step; [done|]. destruct r0 as [e|]; [destruct (api_IsNotFound e)|];
    [|by apply guar_ret|]; guar_step; (guar_step; [done|by apply guar_ret]).
Qed.

Lemma missing_keeps h :
  provider_live -> provider_Runtime p = None ->
  keeps h (missing_runtime (at_ (provider_Status (initialized p)))) (fun _ _ => True).
Proof.
  intros Hl Hr. unfold missing_runtime. cbn zeta.
  guar_use condition_keeps. intros tr p' (tr1 & n & n' & _ & ->).
  guar_step. guar_step; [|go]. split; [done|]. right. eexists. split; [reflexivity|]. split; [done|].
  eexists. split; [reflexivity|]. split; [by apply SetCondition_not_true|].
  intros t Ht. by apply GetCondition_SetCondition_ne.
Qed.

Lemma reconcile_keeps h : keeps h (reconcile_provider r p) (fun _ _ => True).
Proof.
  unfold reconcile_provider. destruct (meta_DeletionTimestamp (provider_meta p)) as [t|] eqn:Ht.
  { apply deletion_keeps. unfold provider_live. congruence. }
  cbn zeta. change (initialized p) with (at_ (provider_Status (initialized p))). set (x := provider_Status _).
  change (provider_Runtime (at_ x)) with (provider_Runtime p).
  destruct (provider_Runtime p) as [rt|] eqn:Hrt; [|by apply missing_keeps].
  set (y := x <| ps_Runtime := (fun z => z <| rt_Mode := RuntimeModeRemote |>) <$> ps_Runtime x |>).
  assert (remote y) as Hy by (unfold remote; by eexists).
  change (with_runtime (at_ x) (fun z => z <| rt_Mode := RuntimeModeRemote |>)) with (at_ y).
  guar_use remote_runtime_keeps; [done|exact Hy|]. intros tr [p' res] (x' & Hp & (Hc & Hn & Hv) & Hs).
  cbn [fst snd] in *. subst p'. apply report_keeps; [done| | |exact Hv|done]; left; [by rewrite Hc|by rewrite Hn].
Qed.

(** ** It never panics *)
Definition total {A} (q : KM A) : Prop := wp q (fun _ o => exists a, o = Done a).

Lemma total_bind {A B} (q : KM A) (k : A -> KM B) :
  total q -> (forall a, total (k a)) -> total (q ≫= k).
Proof.
  intros Hq Hk. apply wp_bind. eapply wp_mono; [exact Hq|]. cbn. intros tr o [a ->]. apply Hk.
Qed.
Lemma total_trigger (c : kcall) : total (kdo c).
Proof. intros a. cbn. eauto. Qed.
Lemma total_retry {A} (q : KM (res A)) : total q -> total (RetryOnConflict q).
Proof.
  intros Hq. apply wp_RetryOnConflict. intros tr1 tr2 o _ Hr. exact (proj1 (wp_runs q _) Hq tr2 o Hr).
Qed.
Ltac totally :=
  repeat first
    [ apply total_trigger
    | apply total_retry
    | apply total_bind; [|intros ?]
    | match goal with
      | |- total (Ret _) => by eexists
      | |- total (match ?x with _ => _ end) => destruct x
      | |- total (if ?x then _ else _) => destruct x
      end ].

Lemma total_service x rt : total (reconcileService (at_ x) rt (getServiceName p)).
Proof. unfold reconcileService. totally. Qed.
Lemma total_report q result : total (report_status r q result).
Proof.
  unfold report_status, countConnectedVMs, observe_health, reconcileReportedCapabilities,
    capabilities_unavailable, write_status. totally.
Qed.
Lemma total_failed x reason msg err counted : total (runtime_failed (at_ x) reason msg err counted).
Proof. unfold runtime_failed. totally. Qed.
Lemma total_deployed x rt s d : total (runtime_deployed (at_ x) rt s d).
Proof. unfold runtime_deployed. cbn zeta. totally. Qed.

(** The volumes are built only after the TLS secret was checked. *)
Lemma total_deployment x rt :
  provider_Runtime p = Some rt -> tls_decided rt -> total (reconcileDeployment (at_ x) rt (getDeploymentName p)).
Proof.
  intros Hrt (s & tls & Hs & Ht & Hd).
  assert (total (buildPodVolumes (at_ x))) as Hv.
  { unfold buildPodVolumes, providerTLSEnabled, discoverMigrationPVCs.
    change (provider_Runtime (at_ x)) with (provider_Runtime p). rewrite Hrt. cbn [mbind option_bind].
    rewrite Hs. cbn [mbind option_bind]. rewrite Ht. cbn [mbind option_bind].
    destruct Hd as [->|(ref & -> & _)]; [|destruct (tls_Enabled tls)]; totally. }
  unfold reconcileDeployment, buildProviderContainer, discoverMigrationVolumeMounts, update_deployment.
  revert Hv. generalize (buildPodVolumes (at_ x)). intros volumes Hv. totally; exact Hv.
Qed.

Lemma total_remote x : total (reconcileRemoteRuntime (at_ x)).
Proof.
  unfold reconcileRemoteRuntime, validateRemoteRuntimeSpec.
  change (provider_Runtime (at_ x)) with (provider_Runtime p).
  destruct (provider_Runtime p) as [rt|] eqn:Hrt; [|apply total_failed].
  destruct (is_empty (rts_Image rt)); [apply total_failed|].
  assert (total (evaluateTLSPosture (at_ x))) as He by (unfold evaluateTLSPosture; totally).
  apply wp_bind. eapply wp_mono; [apply (wp_and _ _ _ He (evaluate_keeps [] x))|].
  intros tr o ([[p' b] ->] & _ & _ & n & n' & s & reason & msg & _ & Hp & Hdec). cbn [fst snd] in *. subst p'.
  rewrite Hrt in Hdec. destruct b; cbn [negb bind_post].
  - destruct (proj1 Hdec eq_refl) as (? & [= <-] & Ht). unfold deploy_runtime.
    apply total_bind; [apply total_service|]. intros [s'|e]; [|apply total_failed].
    apply total_bind; [by apply total_deployment|]. intros [d|e]; [apply total_deployed|apply total_failed].
  - totally.
Qed.

Lemma total_reconcile : total (reconcile_provider r p).
Proof.
  unfold reconcile_provider. destruct (meta_DeletionTimestamp (provider_meta p)).
  { unfold handleDeletion, cleanupRemoteRuntime. totally. }
  cbn zeta. destruct (provider_Runtime (initialized p)).
  - apply total_bind; [|intros [q result]; apply total_report].
    exact (total_remote (provider_Status (with_runtime (initialized p)
                           (fun z => z <| rt_Mode := RuntimeModeRemote |>)))).
  - unfold missing_runtime. totally.
Qed.
End Rules.

(** ** What follows from the rules *)
Section Claims.
Context `{Lib : Libraries} `{LOk : !LibrariesOk} `{Own : OwnerReferences}.
Context (r : ProviderReconciler).

(** C11. A reconcile of a Provider begins by reading it, ends without a panic, and
    only makes calls its rules allow: a Service or Deployment is made or changed
    only for a live Provider that names an image and has decided for or against
    encryption; the runtime is taken down only when the Provider is being deleted;
    the provider is asked for its capabilities only when it runs.  The status of a
    Provider whose spec has a runtime is written on top of a fresh read, and says
    Running only when a ready Deployment was read and the Service put in place, Failed
    when nothing may be deployed.  Without a runtime in the spec the status that was
    read is written back, with the condition on the runtime withdrawn and the
    generation observed: the phase it had, Running too, stays. *)
Theorem Provider_Reconcile_follows_the_rules key tr o :
  runs (Provider_Reconcile r key) tr o ->
  (exists result, o = Done result)
  /\ exists got rest, tr = kev (KGet KProvider key) got :: rest
    /\ match got with
       | Ok p => conforms (provider_rule p) [] rest
       | Err e => api_IsNotFound e = true /\ rest = []
                  \/ api_IsNotFound e = false /\ o = Done (no_result, Some e)
       end.
Proof.
  unfold Provider_Reconcile.
  intros [(tr1 & tr2 & got & -> & Hg & Hr)|(w & Hg & ->)]%runs_bind_inv.
  - destruct Hg as (a & tr' & -> & -> & [= ->]). destruct a as [p|e].
    + split; [exact (proj1 (wp_runs _ _) (total_reconcile r p) tr2 o Hr)|].
      exists (Ok p), tr2. split; [done|]. by eapply guar_runs; [apply (reconcile_keeps r p [])|].
    + destruct (api_IsNotFound e) eqn:He.
      * destruct Hr as [-> ->]. split; [by eexists|]. exists (Err e), []. auto.
      * destruct Hr as (u & tr' & -> & -> & ->). split; [by eexists|]. eexists (Err e), _. auto.
  - destruct Hg as (a & tr' & -> & _ & [=]).
Qed.

Lemma provider_conforms p tr o :
  runs (reconcile_provider r p) tr o -> conforms (provider_rule p) [] tr.
Proof. intros Hr. by eapply guar_runs; [apply (reconcile_keeps r p [])|]. Qed.

(** A Deployment that a reconcile writes. *)
Definition deploys (tr : ktrace) (d : Deployment) : Prop :=
  exists a, kev (KCreate KDeployment d) a ∈ tr \/ kev (KUpdate KDeployment d) a ∈ tr.

Lemma deploys_shape p tr o d :
  runs (reconcile_provider r p) tr o -> deploys tr d ->
  exists rt a1 a2, deployable p rt /\ listed_claims p tr a1 /\ listed_claims p tr a2
    /\ dep_Template d = dep_Template (deployment_for p rt a1 a2).
Proof.
  intros Hr [a [Hin|Hin]]; apply provider_conforms in Hr;
    destruct (conforms_elem _ _ _ Hr Hin) as (pre & post & -> & Hrule).
  - destruct Hrule as (rt & Hd & _ & a1 & a2 & H1 & H2 & ->). exists rt, a1, a2.
    split_and!; [done| | |done]; by apply elem_of_history.
  - destruct Hrule as (rt & d0 & d1 & Hd & _ & (a1 & a2 & H1 & H2 & ->) & ->). exists rt, a1, a2.
    split_and!; [done| | |done]; by apply elem_of_history.
Qed.

(** ** The pod *)
Definition pod_of (d : Deployment) : PodSpec := pt_Spec (dep_Template d).
Definition pod_mounts_of (d : Deployment) : list VolumeMount := pod_Containers (pod_of d) ≫= ctr_VolumeMounts.
Definition pod_volume_names (d : Deployment) : list string := vol_Name <$> podspec_Volumes (pod_of d).

Definition claim_names (pvcs : list PersistentVolumeClaim) : list string :=
  (fun c => meta_Name (pvc_meta c)) <$> pvcs.

Lemma tls_mount_has_volume p rt :
  deployable p rt ->
  tls_volumes p = [] /\ providerTLSEnabled p = false
  \/ providerTLSEnabled p = true
     /\ exists ref, tls_volumes p = [mkVolume providerTLSVolumeName (SourceSecret ref)] /\ ref <> "".
Proof.
  intros (_ & Hrt & _ & s & tls & Hs & Ht & Hd). unfold tls_volumes, providerTLSEnabled. rewrite Hrt.
  cbn [mbind option_bind]. rewrite Hs. cbn [mbind option_bind]. rewrite Ht. cbn [mbind option_bind].
  destruct Hd as [->|(ref & -> & Hne)]; [by left|]. destruct (tls_Enabled tls); [right|by left].
  split; [done|]. by eexists.
Qed.

(** The names of the migration volumes: distinct, and none of the fixed ones. *)
Lemma mountable_names_NoDup (f : string -> string) pvcs :
  Inj (=) (=) f -> NoDup (claim_names pvcs) ->
  NoDup ((fun c => f (meta_Name (pvc_meta c))) <$> List.filter migrationPVCIsMountable pvcs).
Proof.
  intros Hf. unfold claim_names. induction pvcs as [|c pvcs IH]; cbn [List.filter]; [constructor|].
  rewrite fmap_cons. intros [Hnot Hnd]%NoDup_cons. destruct (migrationPVCIsMountable c); [|auto].
  rewrite fmap_cons. apply NoDup_cons. split; [|auto].
  intros (c' & He & Hin%list_elem_of_In)%list_elem_of_fmap.
  apply Hf in He. apply List.filter_In in Hin as [Hin%list_elem_of_In _].
  apply Hnot, list_elem_of_fmap. eauto.
Qed.

(** A list between two others, apart from both. *)
Lemma NoDup_between {A} (l1 l2 l3 : list A) :
  NoDup (l1 ++ l3) -> NoDup l2 -> (forall x, x ∈ l2 -> x ∉ l1 ++ l3) -> NoDup (l1 ++ l2 ++ l3).
Proof.
  intros (H1 & H13 & H3)%NoDup_app H2 Hx. apply NoDup_app. split_and!; [done| |].
  - intros x Hin. rewrite elem_of_app. intros [H|H]; [apply (Hx x H), elem_of_app; by left|by apply (H13 x)].
  - apply NoDup_app. split_and!; [done| |done]. intros x Hin H. apply (Hx x Hin), elem_of_app. by right.
Qed.

(** The volumes of the pod are what the API server asks for: their names are labels, every
    mount names a volume, no two volumes share a name and no two mounts a path. *)
Definition pod_well_formed (d : Deployment) : Prop :=
  (forall n, n ∈ pod_volume_names d -> dns_label n)
  /\ (forall m, m ∈ pod_mounts_of d -> mnt_Name m ∈ pod_volume_names d)
  /\ NoDup (pod_volume_names d) /\ NoDup (mnt_MountPath <$> pod_mounts_of d).

Lemma fixed_and_claims {A} (f : PersistentVolumeClaim -> A) (l1 l3 : list A) pvcs :
  NoDup (l1 ++ l3) -> NoDup (f <$> pvcs) -> (forall c, f c ∉ l1 ++ l3) -> NoDup (l1 ++ (f <$> pvcs) ++ l3).
Proof.
  intros H1 H2 Hf. apply NoDup_between; [done|done|]. intros x (c & -> & _)%list_elem_of_fmap. apply Hf.
Qed.

Ltac fixed_part :=
  first [ cbn; apply (bool_decide_unpack _); vm_compute; reflexivity
        | intros c; cbn; rewrite !not_elem_of_cons; split_and?; first [discriminate|apply not_elem_of_nil] ].

Ltac fixed_label := split_and!; [cbn; lia..|reflexivity|intros c [[= <-]|[= <-]]; discriminate].

Lemma volume_names_NoDup p rt pvcs :
  deployable p rt -> NoDup (claim_names pvcs) ->
  NoDup (vol_Name <$> provider_volumes p (tls_volumes p) (claim_volumes (Ok pvcs))).
Proof.
  intros Hd Hnd. unfold provider_volumes. rewrite !fmap_app. cbn [claim_volumes].
  rewrite <- list_fmap_compose, app_assoc. apply fixed_and_claims.
  - destruct (tls_mount_has_volume p rt Hd) as [[-> _]|[_ (ref & -> & _)]]; case_bool_decide; fixed_part.
  - by apply (mountable_names_NoDup (fun n => "migration-" +:+ n)); [apply _|].
  - destruct (tls_mount_has_volume p rt Hd) as [[-> _]|[_ (ref & -> & _)]]; case_bool_decide; fixed_part.
Qed.

Lemma mount_paths_NoDup p pvcs :
  NoDup (claim_names pvcs) -> NoDup (mnt_MountPath <$> provider_mounts p (claim_mounts (Ok pvcs))).
Proof.
  intros Hnd. unfold provider_mounts. rewrite !fmap_app. cbn [claim_mounts].
  rewrite <- list_fmap_compose, app_assoc. apply fixed_and_claims.
  - destruct (providerTLSEnabled p); case_bool_decide; fixed_part.
  - by apply (mountable_names_NoDup (fun n => "/mnt/migration-storage/" +:+ n)); [apply _|].
  - destruct (providerTLSEnabled p); case_bool_decide; fixed_part.
Qed.

(** A claim that can be mounted: the name of its volume, ten characters longer, is a
    label. *)
Definition nameable (n : string) : Prop := dns_label n /\ (String.length n <= 53)%nat.

Lemma volume_names_labels p rt pvcs n :
  deployable p rt -> Forall nameable (claim_names pvcs) ->
  n ∈ vol_Name <$> provider_volumes p (tls_volumes p) (claim_volumes (Ok pvcs)) -> dns_label n.
Proof.
  intros Hd Hn. unfold provider_volumes. rewrite !fmap_app, !elem_of_app.
  intros [H|[H|[H|[H|H]]]].
  - apply list_elem_of_singleton in H as ->. fixed_label.
  - destruct (tls_mount_has_volume p rt Hd) as [[He _]|[_ (ref & He & _)]]; rewrite He in H; [by apply not_elem_of_nil in H|].
    apply list_elem_of_singleton in H as ->. fixed_label.
  - cbn [claim_volumes] in H. rewrite <- list_fmap_compose in H.
    apply list_elem_of_fmap in H as (c & -> & Hc%list_elem_of_In).
    apply List.filter_In in Hc as [Hc%list_elem_of_In _].
    rewrite Forall_forall in Hn. destruct (Hn (meta_Name (pvc_meta c))) as [Hl Hlen].
    { apply list_elem_of_fmap. by exists c. }
    apply (dns_label_prefix "migration-"); [done|done|done|done|]. cbn [String.length]. lia.
  - apply list_elem_of_singleton in H as ->. fixed_label.
  - case_bool_decide; [|by apply not_elem_of_nil in H].
    apply list_elem_of_singleton in H as ->. fixed_label.
Qed.

Lemma mounts_have_volumes p rt pvcs m :
  deployable p rt -> m ∈ provider_mounts p (claim_mounts (Ok pvcs)) ->
  mnt_Name m ∈ vol_Name <$> provider_volumes p (tls_volumes p) (claim_volumes (Ok pvcs)).
Proof.
  intros Hd. unfold provider_mounts, provider_volumes. rewrite !fmap_app, !elem_of_app.
  intros [Hm|[Hm|[Hm|[Hm|Hm]]]].
  - left. apply list_elem_of_singleton in Hm as ->. by left.
  - right; left. destruct (tls_mount_has_volume p rt Hd) as [[_ He]|[He (ref & -> & _)]]; rewrite He in Hm.
    + by apply not_elem_of_nil in Hm.
    + apply list_elem_of_singleton in Hm as ->. by left.
  - do 2 right; left. apply list_elem_of_fmap in Hm as (c & -> & Hc). cbn [claim_volumes].
    rewrite <- list_fmap_compose. apply list_elem_of_fmap. by exists c.
  - do 3 right; left. apply list_elem_of_singleton in Hm as ->. by left.
  - do 4 right. case_bool_decide; [|by apply not_elem_of_nil in Hm].
    apply list_elem_of_singleton in Hm as ->. by left.
Qed.

(** C18. The volumes of the pod a reconcile deploys are well formed, when the listings of
    migration claims agree and the claims have different names that are DNS labels of at
    most 53 characters: the volumes have different names, which are DNS labels, every
    mount names one of them, and no two mounts share a path. *)
Theorem deployed_pod_is_well_formed p tr o d pvcs :
  runs (reconcile_provider r p) tr o -> deploys tr d ->
  (forall a, listed_claims p tr a -> a = Ok pvcs) -> NoDup (claim_names pvcs) -> Forall nameable (claim_names pvcs) ->
  pod_well_formed d.
Proof.
  intros Hr Hd Hl Hnd Hnm. destruct (deploys_shape p tr o d Hr Hd) as (rt & a1 & a2 & Hdep & H1 & H2 & Ht).
  apply Hl in H1 as ->. apply Hl in H2 as ->.
  unfold pod_well_formed, pod_mounts_of, pod_volume_names, pod_of. rewrite Ht.
  change (pod_Containers _ ≫= ctr_VolumeMounts) with (provider_mounts p (claim_mounts (Ok pvcs)) ++ []).
  rewrite app_nil_r. split_and!.
  - intros n. by apply volume_names_labels with (rt := rt).
  - intros m. by apply mounts_have_volumes with (rt := rt).
  - by apply volume_names_NoDup with (rt := rt).
  - by apply mount_paths_NoDup.
Qed.

(** ** The claims of migrations *)

(** The claims a Deployment binds are the listed ones that are not being deleted. *)
Lemma bound_claims p rt a1 pvcs d name :
  deployable p rt -> dep_Template d = dep_Template (deployment_for p rt a1 (Ok pvcs)) ->
  volumesContainPVC (dep_Volumes d) name = true <->
  exists c, c ∈ pvcs /\ migrationPVCIsMountable c = true /\ meta_Name (pvc_meta c) = name.
Proof.
  intros Hdep Ht. unfold volumesContainPVC, dep_Volumes. rewrite Ht, existsb_exists.
  change (podspec_Volumes _) with (provider_volumes p (tls_volumes p) (claim_volumes (Ok pvcs))).
  unfold provider_volumes. split.
  - intros (v & Hin%list_elem_of_In & ->%bool_decide_eq_true).
    apply list_elem_of_fmap in Hin as (vol & Hv & Hin). rewrite !elem_of_app in Hin.
    assert (vol ∉ tls_volumes p) as Hno.
    { destruct (tls_mount_has_volume p rt Hdep) as [[-> _]|[_ (ref & -> & _)]]; [apply not_elem_of_nil|].
      by intros ->%list_elem_of_singleton. }
    destruct Hin as [->%list_elem_of_singleton|[?|[Hin|[->%list_elem_of_singleton|Hin]]]]; try done.
    + apply list_elem_of_fmap in Hin as (c & -> & Hin%list_elem_of_In). apply List.filter_In in Hin as [Hin Hm].
      injection Hv as ->. exists c. split; [by apply list_elem_of_In|done].
    + case_bool_decide; [|by apply not_elem_of_nil in Hin]. by apply list_elem_of_singleton in Hin as ->.
  - intros (c & Hin & Hm & <-). exists (Some (meta_Name (pvc_meta c))).
    split; [|by apply bool_decide_eq_true]. apply list_elem_of_In, list_elem_of_fmap.
    exists (migration_volume c). split; [done|]. rewrite !elem_of_app. do 2 right; left.
    apply list_elem_of_fmap. exists c. split; [done|]. apply list_elem_of_In, List.filter_In.
    split; [by apply list_elem_of_In|done].
Qed.

(** A provider's Deployment gets the claims of migrations: a listed claim that
    is not being deleted is bound by the Deployment the reconcile writes, so that the
    migration's check for it succeeds, and is mounted where the providers look for it. *)
Theorem migration_claims_are_mounted p tr o d pvcs c :
  runs (reconcile_provider r p) tr o -> deploys tr d ->
  (forall a, listed_claims p tr a -> a = Ok pvcs) ->
  c ∈ pvcs -> meta_DeletionTimestamp (pvc_meta c) = None ->
  let name := meta_Name (pvc_meta c) in
  volumesContainPVC (dep_Volumes d) name = true
  /\ mkVolumeMount ("migration-" +:+ name) ("/mnt/migration-storage/" +:+ name) false ∈ pod_mounts_of d.
Proof.
  intros Hr Hd Hl Hc Ht name. destruct (deploys_shape p tr o d Hr Hd) as (rt & a1 & a2 & Hdep & H1 & H2 & Hd').
  apply Hl in H1 as ->. apply Hl in H2 as ->.
  assert (migrationPVCIsMountable c = true) as Hm by by apply bool_decide_eq_true. split.
  - apply (bound_claims p rt (Ok pvcs) pvcs); [done|done|]. by exists c.
  - unfold pod_mounts_of, pod_of. rewrite Hd'.
    change (pod_Containers _ ≫= ctr_VolumeMounts) with (provider_mounts p (claim_mounts (Ok pvcs)) ++ []).
    rewrite app_nil_r. unfold provider_mounts. rewrite !elem_of_app. do 2 right; left.
    apply list_elem_of_fmap. exists c. split; [done|]. apply list_elem_of_In, List.filter_In.
    split; [by apply list_elem_of_In|done].
Qed.

(** What the API server lists: claims of the namespace with the label. *)
Definition lists_faithfully (p : Provider) (tr : ktrace) : Prop :=
  forall pvcs c, listed_claims p tr (Ok pvcs) -> c ∈ pvcs ->
    meta_Namespace (pvc_meta c) = provider_Namespace p
    /\ meta_Labels (pvc_meta c) !! migrationPVCLabelKey = Some migrationPVCLabelValue.

(** What an event that read a Deployment got. *)
Definition deployment_answer (x : event kcall kanswer) : option (res Deployment) :=
  match x with existT (KGet KDeployment _) a => Some a | _ => None end.

(** A migration that reads a Deployment without the claim waits. *)
Lemma unbound_claim_waits p name tr x d :
  runs (providerMountReady p name) tr (Done x) ->
  kev (KGet KDeployment (deployment_key p)) (Ok d) ∈ tr ->
  volumesContainPVC (dep_Volumes d) name = false ->
  exists reason, x = Ok (Some reason).
Proof.
  intros Hr Hin Hv. unfold providerMountReady in Hr.
  apply runs_bind_inv in Hr as [(tr1 & tr2 & got & -> & (a & t & -> & -> & [= <-]) & Hr)|(w & _ & [=])].
  cbn [app] in Hin. apply elem_of_cons in Hin as [He|Hin].
  - apply (f_equal deployment_answer) in He. injection He as <-. rewrite Hv in Hr.
    destruct Hr as [_ [= ->]]. by eexists.
  - exfalso. destruct got as [d0|e].
    + destruct (negb _); [destruct Hr as [-> _]; by apply not_elem_of_nil in Hin|]. cbn zeta in Hr.
      destruct (_ || _); [destruct Hr as [-> _]; by apply not_elem_of_nil in Hin|].
      destruct Hr as (pods & tr' & -> & Hr).
      assert (tr' = []) as -> by (destruct pods as [pods|e]; cbn in Hr; [destruct (existsb (pod_mounts name) pods)|]; by destruct Hr).
      apply list_elem_of_singleton in Hin. by apply (f_equal deployment_answer) in Hin.
    + destruct (api_IsNotFound e); destruct Hr as [-> _]; by apply not_elem_of_nil in Hin.
Qed.

(** A claim without the label never reaches the provider's pod, although a
    migration accepts such a claim by name: whatever Deployment a reconcile of the
    Provider writes, the migration that reads it finds a reason to wait. *)
Theorem unlabelled_claim_is_never_mounted p tr o d (claim : PersistentVolumeClaim) tr' x :
  runs (reconcile_provider r p) tr o -> deploys tr d -> lists_faithfully p tr ->
  meta_Namespace (pvc_meta claim) = provider_Namespace p ->
  meta_Labels (pvc_meta claim) !! migrationPVCLabelKey <> Some migrationPVCLabelValue ->
  (forall pvcs c, listed_claims p tr (Ok pvcs) -> c ∈ pvcs ->
     meta_Name (pvc_meta c) = meta_Name (pvc_meta claim) ->
     meta_Namespace (pvc_meta c) = meta_Namespace (pvc_meta claim) -> c = claim) ->
  runs (providerMountReady p (meta_Name (pvc_meta claim))) tr' (Done x) ->
  kev (KGet KDeployment (deployment_key p)) (Ok d) ∈ tr' ->
  exists reason, x = Ok (Some reason).
Proof.
  intros Hr Hd Hfaith Hns Hlab Huniq Hm Hin. eapply unbound_claim_waits; [exact Hm|exact Hin|].
  destruct (deploys_shape p tr o d Hr Hd) as (rt & a1 & a2 & Hdep & H1 & H2 & Ht).
  apply not_true_iff_false. intros Hv. destruct a2 as [pvcs|e].
  - apply (bound_claims p rt a1 pvcs) in Hv as (c & Hc & Hcm & Hn); [|done|done].
    destruct (Hfaith pvcs c H2 Hc) as [Hcn Hcl].
    by rewrite (Huniq pvcs c H2 Hc Hn (eq_trans Hcn (eq_sym Hns))) in Hcl.
  - apply (bound_claims p rt a1 []) in Hv as (c & Hc & _); [|done|done]. by apply not_elem_of_nil in Hc.
Qed.

(** ** The status *)

(** A Provider that was available once is reported Healthy by every later
    reconcile, whatever happens to its Deployment: the condition that it is
    available is set and never withdrawn. *)
Theorem health_is_never_withdrawn p tr o p' a :
  runs (reconcile_provider r p) tr o -> provider_Runtime p <> None ->
  IsConditionTrue (ps_Conditions (provider_Status p)) Available = true ->
  kev (KStatusUpdate KProvider p') a ∈ tr ->
  ps_Healthy (provider_Status p') = true
  /\ ((forall rt, ~ deployable p rt) ->
      exists rt, ps_Runtime (provider_Status p') = Some rt /\ rt_Phase rt = ProviderRuntimePhaseFailed).
Proof.
  intros Hr Hrt Ha Hin. apply provider_conforms in Hr.
  destruct (conforms_elem _ _ _ Hr Hin) as (pre & post & -> & _ & [(latest & _ & x & -> & Hx)|(x & -> & Hno & _)]);
    [|done].
  destruct Hx as (_ & (rt & Hr' & _ & _ & Hf) & [Hh _] & _ & _ & _ & Hav). cbn.
  split; [rewrite Hh; by apply Hav|]. intros Hnd. exists rt. auto.
Qed.

(** A status update of the Provider controller puts back the adoption status it
    read at its start, also over one that the adoption controller has stored since
    and that the fresh read before the update returned. *)
Theorem status_update_reverts_adoption p tr o p' a :
  runs (reconcile_provider r p) tr o -> provider_Runtime p <> None ->
  kev (KStatusUpdate KProvider p') a ∈ tr ->
  exists latest, kev (KGet KProvider (mkKey (provider_Namespace p) (provider_Name p))) (Ok latest) ∈ tr
    /\ provider_meta p' = provider_meta latest
    /\ ps_Adoption (provider_Status p') = ps_Adoption (provider_Status p).
Proof.
  intros Hr Hrt Hin. apply provider_conforms in Hr.
  destruct (conforms_elem _ _ _ Hr Hin) as (pre & post & -> & _ & [(latest & Hl & x & -> & Hx)|(x & -> & Hno & _)]);
    [|done].
  destruct Hx as (_ & _ & _ & _ & _ & Had & _). exists latest. split_and!; [by apply elem_of_history|done|done].
Qed.
End Claims.

(** The answers to the listings of claims in a trace. *)
Definition claims_answer (x : event kcall kanswer) : option (res (list PersistentVolumeClaim)) :=
  match x with existT (KListPVCs _ _) a => Some a | _ => None end.
Lemma listed_claims_answers p tr a : listed_claims p tr a -> a ∈ omap claims_answer tr.
Proof. intros Hin. apply list_elem_of_omap. by eexists; split; [exact Hin|]. Qed.

(** ** A small cluster: a Provider, its runtime and one claim of a migration *)
Module DemoProvider.
Import DemoLibraries.

#[export] Instance owners : OwnerReferences := {| own_service _ _ := None; own_deployment _ _ := None |}.

Record world := mkWorld { w_provider : Provider; w_service : option Service; w_deployment : option Deployment }.
#[export] Instance world_eta : Eta world := fun w => mkWorld (w_provider w) (w_service w) (w_deployment w).

Definition tls (secret : string) : ProviderTLSSpec := mkProviderTLSSpec true (Some (mkLocalRef secret)) false.
Definition runtime (t : option ProviderTLSSpec) : ProviderRuntimeSpec :=
  mkProviderRuntimeSpec "registry/libvirt:v1" "" None (Some (mkProviderServiceSpec 0 t)) None ∅ [] None None "" "" [].
Definition demo_provider (t : option ProviderTLSSpec) (status : ProviderStatus) : Provider :=
  mkProvider (mkObjectMeta "prov" "default" "p" 3 "1" ∅ ∅ [] None None) (bare_spec "libvirt" (Some (runtime t)))
    status.
Definition labelled : PersistentVolumeClaim :=
  mkPVC (mkObjectMeta "move-storage" "default" "" 0 "" migration_labels ∅ [] None None) "" ["ReadWriteMany"] 1.
Definition unlabelled : PersistentVolumeClaim :=
  mkPVC (mkObjectMeta "mine" "default" "" 0 "" ∅ ∅ [] None None) "" ["ReadWriteMany"] 1.

Definition not_found : goerror := EApi (mkApiError true false false "not found").
Definition get (k : kind) (w : world) : res (object k) :=
  match k return res (object k) with
  | KProvider => Ok (w_provider w)
  | KService => match w_service w with Some s => Ok s | None => Err not_found end
  | KDeployment => match w_deployment w with Some d => Ok d | None => Err not_found end
  | _ => Err not_found
  end.
Definition put (k : kind) (o : object k) (w : world) : world :=
  match k return object k -> world with
  | KProvider => fun p => w <| w_provider := p |>
  | KService => fun s => w <| w_service := Some s |>
  | KDeployment => fun d => w <| w_deployment := Some d |>
  | _ => fun _ => w
  end o.
Definition serve (c : kcall) (w : world) : kanswer c * world :=
  match c return kanswer c * world with
  | KGet k _ => (get k w, w)
  | KUpdate k o | KStatusUpdate k o | KCreate k o => (None, put k o w)
  | KListPVCs _ _ => (Ok [labelled], w)
  | c => (DemoCluster.idle c, w)
  end.

Definition demo_reconciler : ProviderReconciler := mkProviderReconciler true.
Definition key : NamespacedName := mkKey "default" "prov".
Definition start : world := mkWorld (demo_provider (Some (tls "prov-tls")) no_provider_status) None None.
Definition one (w : world) := exec serve (reconcile_provider demo_reconciler (w_provider w)) w.

Lemma provider_one_runs w :
  runs (reconcile_provider demo_reconciler (w_provider w)) (one w).1.1 (one w).1.2.
Proof. apply exec_runs. Qed.

Lemma Provider_Reconcile_follows_the_rules_witness :
  let run := exec serve (Provider_Reconcile demo_reconciler key) start in
  (exists result, run.1.2 = Done result)
  /\ exists got rest, run.1.1 = kev (KGet KProvider key) got :: rest
    /\ match got with
       | Ok p => conforms (provider_rule p) [] rest
       | Err e => api_IsNotFound e = true /\ rest = []
                  \/ api_IsNotFound e = false /\ run.1.2 = Done (no_result, Some e)
       end.
Proof. exact (Provider_Reconcile_follows_the_rules demo_reconciler _ _ _ (exec_runs serve _ start)). Defined.

Definition demo_deployment : Deployment :=
  deployment_for (w_provider start) (runtime (Some (tls "prov-tls"))) (Ok [labelled]) (Ok [labelled]).

Lemma demo_deploys : deploys (one start).1.1 demo_deployment.
Proof. exists None. left. apply (list_elem_of_lookup_2 _ 7). vm_compute. reflexivity. Qed.

Lemma demo_lists a : listed_claims (w_provider start) (one start).1.1 a -> a = Ok [labelled].
Proof.
  intros Hin%listed_claims_answers.
  assert (omap claims_answer (one start).1.1 = [Ok [labelled]; Ok [labelled]]) as He by (vm_compute; reflexivity).
  rewrite He in Hin. apply list_elem_of_In in Hin. by destruct Hin as [<-|[<-|[]]].
Qed.

Lemma deployed_pod_is_well_formed_witness :
  pod_well_formed demo_deployment /\ pod_volume_names demo_deployment
    = ["provider-credentials"; "provider-tls"; "migration-move-storage"; "tmp"; "libvirt-ssh-key"].
Proof.
  split; [|vm_compute; reflexivity].
  refine (deployed_pod_is_well_formed demo_reconciler (w_provider start) _ _ demo_deployment [labelled]
            (provider_one_runs start) demo_deploys demo_lists _ _).
  - apply (bool_decide_unpack _). vm_compute. reflexivity.
  - change (Forall nameable ["move-storage"]). apply Forall_singleton. split; [|cbn; lia].
    split_and!; [cbn; lia..|reflexivity|intros c [[= <-]|[= <-]]; discriminate].
Defined.

(** A migration looks for the claim "mine" in the cluster after that reconcile. *)
Definition looking := exec serve (providerMountReady (w_provider start) "mine") (one start).2.
Definition looked : res (option string) :=
  match looking.1.2 with Done x => x | Panicked w => Err (ENew w) end.

Lemma looking_runs : runs (providerMountReady (w_provider start) "mine") looking.1.1 (Done looked).
Proof.
  assert (Done looked = looking.1.2) as He by (vm_compute; reflexivity).
  rewrite He. exact (exec_runs serve (providerMountReady (w_provider start) "mine") (one start).2).
Qed.

(** The TLS block was removed from a Provider that was available. *)
Definition was_available : ProviderStatus :=
  no_provider_status <| ps_Conditions := [mkCondition Available ConditionTrue "RemoteAvailable" "" 0 0] |>.
Definition broken : world := mkWorld (demo_provider None was_available) None None.
Definition last_write (w : world) : Provider := w_provider (one w).2.

End DemoProvider.
