(* ===== verification/Adoption.v ===== *)
(** * Adoption: the VMAdoption controller

    Models [internal/controller/vmadoption_controller.go] over the calls of
    [Cluster].  On an annotated Provider it lists the machines of the hypervisor and
    makes a VirtualMachine, with the adopted label, for each that none stands for.
    The JSON and regular-expression packages are parameters ([AdoptionLibraries]). *)
From S2P Require Import Prelude Contracts K8s Api Effects GoLib NetIP Utf8 GrpcClient CoreApi MigrationApi JobApi Cluster Storage MigrationHelpers Migration VirtualMachine Snapshot ProviderController.
From stdpp Require Import base gmap strings list.
From Stdlib Require Import Ascii ZArith.
Import v1beta1.
#[local] Open Scope Z_scope.

Definition errReasonDiscoverVMs : string := "adoption-discover-failed".
Definition errReasonAdoptionStatus : string := "adoption-status-update".
Definition errReasonInvalidFilter : string := "adoption-invalid-filter".

Definition AdoptionAnnotation : string := "virtrigaud.io/adopt-vms".
Definition AdoptionFilterAnnotation : string := "virtrigaud.io/adopt-filter".

(** The CPU bounds are [int32], the memory bounds [int64]. *)
Record VMAdoptionFilter := mkVMAdoptionFilter {
  af_NamePattern : string; af_PowerState : string;
  af_MinCPU : Z; af_MaxCPU : Z; af_MinMemoryMiB : Z; af_MaxMemoryMiB : Z
}.

(** [ar_RemoteResolver]: the resolver is not nil. *)
Record VMAdoptionReconciler := mkAdoptionReconciler { ar_RemoteResolver : bool }.

(** [json.Unmarshal] into a filter, [regexp.Compile] and [regexp.MatchString]. *)
Class AdoptionLibraries := {
  unmarshal_filter : string -> res VMAdoptionFilter;
  regexp_Compile : string -> option goerror;
  regexp_MatchString : string -> string -> res bool
}.

(** ** Names *)
Definition is_hyphen (c : ascii) : bool := Ascii.eqb c "-".

(** [a]-[z], [0]-[9] and the hyphen. *)
Definition label_rune (r : Z) : bool :=
  ((97 <=? r) && (r <=? 122)) || ((48 <=? r) && (r <=? 57)) || (r =? 45).

Definition cut_name (name : string) : string :=
  if (63 <? Z.of_nat (String.length name)) then Trim is_hyphen (String.substring 0 63 name) else name.

Section Adoption.
Context `{Lib : Libraries} `{Uni : UnicodeTable} `{ALib : AdoptionLibraries}.
Context (r : VMAdoptionReconciler).

Definition sanitizeVMName (name : string) : string :=
  let name := ToLower name in
  let name := ReplaceAll name "_" "-" in
  let name := ReplaceAll name "." "-" in
  let name := ReplaceAll name " " "-" in
  let name := keep_runes label_rune name in
  cut_name (Trim is_hyphen name).

(** ** The filter *)
Definition parseFilterAnnotation (s : string) : res VMAdoptionFilter :=
  match unmarshal_filter s with
  | Err err => Err (EWrap "failed to parse filter JSON" err)
  | Ok filter =>
      if negb (is_empty (af_NamePattern filter)) then
        match regexp_Compile (af_NamePattern filter) with
        | Some err => Err (EWrap "invalid namePattern regex" err)
        | None => Ok filter
        end
      else Ok filter
  end.

Definition matchesFilter (info : VMInfo) (filter : VMAdoptionFilter) : bool :=
  if negb (is_empty (af_NamePattern filter))
     && negb match regexp_MatchString (af_NamePattern filter) (info_Name info) with
             | Ok matched => matched
             | Err _ => false
             end then false
  else if negb (is_empty (af_PowerState filter))
          && negb (bool_decide (ToLower (TrimSpace (info_PowerState info))
                                = ToLower (TrimSpace (af_PowerState filter)))) then false
  else if (0 <? af_MinCPU filter) && (info_CPU info <? af_MinCPU filter) then false
  else if (0 <? af_MaxCPU filter) && (af_MaxCPU filter <? info_CPU info) then false
  else if (0 <? af_MinMemoryMiB filter) && (info_MemoryMiB info <? af_MinMemoryMiB filter) then false
  else if (0 <? af_MaxMemoryMiB filter) && (af_MaxMemoryMiB filter <? info_MemoryMiB info) then false
  else true.

(** ** Discovery *)
Definition getProviderInstance (p : Provider) : KM (res ProviderInstance) :=
  if negb (ar_RemoteResolver r) then Ret (Err (ENew "remote resolver not configured"))
  else
    i ← kdo (Resolve p);
    match i with
    | Err err => Ret (Err (EWrap "failed to get provider" err))
    | Ok i => Ret (Ok i)
    end.

Definition isProviderReady (p : Provider) : bool :=
  match GetCondition (ps_Conditions (provider_Status p)) "ProviderAvailable" with
  | Some c => bool_decide (Status c = ConditionTrue)
  | None => false
  end.

(** A VirtualMachine of the provider stands for the machine of its identifier, or
    of its name while it has none. *)
Definition managed_by (p : Provider) (vm : VirtualMachine) : bool :=
  let ref := spec_ProviderRef (vm_Spec vm) in
  bool_decide (ref_Name ref = provider_Name p)
  && bool_decide ((if is_empty (ref_Namespace ref) then meta_Namespace (vm_meta vm) else ref_Namespace ref)
                  = provider_Namespace p).
Definition managed_id (vm : VirtualMachine) : string :=
  if is_empty (status_ID (vm_Status vm)) then meta_Name (vm_meta vm) else status_ID (vm_Status vm).
Definition managedVMIDs (p : Provider) (vms : list VirtualMachine) : gset string :=
  list_to_set (managed_id <$> List.filter (managed_by p) vms).

Definition unmanaged (p : Provider) (filter : option VMAdoptionFilter) (vms : list VirtualMachine)
    (infos : list VMInfo) : list VMInfo :=
  List.filter (fun info =>
    negb (bool_decide (info_ID info ∈ managedVMIDs p vms))
    && match filter with Some f => matchesFilter info f | None => true end) infos.

Definition discoverUnmanagedVMs (p : Provider) (filter : option VMAdoptionFilter) : KM (res (list VMInfo)) :=
  i ← getProviderInstance p;
  match i with
  | Err err => Ret (Err (EWrap "failed to get provider instance" err))
  | Ok i =>
      all ← kdo (ListVMs i);
      match all with
      | Err err => Ret (Err (EWrap "failed to list VMs" err))
      | Ok all =>
          vms ← kdo KListVirtualMachines;
          match vms with
          | Err err => Ret (Err (EWrap "failed to list VirtualMachine CRs" err))
          | Ok vms => Ret (Ok (unmanaged p filter vms all))
          end
      end
  end.

(** ** Adopting one machine *)
Definition class_name (cpu memoryMiB : Z) : string :=
  "adopted-" +:+ FormatInt cpu +:+ "cpu-" +:+ FormatInt memoryMiB +:+ "mb".

Definition adopted_labels : gmap string string := {[ AdoptedLabel := AdoptedLabelValue ]}.

Definition ensureVMClass (info : VMInfo) (namespace : string) : KM (res v1beta1.VMClass) :=
  let cpu := if info_CPU info =? 0 then 2 else info_CPU info in
  let memoryMiB := if info_MemoryMiB info =? 0 then 4096 else info_MemoryMiB info in
  let name := class_name cpu memoryMiB in
  got ← kdo (KGet KVMClass (mkKey namespace name));
  match got with
  | Ok cls => Ret (Ok cls)
  | Err err =>
      if negb (api_IsNotFound err) then Ret (Err (EWrap "failed to check for existing VMClass" err))
      else
        let cls := v1beta1.mkVMClass (mkObjectMeta name namespace "" 0 "" adopted_labels ∅ [] None None)
                     (mkVMClassSpec cpu (memoryMiB * 2 ^ 20) "BIOS" None "" ∅ None None None) in
        e ← kdo (KCreate KVMClass cls);
        match e with
        | Some err => Ret (Err (EWrap "failed to create VMClass" err))
        | None => Ret (Ok cls)
        end
  end.

Definition adopted_disk (info : VMInfo) : ImportedDiskRef :=
  match info_Disks info with
  | d :: _ => mkImportedDiskRef (info_ID info) (dki_Path d) (dki_Format d) "manual" None
  | [] => mkImportedDiskRef (info_ID info) "" "qcow2" "manual" None
  end.

Definition adopted_resources (info : VMInfo) : option VirtualMachineResources :=
  if (0 <? info_CPU info) || (0 <? info_MemoryMiB info) then
    Some (mkVMResources (if 0 <? info_CPU info then Some (info_CPU info) else None)
                        (if 0 <? info_MemoryMiB info then Some (info_MemoryMiB info) else None))
  else None.

(** What the machine is known to be. *)
Definition observed (info : VMInfo) (s : VirtualMachineStatus) : VirtualMachineStatus :=
  s <| status_ID := info_ID info |> <| status_PowerState := info_PowerState info |>
    <| status_IPs := info_IPs info |> <| status_Provider := info_ProviderRaw info |>.

Definition adopted_VM (p : Provider) (cls : v1beta1.VMClass) (name : string) (info : VMInfo) : VirtualMachine :=
  mkVM (mkObjectMeta name (provider_Namespace p) "" 0 "" adopted_labels ∅ [] None None)
    (mkVMSpec (mkObjectRef (provider_Name p) (provider_Namespace p))
       (mkObjectRef (meta_Name (class_meta cls)) (meta_Namespace (class_meta cls)))
       None (Some (adopted_disk info)) [] [] None None None (info_PowerState info) []
       (adopted_resources info) None)
    (observed info (mkVMStatus "" "" [] "" [] 0 "" ∅ "" None None VirtualMachinePhaseUnset)).

Definition adopted_name (info : VMInfo) : string :=
  let name := sanitizeVMName (info_Name info) in
  if is_empty name then "vm-" +:+ info_ID info else name.

(** A VirtualMachine of that name is there already. *)
Definition adopt_existing (vm : VirtualMachine) (info : VMInfo) : KM (option goerror) :=
  if vmIsAdopted vm && is_empty (status_ID (vm_Status vm)) then
    e ← kdo (KStatusUpdate KVirtualMachine (vm <| vm_Status := observed info (vm_Status vm) |>));
    Ret match e with Some err => Some (EWrap "failed to update VM status" err) | None => None end
  else Ret None.

Definition adoptVM (p : Provider) (info : VMInfo) : KM (option goerror) :=
  let name := adopted_name info in
  got ← kdo (KGet KVirtualMachine (mkKey (provider_Namespace p) name));
  match got with
  | Ok vm => adopt_existing vm info
  | Err err =>
      if negb (api_IsNotFound err) then Ret (Some (EWrap "failed to check for existing VM" err))
      else
        cls ← ensureVMClass info (provider_Namespace p);
        match cls with
        | Err err => Ret (Some (EWrap "failed to ensure VMClass" err))
        | Ok cls =>
            let vm := adopted_VM p cls name info in
            e ← kdo (KCreate KVirtualMachine vm);
            match e with
            | Some err => Ret (Some (EWrap "failed to create VirtualMachine CR" err))
            | None =>
                u ← kdo (KStatusUpdate KVirtualMachine vm);
                Ret match u with Some err => Some (EWrap "failed to update VM status" err) | None => None end
            end
        end
  end.

(** Adopt the machines in turn; the counts are [int32]. *)
Fixpoint adopt_all (p : Provider) (infos : list VMInfo) (adopted failed : Z) : KM (Z * Z) :=
  match infos with
  | [] => Ret (adopted, failed)
  | info :: rest =>
      e ← adoptVM p info;
      match e with
      | Some _ => adopt_all p rest adopted (to_int32 (failed + 1))
      | None => adopt_all p rest (to_int32 (adopted + 1)) failed
      end
  end.

(** ** Reconcile *)
Definition with_adoption (p : Provider) (a : option ProviderAdoptionStatus) : Provider :=
  p <| provider_Status := provider_Status p <| ps_Adoption := a |> |>.

Definition adoption_message (p : Provider) (a : ProviderAdoptionStatus) (msg : string) : KM unit :=
  _ ← kdo (KStatusUpdate KProvider (with_adoption p (Some (a <| pas_Message := msg |>)))); Ret tt.

Definition adoption_summary (adopted failed : Z) : string :=
  if 0 <? failed then "Adopted " +:+ FormatInt adopted +:+ " VMs, " +:+ FormatInt failed +:+ " failed"
  else "Successfully adopted " +:+ FormatInt adopted +:+ " VMs".

Definition adopt_discovered (p : Provider) (a : ProviderAdoptionStatus) (infos : list VMInfo) (now : time)
    : KM job_result :=
  let a := a <| pas_LastDiscoveryTime := Some now |>
             <| pas_DiscoveredVMs := to_int32 (Z.of_nat (length infos)) |> in
  counts ← adopt_all p infos 0 0;
  let a := a <| pas_AdoptedVMs := counts.1 |> <| pas_FailedAdoptions := counts.2 |>
             <| pas_Message := adoption_summary counts.1 counts.2 |> in
  e ← kdo (KStatusUpdate KProvider (with_adoption p (Some a)));
  match e with
  | Some err => _ ← kdo (CountError errReasonAdoptionStatus); Ret (no_result, Some err)
  | None => Ret (requeue_after (60 * minute), None)
  end.

(** The provider is ready, and the filter was read. *)
Definition adopt_filtered (p : Provider) (a : ProviderAdoptionStatus) (filter : option VMAdoptionFilter)
    : KM job_result :=
  infos ← discoverUnmanagedVMs p filter;
  match infos with
  | Err err =>
      _ ← adoption_message p a (errorf "Discovery failed" err);
      _ ← kdo (CountError errReasonDiscoverVMs);
      Ret (requeue_after (5 * minute), None)
  | Ok infos =>
      now ← kdo TimeNow;
      match pas_LastDiscoveryTime a with
      | Some last =>
          at_ ← kdo TimeNow;
          if Time_Sub at_ last <? 5 * minute then Ret (requeue_after (5 * minute), None)
          else adopt_discovered p a infos now
      | None => adopt_discovered p a infos now
      end
  end.

Definition adopt_requested (p : Provider) : KM job_result :=
  let a := match ps_Adoption (provider_Status p) with
           | Some a => a
           | None => mkProviderAdoptionStatus None 0 0 0 ""
           end in
  if negb (isProviderReady p) then
    _ ← adoption_message p a "Provider not ready";
    Ret (requeue_after (30 * second), None)
  else
    let annotation := map_get (meta_Annotations (provider_meta p)) AdoptionFilterAnnotation in
    if is_empty annotation then adopt_filtered p a None
    else
      match parseFilterAnnotation annotation with
      | Err err =>
          _ ← adoption_message p a (errorf "Invalid filter" err);
          _ ← kdo (CountError errReasonInvalidFilter);
          Ret (requeue_after (5 * minute), None)
      | Ok filter => adopt_filtered p a (Some filter)
      end.

(** The reconcile of a Provider that was read. *)
Definition reconcile_adoption (p : Provider) : KM job_result :=
  if negb (bool_decide (map_get (meta_Annotations (provider_meta p)) AdoptionAnnotation = "true")) then
    match ps_Adoption (provider_Status p) with
    | Some _ => _ ← kdo (KStatusUpdate KProvider (with_adoption p None)); Ret (no_result, None)
    | None => Ret (no_result, None)
    end
  else adopt_requested p.

Definition Adoption_Reconcile (key : NamespacedName) : KM job_result :=
  got ← kdo (KGet KProvider key);
  match got with
  | Err err =>
      if api_IsNotFound err then Ret (no_result, None)
      else _ ← kdo (CountError errReasonGetProvider); Ret (no_result, Some err)
  | Ok p => reconcile_adoption p
  end.

(** ** The watch *)

(** Which updates of a Provider are reconciled: those of [SetupWithManager]'s
    [UpdateFunc]. *)
Definition adoption_update_wanted (old new : Provider) : bool :=
  let annotation (p : Provider) (k : string) := map_get (meta_Annotations (provider_meta p)) k in
  if negb (bool_decide (annotation new AdoptionAnnotation = "true")) then false
  else if negb (bool_decide (annotation old AdoptionAnnotation = annotation new AdoptionAnnotation)) then true
  else if negb (bool_decide (annotation old AdoptionFilterAnnotation = annotation new AdoptionFilterAnnotation))
  then true
  else if negb (isProviderReady old) && isProviderReady new then true
  else if match ps_Adoption (provider_Status old), ps_Adoption (provider_Status new) with
          | None, Some _ => true
          | _, _ => false
          end then true
  else negb (meta_Generation (provider_meta old) =? meta_Generation (provider_meta new)).
End Adoption.
