(* ===== verification/AdoptionProps.v ===== *)
(** * AdoptionProps: what the VMAdoption controller guarantees

    The names it gives are DNS labels; every reconcile keeps to the rules
    [adoption_allowed]: it never changes a machine, makes VirtualMachines, with the
    adopted label, only for listed machines that none stands for, and accounts for
    each; and what happens to machines whose names collide. *)
From S2P Require Import Prelude Contracts K8s Api Effects GoLib NetIP Utf8 GrpcClient CoreApi MigrationApi JobApi Cluster Storage TraceSpec MigrationHelpers Migration VirtualMachine Snapshot Adoption.
From stdpp Require Import base gmap strings list.
From Stdlib Require Import Ascii ZArith Lia.
Import v1beta1.
#[local] Open Scope Z_scope.

(** ** Names *)
Lemma hyphen_spec c : is_hyphen c = false <-> c <> "-"%char.
Proof. unfold is_hyphen. apply Ascii.eqb_neq. Qed.

Lemma label_char_cases c :
  label_char c = true -> lower_ascii c = c /\ is_ascii c = true
    /\ Ascii.eqb c "_" = false /\ Ascii.eqb c "." = false /\ Ascii.eqb c " " = false.
Proof. destruct c as [[] [] [] [] [] [] [] []]; vm_compute; intuition congruence. Qed.

Section Names.
Context `{Uni : UnicodeTable}.

Lemma cut_name_spec s :
  all_chars label_char s = true ->
  (forall c, first_char s = Some c \/ last_char s = Some c -> is_hyphen c = false) ->
  cut_name s = "" \/ dns_label (cut_name s).
Proof.
  intros Ha He. unfold cut_name. destruct (Z.ltb_spec 63 (Z.of_nat (String.length s))) as [Hl|Hl].
  - set (t := String.substring 0 63 s). destruct (Trim is_hyphen t) eqn:Ht; [by left|right].
    rewrite <- Ht. split_and!.
    + rewrite Ht. cbn. lia.
    + etransitivity; [apply length_Trim|apply substring_length].
    + by apply all_chars_Trim, substring_all.
    + intros c Hc. apply hyphen_spec. by eapply Trim_ends.
  - destruct s as [|c s]; [by left|right]. split_and!; [cbn; lia|lia|done|].
    intros d Hd. by apply hyphen_spec, He.
Qed.

Lemma sanitize_is_label s : sanitizeVMName s = "" \/ dns_label (sanitizeVMName s).
Proof.
  apply cut_name_spec; [|intros c; apply Trim_ends].
  apply all_chars_Trim, (keep_runes_chars label_rune). unfold label_rune. lia.
Qed.

Lemma ReplaceAll_id s old new :
  all_chars (fun c => negb (Ascii.eqb c old)) s = true -> ReplaceAll s old new = s.
Proof. apply map_chars_id. intros c ->%negb_true_iff. done. Qed.

Lemma sanitize_label s : dns_label s -> sanitizeVMName s = s.
Proof.
  intros (Hlen & Hall & Hends).
  assert (forall g, (forall c, label_char c = true -> g c = true) -> all_chars g s = true) as Hg
    by (intros g Hg; exact (all_chars_impl _ _ s Hg Hall)).
  assert (ToLower s = s) as Hlow.
  { unfold ToLower. rewrite Hg by (intros c Hc; apply label_char_cases, Hc).
    apply (map_chars_id _ label_char); [|done]. intros c Hc. apply label_char_cases, Hc. }
  unfold sanitizeVMName. rewrite Hlow.
  rewrite (ReplaceAll_id s "_"), (ReplaceAll_id s "."), (ReplaceAll_id s " ")
    by (apply Hg; intros c Hc; apply negb_true_iff; apply label_char_cases, Hc).
  rewrite keep_runes_id; [|apply Hg; intros c Hc; apply label_char_cases, Hc|done].
  rewrite Trim_id by (intros c Hc; apply hyphen_spec; auto).
  unfold cut_name. by destruct (Z.ltb_spec 63 (Z.of_nat (String.length s))); [lia|].
Qed.

(** The names the controller gives to adopted machines: sanitizing any name
    gives the empty string or a DNS label (RFC 1123), the names it leaves alone are
    exactly those, and sanitizing twice is sanitizing once. *)
Theorem sanitized_names_are_labels s :
  (sanitizeVMName s = "" \/ dns_label (sanitizeVMName s))
  /\ (sanitizeVMName s = s <-> s = "" \/ dns_label s)
  /\ sanitizeVMName (sanitizeVMName s) = sanitizeVMName s.
Proof.
  pose proof (sanitize_is_label s) as Hs.
  assert (sanitizeVMName "" = "") as H0 by reflexivity.
  split_and!; [done| |].
  - split; [intros Heq; by rewrite Heq in Hs|intros [->|Hd]; [done|by apply sanitize_label]].
  - destruct Hs as [->|Hd]; [done|by apply sanitize_label].
Qed.
End Names.

Section Rules.
Context `{Lib : Libraries} `{Uni : UnicodeTable} `{ALib : AdoptionLibraries}.
Context (r : VMAdoptionReconciler) (p : Provider).

Definition adoption_requested : Prop :=
  map_get (meta_Annotations (provider_meta p)) AdoptionAnnotation = "true".

(** The machines the filter annotation lets through. *)
Definition wanted (info : VMInfo) : Prop :=
  let annotation := map_get (meta_Annotations (provider_meta p)) AdoptionFilterAnnotation in
  annotation = ""
  \/ exists filter, parseFilterAnnotation annotation = Ok filter /\ matchesFilter info filter = true.

(** Adoption was asked for, and the machine was on the provider's list, passed the
    filter, and no VirtualMachine of the provider stood for it. *)
Definition discovered (h : ktrace) (info : VMInfo) : Prop :=
  adoption_requested /\ isProviderReady p = true /\ wanted info
  /\ exists i all vms, kev (ListVMs i) (Ok all) ∈ h /\ info ∈ all
       /\ kev KListVirtualMachines (Ok vms) ∈ h /\ info_ID info ∉ managedVMIDs p vms.

Definition absent (h : ktrace) (k : kind) (key : NamespacedName) : Prop :=
  exists e, kev (KGet k key) (Err e) ∈ h /\ api_IsNotFound e = true.

Definition adoption_key (info : VMInfo) : NamespacedName := mkKey (provider_Namespace p) (adopted_name info).

(** The counts of a status: what they were, or those of a finished round. *)
Definition adoption_status_rule (h : ktrace) (a : ProviderAdoptionStatus) : Prop :=
  (let old := default (mkProviderAdoptionStatus None 0 0 0 "") (ps_Adoption (provider_Status p)) in
   a = old <| pas_Message := pas_Message a |>)
  \/ (pas_DiscoveredVMs a = to_int32 (pas_AdoptedVMs a + pas_FailedAdoptions a)
      /\ isProviderReady p = true
      /\ exists now i all vms, pas_LastDiscoveryTime a = Some now /\ kev TimeNow now ∈ h
           /\ kev (ListVMs i) (Ok all) ∈ h /\ kev KListVirtualMachines (Ok vms) ∈ h).

Definition adoption_allowed (h : ktrace) (c : kcall) : Prop :=
  match c with
  | KStatusUpdate KProvider p' =>
      exists a, p' = with_adoption p a
        /\ match a with
           | None => ~ adoption_requested
           | Some a => adoption_requested /\ adoption_status_rule h a
           end
  | KCreate KVirtualMachine vm =>
      exists info cls, discovered h info /\ vm = adopted_VM p cls (adopted_name info) info
        /\ absent h KVirtualMachine (adoption_key info)
        /\ (exists key, kev (KGet KVMClass key) (Ok cls) ∈ h \/ kev (KCreate KVMClass cls) None ∈ h)
  | KStatusUpdate KVirtualMachine vm =>
      exists info, discovered h info
        /\ (kev (KCreate KVirtualMachine vm) None ∈ h /\ status_ID (vm_Status vm) = info_ID info
            \/ exists vm0, kev (KGet KVirtualMachine (adoption_key info)) (Ok vm0) ∈ h
                 /\ vmIsAdopted vm0 = true /\ status_ID (vm_Status vm0) = ""
                 /\ vm = vm0 <| vm_Status := observed info (vm_Status vm0) |>)
  | KCreate KVMClass cls =>
      map_get (meta_Labels (class_meta cls)) AdoptedLabel = AdoptedLabelValue
      /\ absent h KVMClass (mkKey (provider_Namespace p) (meta_Name (class_meta cls)))
  | ListVMs _ | Resolve _ | KListVirtualMachines => adoption_requested /\ isProviderReady p = true
  | KGet _ _ | TimeNow | CountError _ => True
  | _ => False
  end.

Definition adoption_rule (h : ktrace) (x : event kcall kanswer) : Prop := adoption_allowed h (projT1 x).

(** ** The controller keeps to the rules *)
Abbreviation safe h p := (guar adoption_rule h p (fun _ _ => True)).
Ltac go := repeat (guar_step; try exact I).
Ltac in_history := solve [repeat first [exact (elem_of_last (R := kanswer) _ _) | apply elem_of_history | done]].

Lemma discovered_mono h tr info : discovered h info -> discovered (h ++ tr) info.
Proof.
  intros (Ha & Hr & Hw & i & all & vms & Hl & Hin & Hv & Hm). split_and!; [done..|].
  exists i, all, vms. split_and!; [by apply elem_of_history|done|by apply elem_of_history|done].
Qed.

Lemma absent_mono h tr k key : absent h k key -> absent (h ++ tr) k key.
Proof. intros (e & Hin & He). exists e. split; [by apply elem_of_history|done]. Qed.

Lemma ensureVMClass_guar h info :
  guar adoption_rule h (ensureVMClass info (provider_Namespace p)) (fun h' got =>
    (exists tr, h' = h ++ tr)
    /\ forall cls, got = Ok cls ->
         exists key, kev (KGet KVMClass key) (Ok cls) ∈ h' \/ kev (KCreate KVMClass cls) None ∈ h').
Proof.
  unfold ensureVMClass. go; try (split; [eexists; rewrite <- ?app_assoc; done|]); try done.
  - intros cls [= <-]. eexists. left. in_history.
  - exists e. split; [in_history|by emptiness].
  - intros cls [= <-]. exists (mkKey "" ""). right. in_history.
Qed.

Lemma adoptVM_safe h info :
  discovered h info -> guar adoption_rule h (adoptVM p info) (fun h' _ => exists tr, h' = h ++ tr).
Proof.
  intros Hd. unfold adoptVM, adopt_existing. guar_step. guar_step; [done|]. guar_step.
  - go; try (eexists; rewrite <- ?app_assoc; done).
    apply andb_true_iff in Heqb as [Ha Hid]; emptiness. exists info. split; [by apply discovered_mono|].
    right. exists t. split_and!; [in_history|done..].
  - guar_step; [apply guar_ret; by eexists|]. emptiness.
    guar_use ensureVMClass_guar. intros tr [cls|e'] [_ Hcls];
      [|apply guar_ret; eexists; rewrite <- ?app_assoc; done].
    destruct (Hcls cls eq_refl) as [key Hkey].
    go; try (eexists; rewrite <- ?app_assoc; done).
    + exists info, cls. split_and!; [by do 2 apply discovered_mono|done| |by exists key].
      apply absent_mono. eexists. split; [in_history|done].
    + exists info. split; [by do 3 apply discovered_mono|]. left. split; [in_history|done].
Qed.

Lemma to_int32_mod x y : to_int32 x = to_int32 y <-> x mod 2 ^ 32 = y mod 2 ^ 32.
Proof.
  unfold to_int32. split; intros H.
  - assert ((x + 2 ^ 31) mod 2 ^ 32 = (y + 2 ^ 31) mod 2 ^ 32) as H' by lia.
    apply (f_equal (fun z => (z - 2 ^ 31) mod 2 ^ 32)) in H'. rewrite !Zminus_mod_idemp_l in H'.
    by replace (x + 2 ^ 31 - 2 ^ 31) with x in H' by lia; replace (y + 2 ^ 31 - 2 ^ 31) with y in H' by lia.
  - by rewrite Zplus_mod, H, <- Zplus_mod.
Qed.

Lemma to_int32_add x y : to_int32 (to_int32 x + y) = to_int32 (x + y).
Proof.
  apply to_int32_mod. unfold to_int32.
  replace ((x + 2 ^ 31) mod 2 ^ 32 - 2 ^ 31 + y) with ((x + 2 ^ 31) mod 2 ^ 32 + (y - 2 ^ 31)) by lia.
  rewrite Zplus_mod_idemp_l. f_equal. lia.
Qed.

(** Each machine is counted once. *)
Lemma adopt_all_guar h infos adopted failed :
  (forall info, info ∈ infos -> discovered h info) ->
  guar adoption_rule h (adopt_all p infos adopted failed) (fun h' n =>
    (exists tr, h' = h ++ tr)
    /\ to_int32 (n.1 + n.2) = to_int32 (adopted + failed + Z.of_nat (length infos))).
Proof.
  revert h adopted failed. induction infos as [|info infos IH]; intros h adopted failed Hd.
  { apply guar_ret. split; [exists []; by rewrite app_nil_r|]. cbn. by rewrite Z.add_0_r. }
  assert (forall tr adopted' failed', to_int32 (adopted' + failed') = to_int32 (adopted + failed + 1) ->
            guar adoption_rule (h ++ tr) (adopt_all p infos adopted' failed') (fun h' n =>
              (exists tr, h' = h ++ tr)
              /\ to_int32 (n.1 + n.2) = to_int32 (adopted + failed + Z.of_nat (length (info :: infos))))) as Hrest.
  { intros tr adopted' failed' Hn. eapply guar_mono.
    - apply IH. intros i Hi. apply discovered_mono, Hd. by right.
    - intros tr' n [_ ->]. split; [exists (tr ++ tr'); by rewrite app_assoc|].
      rewrite <- to_int32_add, Hn, to_int32_add. cbn. f_equal. lia. }
  cbn [adopt_all]. guar_use adoptVM_safe; [apply Hd; by left|]. intros tr e _.
  destruct e; apply Hrest.
  - by rewrite (Z.add_comm adopted), to_int32_add; f_equal; lia.
  - by rewrite to_int32_add; f_equal; lia.
Qed.

(** What discovery returns was on the lists. *)
Lemma discover_guar h filter :
  adoption_requested -> isProviderReady p = true ->
  (forall info, match filter with Some f => matchesFilter info f | None => true end = true -> wanted info) ->
  guar adoption_rule h (discoverUnmanagedVMs r p filter) (fun h' got =>
    (exists tr, h' = h ++ tr)
    /\ forall infos, got = Ok infos ->
         (forall info, info ∈ infos -> discovered h' info)
         /\ exists i all vms, kev (ListVMs i) (Ok all) ∈ h' /\ kev KListVirtualMachines (Ok vms) ∈ h').
Proof.
  intros Ha Hp Hw. unfold discoverUnmanagedVMs, Adoption.getProviderInstance.
  go; try done; (split; [first [by exists []; rewrite app_nil_r|eexists; by rewrite <- ?app_assoc]|]); try done.
  intros infos [= <-]. split; [|eexists _, _, _; split; in_history].
  intros info Hin. unfold unmanaged in Hin. apply list_elem_of_In, filter_In in Hin as [Hin Hf].
  apply andb_true_iff in Hf as [Hm Hf]. apply negb_true_iff, bool_decide_eq_false in Hm.
  split_and!; [done|done|by apply Hw|]. eexists _, _, _.
  split_and!; [in_history|by apply list_elem_of_In|in_history|done].
Qed.

(** A status with the same counts and another message. *)
Lemma message_safe h msg :
  adoption_requested ->
  safe h (adoption_message p (default (mkProviderAdoptionStatus None 0 0 0 "") (ps_Adoption (provider_Status p))) msg).
Proof.
  intros Ha. unfold adoption_message. go. eexists (Some _). split; [done|]. split; [done|]. by left.
Qed.

Abbreviation adoption_status := (default (mkProviderAdoptionStatus None 0 0 0 "") (ps_Adoption (provider_Status p))).

Lemma adopt_discovered_safe h infos now :
  adoption_requested -> isProviderReady p = true -> kev TimeNow now ∈ h ->
  (forall info, info ∈ infos -> discovered h info) ->
  (exists i all vms, kev (ListVMs i) (Ok all) ∈ h /\ kev KListVirtualMachines (Ok vms) ∈ h) ->
  safe h (adopt_discovered p adoption_status infos now).
Proof.
  intros Ha Hp Hnow Hd (i & all & vms & Hl & Hv). unfold adopt_discovered.
  guar_use adopt_all_guar; [exact Hd|]. intros tr [adopted failed] [_ Hn]. cbn [fst snd] in *.
  go. eexists (Some _). split; [done|]. split; [done|]. right. cbn.
  split_and!; [by rewrite Hn|done|]. eexists now, i, all, vms.
  split_and!; [done|..]; by apply elem_of_history.
Qed.

Lemma adopt_filtered_safe h filter :
  adoption_requested -> isProviderReady p = true ->
  (forall info, match filter with Some f => matchesFilter info f | None => true end = true -> wanted info) ->
  safe h (adopt_filtered r p adoption_status filter).
Proof.
  intros Ha Hp Hw. unfold adopt_filtered.
  guar_use discover_guar; [done|done|exact Hw|]. intros tr [infos|e] [_ Hgot].
  2:{ guar_use message_safe; [done|]. intros tr' _ _. go. }
  destruct (Hgot infos eq_refl) as (Hd & i & all & vms & Hl & Hv).
  assert (forall now tr', safe (((h ++ tr) ++ [kev TimeNow now]) ++ tr')
                            (adopt_discovered p adoption_status infos now)) as Hround.
  { intros now tr'. apply adopt_discovered_safe; [done|done|in_history| |].
    - intros info Hi. by do 2 apply discovered_mono; apply Hd.
    - exists i, all, vms. split; by do 2 apply elem_of_history. }
  guar_step. guar_step; [done|]. guar_step.
  - guar_step. guar_step; [done|]. guar_step; [by apply guar_ret|apply Hround].
  - specialize (Hround r0 []). by rewrite app_nil_r in Hround.
Qed.

Lemma reconcile_adoption_safe : safe [] (reconcile_adoption r p).
Proof.
  unfold reconcile_adoption. destruct (bool_decide _) eqn:Ha; cbn [negb].
  - apply bool_decide_eq_true in Ha. unfold adopt_requested.
    change (match ps_Adoption (provider_Status p) with
            | Some a => a | None => mkProviderAdoptionStatus None 0 0 0 "" end) with adoption_status.
    destruct (isProviderReady p) eqn:Hp; cbn [negb]; [|guar_use message_safe; [done|]; intros ???; go].
    destruct (is_empty _) eqn:He; emptiness.
    { apply adopt_filtered_safe; [done|done|]. intros info _. by left. }
    guar_step.
    + apply adopt_filtered_safe; [done|done|]. intros info Hf. right. eauto.
    + guar_use message_safe; [done|]. intros ???. go.
  - apply bool_decide_eq_false in Ha. go. by exists None.
Qed.
End Rules.

Section Props.
Context `{Lib : Libraries} `{Uni : UnicodeTable} `{ALib : AdoptionLibraries}.

(** C10. A reconcile of a Provider by the adoption controller begins by reading it
    and then only makes calls its rules allow: machines are listed, never changed;
    a VirtualMachine is made, under a name no other had and with the adopted label,
    only for a listed machine that passed the filter and that no VirtualMachine of
    the provider stood for; the only identifiers written are those of such machines,
    on a VirtualMachine made for it or on an adopted one of that name that had none;
    and in the counts of a finished round, the machines adopted and failed add up to
    those discovered. *)
Theorem Adoption_Reconcile_follows_the_rules r key tr o :
  runs (Adoption_Reconcile r key) tr o ->
  exists got rest, tr = kev (KGet KProvider key) got :: rest
    /\ match got with
       | Ok p => conforms (adoption_rule p) [] rest
       | Err e => api_IsNotFound e = true /\ rest = []
                  \/ api_IsNotFound e = false /\ o = Done (no_result, Some e)
       end.
Proof.
  unfold Adoption_Reconcile.
  intros [(tr1 & tr2 & got & -> & Hg & Hr)|(w & Hg & ->)]%runs_bind_inv.
  - destruct Hg as (a & tr' & -> & -> & [= ->]). exists a, tr2. split; [done|].
    destruct a as [p|e]; [exact (guar_runs _ _ _ _ _ _ (reconcile_adoption_safe r p) Hr)|].
    destruct (api_IsNotFound e) eqn:He; [left; by destruct Hr|right]. split; [done|].
    by destruct Hr as (u & tr' & -> & _ & ->).
  - by destruct Hg as (a & tr' & _ & _ & [=]).
Qed.

(** Machines whose names collide.  When a VirtualMachine of the name a machine
    would get is there already, whatever machine it stands for, the machine counts
    as adopted: if the VirtualMachine is an adopted one without identifier it is
    given that of this machine, even when it was made for another, and else nothing
    is made for the machine at all. *)
Theorem namesake_counts_as_adopted p info rest adopted failed vm tr o :
  runs (adopt_all p (info :: rest) adopted failed)
    (kev (KGet KVirtualMachine (adoption_key p info)) (Ok vm) :: tr) o ->
  if vmIsAdopted vm && is_empty (status_ID (vm_Status vm)) then
    exists a tr',
      tr = kev (KStatusUpdate KVirtualMachine (vm <| vm_Status := observed info (vm_Status vm) |>)) a :: tr'
      /\ (a = None -> runs (adopt_all p rest (to_int32 (adopted + 1)) failed) tr' o)
  else runs (adopt_all p rest (to_int32 (adopted + 1)) failed) tr o.
Proof.
  cbn [adopt_all]. unfold adoptVM, adopt_existing.
  intros [(tr1 & tr2 & e & Htr & Hg & Hr)|(w & Hg & _)]%runs_bind_inv.
  - destruct Hg as (a & tr' & -> & Hg). pose proof (f_equal (fun l => head l ≫= vm_answer) Htr) as Ha. injection Ha as <-.
    apply (f_equal tail) in Htr. cbn [tail app] in Htr. subst tr.
    cbn in Hg. destruct (vmIsAdopted vm && is_empty _).
    + destruct Hg as (a & ? & -> & -> & [= ->]). exists a, tr2. split; [done|]. by intros ->.
    + by destruct Hg as [-> [= ->]].
  - destruct Hg as (a & tr' & Htr & Hg).
    pose proof (f_equal (fun l => head l ≫= vm_answer) Htr) as Ha. injection Ha as <-.
    cbn in Hg. destruct (vmIsAdopted vm && is_empty _); [by destruct Hg as (? & ? & _ & _ & [=])|by destruct Hg as [_ [=]]].
Qed.
End Props.

(** ** A provider with two machines whose names collide *)
Module DemoAdoption.
Import DemoLibraries.

#[export] Instance table : UnicodeTable := {| unicode_ToLower r := r |}.
#[export] Instance packages : AdoptionLibraries := {|
  unmarshal_filter _ := Ok (mkVMAdoptionFilter "" "" 0 0 0 0);
  regexp_Compile _ := None;
  regexp_MatchString _ _ := Ok true
|}.

Definition demo_provider : Provider :=
  mkProvider (mkObjectMeta "prov" "default" "p" 1 "1" ∅ {[ AdoptionAnnotation := "true" ]} [] None None) (bare_spec "libvirt" None)
    (no_provider_status <| ps_Conditions := [mkCondition "ProviderAvailable" ConditionTrue "Up" "" 0 1] |>).
Definition machine (id name : string) : VMInfo := mkVMInfo id name "On" [] 2 2048 [] [] ∅.

(** The VirtualMachines; a created one has no status. *)
Abbreviation world := (list VirtualMachine).
Definition find (key : NamespacedName) (w : world) : option VirtualMachine :=
  List.find (fun vm => bool_decide (meta_Name (vm_meta vm) = key_Name key)) w.
Definition not_found : goerror := EApi (mkApiError true false false "not found").
Definition no_status : VirtualMachineStatus := mkVMStatus "" "" [] "" [] 0 "" ∅ "" None None VirtualMachinePhaseUnset.

Definition get (k : kind) (key : NamespacedName) (w : world) : res (object k) :=
  match k return res (object k) with
  | KProvider => Ok demo_provider
  | KVirtualMachine => match find key w with Some vm => Ok vm | None => Err not_found end
  | _ => Err not_found
  end.
Definition serve (c : kcall) (w : world) : kanswer c * world :=
  match c return kanswer c * world with
  | KGet k key => (get k key w, w)
  | KCreate KVirtualMachine vm => (None, w ++ [vm <| vm_Status := no_status |>])
  | KStatusUpdate KVirtualMachine vm =>
      (None, (fun vm' => if bool_decide (meta_Name (vm_meta vm') = meta_Name (vm_meta vm)) then vm else vm') <$> w)
  | KListVirtualMachines => (Ok w, w)
  | Resolve _ => (Ok (mkInstance "prov" false true true), w)
  | ListVMs _ => (Ok [machine "m-1" "Web_1"; machine "m-2" "web.1"], w)
  | c => (DemoCluster.idle c, w)
  end.

Definition demo_reconciler : VMAdoptionReconciler := mkAdoptionReconciler true.
Definition demo_key : NamespacedName := mkKey "default" "prov".
Definition demo_run := exec serve (Adoption_Reconcile demo_reconciler demo_key) [].

(** Two are counted as adopted, one VirtualMachine is there. *)
Lemma demo_adopts :
  ((fun vm => (meta_Name (vm_meta vm), status_ID (vm_Status vm))) <$> demo_run.2) = [("web-1", "m-1")]
  /\ (last demo_run.1.1 ≫= fun x => match x with
        | existT (KStatusUpdate KProvider p) _ => pas_AdoptedVMs <$> ps_Adoption (provider_Status p)
        | _ => None end) = Some 2.
Proof. split; vm_compute; reflexivity. Qed.

Lemma Adoption_Reconcile_follows_the_rules_witness :
  exists got rest, demo_run.1.1 = kev (KGet KProvider demo_key) got :: rest
    /\ match got with
       | Ok p => conforms (adoption_rule p) [] rest
       | Err e => api_IsNotFound e = true /\ rest = []
                  \/ api_IsNotFound e = false /\ demo_run.1.2 = Done (no_result, Some e)
       end.
Proof. exact (Adoption_Reconcile_follows_the_rules demo_reconciler demo_key _ _ (exec_runs serve _ [])). Defined.

End DemoAdoption.
