(* ===== verification/SdkErrors.v ===== *)
(** * SdkErrors: the typed errors of the provider SDK

    Models [sdk/provider/errors/errors.go], with which the providers report their
    failures: the constructors, wrapping, the classification of native errors, and
    the conversions to and from gRPC status errors.  The status package of gRPC is a
    parameter. *)
From S2P Require Import Prelude Effects GoLib GrpcClient.
From stdpp Require Import base strings list.
From Stdlib Require Import ZArith.
#[local] Open Scope Z_scope.

Inductive sentinel :=
  | ErrInvalidSpec | ErrNotFound | ErrAlreadyExists | ErrPermissionDenied | ErrUnavailable | ErrInternal
  | ErrUnimplemented | ErrTimeout | ErrCanceled.
#[export] Instance sentinel_eq_dec : EqDecision sentinel.
Proof. solve_decision. Defined.

Definition sentinel_text (s : sentinel) : string :=
  match s with
  | ErrInvalidSpec => "invalid specification"
  | ErrNotFound => "resource not found"
  | ErrAlreadyExists => "resource already exists"
  | ErrPermissionDenied => "permission denied"
  | ErrUnavailable => "service unavailable"
  | ErrInternal => "internal error"
  | ErrUnimplemented => "operation not implemented"
  | ErrTimeout => "operation timeout"
  | ErrCanceled => "operation canceled"
  end.

(** The errors of a provider: the sentinels, errors of other packages, wrapped
    errors, status errors and the SDK's own [*ProviderError], whose [Details] no
    code sets. *)
Inductive sdkerr :=
  | SentinelErr (s : sentinel)
  | NativeErr (msg : string)
  | WrapErr (prefix : string) (inner : sdkerr)
  | StatusErr (c : code) (msg : string)
  | ProvErr (e : ProviderError)
with ProviderError :=
  | mkProviderError (c : code) (message : string) (cause : option sdkerr) (retryable : bool)
      (retryAfter : duration).

Definition pe_Code (e : ProviderError) : code := match e with mkProviderError c _ _ _ _ => c end.
Definition pe_Message (e : ProviderError) : string := match e with mkProviderError _ m _ _ _ => m end.
Definition pe_Cause (e : ProviderError) : option sdkerr := match e with mkProviderError _ _ c _ _ => c end.
Definition pe_Retryable (e : ProviderError) : bool := match e with mkProviderError _ _ _ r _ => r end.
Definition pe_RetryAfter (e : ProviderError) : duration := match e with mkProviderError _ _ _ _ a => a end.

(** [status.FromError] with its code and message, the text of a status error, and
    [%q]. *)
Class StatusLibrary := {
  status_FromError : sdkerr -> option (code * string);
  status_text : code -> string -> string;
  quote : string -> string
}.

Section Errors.
Context `{Lib : StatusLibrary}.

(** [Error()] of an error, and [ProviderError.Error]. *)
Fixpoint err_Error (e : sdkerr) : string :=
  match e with
  | SentinelErr s => sentinel_text s
  | NativeErr m => m
  | WrapErr p e' => p +:+ ": " +:+ err_Error e'
  | StatusErr c m => status_text c m
  | ProvErr e' => pe_Error e'
  end
with pe_Error (e : ProviderError) : string :=
  match e with
  | mkProviderError _ m (Some c) _ _ => m +:+ ": " +:+ err_Error c
  | mkProviderError _ m None _ _ => m
  end.

Definition pe_Unwrap (e : ProviderError) : option sdkerr := pe_Cause e.

(** A status with its code and message; its [Err] is nil for OK. *)
Definition GRPCStatus (e : ProviderError) : code * string := (pe_Code e, pe_Error e).
Definition status_Err (s : code * string) : option sdkerr :=
  if bool_decide (s.1 = OK) then None else Some (StatusErr s.1 s.2).

Definition NewInvalidSpec (message : string) : ProviderError :=
  mkProviderError InvalidArgument message None false 0.
Definition NewNotFound (resource id : string) : ProviderError :=
  mkProviderError NotFound (resource +:+ " " +:+ quote id +:+ " not found") None false 0.
Definition NewAlreadyExists (resource id : string) : ProviderError :=
  mkProviderError AlreadyExists (resource +:+ " " +:+ quote id +:+ " already exists") None false 0.
Definition NewPermissionDenied (operation : string) : ProviderError :=
  mkProviderError PermissionDenied ("permission denied: " +:+ operation) None false 0.
Definition NewUnavailable (service : string) (cause : option sdkerr) : ProviderError :=
  mkProviderError Unavailable ("service unavailable: " +:+ service) cause true 0.
Definition NewInternal (message : string) (cause : option sdkerr) : ProviderError :=
  mkProviderError Internal message cause false 0.
Definition NewUnimplemented (operation : string) : ProviderError :=
  mkProviderError Unimplemented ("operation not implemented: " +:+ operation) None false 0.
Definition NewTimeout (operation : string) (d : duration) : ProviderError :=
  mkProviderError DeadlineExceeded
    ("operation " +:+ operation +:+ " timed out after " +:+ Duration_String d) None true 0.
Definition NewRateLimit (retryAfter : duration) : ProviderError :=
  mkProviderError ResourceExhausted "rate limit exceeded" None true retryAfter.
Definition NewCanceled (operation : string) : ProviderError :=
  mkProviderError Canceled ("operation canceled: " +:+ operation) None false 0.

(** [errors.Is] for a sentinel: the chain of [Unwrap] is searched. *)
Fixpoint err_Is (e : sdkerr) (target : sentinel) : bool :=
  match e with
  | SentinelErr s => bool_decide (s = target)
  | NativeErr _ | StatusErr _ _ => false
  | WrapErr _ e' => err_Is e' target
  | ProvErr (mkProviderError _ _ (Some c) _ _) => err_Is c target
  | ProvErr (mkProviderError _ _ None _ _) => false
  end.

Definition isRetryable (c : code) : bool :=
  match c with
  | Unavailable | ResourceExhausted | DeadlineExceeded => true
  | _ => false
  end.

Definition classifyError (e : sdkerr) : code :=
  if err_Is e ErrInvalidSpec then InvalidArgument
  else if err_Is e ErrNotFound then NotFound
  else if err_Is e ErrAlreadyExists then AlreadyExists
  else if err_Is e ErrPermissionDenied then PermissionDenied
  else if err_Is e ErrUnavailable then Unavailable
  else if err_Is e ErrUnimplemented then Unimplemented
  else if err_Is e ErrTimeout then DeadlineExceeded
  else if err_Is e ErrCanceled then Canceled
  else Internal.

(** [None] is the nil pointer. *)
Definition Wrap (err : option sdkerr) (message : string) : option ProviderError :=
  match err with
  | None => None
  | Some (ProvErr pe as e) =>
      Some (mkProviderError (pe_Code pe) message (Some e) (pe_Retryable pe) (pe_RetryAfter pe))
  | Some e =>
      let c := classifyError e in
      Some (mkProviderError c message (Some e) (isRetryable c) 0)
  end.

Definition ToGRPCError (err : option sdkerr) : option sdkerr :=
  match err with
  | None => None
  | Some (ProvErr pe) => status_Err (GRPCStatus pe)
  | Some e => Some (StatusErr Internal (err_Error e))
  end.

Definition FromGRPCError (err : option sdkerr) : option ProviderError :=
  match err with
  | None => None
  | Some e =>
      match status_FromError e with
      | None => Some (NewInternal "unknown error" (Some e))
      | Some (c, m) => Some (mkProviderError c m None (isRetryable c) 0)
      end
  end.

(** The code of an error that is a [ProviderError] or has a status. *)
Definition error_code (e : sdkerr) : option code :=
  match e with
  | ProvErr pe => Some (pe_Code pe)
  | _ => fst <$> status_FromError e
  end.

Definition IsRetryable (e : sdkerr) : bool :=
  match e with
  | ProvErr pe => pe_Retryable pe
  | _ => match status_FromError e with Some (c, _) => isRetryable c | None => false end
  end.
Definition IsNotFound (e : sdkerr) : bool :=
  match error_code e with
  | Some c => bool_decide (c = NotFound)
  | None => err_Is e ErrNotFound
  end.
Definition IsInvalidSpec (e : sdkerr) : bool :=
  match error_code e with
  | Some c => bool_decide (c = InvalidArgument)
  | None => err_Is e ErrInvalidSpec
  end.

(** What the gRPC server sends for the error of a handler: its status, or Unknown
    with its text. *)
Definition sent_status (e : sdkerr) : code * string :=
  match status_FromError e with
  | Some s => s
  | None => (Unknown, err_Error e)
  end.
End Errors.

(** What the status package documents: it finds the status of its own errors and of
    an error with a [GRPCStatus] method, and none in an error that neither has such
    a method nor wraps one that does. *)
Class StatusLibraryOk `{StatusLibrary} : Prop := {
  from_status_error c m : c <> OK -> status_FromError (StatusErr c m) = Some (c, m);
  from_provider_error pe : pe_Code pe <> OK -> status_FromError (ProvErr pe) = Some (GRPCStatus pe);
  from_native_error m : status_FromError (NativeErr m) = None;
  from_sentinel s : status_FromError (SentinelErr s) = None
}.

(** ** An instance of the parameters *)
Module DemoStatus.
#[export] Instance status_lib : StatusLibrary := {|
  status_FromError := fix find e :=
    match e with
    | StatusErr c m => Some (c, m)
    | ProvErr pe => Some (pe_Code pe, @pe_Error (Build_StatusLibrary (fun _ => None) (fun _ m => m) id) pe)
    | WrapErr p e' => find e'
    | NativeErr _ | SentinelErr _ => None
    end;
  status_text _ m := m;
  quote := id
|}.

Fixpoint err_Error_same (e : sdkerr) :
  @err_Error (Build_StatusLibrary (fun _ => None) (fun _ m => m) id) e = err_Error e.
Proof.
  destruct e as [s|m|p e|c m|[c m [e|] r a]]; cbn; [done|done| |done| |done]; by rewrite err_Error_same.
Qed.

#[export] Instance status_lib_ok : StatusLibraryOk.
Proof.
  constructor; [done| |done|done]. intros [c m [e|] r a] _; cbn; [|done].
  unfold GRPCStatus. cbn. by rewrite err_Error_same.
Qed.
End DemoStatus.
