(* ===== verification/SdkMiddleware.v ===== *)
(** * SdkMiddleware: the interceptors of a provider's gRPC server

    Models [sdk/provider/middleware/middleware.go]: recovery from panics,
    authentication by client certificate and bearer token, timeouts, and the order
    in which [Build] puts them.  The unary and the stream interceptors have the same
    logic; they differ in the type of what a handler returns, which is [Reply] here,
    with [reject] making the reply for an error. *)
From S2P Require Import Prelude Effects GoLib GrpcClient SdkErrors.
From stdpp Require Import base gmap strings list.
From Stdlib Require Import ZArith.
#[local] Open Scope Z_scope.

(** ** What a request carries *)

(** The names of an X.509 certificate; URIs as they print. *)
Record X509Cert := mkX509Cert { DNSNames : list string; URIs : list string; CommonName : string }.

(** [credentials.TLSInfo] with its verified chains, or what another kind of
    transport security reports. *)
Inductive AuthInfo := TLSInfo (verifiedChains : list (list X509Cert)) | OtherAuthInfo (authType : string).
Record Peer := mkPeer { peer_AuthInfo : option AuthInfo }.

(** A request's context: the peer, the values of its authorization header, unless
    there is no metadata at all, and the deadline. *)
Record Context := mkContext {
  ctx_peer : option Peer;
  ctx_authorization : option (list string);
  ctx_deadline : option time
}.
#[export] Instance Context_eta : Eta Context := fun r =>
  mkContext (ctx_peer r) (ctx_authorization r) (ctx_deadline r).

(** ** Configuration *)
Record LoggingConfig := mkLoggingConfig { log_Enabled : bool }.
Record RecoveryConfig := mkRecoveryConfig { rec_Enabled : bool }.
(** [auth_ValidateToken] is nil, or a function of the context and the token. *)
Record AuthConfig := mkAuthConfig {
  auth_RequireTLS : bool;
  auth_AllowedSANs : list string;
  auth_BearerTokenAuth : bool;
  auth_ValidateToken : option (Context -> string -> option sdkerr)
}.
Record RateLimitConfig := mkRateLimitConfig { rl_Enabled : bool }.
Record TimeoutConfig := mkTimeoutConfig {
  to_DefaultTimeout : duration; to_PerMethodTimeouts : gmap string duration
}.
Record MetricsConfig := mkMetricsConfig { met_Enabled : bool }.
Record Config := mkMiddlewareConfig {
  mw_Logging : option LoggingConfig;
  mw_Recovery : option RecoveryConfig;
  mw_Auth : option AuthConfig;
  mw_RateLimit : option RateLimitConfig;
  mw_Timeout : option TimeoutConfig;
  mw_Metrics : option MetricsConfig
}.

(** ** Authentication *)
Section Auth.
Context `{Lib : StatusLibrary}.

Definition certMatchesAllowList (leaf : X509Cert) (allowedSANs : list string) : bool :=
  existsb (fun allowed =>
    existsb (fun dns => bool_decide (dns = allowed)) (DNSNames leaf)
    || existsb (fun uri => bool_decide (uri = allowed)) (URIs leaf)
    || (negb (is_empty (CommonName leaf)) && bool_decide (CommonName leaf = allowed))) allowedSANs.

Definition validateTLSPeer (ctx : Context) (allowedSANs : list string) : option sdkerr :=
  match ctx_peer ctx with
  | None => Some (StatusErr Unauthenticated "mTLS required: no peer information")
  | Some p =>
      match peer_AuthInfo p with
      | None => Some (StatusErr Unauthenticated "mTLS required: connection is not TLS")
      | Some (OtherAuthInfo _) =>
          Some (StatusErr Unauthenticated "mTLS required: TLS handshake info unavailable")
      | Some (TLSInfo ((leaf :: _) :: _)) =>
          if bool_decide (allowedSANs = []) then None
          else if certMatchesAllowList leaf allowedSANs then None
          else Some (StatusErr PermissionDenied "client certificate does not match the configured allow-list")
      | Some (TLSInfo _) => Some (StatusErr Unauthenticated "mTLS required: no verified client certificate")
      end
  end.

(** [Panic] is the call of a nil function. *)
Inductive checked := Accepted | Refused (e : sdkerr) | Panic.

Definition validateBearerToken (ctx : Context)
    (validateFunc : option (Context -> string -> option sdkerr)) : checked :=
  match ctx_authorization ctx with
  | None => Refused (NativeErr "no metadata")
  | Some [] => Refused (NativeErr "no authorization header")
  | Some (token :: _) =>
      if negb (has_prefix token "Bearer ") then Refused (NativeErr "invalid authorization header format")
      else
        match validateFunc with
        | None => Panic
        | Some f =>
            match f ctx (String.substring 7 (String.length token - 7) token) with
            | Some e => Refused e
            | None => Accepted
            end
        end
  end.

Definition authenticateRequest (ctx : Context) (config : AuthConfig) : checked :=
  match (if auth_RequireTLS config then validateTLSPeer ctx (auth_AllowedSANs config) else None) with
  | Some err => Refused err
  | None =>
      if auth_BearerTokenAuth config then
        match validateBearerToken ctx (auth_ValidateToken config) with
        | Refused _ =>
            let s := GRPCStatus (NewPermissionDenied "token authentication failed") in
            Refused (StatusErr s.1 s.2)
        | c => c
        end
      else Accepted
  end.
End Auth.

(** ** The interceptors *)
Section Interceptors.
Context `{Lib : StatusLibrary} {Reply : Type} (reject : sdkerr -> Reply).

(** The calls: the clock and the provider's own handler, which returns or panics. *)
Inductive mw_call := MwNow | Handle (ctx : Context).
Inductive handled := Returned (r : Reply) | HandlerPanics (why : string).
Definition mw_answer (c : mw_call) : Type :=
  match c with MwNow => time | Handle _ => handled end.
Abbreviation MW := (prog mw_call mw_answer).
Abbreviation mwdo := (trigger (E := mw_call) (R := mw_answer)).

Definition Handler : Type := Context -> MW Reply.
Definition Interceptor : Type := Handler -> Handler.

(** The provider's method. *)
Definition the_handler : Handler := fun ctx =>
  a ← mwdo (Handle ctx);
  match a with
  | Returned r => Ret r
  | HandlerPanics w => Crash w
  end.

(** A deferred [recover]: a panic of [p] is caught. *)
Fixpoint recovered {A} (p : MW A) (f : string -> A) : MW A :=
  match p with
  | Ret a => Ret a
  | Vis c k => Vis c (fun r => recovered (k r) f)
  | Crash w => Ret (f w)
  end.

Definition recoveryInterceptor (config : RecoveryConfig) : Interceptor := fun handler ctx =>
  recovered (handler ctx) (fun _ => reject (StatusErr Internal "internal server error")).

Definition authInterceptor (config : AuthConfig) : Interceptor := fun handler ctx =>
  match authenticateRequest ctx config with
  | Refused err => Ret (reject err)
  | Panic => Crash "call of a nil ValidateToken"
  | Accepted => handler ctx
  end.

Definition rateLimitInterceptor (config : RateLimitConfig) : Interceptor := fun handler ctx => handler ctx.

(** [context.WithTimeout]: an earlier deadline stays. *)
Definition WithTimeout (ctx : Context) (now : time) (timeout : duration) : Context :=
  let d := now + timeout in
  match ctx_deadline ctx with
  | Some old => if old <=? d then ctx else ctx <| ctx_deadline := Some d |>
  | None => ctx <| ctx_deadline := Some d |>
  end.

Definition timeoutInterceptor (config : TimeoutConfig) (method : string) : Interceptor := fun handler ctx =>
  let timeout := default (to_DefaultTimeout config) (to_PerMethodTimeouts config !! method) in
  now ← mwdo MwNow;
  handler (WithTimeout ctx now timeout).

(** These two time the handler, for a metric that is not recorded and a log line. *)
Definition metricsInterceptor (config : MetricsConfig) : Interceptor := fun handler ctx =>
  _ ← mwdo MwNow; r ← handler ctx; _ ← mwdo MwNow; Ret r.
Definition loggingInterceptor (config : LoggingConfig) : Interceptor := fun handler ctx =>
  _ ← mwdo MwNow; r ← handler ctx; _ ← mwdo MwNow; Ret r.

(** An interceptor that is used when its configuration is there and wants it. *)
Definition when {C} (config : option C) (wanted : C -> bool) (i : C -> Interceptor) : list Interceptor :=
  match config with
  | Some c => if wanted c then [i c] else []
  | None => []
  end.

Definition Build (config : option Config) (method : string) : list Interceptor :=
  match config with
  | None => []
  | Some config =>
      when (mw_Recovery config) rec_Enabled recoveryInterceptor
      ++ when (mw_Auth config) (fun c => auth_RequireTLS c || auth_BearerTokenAuth c) authInterceptor
      ++ when (mw_RateLimit config) rl_Enabled rateLimitInterceptor
      ++ when (mw_Timeout config) (fun c => 0 <? to_DefaultTimeout c) (fun c => timeoutInterceptor c method)
      ++ when (mw_Metrics config) met_Enabled metricsInterceptor
      ++ when (mw_Logging config) log_Enabled loggingInterceptor
  end.

(** [grpc.ChainUnaryInterceptor]: the first interceptor is the outermost. *)
Definition chain (is_ : list Interceptor) (h : Handler) : Handler := foldr (fun i h => i h) h is_.

(** A request to a server with this middleware. *)
Definition serve_request (config : option Config) (method : string) (ctx : Context) : MW Reply :=
  chain (Build config method) the_handler ctx.
End Interceptors.
