(* ===== verification/SdkServer.v ===== *)
(** * SdkServer: how a provider's gRPC server is secured and started

    Models [sdk/provider/server/tlsconfig.go] and, of [server.go], the defaults,
    the TLS configuration and [New]; and the part of a provider's main function
    ([cmd/provider-libvirt/main.go] and its siblings) that puts them together.  The
    file system, the environment and the certificate libraries are calls. *)
From S2P Require Import Prelude Contracts Effects GoLib GrpcClient Resolver SdkErrors SdkMiddleware.
From stdpp Require Import base gmap strings list.
From Stdlib Require Import Ascii ZArith.
#[local] Open Scope Z_scope.

Definition ProviderTLSMountPath : string := "/etc/virtrigaud/tls".
Definition ProviderTLSCertFile : string := ProviderTLSMountPath +:+ "/tls.crt".
Definition ProviderTLSKeyFile : string := ProviderTLSMountPath +:+ "/tls.key".
Definition ProviderTLSCAFile : string := ProviderTLSMountPath +:+ "/ca.crt".
Definition EnvAllowedSANs : string := "VIRTRIGAUD_PROVIDER_ALLOWED_SANS".
Definition EnvInsecure : string := "VIRTRIGAUD_PROVIDER_INSECURE".
Definition ErrInsecureModeOptedIn : string :=
  "provider started in plaintext mode (VIRTRIGAUD_PROVIDER_INSECURE=true)".

Record TLSConfig := mkServerTLSConfig {
  CertFile : string; KeyFile : string; CAFile : string; RequireClientCert : bool; AutoReload : bool
}.
Record TLSResolution := mkTLSResolution {
  res_TLS : option TLSConfig; res_Auth : AuthConfig; res_Insecure : bool
}.

(** What is at a path, symbolic links followed. *)
Inductive path_info := RegularFile | OtherFile | NoSuchFile.

Section Server.
Context `{X : X509}.

Inductive srv_call :=
  | StatPath (path : string)
  | Getenv (name : string)
  | NewCertWatcher (cert key : string)
  | LoadX509KeyPair (cert key : string)
  | ReadFile (path : string).
Definition srv_answer (c : srv_call) : Type :=
  match c with
  | StatPath _ => path_info
  | Getenv _ => string
  | NewCertWatcher _ _ => option goerror
  | LoadX509KeyPair _ _ => res Certificate
  | ReadFile _ => res string
  end.
Abbreviation SM := (prog srv_call srv_answer).
Abbreviation sdo := (trigger (E := srv_call) (R := srv_answer)).

Definition fileExists (path : string) : SM bool :=
  info ← sdo (StatPath (Clean path));
  Ret match info with RegularFile => true | _ => false end.

Definition parseAllowedSANs (raw : string) : list string :=
  if is_empty raw then []
  else List.filter (fun p => negb (is_empty p)) (TrimSpace <$> Split "," raw).

(** [strings.EqualFold(s, "true")]: no character outside ASCII folds to one of
    these letters. *)
Definition lower (c : ascii) : ascii :=
  let n := nat_of_ascii c in
  if ((65 <=? n) && (n <=? 90))%nat then ascii_of_nat (n + 32) else c.
Fixpoint lower_string (s : string) : string :=
  match s with
  | EmptyString => EmptyString
  | String c s' => String (lower c) (lower_string s')
  end.
Definition isInsecureOptedIn : SM bool :=
  v ← sdo (Getenv EnvInsecure);
  Ret (bool_decide (lower_string (TrimSpace v) = "true")).

Definition partial_message (cert key ca : bool) : string :=
  "TLS material partially present; missing required files: "
  +:+ String.concat ", "
        ((if cert then [] else [ProviderTLSCertFile]) ++ (if key then [] else [ProviderTLSKeyFile])
         ++ (if ca then [] else [ProviderTLSCAFile])).
Definition double_quote : string := String (ascii_of_nat 34) "".
Definition missing_message : string :=
  "TLS material missing at " +:+ ProviderTLSMountPath +:+ " and " +:+ EnvInsecure
  +:+ " is not set to " +:+ double_quote +:+ "true" +:+ double_quote +:+ "; either provision " +:+ ProviderTLSMountPath
  +:+ "/{tls.crt,tls.key,ca.crt} or set " +:+ EnvInsecure +:+ "=true to opt into plaintext (audit-flagged)".

Definition insecure_resolution : TLSResolution :=
  mkTLSResolution None (mkAuthConfig false [] false None) true.

(** Both results: the resolution and the error come together when plaintext was
    chosen. *)
Definition ResolveTLSAndAuth : SM (option TLSResolution * option goerror) :=
  certExists ← fileExists ProviderTLSCertFile;
  keyExists ← fileExists ProviderTLSKeyFile;
  caExists ← fileExists ProviderTLSCAFile;
  raw ← sdo (Getenv EnvAllowedSANs);
  let allowedSANs := parseAllowedSANs raw in
  if certExists && keyExists && caExists then
    Ret (Some (mkTLSResolution
                 (Some (mkServerTLSConfig ProviderTLSCertFile ProviderTLSKeyFile ProviderTLSCAFile true true))
                 (mkAuthConfig true allowedSANs false None) false), None)
  else if negb certExists && negb keyExists && negb caExists then
    insecure ← isInsecureOptedIn;
    if insecure : bool then Ret (Some insecure_resolution, Some (ESentinel ErrInsecureModeOptedIn))
    else Ret (None, Some (ENew missing_message))
  else Ret (None, Some (ENew (partial_message certExists keyExists caExists))).

(** ** The server *)

(** [tls.Config]: the leaf certificate comes from the watcher, or is fixed. *)
Inductive leaf_source := FromWatcher | Fixed (cert : Certificate).
Record ServerTLS := mkServerTLS {
  stls_MinVersion : Z;
  stls_Leaf : leaf_source;
  stls_ClientCAs : option CertPool;
  stls_RequireAndVerifyClientCert : bool
}.

(** The configuration, and whether there is a watcher to be started. *)
Definition buildServerTLSConfig (c : TLSConfig) : SM (res (ServerTLS * bool)) :=
  leaf ← (if AutoReload c then
            e ← sdo (NewCertWatcher (CertFile c) (KeyFile c));
            Ret match e with
                | Some err => Err (EWrap ("failed to create certificate watcher (cert=" +:+ CertFile c +:+ " key="
                                          +:+ KeyFile c +:+ ")") err)
                | None => Ok FromWatcher
                end
          else
            cert ← sdo (LoadX509KeyPair (CertFile c) (KeyFile c));
            Ret match cert with
                | Err err => Err (EWrap ("failed to load key pair (cert=" +:+ CertFile c +:+ " key="
                                         +:+ KeyFile c +:+ ")") err)
                | Ok cert => Ok (Fixed cert)
                end);
  match leaf with
  | Err err => Ret (Err err)
  | Ok leaf =>
      if negb (RequireClientCert c) then Ret (Ok (mkServerTLS VersionTLS13 leaf None false, AutoReload c))
      else if is_empty (CAFile c) then Ret (Err (ENew "RequireClientCert=true requires CAFile to be set"))
      else
        caPEM ← sdo (ReadFile (CAFile c));
        match caPEM with
        | Err err => Ret (Err (EWrap ("failed to read client CA bundle (" +:+ CAFile c +:+ ")") err))
        | Ok caPEM =>
            match AppendCertsFromPEM caPEM with
            | None => Ret (Err (ENew ("failed to parse any certificates from CA bundle " +:+ CAFile c)))
            | Some pool => Ret (Ok (mkServerTLS VersionTLS13 leaf (Some pool) true, AutoReload c))
            end
        end
  end.

Record ServerParameters := mkServerParameters {
  kap_MaxConnectionIdle : duration; kap_MaxConnectionAge : duration; kap_MaxConnectionAgeGrace : duration;
  kap_Time : duration; kap_Timeout : duration
}.
Record EnforcementPolicy := mkEnforcementPolicy { kae_MinTime : duration; kae_PermitWithoutStream : bool }.
Record KeepAliveConfig := mkKeepAliveConfig {
  ka_ServerParameters : option ServerParameters; ka_EnforcementPolicy : option EnforcementPolicy
}.
Record ServerConfig := mkServerConfig {
  sc_Port : Z; sc_HealthPort : Z; sc_TLS : option TLSConfig; sc_Middleware : option SdkMiddleware.Config;
  sc_KeepAlive : option KeepAliveConfig; sc_GracefulTimeout : duration; sc_ServiceName : string
}.

Definition DefaultConfig : ServerConfig :=
  mkServerConfig 9443 8080 None None
    (Some (mkKeepAliveConfig
             (Some (mkServerParameters (15 * minute) (120 * minute) (5 * minute) (30 * second) (10 * second)))
             (Some (mkEnforcementPolicy (5 * second) false))))
    (30 * second) "provider".

(** The options [grpc.NewServer] is called with. *)
Inductive ServerOption :=
  | KeepaliveParams (p : ServerParameters)
  | KeepaliveEnforcementPolicy (p : EnforcementPolicy)
  | Creds (c : ServerTLS)
  | Interceptors (c : SdkMiddleware.Config).
Record Server := mkServer { srv_config : ServerConfig; srv_options : list ServerOption; srv_certWatcher : bool }.

Definition filled (c : ServerConfig) : ServerConfig :=
  mkServerConfig
    (if sc_Port c =? 0 then 9443 else sc_Port c) (if sc_HealthPort c =? 0 then 8080 else sc_HealthPort c)
    (sc_TLS c) (sc_Middleware c) (sc_KeepAlive c)
    (if sc_GracefulTimeout c =? 0 then 30 * second else sc_GracefulTimeout c)
    (if is_empty (sc_ServiceName c) then "provider" else sc_ServiceName c).

Definition keepalive_options (c : option KeepAliveConfig) : list ServerOption :=
  match c with
  | None => []
  | Some k =>
      match ka_ServerParameters k with Some p => [KeepaliveParams p] | None => [] end
      ++ match ka_EnforcementPolicy k with Some p => [KeepaliveEnforcementPolicy p] | None => [] end
  end.

(** A chain of no interceptors, which the source leaves out, changes nothing. *)
Definition middleware_options (c : option SdkMiddleware.Config) : list ServerOption :=
  match c with Some m => [Interceptors m] | None => [] end.

Definition New (config : option ServerConfig) : SM (res Server) :=
  let config := filled (default DefaultConfig config) in
  tls ← (match sc_TLS config with
         | None => Ret (Ok ([], false))
         | Some c =>
             r ← buildServerTLSConfig c;
             Ret match r with
                 | Err err => Err (EWrap "failed to build TLS credentials" err)
                 | Ok (creds, watcher) => Ok ([Creds creds], watcher)
                 end
         end);
  Ret match tls with
      | Err err => Err err
      | Ok (creds, watcher) =>
          Ok (mkServer config
                (keepalive_options (sc_KeepAlive config) ++ creds ++ middleware_options (sc_Middleware config))
                watcher)
      end.

(** The configuration a provider's main function makes, and its server; [None] is
    [os.Exit(1)]. *)
Definition provider_config (port healthPort : Z) (resolution : TLSResolution) : ServerConfig :=
  mkServerConfig port healthPort (res_TLS resolution)
    (Some (mkMiddlewareConfig (Some (mkLoggingConfig true)) (Some (mkRecoveryConfig true))
             (Some (res_Auth resolution)) None None None))
    (sc_KeepAlive DefaultConfig) (sc_GracefulTimeout DefaultConfig) (sc_ServiceName DefaultConfig).
Definition start_server (port healthPort : Z) (resolution : option TLSResolution) : SM (option Server) :=
  match resolution with
  | None => Crash "nil TLSResolution"
  | Some resolution =>
      srv ← New (Some (provider_config port healthPort resolution));
      Ret match srv with Err _ => None | Ok srv => Some srv end
  end.
Definition provider_main (port healthPort : Z) : SM (option Server) :=
  r ← ResolveTLSAndAuth;
  let '(resolution, err) := (r : option TLSResolution * option goerror) in
  match err with
  | None => start_server port healthPort resolution
  | Some e => if errors_Is e ErrInsecureModeOptedIn then start_server port healthPort resolution else Ret None
  end.
End Server.
