(* ===== verification/SdkClient.v ===== *)
(** * SdkClient: the SDK's client of a provider

    Models [sdk/provider/client/client.go]: the timeout of a call, the methods,
    the transport credentials and [WaitForTask].  An [error] in Go is an interface
    value: it is nil, or it holds a pointer, which may itself be nil; the methods
    convert a [*ProviderError] to [error], so the difference matters. *)
From S2P Require Import Prelude Effects GoLib GrpcClient SdkErrors.
From stdpp Require Import base gmap strings list.
From Stdlib Require Import ZArith.
#[local] Open Scope Z_scope.

(** An [error]: nil, one that holds a [*ProviderError], or another. *)
Inductive error_value := NilError | PointerError (p : option ProviderError) | OtherError (e : sdkerr).
(** [err != nil]. *)
Definition not_nil (e : error_value) : bool := match e with NilError => false | _ => true end.
(** A pointer becomes an [error] by assignment. *)
Definition as_error (p : option ProviderError) : error_value := PointerError p.

Record TimeoutConfig := mkClientTimeouts {
  ct_DialTimeout : duration; ct_CallTimeout : duration; ct_PerMethodTimeouts : gmap string duration
}.
Record TLSConfig := mkClientTLS {
  ctls_Enabled : bool; ctls_InsecureSkipVerify : bool; ctls_ServerName : string; ctls_CertFile : string;
  ctls_KeyFile : string; ctls_CAFile : string
}.
Record RetryConfig := mkRetryConfig {
  crt_Enabled : bool; crt_MaxAttempts : Z; crt_InitialBackoff : duration; crt_MaxBackoff : duration
}.
Record KeepAliveConfig := mkClientKeepAlive {
  cka_Time : duration; cka_Timeout : duration; cka_PermitWithoutStream : bool
}.
Record Config := mkClientConfig {
  cc_Address : string; cc_TLS : option TLSConfig; cc_Timeout : option TimeoutConfig;
  cc_Retry : option RetryConfig; cc_KeepAlive : option KeepAliveConfig
}.
Definition DefaultConfig (address : string) : Config :=
  mkClientConfig address (Some (mkClientTLS false false "" "" "" ""))
    (Some (mkClientTimeouts (10 * second) (30 * second) ∅))
    (Some (mkRetryConfig true 3 (100 * millisecond) (5 * second)))
    (Some (mkClientKeepAlive (30 * second) (5 * second) true)).

(** The part of a [tls.Config] the client fills in; [None] is plaintext. *)
Record ClientTLS := mkTls { ct_ServerName : string; ct_Insecure : bool; ct_ClientCert : bool; ct_RootCAs : bool }.
Record Dial := mkDial {
  dial_Address : string; dial_TLS : option ClientTLS; dial_KeepAlive : option KeepAliveConfig;
  dial_Timeout : option duration
}.

(** A message of a response: of a task status, whether it is done and its error; of
    a listing, the machines. *)
Record Response := mkResponse { resp_Done : bool; resp_Error : string; resp_Vms : list string }.

(** The calls: key files, the connection, an RPC with the timeout put on its
    context, and the wait for the next tick or the end of the caller's context. *)
Inductive cl_call :=
  | LoadKeyPair (cert key : string)
  | DialContext (d : Dial)
  | Rpc (method : string) (timeout : option duration)
  | AwaitTick (interval : duration).
Inductive tick := Tick | ContextDone (err : sdkerr).
Definition cl_answer (c : cl_call) : Type :=
  match c with
  | LoadKeyPair _ _ | DialContext _ => option sdkerr
  | Rpc _ _ => option Response * option sdkerr
  | AwaitTick _ => tick
  end.
Abbreviation CLM := (prog cl_call cl_answer).
Abbreviation cldo := (trigger (E := cl_call) (R := cl_answer)).

Section Client.
Context `{Lib : StatusLibrary}.

Definition buildTLSCredentials (config : TLSConfig) : CLM (result ClientTLS sdkerr) :=
  let tls cert := mkTls (ctls_ServerName config) (ctls_InsecureSkipVerify config) cert false in
  if negb (is_empty (ctls_CertFile config)) && negb (is_empty (ctls_KeyFile config)) then
    e ← cldo (LoadKeyPair (ctls_CertFile config) (ctls_KeyFile config));
    Ret match e with
        | Some err => Err (WrapErr "failed to load client certificate" err)
        | None => Ok (tls true)
        end
  else Ret (Ok (tls false)).

Definition New (config : option Config) : CLM (result Config sdkerr) :=
  match config with
  | None => Ret (Err (NativeErr "config is required"))
  | Some config =>
      if is_empty (cc_Address config) then Ret (Err (NativeErr "address is required"))
      else
        tls ← (match cc_TLS config with
               | Some t =>
                   if ctls_Enabled t then
                     r ← buildTLSCredentials t;
                     Ret match r with
                         | Err err => Err (WrapErr "failed to build TLS credentials" err)
                         | Ok c => Ok (Some c)
                         end
                   else Ret (Ok None)
               | None => Ret (Ok None)
               end);
        match tls with
        | Err err => Ret (Err err)
        | Ok tls =>
            let dialTimeout :=
              match cc_Timeout config with
              | Some t => if 0 <? ct_DialTimeout t then Some (ct_DialTimeout t) else None
              | None => None
              end in
            e ← cldo (DialContext (mkDial (cc_Address config) tls (cc_KeepAlive config) dialTimeout));
            Ret match e with
                | Some err => Err (WrapErr ("failed to dial provider at " +:+ cc_Address config) err)
                | None => Ok config
                end
        end
  end.

Context (c : Config).

Definition withTimeout (method : string) : option duration :=
  match cc_Timeout c with
  | None => None
  | Some t =>
      match ct_PerMethodTimeouts t !! method with
      | Some d => Some d
      | None => if 0 <? ct_CallTimeout t then Some (ct_CallTimeout t) else None
      end
  end.

(** The body the methods share: [return resp, errors.FromGRPCError(err)]. *)
Definition call (name : string) : CLM (option Response * error_value) :=
  let method := "/provider.v1.Provider/" +:+ name in
  r ← cldo (Rpc method (withTimeout method));
  let '(resp, err) := (r : option Response * option sdkerr) in
  Ret (resp, as_error (FromGRPCError err)).

Definition Validate := call "Validate".
Definition Create := call "Create".
Definition Delete := call "Delete".
Definition Power := call "Power".
Definition Reconfigure := call "Reconfigure".
Definition Describe := call "Describe".
Definition TaskStatus := call "TaskStatus".
Definition SnapshotCreate := call "SnapshotCreate".
Definition SnapshotDelete := call "SnapshotDelete".
Definition SnapshotRevert := call "SnapshotRevert".
Definition Clone := call "Clone".
Definition ImagePrepare := call "ImagePrepare".
Definition GetCapabilities := call "GetCapabilities".

Definition ListVMs : CLM (list string * error_value) :=
  let method := "/provider.v1.Provider/ListVMs" in
  r ← cldo (Rpc method (withTimeout method));
  let '(resp, err) := (r : option Response * option sdkerr) in
  match err with
  | Some _ => Ret ([], as_error (FromGRPCError err))
  | None =>
      match resp with
      | Some resp => Ret (resp_Vms resp, NilError)
      | None => Crash "nil ListVMsResponse"
      end
  end.

(** [fmt] prints an error that holds a nil pointer as [<nil>]. *)
Definition failed_check (e : error_value) : sdkerr :=
  match e with
  | PointerError (Some pe) => WrapErr "failed to check task status" (ProvErr pe)
  | OtherError err => WrapErr "failed to check task status" err
  | PointerError None | NilError => NativeErr "failed to check task status: <nil>"
  end.

(** [rounds] bounds the ticks; [None] is a wait that has not ended by then. *)
Fixpoint wait_loop (rounds : nat) (interval : duration) : CLM (option error_value) :=
  match rounds with
  | O => Ret None
  | S n =>
      t ← cldo (AwaitTick interval);
      match t with
      | ContextDone err => Ret (Some (OtherError err))
      | Tick =>
          r ← TaskStatus;
          let '(resp, err) := (r : option Response * error_value) in
          if not_nil err then Ret (Some (OtherError (failed_check err)))
          else
            match resp with
            | None => Crash "nil TaskStatusResponse"
            | Some resp =>
                if resp_Done resp then
                  if negb (is_empty (resp_Error resp)) then
                    Ret (Some (OtherError (NativeErr ("task failed: " +:+ resp_Error resp))))
                  else Ret (Some NilError)
                else wait_loop n interval
            end
      end
  end.

(** [taskRef] is nil, or has an id. *)
Definition WaitForTask (rounds : nat) (taskRef : option string) (pollInterval : duration)
    : CLM (option error_value) :=
  if match taskRef with None => true | Some id => is_empty id end then Ret (Some NilError)
  else wait_loop rounds (if pollInterval =? 0 then 2 * second else pollInterval).
End Client.
