(* ===== verification/SdkCapabilities.v ===== *)
(** * SdkCapabilities: what a provider says it can do

    Models [sdk/provider/capabilities/capabilities.go]: the manager of capability
    flags, the profiles, the builder and the response sent to the manager. *)
From S2P Require Import Prelude Contracts.
From stdpp Require Import base gmap strings list.

Abbreviation Capability := string.
Definition CapabilityValidate : Capability := "validate".
Definition CapabilityCreate : Capability := "create".
Definition CapabilityDelete : Capability := "delete".
Definition CapabilityPower : Capability := "power".
Definition CapabilityDescribe : Capability := "describe".
Definition CapabilityGetCapabilities : Capability := "get_capabilities".
Definition CapabilityReconfigure : Capability := "reconfigure".
Definition CapabilityReconfigureOnline : Capability := "reconfigure_online".
Definition CapabilityDiskExpansionOnline : Capability := "disk_expansion_online".
Definition CapabilitySnapshots : Capability := "snapshots".
Definition CapabilityMemorySnapshots : Capability := "memory_snapshots".
Definition CapabilityLinkedClones : Capability := "linked_clones".
Definition CapabilityImageImport : Capability := "image_import".
Definition CapabilityDiskExport : Capability := "disk_export".
Definition CapabilityDiskImport : Capability := "disk_import".
Definition CapabilityExportCompression : Capability := "export_compression".
Definition CapabilityTaskStatus : Capability := "task_status".
Definition CapabilityVSphere : Capability := "vsphere".
Definition CapabilityLibvirt : Capability := "libvirt".
Definition CapabilityFirecracker : Capability := "firecracker".
Definition CapabilityQEMU : Capability := "qemu".
Definition CapabilityMock : Capability := "mock".

Inductive Profile := ProfileCore | ProfileSnapshot | ProfileClone | ProfileImagePrepare | ProfileAdvanced
  | OtherProfile (name : string).

Record Manager := mkManager {
  mgr_capabilities : gmap Capability bool;
  mgr_DiskTypes : list string; mgr_NetworkTypes : list string;
  mgr_ExportFormats : list string; mgr_ImportFormats : list string;
  mgr_ExportBackends : list string; mgr_ImportBackends : list string; mgr_TransferModes : list string
}.
#[export] Instance Manager_eta : Eta Manager := fun r =>
  mkManager (mgr_capabilities r) (mgr_DiskTypes r) (mgr_NetworkTypes r) (mgr_ExportFormats r)
    (mgr_ImportFormats r) (mgr_ExportBackends r) (mgr_ImportBackends r) (mgr_TransferModes r).

Definition NewManager : Manager := mkManager ∅ [] [] [] [] [] [] [].
Definition AddCapability (m : Manager) (cap : Capability) : Manager :=
  m <| mgr_capabilities := <[cap := true]> (mgr_capabilities m) |>.
Definition RemoveCapability (m : Manager) (cap : Capability) : Manager :=
  m <| mgr_capabilities := delete cap (mgr_capabilities m) |>.
(** A key that is missing reads as [false]. *)
Definition HasCapability (m : Manager) (cap : Capability) : bool :=
  default false (mgr_capabilities m !! cap).

Definition SetSupportedDiskTypes (m : Manager) (l : list string) : Manager := m <| mgr_DiskTypes := l |>.
Definition SetSupportedNetworkTypes (m : Manager) (l : list string) : Manager := m <| mgr_NetworkTypes := l |>.
Definition SetSupportedExportFormats (m : Manager) (l : list string) : Manager := m <| mgr_ExportFormats := l |>.
Definition SetSupportedImportFormats (m : Manager) (l : list string) : Manager := m <| mgr_ImportFormats := l |>.
Definition SetSupportedExportBackends (m : Manager) (l : list string) : Manager :=
  m <| mgr_ExportBackends := l |>.
Definition SetSupportedImportBackends (m : Manager) (l : list string) : Manager :=
  m <| mgr_ImportBackends := l |>.
Definition SetSupportedTransferModes (m : Manager) (l : list string) : Manager := m <| mgr_TransferModes := l |>.

(** The response has the fields of the manager's [contracts.Capabilities]. *)
Definition Manager_GetCapabilities (m : Manager) : Capabilities :=
  mkCapabilities (HasCapability m CapabilityReconfigureOnline) (HasCapability m CapabilityDiskExpansionOnline)
    (HasCapability m CapabilitySnapshots) (HasCapability m CapabilityMemorySnapshots)
    (HasCapability m CapabilityLinkedClones) (HasCapability m CapabilityImageImport)
    (mgr_DiskTypes m) (mgr_NetworkTypes m) (HasCapability m CapabilityDiskExport)
    (HasCapability m CapabilityDiskImport) (mgr_ExportFormats m) (mgr_ImportFormats m)
    (HasCapability m CapabilityExportCompression) (mgr_ExportBackends m) (mgr_ImportBackends m)
    (mgr_TransferModes m).

Definition GetProfileCapabilities (p : Profile) : list Capability :=
  match p with
  | ProfileCore =>
      [CapabilityValidate; CapabilityCreate; CapabilityDelete; CapabilityPower; CapabilityDescribe;
       CapabilityGetCapabilities]
  | ProfileSnapshot => [CapabilitySnapshots]
  | ProfileClone => [CapabilityLinkedClones]
  | ProfileImagePrepare => [CapabilityImageImport]
  | ProfileAdvanced => [CapabilityReconfigure; CapabilityReconfigureOnline; CapabilityDiskExpansionOnline]
  | OtherProfile _ => []
  end.
Definition SupportsProfile (m : Manager) (p : Profile) : bool :=
  forallb (HasCapability m) (GetProfileCapabilities p).
Definition GetSupportedProfiles (m : Manager) : list Profile :=
  List.filter (SupportsProfile m)
    [ProfileCore; ProfileSnapshot; ProfileClone; ProfileImagePrepare; ProfileAdvanced].

(** ** The builder, which is its manager *)
Definition NewBuilder : Manager := NewManager.
Definition Core (b : Manager) : Manager := fold_left AddCapability (GetProfileCapabilities ProfileCore) b.
Definition Snapshots (b : Manager) : Manager := AddCapability b CapabilitySnapshots.
Definition MemorySnapshots (b : Manager) : Manager := AddCapability b CapabilityMemorySnapshots.
Definition LinkedClones (b : Manager) : Manager := AddCapability b CapabilityLinkedClones.
Definition ImageImport (b : Manager) : Manager := AddCapability b CapabilityImageImport.
Definition Reconfigure (b : Manager) : Manager := AddCapability b CapabilityReconfigure.
Definition OnlineReconfigure (b : Manager) : Manager := AddCapability b CapabilityReconfigureOnline.
Definition OnlineDiskExpansion (b : Manager) : Manager := AddCapability b CapabilityDiskExpansionOnline.
Definition TaskStatus (b : Manager) : Manager := AddCapability b CapabilityTaskStatus.
Definition DiskExport (b : Manager) (formats : list string) : Manager :=
  let b := AddCapability b CapabilityDiskExport in
  if bool_decide (formats = []) then b else SetSupportedExportFormats b formats.
Definition DiskImport (b : Manager) (formats : list string) : Manager :=
  let b := AddCapability b CapabilityDiskImport in
  if bool_decide (formats = []) then b else SetSupportedImportFormats b formats.
Definition ExportCompression (b : Manager) : Manager := AddCapability b CapabilityExportCompression.
Definition ExportBackends (b : Manager) (l : list string) : Manager := SetSupportedExportBackends b l.
Definition ImportBackends (b : Manager) (l : list string) : Manager := SetSupportedImportBackends b l.
Definition TransferModes (b : Manager) (l : list string) : Manager := SetSupportedTransferModes b l.
Definition VSphere (b : Manager) : Manager := AddCapability b CapabilityVSphere.
Definition Libvirt (b : Manager) : Manager := AddCapability b CapabilityLibvirt.
Definition Firecracker (b : Manager) : Manager := AddCapability b CapabilityFirecracker.
Definition QEMU (b : Manager) : Manager := AddCapability b CapabilityQEMU.
Definition Mock (b : Manager) : Manager := AddCapability b CapabilityMock.
Definition DiskTypes (b : Manager) (l : list string) : Manager := SetSupportedDiskTypes b l.
Definition NetworkTypes (b : Manager) (l : list string) : Manager := SetSupportedNetworkTypes b l.
