(* ===== verification/SdkMiddlewareProps.v ===== *)
(** * SdkMiddlewareProps: which requests reach a provider

    The interceptors of the SDK let a request through to the provider's method once,
    and only when it is authenticated; what the method returns is what the caller
    gets, and a panic becomes an error. *)
From S2P Require Import Prelude Effects GoLib GrpcClient SdkErrors SdkMiddleware.
From stdpp Require Import base gmap strings list.
From Stdlib Require Import ZArith Lia.
#[local] Open Scope Z_scope.

Section Auth.
Context `{Lib : StatusLibrary}.

(** What a certificate may be called. *)
Definition named (leaf : X509Cert) (n : string) : Prop :=
  n ∈ DNSNames leaf \/ n ∈ URIs leaf \/ (CommonName leaf = n /\ n <> "").

Lemma existsb_elem (l : list string) n : existsb (fun x => bool_decide (x = n)) l = true <-> n ∈ l.
Proof.
  rewrite existsb_exists. split.
  - intros (x & Hx & ->%bool_decide_eq_true). by apply list_elem_of_In.
  - intros H. exists n. split; [by apply list_elem_of_In|by apply bool_decide_eq_true].
Qed.

Lemma allow_list_spec leaf sans :
  certMatchesAllowList leaf sans = true <-> exists n, n ∈ sans /\ named leaf n.
Proof.
  unfold certMatchesAllowList, named. rewrite existsb_exists. split.
  - intros (n & Hn%list_elem_of_In & H). exists n. split; [done|].
    rewrite !orb_true_iff, !existsb_elem, andb_true_iff, negb_true_iff in H.
    destruct H as [[?|?]|[Hne Hn'%bool_decide_eq_true]]; [auto|auto|].
    apply is_empty_false in Hne. do 2 right. by subst n.
  - intros (n & Hn & H). exists n. split; [by apply list_elem_of_In|].
    rewrite !orb_true_iff, !existsb_elem, andb_true_iff, negb_true_iff, is_empty_false.
    destruct H as [?|[?|[-> ?]]]; [auto|auto|right]. split; [done|by apply bool_decide_eq_true].
Qed.

(** The caller showed a verified certificate that is on the list, if there is one. *)
Definition certified (ctx : Context) (sans : list string) : Prop :=
  exists leaf rest chains, ctx_peer ctx = Some (mkPeer (Some (TLSInfo ((leaf :: rest) :: chains))))
    /\ (sans = [] \/ exists n, n ∈ sans /\ named leaf n).

Lemma validateTLSPeer_spec ctx sans : validateTLSPeer ctx sans = None <-> certified ctx sans.
Proof.
  unfold validateTLSPeer, certified.
  destruct (ctx_peer ctx) as [[[[[|[|leaf rest] chains]|ty]|]]|]; try (split; [done|naive_solver]).
  cbn. case_bool_decide as Hs; [split; [eauto 10|done]|].
  destruct (certMatchesAllowList leaf sans) eqn:Hm.
  - apply allow_list_spec in Hm. split; [eauto 10|done].
  - split; [done|]. intros (leaf' & rest' & chains' & [= -> -> ->] & [?|Hn]); [done|].
    apply allow_list_spec in Hn. congruence.
Qed.

(** The caller sent a token that the configured check accepts. *)
Definition has_token (ctx : Context) (check : option (Context -> string -> option sdkerr)) : Prop :=
  exists token tokens f, ctx_authorization ctx = Some (token :: tokens) /\ has_prefix token "Bearer " = true
    /\ check = Some f /\ f ctx (String.substring 7 (String.length token - 7) token) = None.

Definition authenticated (ctx : Context) (a : AuthConfig) : Prop :=
  (auth_RequireTLS a = true -> certified ctx (auth_AllowedSANs a))
  /\ (auth_BearerTokenAuth a = true -> has_token ctx (auth_ValidateToken a)).

Lemma validateBearerToken_spec ctx check : validateBearerToken ctx check = Accepted <-> has_token ctx check.
Proof.
  unfold validateBearerToken, has_token.
  destruct (ctx_authorization ctx) as [[|token tokens]|]; try (split; [done|by intros (? & ? & ? & [=] & _)]).
  destruct (has_prefix token "Bearer ") eqn:Hp; cbn [negb];
    [|split; [done|intros (t & ts & f & [= -> ->] & Hp' & _); congruence]].
  destruct check as [f|]; [|split; [done|by intros (? & ? & ? & _ & _ & [=] & _)]].
  destruct (f ctx _) eqn:Hf; split; [done| |eauto 10|done].
  intros (t & ts & g & [= -> ->] & _ & [= ->] & Hg). congruence.
Qed.

Lemma authenticateRequest_spec ctx a : authenticateRequest ctx a = Accepted <-> authenticated ctx a.
Proof.
  unfold authenticateRequest, authenticated. rewrite <- validateTLSPeer_spec, <- validateBearerToken_spec.
  destruct (auth_RequireTLS a); [destruct (validateTLSPeer ctx _) eqn:Ht|];
    [split; [done|]; intros [H _]; by specialize (H eq_refl)| |];
    (destruct (auth_BearerTokenAuth a); [|split; done]);
    (destruct (validateBearerToken ctx _) eqn:Hb; split; [done|done|done| |done|]);
    intros [_ H]; by specialize (H eq_refl).
Qed.

(** A refusal says that the caller is unknown or not allowed. *)
Lemma refusal_codes ctx a e :
  authenticateRequest ctx a = Refused e ->
  exists c m, e = StatusErr c m /\ (c = Unauthenticated \/ c = PermissionDenied).
Proof.
  unfold authenticateRequest, validateTLSPeer. intros H.
  repeat case_match; simplify_eq; eauto.
Qed.
End Auth.

Section Chain.
Context `{Lib : StatusLibrary} {Reply : Type} (reject : sdkerr -> Reply).
Abbreviation trace := (list (event mw_call (mw_answer (Reply := Reply)))).

(** The calls of the provider's method in a trace, with what came of them. *)
Definition handling (x : event mw_call (mw_answer (Reply := Reply))) : option (Context * handled (Reply := Reply)) :=
  match x with
  | existT (Handle ctx) a => Some (ctx, a)
  | existT MwNow _ => None
  end.
Definition result_of (a : handled (Reply := Reply)) : outcome Reply :=
  match a with Returned r => Done r | HandlerPanics w => Panicked w end.

Definition no_later (d' d : option time) : Prop :=
  match d with None => True | Some t => exists t', d' = Some t' /\ t' <= t end.
(** The context the method gets: the caller's, with a deadline that is no later. *)
Definition passed_on (ctx ctx' : Context) : Prop :=
  ctx_peer ctx' = ctx_peer ctx /\ ctx_authorization ctx' = ctx_authorization ctx
  /\ no_later (ctx_deadline ctx') (ctx_deadline ctx).

(** The method is called once, in the same context, and its result is the result. *)
Definition passes (h : Handler (Reply := Reply)) : Prop :=
  forall ctx, wp (h ctx) (fun tr o => exists a, omap handling tr = [(ctx, a)] /\ o = result_of a).

Lemma no_later_refl d : no_later d d.
Proof. destruct d; cbn; eauto with lia. Qed.

Lemma the_handler_passes : passes the_handler.
Proof.
  intros ctx. unfold the_handler. wp_step. wp_step. cbn [bind_post].
  destruct r as [r|w]; cbn; eexists; by split.
Qed.
Lemma passed_on_refl ctx : passed_on ctx ctx.
Proof. split_and!; [done|done|apply no_later_refl]. Qed.

(** Timing the method changes nothing. *)
Lemma timed_passes (h : Handler) :
  passes h -> passes (fun ctx =>
    trigger (E := mw_call) (R := mw_answer (Reply := Reply)) MwNow ≫= fun _ =>
    h ctx ≫= fun r => trigger (E := mw_call) (R := mw_answer (Reply := Reply)) MwNow ≫= fun _ => Ret r).
Proof.
  intros Hh ctx. wp_step. wp_step. cbn [bind_post]. apply wp_bind. eapply wp_mono; [apply Hh|].
  intros tr o (a & Htr & ->). destruct a as [r'|w]; cbn.
  - intros t. exists (Returned r'). rewrite omap_app, Htr. done.
  - exists (HandlerPanics w). rewrite Htr. done.
Qed.

Lemma timeout_deadline ctx now d :
  no_later (ctx_deadline (WithTimeout ctx now d)) (Some (now + d)) /\ passed_on ctx (WithTimeout ctx now d).
Proof.
  unfold WithTimeout, passed_on. destruct (ctx_deadline ctx) as [old|] eqn:Ho; cbn;
    [destruct (Z.leb_spec old (now + d)); cbn|]; rewrite ?Ho; eauto 10 with lia.
Qed.

(** What a limit does to the deadline; without one, nothing. *)
Definition within (limit : option duration) (tr : trace) (ctx ctx' : Context) : Prop :=
  match limit with
  | None => ctx' = ctx
  | Some d => exists now, ev (E := mw_call) (R := mw_answer (Reply := Reply)) MwNow now ∈ tr
                /\ no_later (ctx_deadline ctx') (Some (now + d))
  end.

Lemma timeout_passes config method (h : Handler) :
  passes h -> forall ctx, wp (timeoutInterceptor config method h ctx) (fun tr o =>
    exists ctx' a, omap handling tr = [(ctx', a)] /\ passed_on ctx ctx' /\ o = result_of a
      /\ within (Some (default (to_DefaultTimeout config) (to_PerMethodTimeouts config !! method))) tr ctx ctx').
Proof.
  intros Hh ctx. unfold timeoutInterceptor. cbn zeta. set (d := default _ _). wp_step. wp_step. cbn [bind_post].
  eapply wp_mono; [apply Hh|]. intros tr o (a & Htr & ->).
  destruct (timeout_deadline ctx r d) as [Hd Hp]. exists (WithTimeout ctx r d), a. cbn.
  split_and!; [by rewrite Htr|exact Hp|done|]. exists r. split; [by left|exact Hd].
Qed.

(** The chain inside the authentication: timeout, metrics and logging. *)
Definition inner (config : Config) (method : string) : list (Interceptor (Reply := Reply)) :=
  when (mw_RateLimit config) rl_Enabled rateLimitInterceptor
  ++ when (mw_Timeout config) (fun c => 0 <? to_DefaultTimeout c) (fun c => timeoutInterceptor c method)
  ++ when (mw_Metrics config) met_Enabled metricsInterceptor
  ++ when (mw_Logging config) log_Enabled loggingInterceptor.

(** The limit on the time of a request, when there is one: the limits of single methods
    count only beside a positive default. *)
Definition time_limit (config : Config) (method : string) : option duration :=
  c ← mw_Timeout config;
  if 0 <? to_DefaultTimeout c then Some (default (to_DefaultTimeout c) (to_PerMethodTimeouts c !! method))
  else None.

Lemma chain_app (l1 l2 : list (Interceptor (Reply := Reply))) h : chain (l1 ++ l2) h = chain l1 (chain l2 h).
Proof. apply foldr_app. Qed.

Lemma when_passes {C} (config : option C) wanted (i : C -> Interceptor) h :
  (forall c h, passes h -> passes (i c h)) -> passes h -> passes (chain (when config wanted i) h).
Proof. intros Hi Hh. unfold when. destruct config as [c|]; [destruct (wanted c)|]; cbn; auto. Qed.

Lemma inner_passes config method ctx :
  wp (chain (inner config method) the_handler ctx) (fun tr o => exists ctx' a,
    omap handling tr = [(ctx', a)] /\ passed_on ctx ctx' /\ o = result_of a
    /\ within (time_limit config method) tr ctx ctx').
Proof.
  unfold inner. rewrite !chain_app.
  assert (forall h : Handler, chain (when (mw_RateLimit config) rl_Enabled rateLimitInterceptor) h ctx = h ctx)
    as -> by (intros h; unfold when; by repeat case_match).
  set (h := chain (when (mw_Metrics config) _ _) _).
  assert (passes h) as Hh.
  { apply when_passes; [intros c h'; apply timed_passes|]. apply when_passes; [intros c h'; apply timed_passes|].
    apply the_handler_passes. }
  unfold when, time_limit. destruct (mw_Timeout config) as [c|]; cbn [mbind option_bind];
    [destruct (0 <? to_DefaultTimeout c)|]; cbn [chain foldr].
  - by apply timeout_passes.
  - eapply wp_mono; [apply Hh|]. intros tr o (a & ? & ?). exists ctx, a. by split_and!; [|apply passed_on_refl|..].
  - eapply wp_mono; [apply Hh|]. intros tr o (a & ? & ?). exists ctx, a. by split_and!; [|apply passed_on_refl|..].
Qed.

(** Catching panics. *)
Lemma wp_recovered {A} (p : prog mw_call (mw_answer (Reply := Reply)) A) f Q :
  wp p (fun tr o => Q tr (match o with Done a => Done a | Panicked w => Done (f w) end)) ->
  wp (recovered p f) Q.
Proof. revert Q. induction p as [a|c k IH|w]; intros Q; cbn; [done| |done]. intros H r. by apply IH. Qed.

(** What the caller gets for an outcome of the rest of the chain. *)
Definition recovers (config : Config) : bool :=
  match mw_Recovery config with Some c => rec_Enabled c | None => false end.
Definition answered (config : Config) (o : outcome Reply) : outcome Reply :=
  match o with
  | Panicked _ => if recovers config then Done (reject (StatusErr Internal "internal server error")) else o
  | Done _ => o
  end.

(** The authentication a configuration asks for. *)
Definition auth_check (config : Config) (ctx : Context) : checked :=
  match mw_Auth config with
  | Some a => if auth_RequireTLS a || auth_BearerTokenAuth a then authenticateRequest ctx a else Accepted
  | None => Accepted
  end.

Lemma auth_check_spec config ctx :
  auth_check config ctx = Accepted <-> forall a, mw_Auth config = Some a -> authenticated ctx a.
Proof.
  unfold auth_check. destruct (mw_Auth config) as [a|]; [|naive_solver].
  destruct (auth_RequireTLS a || auth_BearerTokenAuth a) eqn:Hw.
  - rewrite authenticateRequest_spec. naive_solver.
  - apply orb_false_iff in Hw as [H1 H2]. split; [|done]. intros _ a' [= <-]. unfold authenticated.
    rewrite H1, H2. done.
Qed.

(** What happens inside the recovery. *)
Definition guarded (config : Config) (method : string) (ctx : Context) (tr : trace) (o : outcome Reply) : Prop :=
  match auth_check config ctx with
  | Accepted => exists ctx' a, omap handling tr = [(ctx', a)] /\ passed_on ctx ctx'
      /\ within (time_limit config method) tr ctx ctx' /\ o = result_of a
  | Refused e => omap handling tr = [] /\ o = Done (reject e)
  | Panic => omap handling tr = [] /\ o = Panicked "call of a nil ValidateToken"
  end.

Lemma authenticated_chain config method ctx :
  wp (chain (when (mw_Auth config) (fun c => auth_RequireTLS c || auth_BearerTokenAuth c) (authInterceptor reject))
        (chain (inner config method) the_handler) ctx) (guarded config method ctx).
Proof.
  assert (wp (chain (inner config method) the_handler ctx) (fun tr o => exists ctx' a,
    omap handling tr = [(ctx', a)] /\ passed_on ctx ctx'
    /\ within (time_limit config method) tr ctx ctx' /\ o = result_of a)) as Hh.
  { eapply wp_mono; [apply inner_passes|]. intros tr o (ctx' & a & ? & ? & ? & ?). by exists ctx', a. }
  unfold guarded, auth_check, when. destruct (mw_Auth config) as [a|]; [|exact Hh].
  destruct (auth_RequireTLS a || auth_BearerTokenAuth a); [|exact Hh].
  cbn [chain foldr]. unfold authInterceptor. by destruct (authenticateRequest ctx a).
Qed.

(** C16. The interceptors guard the provider's method: when the configuration asks
    for authentication and the caller has not shown a verified client certificate
    with an allowed name (and a valid token, where asked for), the method is not
    called and the answer is Unauthenticated or PermissionDenied; otherwise it is
    called exactly once, in the caller's context with a deadline no later than the
    caller's, and its answer is passed on.  When the default limit is positive the
    deadline is also no later than the limit of the method, or else the default one,
    allows; without a positive default the context is the caller's unchanged, whatever
    limit is configured for the method.  A token that is asked for without a check for it makes the interceptor
    panic, and the method is not called.  With recovery on, a panic anywhere inside is
    answered as an internal error. *)
Theorem requests_are_guarded config method ctx tr o :
  runs (serve_request reject (Some config) method ctx) tr o ->
  match auth_check config ctx with
  | Accepted =>
      (forall a, mw_Auth config = Some a -> authenticated ctx a)
      /\ exists ctx' a, omap handling tr = [(ctx', a)] /\ passed_on ctx ctx'
           /\ o = answered config (result_of a)
           /\ (forall c, mw_Timeout config = Some c -> 0 < to_DefaultTimeout c ->
                within (Some (default (to_DefaultTimeout c) (to_PerMethodTimeouts c !! method))) tr ctx ctx')
           /\ (forall c, mw_Timeout config = Some c -> to_DefaultTimeout c <= 0 -> ctx' = ctx)
  | Refused e =>
      omap handling tr = [] /\ o = Done (reject e)
      /\ exists c m, e = StatusErr c m /\ (c = Unauthenticated \/ c = PermissionDenied)
  | Panic => omap handling tr = [] /\ o = answered config (Panicked "call of a nil ValidateToken")
  end.
Proof.
  intros Hr. assert (exists o', guarded config method ctx tr o' /\ o = answered config o') as (o' & Hg & ->).
  { revert tr o Hr. apply wp_runs. unfold serve_request, Build. fold (inner config method). rewrite !chain_app.
    pose proof (authenticated_chain config method ctx) as Ha. revert Ha. generalize (chain (inner config method) (the_handler (Reply := Reply))).
    intros h Ha. unfold answered, recovers, when at 1.
    destruct (mw_Recovery config) as [c|]; [destruct (rec_Enabled c)|]; cbn [chain foldr].
    - apply wp_recovered. eapply wp_mono; [exact Ha|]. intros tr [r|w] H; eauto.
    - eapply wp_mono; [exact Ha|]. intros tr [r|w] H; eauto.
    - eapply wp_mono; [exact Ha|]. intros tr [r|w] H; eauto. }
  unfold guarded in Hg. destruct (auth_check config ctx) as [|e|] eqn:Hc.
  - split; [by apply auth_check_spec|]. destruct Hg as (ctx' & a & ? & ? & Hw & ->). exists ctx', a.
    unfold time_limit in Hw. split_and!; [done..| |]; intros c Hcfg Hpos; rewrite Hcfg in Hw;
      cbn [mbind option_bind] in Hw.
    + apply Z.ltb_lt in Hpos. by rewrite Hpos in Hw.
    + apply Z.ltb_ge in Hpos. by rewrite Hpos in Hw.
  - destruct Hg as [? ->]. split_and!; [done|done|]. unfold auth_check in Hc.
    destruct (mw_Auth config) as [a|]; [|done]. destruct (_ || _); [|done]. by eapply refusal_codes.
  - by destruct Hg as [? ->].
Qed.
End Chain.

(** ** A request without a certificate *)
Module DemoMiddleware.
Import DemoStatus.
Definition strict : Config :=
  mkMiddlewareConfig None (Some (mkRecoveryConfig true))
    (Some (mkAuthConfig true ["manager"] false None)) None None None.
Definition manager : X509Cert := mkX509Cert ["manager"] [] "".
Definition from (p : option Peer) : Context := mkContext p None None.
Definition reject (e : sdkerr) : option sdkerr := Some e.
(** A method that panics. *)
Definition serve (c : mw_call) (w : unit) : mw_answer (Reply := option sdkerr) c * unit :=
  match c with MwNow => (0, w) | Handle _ => (HandlerPanics "boom", w) end.
Definition request (p : option Peer) := exec serve (serve_request reject (Some strict) "/m" (from p)) tt.

Lemma requests_are_guarded_witness :
  auth_check strict (from None) <> Accepted
  /\ omap (handling (Reply := option sdkerr)) (request None).1.1 = []
  /\ exists ctx' a, omap (handling (Reply := option sdkerr))
       (request (Some (mkPeer (Some (TLSInfo [[manager]]))))).1.1 = [(ctx', a)].
Proof.
  split; [discriminate|]. split.
  - exact (proj1 (requests_are_guarded reject strict "/m" (from None) _ _ (exec_runs serve _ tt))).
  - destruct (proj2 (requests_are_guarded reject strict "/m" (from (Some (mkPeer (Some (TLSInfo [[manager]])))))
                       _ _ (exec_runs serve _ tt))) as (ctx' & a & H & _).
    exists ctx', a. exact H.
Defined.
End DemoMiddleware.
