(* ===== verification/SdkProps.v ===== *)
(** * SdkProps: errors and credentials between a provider and the manager

    Errors of the SDK keep their meaning on the way to the manager, with one
    exception; a provider serves with TLS unless its operator chose plaintext, and
    the two ends of the connection that the Provider controller configures agree;
    the SDK's own client reports an error for calls that succeeded. *)
From S2P Require Import Prelude Contracts K8s Api CoreApi Effects GoLib GrpcClient Resolver Cluster TraceSpec MigrationHelpers GrpcClientProps ProviderController ProviderControllerProps SdkErrors SdkMiddleware SdkServer SdkClient.
From stdpp Require Import base gmap strings list.
From Stdlib Require Import ZArith Lia.
Import v1beta1.
#[local] Open Scope Z_scope.

(** ** Errors *)
Section Errors.
Context `{SLib : StatusLibrary} `{SOk : !StatusLibraryOk} `{GLib : GrpcLibrary} `{GOk : !GrpcLibraryOk}.

(** A provider's error: its code is an error code and says whether to retry. *)
Definition coherent (e : SdkErrors.ProviderError) : Prop :=
  pe_Code e <> OK /\ pe_Retryable e = isRetryable (pe_Code e).

(** The errors the SDK builds are coherent, also when they are wrapped or received. *)
Inductive built : SdkErrors.ProviderError -> Prop :=
  | built_invalid m : built (NewInvalidSpec m)
  | built_not_found r id : built (NewNotFound r id)
  | built_exists r id : built (NewAlreadyExists r id)
  | built_denied op : built (NewPermissionDenied op)
  | built_unavailable s c : built (NewUnavailable s c)
  | built_internal m c : built (NewInternal m c)
  | built_unimplemented op : built (NewUnimplemented op)
  | built_timeout op d : built (NewTimeout op d)
  | built_rate_limit d : built (NewRateLimit d)
  | built_canceled op : built (NewCanceled op)
  | built_wrap err m e :
      (forall pe, err = ProvErr pe -> built pe) -> Wrap (Some err) m = Some e -> built e.

Lemma classified e : classifyError e <> OK.
Proof. unfold classifyError. by repeat case_match. Qed.

Lemma built_coherent e : built e -> coherent e.
Proof.
  induction 1 as [| | | | | | | | | |err m e Hpe IH Hw]; try done.
  unfold coherent. destruct err as [s|n|p err|c n|pe]; cbn in Hw; injection Hw as <-; cbn;
    try (split; [apply classified|done]); [done|done|].
  apply (IH pe eq_refl).
Qed.

(** What the manager makes of an error that a provider's method returned. *)
Definition received (operation : string) (err : sdkerr) : goerror :=
  let s := sent_status err in mapGRPCError operation (Errorf s.1 s.2).

(** C19. An error built with the SDK keeps its meaning on the way to the manager:
    there it is a not-found error, an invalid-spec error or one to be retried exactly
    when it was for the provider, except that an exhausted resource (a rate limit),
    which the SDK marks as retryable, is not retried. *)
Theorem provider_errors_reach_the_manager operation e :
  built e ->
  Contracts.IsNotFound (received operation (ProvErr e)) = SdkErrors.IsNotFound (ProvErr e)
  /\ (as_provider_error (received operation (ProvErr e)) = Some ErrorTypeInvalidSpec
      <-> SdkErrors.IsInvalidSpec (ProvErr e) = true)
  /\ (as_provider_error (received operation (ProvErr e)) = Some ErrorTypeRetryable
      <-> SdkErrors.IsRetryable (ProvErr e) = true /\ pe_Code e <> ResourceExhausted).
Proof.
  intros [Hc Hr]%built_coherent. unfold received, sent_status. rewrite from_provider_error by done.
  unfold GRPCStatus, mapGRPCError, SdkErrors.IsNotFound, SdkErrors.IsInvalidSpec, SdkErrors.IsRetryable. cbn.
  rewrite from_errorf, Hr by done. unfold Contracts.IsNotFound.
  destruct (pe_Code e); try done; cbn; (split_and!; [done|split; naive_solver|split; naive_solver]).
Qed.

(** What the SDK's client makes of it. *)
Lemma sdk_error_round_trip e :
  coherent e ->
  FromGRPCError (ToGRPCError (Some (ProvErr e)))
  = Some (mkProviderError (pe_Code e) (pe_Error e) None (pe_Retryable e) 0).
Proof.
  intros [Hc Hr]. cbn. unfold status_Err, GRPCStatus. cbn. rewrite bool_decide_eq_false_2 by done.
  cbn. by rewrite from_status_error, Hr.
Qed.
End Errors.

(** ** The SDK's client *)
Section Client.
Context `{SLib : StatusLibrary} (c : SdkClient.Config).

(** Every method of the SDK's client but [ListVMs] reports an error, also when
    the call succeeded: the nil pointer that says so is converted to an error, and
    that is not nil.  So a wait for a task ends with an error at the first poll, even
    when the task is done. *)
Theorem sdk_client_fails_on_success :
  (forall name tr resp err, runs (call c name) tr (Done (resp, err)) -> not_nil err = true)
  /\ (forall rounds id interval tr err, id <> "" ->
        runs (WaitForTask c rounds (Some id) interval) tr (Done (Some err)) -> not_nil err = true).
Proof.
  split.
  - intros name tr resp err ((resp' & e) & tr' & -> & Hr). destruct Hr as [_ [= -> ->]]. done.
  - intros rounds id interval tr err Hid. unfold WaitForTask. rewrite (proj2 (is_empty_false id)) by done.
    destruct rounds as [|n]; [by intros [_ [=]]|].
    intros ([|e] & tr' & -> & Hr); [|by destruct Hr as [_ [= ->]]].
    destruct Hr as ((resp & e) & tr2 & -> & Hr). by destruct Hr as [_ [= ->]].
Qed.
End Client.

(** ** Credentials *)
Section Server.
Context `{X : X509}.
Abbreviation sev := (ev (E := srv_call) (R := srv_answer)).
Abbreviation strace := (list (event srv_call srv_answer)).

Definition tls_files : list string := [ProviderTLSCertFile; ProviderTLSKeyFile; ProviderTLSCAFile].

(** The server asks for TLS 1.3 and a client certificate it can verify. *)
Definition mutual (srv : Server) : Prop :=
  exists tls pool, Creds tls ∈ srv_options srv /\ stls_MinVersion tls = VersionTLS13
    /\ stls_ClientCAs tls = Some pool /\ stls_RequireAndVerifyClientCert tls = true.
Definition asks_for_certificates (srv : Server) : Prop :=
  exists m a, Interceptors m ∈ srv_options srv /\ mw_Auth m = Some a /\ auth_RequireTLS a = true.
Definition plaintext (srv : Server) : Prop := forall tls, Creds tls ∉ srv_options srv.

(** How the resolution depends on the files and the environment. *)
Lemma resolution_cases tr res err :
  runs ResolveTLSAndAuth tr (Done (res, err)) ->
  (exists x, res = Some x /\ err = None /\ (forall f, f ∈ tls_files -> sev (StatPath f) RegularFile ∈ tr)
     /\ res_TLS x = Some (mkServerTLSConfig ProviderTLSCertFile ProviderTLSKeyFile ProviderTLSCAFile true true)
     /\ auth_RequireTLS (res_Auth x) = true)
  \/ (exists v, res = Some insecure_resolution /\ err = Some (ESentinel ErrInsecureModeOptedIn)
        /\ (forall f, f ∈ tls_files -> exists a, sev (StatPath f) a ∈ tr /\ a <> RegularFile)
        /\ sev (Getenv EnvInsecure) v ∈ tr /\ lower_string (TrimSpace v) = "true")
  \/ (res = None /\ exists m, err = Some (ENew m)
      /\ (exists f a, f ∈ tls_files /\ sev (StatPath f) a ∈ tr /\ a <> RegularFile)
      /\ ((exists f, f ∈ tls_files /\ sev (StatPath f) RegularFile ∈ tr)
          \/ exists v, sev (Getenv EnvInsecure) v ∈ tr /\ lower_string (TrimSpace v) <> "true")).
Proof.
  intros (a1 & t1 & -> & a2 & t2 & -> & a3 & t3 & -> & raw & t4 & -> & Hr).
  change (Clean ProviderTLSCertFile) with ProviderTLSCertFile.
  change (Clean ProviderTLSKeyFile) with ProviderTLSKeyFile.
  change (Clean ProviderTLSCAFile) with ProviderTLSCAFile.
  assert (forall f, f ∈ tls_files -> f = ProviderTLSCertFile \/ f = ProviderTLSKeyFile \/ f = ProviderTLSCAFile) as Hf.
  { intros f. unfold tls_files. rewrite !elem_of_cons, elem_of_nil. tauto. }
  assert (ProviderTLSCertFile ∈ tls_files /\ ProviderTLSKeyFile ∈ tls_files /\ ProviderTLSCAFile ∈ tls_files)
    as (Hc & Hk & Hca) by (unfold tls_files; rewrite !elem_of_cons; tauto).
  assert (forall x y z w : event srv_call srv_answer, x ∈ x :: y :: z :: w :: t4 /\ y ∈ x :: y :: z :: w :: t4
            /\ z ∈ x :: y :: z :: w :: t4) as Hin by (intros; rewrite !elem_of_cons; tauto).
  destruct (Hin (sev (StatPath ProviderTLSCertFile) a1) (sev (StatPath ProviderTLSKeyFile) a2)
              (sev (StatPath ProviderTLSCAFile) a3) (sev (Getenv EnvAllowedSANs) raw)) as (E1 & E2 & E3).
  clear Hin. revert E1 E2 E3. set (tr := _ :: _). intros E1 E2 E3.
  assert (forall v, sev (Getenv EnvInsecure) v ∈ t4 -> sev (Getenv EnvInsecure) v ∈ tr) as Htr
    by (intros v Hv; subst tr; rewrite !elem_of_cons; auto).
  destruct a1, a2, a3; cbn in Hr;
    lazymatch type of Hr with
    | _ = [] /\ Done _ = Done (Some _, None) =>
        left; destruct Hr as [_ [= -> ->]]; eexists; split_and!; [done|done| |done|done];
        intros f [H|[H|H]]%Hf; by rewrite H
    | _ = [] /\ _ =>
        right; right; destruct Hr as [_ [= -> ->]]; split; [done|]; eexists; split; [done|]; split;
        [first [exists ProviderTLSCertFile; eexists; by split_and!
               |exists ProviderTLSKeyFile; eexists; by split_and!
               |exists ProviderTLSCAFile; eexists; by split_and!]
        |left; first [exists ProviderTLSCertFile; by split_and! |exists ProviderTLSKeyFile; by split_and!
                     |exists ProviderTLSCAFile; by split_and!]]
    | _ => idtac
    end.
  all: destruct Hr as (v & t5 & -> & Hr); destruct (bool_decide_reflect (lower_string (TrimSpace v) = "true")) as [Hv|Hv];
    destruct Hr as [-> [= -> ->]];
    [right; left; exists v; split_and!; [done|done| |apply Htr; by left|done];
     intros f [H|[H|H]]%Hf; rewrite H; by eexists
    |right; right; split; [done|]; eexists; split; [done|]; split;
     [exists ProviderTLSCertFile; eexists; by split_and!|right; exists v; split; [apply Htr; by left|done]]].
Qed.

Lemma insecure_is_sentinel : errors_Is (ESentinel ErrInsecureModeOptedIn) ErrInsecureModeOptedIn = true.
Proof. reflexivity. Qed.

Lemma server_tls_spec c :
  RequireClientCert c = true ->
  wp (buildServerTLSConfig c) (fun _ o => exists r, o = Done r /\ forall tls w, r = Ok (tls, w) ->
    stls_MinVersion tls = VersionTLS13 /\ is_Some (stls_ClientCAs tls)
    /\ stls_RequireAndVerifyClientCert tls = true).
Proof.
  intros Hc. unfold buildServerTLSConfig. rewrite Hc. apply wp_bind.
  eapply wp_mono with (Q := fun _ o => exists l, o = Done l).
  { destruct (AutoReload c); wp_steps; eauto. }
  intros tr o [[leaf|e] ->]; cbn [bind_post negb]; [|wp_steps; by eexists].
  destruct (is_empty (CAFile c)); [wp_steps; by eexists|]. wp_step. wp_step. cbn [bind_post].
  destruct r as [pem|e]; [|wp_steps; by eexists]. destruct (AppendCertsFromPEM pem); wp_steps; [|by eexists].
  eexists. split; [done|]. intros tls w [= <- <-]. by split_and!.
Qed.

(** A server is made with the credentials its configuration asks for. *)
Lemma New_secures config :
  (forall c, sc_TLS config = Some c -> RequireClientCert c = true) ->
  wp (SdkServer.New (Some config)) (fun _ o => exists r, o = Done r /\ forall srv, r = Ok srv ->
    (forall m, sc_Middleware config = Some m -> Interceptors m ∈ srv_options srv)
    /\ (sc_TLS config = None -> plaintext srv) /\ (sc_TLS config <> None -> mutual srv)).
Proof.
  intros Hreq. unfold SdkServer.New. cbn zeta. change (default SdkServer.DefaultConfig (Some config)) with config.
  apply wp_bind. change (sc_TLS (filled config)) with (sc_TLS config).
  assert (forall creds w, (forall m, sc_Middleware config = Some m ->
    Interceptors m ∈ keepalive_options (sc_KeepAlive config) ++ creds ++ middleware_options (sc_Middleware config))
    /\ ((forall tls, Creds tls ∉ creds) -> plaintext (mkServer (filled config)
          (keepalive_options (sc_KeepAlive config) ++ creds ++ middleware_options (sc_Middleware config)) w))) as Hopts.
  { intros creds w. split.
    - intros m ->. cbn. rewrite !elem_of_app. right; right. by left.
    - intros Hno tls. cbn [srv_options]. rewrite !elem_of_app. intros [Hin|[Hin|Hin]]; [|by apply (Hno tls)|].
      + destruct (sc_KeepAlive config) as [[[k|] [q|]]|]; cbn in Hin; set_solver.
      + destruct (sc_Middleware config); cbn in Hin; set_solver. }
  destruct (sc_TLS config) as [c|] eqn:Htls.
  - cbn beta iota. wp_use server_tls_spec; [by apply Hreq|]. intros tr o ([[tls w]|e] & -> & Hs); cbn [bind_post wp]; [|by eexists].
    eexists. split; [done|]. intros srv [= <-]. destruct (Hopts [Creds tls] w) as [Hm _].
    split_and!; [exact Hm|done|]. intros _. destruct (Hs tls w eq_refl) as (H1 & [pool H2] & H3).
    exists tls, pool. split_and!; [|done|done|done]. cbn [srv_options]. set_solver.
  - cbn beta iota. wp_steps. eexists. split; [done|]. intros srv [= <-]. destruct (Hopts [] false) as [Hm Hp].
    split_and!; [exact Hm| |done]. intros _. apply Hp. intros tls. apply not_elem_of_nil.
Qed.

Lemma started port healthPort x :
  (forall c, res_TLS x = Some c -> RequireClientCert c = true) ->
  wp (start_server port healthPort (Some x)) (fun _ o => exists srv, o = Done srv /\ forall s, srv = Some s ->
    (auth_RequireTLS (res_Auth x) = true -> asks_for_certificates s)
    /\ (res_TLS x = None -> plaintext s) /\ (res_TLS x <> None -> mutual s)).
Proof.
  intros Hx. unfold start_server. wp_use New_secures; [exact Hx|].
  intros tr o (r & -> & Hr). cbn [bind_post wp]. eexists. split; [done|]. intros s Hs.
  destruct r as [srv|e]; [injection Hs as <-|done]. destruct (Hr srv eq_refl) as (Hm & Hp & Hmut).
  split_and!; [|done|done]. intros Ha. eexists _, (res_Auth x). split; [by apply Hm|]. by split.
Qed.

Lemma resolution_total : wp ResolveTLSAndAuth (fun _ o => exists r, o = Done r).
Proof. unfold ResolveTLSAndAuth, fileExists, isInsecureOptedIn. wp_steps; eauto. Qed.

(** C17. A provider's main function ends without a panic, and the server it makes,
    if it makes one, asks every caller for a certificate over TLS 1.3 and checks it
    in the transport and again in the interceptors; it serves plaintext only when
    none of the certificate files is there and the operator has set the variable
    that asks for it. *)
Theorem provider_server_is_secured port healthPort tr o :
  runs (provider_main port healthPort) tr o ->
  exists srv, o = Done srv /\ forall s, srv = Some s ->
    (mutual s /\ asks_for_certificates s)
    \/ (plaintext s /\ exists v, sev (Getenv EnvInsecure) v ∈ tr /\ lower_string (TrimSpace v) = "true"
        /\ forall f, f ∈ tls_files -> exists a, sev (StatPath f) a ∈ tr /\ a <> RegularFile).
Proof.
  intros [(tr1 & tr2 & [res err] & -> & Hres & Hr)|(w & Hres & ->)]%runs_bind_inv;
    [|by apply (proj1 (wp_runs _ _) resolution_total) in Hres as [? [=]]].
  destruct (resolution_cases tr1 res err Hres)
    as [(x & -> & -> & _ & Htls & Hauth)|[(v & -> & -> & Hf & Hv & He)|(-> & m & -> & _ & _)]].
  - apply (proj1 (wp_runs _ _) (started port healthPort x ltac:(rewrite Htls; by intros c [= <-])))
      in Hr as (srv & -> & Hs). exists srv. split; [done|]. intros s Hsrv.
    destruct (Hs s Hsrv) as (Ha & _ & Hm). left. split; [|by apply Ha]. apply Hm. by rewrite Htls.
  - cbn beta iota in Hr. rewrite insecure_is_sentinel in Hr.
    apply (proj1 (wp_runs _ _) (started port healthPort insecure_resolution ltac:(done)))
      in Hr as (srv & -> & Hs). exists srv. split; [done|]. intros s Hsrv.
    destruct (Hs s Hsrv) as (_ & Hp & _). right. split; [by apply Hp|]. exists v.
    split_and!; [by apply elem_of_history|done|]. intros f (a & Ha & Hne)%Hf. exists a.
    split; [by apply elem_of_history|done].
  - cbn in Hr. destruct Hr as [-> ->]. by eexists.
Qed.
End Server.

(** ** The two ends of a connection

    What a container of a Deployment's pod sees of files and environment, as the
    Kubernetes documentation has it: a mounted Secret shows its keys as files, a path
    under no mount is what the image has there, and of two variables of one name the
    last one counts. *)
Definition covers (m : VolumeMount) (path : string) : bool := has_prefix path (mnt_MountPath m +:+ "/").
Definition env_value (env : list EnvVar) (name : string) : option EnvVar :=
  List.find (fun e => bool_decide (ev_Name e = name)) (rev env).
Definition pod_env (d : Deployment) : list EnvVar := pod_Containers (pod_of d) ≫= ctr_Env.

Record pod_view (secrets : string -> option Secret) (image : string -> path_info) (d : Deployment) := mkPodView {
  view_stat : string -> path_info;
  view_getenv : string -> string;
  view_secret m v s secret k :
    m ∈ pod_mounts_of d -> v ∈ podspec_Volumes (pod_of d) -> vol_Name v = mnt_Name m ->
    vol_Source v = SourceSecret s -> secrets s = Some secret ->
    view_stat (mnt_MountPath m +:+ "/" +:+ k)
      = match secret_Data secret !! k with Some _ => RegularFile | None => NoSuchFile end;
  view_image path :
    (forall m, m ∈ pod_mounts_of d -> covers m path = false) -> view_stat path = image path;
  view_env name e : env_value (pod_env d) name = Some e -> ev_FieldPath e = None -> view_getenv name = ev_Value e
}.
Arguments view_stat {secrets image d} _ _.
Arguments view_getenv {secrets image d} _ _.

Lemma find_last {A} (f : A -> bool) l1 x l2 :
  f x = true -> (forall y, y ∈ l2 -> f y = false) -> List.find f (rev (l1 ++ x :: l2)) = Some x.
Proof.
  intros Hx Hl2. rewrite rev_app_distr. cbn [rev]. rewrite <- app_assoc.
  assert (forall y, y ∈ rev l2 -> f y = false) as Hr
    by (intros y Hy%list_elem_of_In; apply Hl2, list_elem_of_In; by apply in_rev).
  induction (rev l2) as [|y l IH]; cbn; [by rewrite Hx|].
  rewrite (Hr y) by by left. apply IH. intros z Hz. apply Hr. by right.
Qed.

Section Ends.
Context `{Lib : Libraries} `{LOk : !LibrariesOk} `{Own : OwnerReferences} `{X : X509}.
Context (r : ProviderReconciler) (p : Provider).
Abbreviation sev := (ev (E := srv_call) (R := srv_answer)).

(** The process sees what the view says. *)
Definition sees {secrets image d} (view : pod_view secrets image d) (tr : list (event srv_call srv_answer)) : Prop :=
  (forall f a, sev (StatPath f) a ∈ tr -> a = view_stat view f)
  /\ (forall n v, sev (Getenv n) v ∈ tr -> v = view_getenv view n).

Lemma mounts_of_template d rt a1 a2 :
  dep_Template d = dep_Template (deployment_for p rt a1 a2) ->
  pod_mounts_of d = provider_mounts p (claim_mounts a1)
  /\ podspec_Volumes (pod_of d) = provider_volumes p (tls_volumes p) (claim_volumes a2)
  /\ pod_env d = provider_env p rt.
Proof.
  intros Ht. unfold pod_mounts_of, pod_env, pod_of. rewrite Ht. split_and!; [|done|].
  - change (pod_Containers _ ≫= ctr_VolumeMounts) with (provider_mounts p (claim_mounts a1) ++ []). apply app_nil_r.
  - change (pod_Containers _ ≫= ctr_Env) with (provider_env p rt ++ []). apply app_nil_r.
Qed.

(** The files are those of the Secret when TLS is on, and the image's when not. *)
Lemma tls_file_seen {secrets image d} (view : pod_view secrets image d) rt a1 a2 k :
  deployable p rt -> dep_Template d = dep_Template (deployment_for p rt a1 a2) ->
  (forall name secret, tls_volumes p = [mkVolume providerTLSVolumeName (SourceSecret name)] ->
     secrets name = Some secret ->
     view_stat view (ProviderTLSMountPath +:+ "/" +:+ k)
       = match secret_Data secret !! k with Some _ => RegularFile | None => NoSuchFile end)
  /\ (providerTLSEnabled p = false ->
      view_stat view (ProviderTLSMountPath +:+ "/" +:+ k) = image (ProviderTLSMountPath +:+ "/" +:+ k)).
Proof.
  intros Hd Ht. destruct (mounts_of_template d rt a1 a2 Ht) as (Hm & Hv & _). split.
  - intros name secret Hvol Hs.
    apply (view_secret _ _ _ view (mkVolumeMount providerTLSVolumeName providerTLSMountPath true)
             (mkVolume providerTLSVolumeName (SourceSecret name)) name); [| |done|done|done].
    + rewrite Hm. unfold provider_mounts. rewrite !elem_of_app. right; left.
      destruct (tls_mount_has_volume p rt Hd) as [[He _]|[-> _]]; [congruence|by left].
    + rewrite Hv. unfold provider_volumes. rewrite Hvol, !elem_of_app. right; left. by left.
  - intros Hoff. apply view_image. intros m. rewrite Hm. unfold provider_mounts. rewrite Hoff, !elem_of_app.
    intros [->%list_elem_of_singleton|[H|[H|[->%list_elem_of_singleton|H]]]]; [done| | |done|].
    + by apply not_elem_of_nil in H.
    + destruct a1 as [pvcs|e]; [|by apply not_elem_of_nil in H]. apply list_elem_of_fmap in H as (c & -> & _). done.
    + case_bool_decide; [|by apply not_elem_of_nil in H]. by apply list_elem_of_singleton in H as ->.
Qed.

Lemma optional_env_name n v y : y ∈ optional_env n v -> ev_Name y = n.
Proof.
  unfold optional_env. case_match; [by intros ?%not_elem_of_nil|]. by intros ->%list_elem_of_singleton.
Qed.

(** The variable that allows plaintext, unless the Provider's own variables set it. *)
Lemma insecure_env_seen {secrets image d} (view : pod_view secrets image d) rt a1 a2 :
  dep_Template d = dep_Template (deployment_for p rt a1 a2) -> providerTLSEnabled p = false ->
  EnvInsecure ∉ ev_Name <$> rts_Env rt -> view_getenv view EnvInsecure = "true".
Proof.
  intros Ht Hoff Hown. destruct (mounts_of_template d rt a1 a2 Ht) as (_ & _ & He).
  apply (view_env _ _ _ view EnvInsecure (plain_env envProviderInsecure "true")); [|done].
  unfold env_value. rewrite He. unfold provider_env. rewrite Hoff. cbn zeta.
  match goal with |- List.find _ (rev (?l ++ [?x] ++ ?l2)) = _ => apply (find_last _ l x l2) end;
    [by apply bool_decide_eq_true|].
  intros y Hy. apply bool_decide_eq_false. intros Hn. rewrite !elem_of_app in Hy.
  destruct Hy as [->%list_elem_of_singleton|[Hy|[Hy|[Hy|Hy]]]]; [done| | | |].
  - by rewrite (optional_env_name _ _ _ Hy) in Hn.
  - by rewrite (optional_env_name _ _ _ Hy) in Hn.
  - unfold defaults_env in Hy. destruct (psp_Defaults _); [|by apply not_elem_of_nil in Hy].
    rewrite !elem_of_app in Hy.
    destruct Hy as [Hy|[Hy|[Hy|Hy]]]; by rewrite (optional_env_name _ _ _ Hy) in Hn.
  - apply Hown, list_elem_of_fmap. by exists y.
Qed.

(** The manager's end: credentials exactly when TLS is on. *)
Lemma manager_end `{GLib : GrpcLibrary} tr cfg :
  runs (buildTLSConfig p) tr (Done (Ok cfg)) -> (cfg <> None <-> providerTLSEnabled p = true).
Proof.
  unfold buildTLSConfig, tls_block, providerTLSEnabled.
  destruct (rt ← provider_Runtime p; svc ← rts_Service rt; svc_TLS svc) as [t|]; [|by intros [_ [=]]].
  destruct (tls_Enabled t); cbn [negb]; [|by intros [_ [= ->]]].
  destruct (tls_SecretRef t) as [ref|]; [|by intros [_ [=]]].
  destruct (is_empty (lref_Name ref)); [by intros [_ [=]]|].
  intros ([secret|e] & tr' & -> & Hr); [|by destruct Hr as [_ [=]]].
  destruct Hr as [_ Hr]. case_match; simplify_eq. done.
Qed.

Lemma tls_file_keys f :
  f ∈ tls_files -> exists k, f = ProviderTLSMountPath +:+ "/" +:+ k
    /\ k ∈ [tlsSecretKeyCert; tlsSecretKeyKey; tlsSecretKeyCA].
Proof.
  unfold tls_files. rewrite !elem_of_cons, elem_of_nil.
  intros [H|[H|[H|[]]]]; rewrite H; [exists "tls.crt"|exists "tls.key"|exists "ca.crt"];
    (split; [done|]); rewrite !elem_of_cons; auto.
Qed.

Lemma enabled_secret rt :
  deployable p rt -> providerTLSEnabled p = true ->
  exists tls ref, tls_block p = Some tls /\ tls_SecretRef tls = Some ref
    /\ tls_volumes p = [mkVolume providerTLSVolumeName (SourceSecret (lref_Name ref))].
Proof.
  intros (_ & Hrt & _ & s & tls & Hs & Ht & Hd) He. unfold tls_volumes. rewrite He. revert He.
  unfold providerTLSEnabled, tls_block. rewrite Hrt. cbn [mbind option_bind]. rewrite Hs. cbn [mbind option_bind].
  rewrite Ht. cbn [mbind option_bind]. intros He. destruct Hd as [?|(ref & Href & _)]; [congruence|].
  exists tls, ref. by rewrite Href.
Qed.

(** The keys the manager requires are there. *)
Lemma complete_secret secret k :
  missing_keys secret = [] -> k ∈ [tlsSecretKeyCert; tlsSecretKeyKey; tlsSecretKeyCA] ->
  is_Some (secret_Data secret !! k).
Proof.
  intros Hm Hk. destruct (secret_Data secret !! k) as [v|] eqn:Hv; [by eexists|exfalso].
  assert (k ∈ missing_keys secret) as Hin; [|rewrite Hm in Hin; by apply not_elem_of_nil in Hin].
  apply list_elem_of_In, List.filter_In. split; [by apply list_elem_of_In|].
  apply bool_decide_eq_true. unfold secret_key. by rewrite Hv.
Qed.

(** C12. The two ends of the connection that a Provider describes agree: in a pod of
    the Deployment that the controller writes, the provider resolves to serving with
    TLS and client certificates when the Provider says so and its Secret has what the
    manager requires of it, and to plaintext when it says no; and the manager's
    resolver uses credentials in the first case and none in the second.  The image
    must not bring certificates of its own, nor the Provider's own variables set the
    one that allows plaintext. *)
Theorem tls_ends_agree `{GLib : GrpcLibrary} tr o d {secrets image} (view : pod_view secrets image d) tr' res err :
  runs (reconcile_provider r p) tr o -> deploys tr d ->
  runs ResolveTLSAndAuth tr' (Done (res, err)) -> sees view tr' ->
  (forall k, image (ProviderTLSMountPath +:+ "/" +:+ k) = NoSuchFile) ->
  (forall rt, provider_Runtime p = Some rt -> EnvInsecure ∉ ev_Name <$> rts_Env rt) ->
  (forall tls ref, tls_block p = Some tls -> tls_SecretRef tls = Some ref ->
     exists secret, secrets (lref_Name ref) = Some secret /\ missing_keys secret = []) ->
  (exists x, res = Some x
     /\ (providerTLSEnabled p = true <-> res_TLS x <> None)
     /\ (res_TLS x <> None -> auth_RequireTLS (res_Auth x) = true))
  /\ forall tr2 cfg, runs (buildTLSConfig p) tr2 (Done (Ok cfg)) -> (cfg <> None <-> providerTLSEnabled p = true).
Proof.
  intros Hr Hd Hres [Hstat Henv] Himg Hown Hsec. split; [|intros tr2 cfg; apply manager_end].
  destruct (deploys_shape r p tr o d Hr Hd) as (rt & a1 & a2 & Hdep & _ & _ & Ht).
  assert (forall f a, f ∈ tls_files -> sev (StatPath f) a ∈ tr' ->
            (a = RegularFile <-> providerTLSEnabled p = true)) as Hfiles.
  { intros f a (k & -> & Hk)%tls_file_keys ->%Hstat.
    destruct (tls_file_seen view rt a1 a2 k Hdep Ht) as [Hon Hoff].
    destruct (providerTLSEnabled p) eqn:He; [|rewrite (Hoff eq_refl), Himg; done].
    destruct (enabled_secret rt Hdep He) as (tls & ref & Hb & Href & Hvol).
    destruct (Hsec tls ref Hb Href) as (secret & Hs & Hmiss).
    rewrite (Hon _ secret Hvol Hs). split; [done|]. intros _.
    by destruct (complete_secret secret k Hmiss Hk) as [v ->]. }
  destruct (resolution_cases tr' res err Hres)
    as [(x & -> & _ & Hf & Htls & Hauth)|[(v & -> & _ & Hf & _)|(-> & m & _ & (f & a & Hf & Ha & Hne) & Hor)]].
  - exists x. split_and!; [done| |done]. rewrite Htls. split; [done|]. intros _.
    exact (proj1 (Hfiles _ RegularFile ltac:(by left) (Hf ProviderTLSCertFile ltac:(by left))) eq_refl).
  - exists insecure_resolution. split_and!; [done| |done]. split; [|done]. intros He. exfalso.
    destruct (Hf ProviderTLSCertFile ltac:(by left)) as (a & Ha & Hne). apply Hne.
    exact (proj2 (Hfiles ProviderTLSCertFile a ltac:(by left) Ha) He).
  - exfalso. assert (providerTLSEnabled p = false) as Hoff.
    { apply not_true_iff_false. intros He. apply Hne. by apply (Hfiles f a). }
    destruct Hor as [(f' & Hf' & Hreg)|(v & Hv & Hnot)].
    + apply (Hfiles f' RegularFile Hf') in Hreg as [Hreg _]. specialize (Hreg eq_refl). congruence.
    + apply Henv in Hv as ->. apply Hnot.
      rewrite (insecure_env_seen view rt a1 a2 Ht Hoff); [done|]. apply Hown. apply Hdep.
Qed.
End Ends.

(** ** On a concrete Provider *)
Module DemoSdk.
Import DemoLibraries DemoGrpc DemoStatus DemoProvider.

#[export] Instance x509 : X509 := {|
  Certificate := string; CertPool := string;
  X509KeyPair c k := Ok c; AppendCertsFromPEM s := if is_empty s then None else Some s
|}.

Lemma provider_errors_reach_the_manager_witness :
  as_provider_error (received "Create" (ProvErr (NewTimeout "create" (5 * second)))) = Some ErrorTypeRetryable
  /\ as_provider_error (received "Create" (ProvErr (NewRateLimit second))) <> Some ErrorTypeRetryable.
Proof.
  split.
  - apply (proj2 (proj2 (provider_errors_reach_the_manager "Create" _ (built_timeout "create" (5 * second))))).
    by split.
  - intros H. apply (proj2 (proj2 (provider_errors_reach_the_manager "Create" _ (built_rate_limit second)))) in H.
    by destruct H as [_ H].
Defined.

(** A server that answers every call, and a task that is done. *)
Definition answer (c : cl_call) (w : unit) : cl_answer c * unit :=
  match c return cl_answer c * unit with
  | LoadKeyPair _ _ | DialContext _ => (None, w)
  | Rpc _ _ => ((Some (mkResponse true "" []), None), w)
  | AwaitTick _ => (Tick, w)
  end.
Definition waited := exec answer (WaitForTask (SdkClient.DefaultConfig "prov:9443") 3 (Some "task-1") 0) tt.
Definition waited_error : error_value := match waited.1.2 with Done (Some e) => e | _ => NilError end.

(** The Secret of the Provider, and a container that mounts it. *)
Definition tls_secret : Secret :=
  mkSecret "prov-tls" (<["tls.crt" := "c"]> (<["tls.key" := "k"]> {["ca.crt" := "a"]})).
Definition secrets (name : string) : option Secret :=
  if bool_decide (name = "prov-tls") then Some tls_secret else None.
Definition image (path : string) : path_info := NoSuchFile.
Definition tls_prefix : string := "/etc/virtrigaud/tls/".
Definition stat_in_pod (path : string) : path_info :=
  if has_prefix path tls_prefix then
    match secret_Data tls_secret !! TrimPrefix path tls_prefix with Some _ => RegularFile | None => NoSuchFile end
  else NoSuchFile.
Definition getenv_in_pod (name : string) : string :=
  match env_value (pod_env demo_deployment) name with Some e => ev_Value e | None => "" end.

Definition demo_view : pod_view secrets image demo_deployment.
Proof.
  refine (mkPodView secrets image demo_deployment stat_in_pod getenv_in_pod _ _ _).
  - intros m v s secret k Hm Hv Hn Hs Hsec. unfold secrets in Hsec.
    case_bool_decide as Hd; [|done]. injection Hsec as <-. subst s.
    assert (vol_Name v = "provider-tls") as Hvn.
    { apply list_elem_of_In in Hv. cbn in Hv. by destruct Hv as [<-|[<-|[<-|[<-|[<-|[]]]]]]. }
    assert (mnt_MountPath m = "/etc/virtrigaud/tls") as ->.
    { rewrite Hvn in Hn. apply list_elem_of_In in Hm. cbn in Hm. by destruct Hm as [<-|[<-|[<-|[<-|[<-|[]]]]]]. }
    unfold stat_in_pod. change ("/etc/virtrigaud/tls" +:+ "/" +:+ k) with (tls_prefix +:+ k).
    by rewrite has_prefix_app, TrimPrefix_app.
  - intros path Hno. unfold stat_in_pod.
    specialize (Hno (mkVolumeMount "provider-tls" "/etc/virtrigaud/tls" true) ltac:(apply list_elem_of_In; cbn; auto)).
    unfold covers in Hno. change (mnt_MountPath _ +:+ "/") with tls_prefix in Hno. by rewrite Hno.
  - intros name e He _. unfold getenv_in_pod. by rewrite He.
Defined.

Definition in_pod (c : srv_call) (w : unit) : srv_answer c * unit :=
  match c return srv_answer c * unit with
  | StatPath f => (stat_in_pod f, w)
  | Getenv n => (getenv_in_pod n, w)
  | NewCertWatcher _ _ => (None, w)
  | LoadX509KeyPair _ _ => (Ok "c", w)
  | ReadFile _ => (Ok "a", w)
  end.

Lemma provider_server_is_secured_witness :
  exists s, (exec in_pod (provider_main 9443 8080) tt).1.2 = Done (Some s)
    /\ ((mutual s /\ asks_for_certificates s) \/ plaintext s).
Proof.
  destruct (provider_server_is_secured 9443 8080 _ _ (exec_runs in_pod (provider_main 9443 8080) tt))
    as (srv & Hsrv & Hs).
  assert (is_Some srv) as [s ->].
  { destruct srv; [by eexists|]. exfalso. revert Hsrv. vm_compute. discriminate. }
  exists s. split; [exact Hsrv|]. destruct (Hs s eq_refl) as [?|[? _]]; auto.
Defined.

(** What an event read of the files and the environment. *)
Definition stat_event (x : event srv_call srv_answer) : option (string * path_info) :=
  match x with existT (StatPath f) a => Some (f, a) | _ => None end.
Definition getenv_event (x : event srv_call srv_answer) : option (string * string) :=
  match x with existT (Getenv n) v => Some (n, v) | _ => None end.

Lemma exec_sees {A} (q : prog srv_call srv_answer A) : sees demo_view (exec in_pod q tt).1.1.
Proof.
  induction q as [a|c k IH|w]; [split; intros ? ? H; by apply not_elem_of_nil in H| |split; intros ? ? H; by apply not_elem_of_nil in H].
  cbn [exec]. destruct (in_pod c tt) as [a []] eqn:Hc. specialize (IH a).
  destruct (exec in_pod (k a) tt) as [[tr o] []]. cbn [fst] in *. destruct IH as [IH1 IH2].
  split; intros x y [He|Hin]%elem_of_cons; [|auto| |auto].
  - apply (f_equal stat_event) in He. destruct c; try done. injection He as -> ->. by injection Hc as <-.
  - apply (f_equal getenv_event) in He. destruct c; try done. injection He as -> ->. by injection Hc as <-.
Qed.

Definition resolved := exec in_pod ResolveTLSAndAuth tt.
Definition resolved_pair : option TLSResolution * option goerror :=
  match resolved.1.2 with Done x => x | Panicked _ => (None, None) end.

Lemma resolved_runs : runs ResolveTLSAndAuth resolved.1.1 (Done (resolved_pair.1, resolved_pair.2)).
Proof.
  assert (Done (resolved_pair.1, resolved_pair.2) = resolved.1.2) as -> by (vm_compute; reflexivity).
  exact (exec_runs in_pod ResolveTLSAndAuth tt).
Qed.

Lemma tls_ends_agree_witness :
  exists x, resolved_pair.1 = Some x /\ res_TLS x <> None /\ auth_RequireTLS (res_Auth x) = true.
Proof.
  destruct (tls_ends_agree demo_reconciler (w_provider start) _ _ demo_deployment demo_view resolved.1.1
              resolved_pair.1 resolved_pair.2 (provider_one_runs start) demo_deploys resolved_runs
              (exec_sees ResolveTLSAndAuth)) as [(x & Hx & Hon & Hauth) _].
  - reflexivity.
  - intros rt [= <-]. apply not_elem_of_nil.
  - intros t ref [= <-] [= <-]. exists tls_secret. split; [reflexivity|vm_compute; reflexivity].
  - exists x. split; [exact Hx|]. assert (res_TLS x <> None) as H by by apply Hon. split; [exact H|]. by apply Hauth.
Defined.
End DemoSdk.
