(* ===== verification/Mock.v ===== *)
(** * Mock: the mock provider

    Models [internal/providers/mock/provider.go], the provider that tests and demos
    run against.  Its two maps hold pointers, which the goroutines it starts keep;
    so the machines and tasks live in a heap.  A section under the mutex is one
    call, and so is each access made outside it; [enact] says what a call does to the
    memory, and [pool_step] interleaves the requests and the goroutines. *)
From S2P Require Import Prelude Contracts Effects GoLib GrpcClient Storage SdkErrors SdkCapabilities.
From stdpp Require Import base gmap strings list fin_maps.
From Stdlib Require Import ZArith.
#[local] Open Scope Z_scope.

(** ** Data

    Times are in nanoseconds; [None] is the zero time. *)
Record Snapshot := mkSnapshot {
  snp_ID : string; snp_Name : string; snp_CreatedTime : Z; snp_Description : string;
  snp_SizeBytes : Z; snp_HasMemory : bool
}.
Record VirtualMachine := mkVirtualMachine {
  mvm_ID : string; mvm_Name : string; mvm_PowerState : string; mvm_IPs : list string;
  mvm_ConsoleURL : string; mvm_Created : Z; mvm_LastUpdated : Z; mvm_Snapshots : gmap string Snapshot
}.
#[export] Instance VirtualMachine_eta : Eta VirtualMachine := fun r =>
  mkVirtualMachine (mvm_ID r) (mvm_Name r) (mvm_PowerState r) (mvm_IPs r) (mvm_ConsoleURL r)
    (mvm_Created r) (mvm_LastUpdated r) (mvm_Snapshots r).
Record Task := mkTask {
  mtask_ID : string; mtask_Done : bool; mtask_Error : string; mtask_Created : Z; mtask_Completed : option Z
}.
#[export] Instance Task_eta : Eta Task := fun r =>
  mkTask (mtask_ID r) (mtask_Done r) (mtask_Error r) (mtask_Created r) (mtask_Completed r).

#[export] Instance Snapshot_eq_dec : EqDecision Snapshot.
Proof. solve_decision. Defined.
#[export] Instance VirtualMachine_eq_dec : EqDecision VirtualMachine.
Proof. solve_decision. Defined.
#[export] Instance Task_eq_dec : EqDecision Task.
Proof. solve_decision. Defined.

(** What does not change after start-up. *)
Record Provider := mkProvider {
  mp_capabilities : Manager; mp_failureMode : string; mp_slowMode : bool
}.

Abbreviation ptr := positive.

(** The memory: the maps of the provider and what their pointers point to. *)
Record Memory := mkMemory {
  vms : gmap string ptr; tasks : gmap string ptr;
  vm_heap : gmap ptr VirtualMachine; task_heap : gmap ptr Task
}.
#[export] Instance Memory_eta : Eta Memory := fun r =>
  mkMemory (vms r) (tasks r) (vm_heap r) (task_heap r).

(** ** Calls *)

(** The goroutines, by the variables they capture. *)
Inductive goroutine :=
  | GoCompleteTask (taskID : string) (delay : duration)
  | GoDelete (id : string) (task : ptr)
  | GoPower (vm : ptr) (op : wire_PowerOp) (task : ptr)
  | GoSnapshotDelete (vm : ptr) (snapshotID : string) (task : ptr).

Inductive mcall :=
  | Getenv (name : string)
  | Now
  | Intn (n : Z)
  | Sleep (d : duration)
  | Go (g : goroutine)
  (* under the read lock *)
  | GetVM (id : string)
  | GetTask (id : string)
  | HasSnapshot (vm : ptr) (id : string)
  | RangeVMs
  (* under the lock; the answers are the times read there *)
  | PutVM (id : string) (vm : ptr)
  | PutTask (id : string) (task : ptr)
  | PutSnapshot (vm : ptr) (id : string) (s : Snapshot)
  | FinishTask (id : string)
  | FinishDelete (id : string) (task : ptr)
  | FinishPower (vm : ptr) (state : string) (task : ptr)
  | FinishSnapshotDelete (vm : ptr) (id : string) (task : ptr)
  (* without a lock *)
  | NewVM (vm : VirtualMachine)
  | NewTask (t : Task)
  | ReadVM (vm : ptr)
  | ReadTask (task : ptr)
  | WriteIPs (vm : ptr) (ips : list string).

Definition manswer (c : mcall) : Type :=
  match c with
  | Getenv _ => string
  | Now | Intn _ | FinishTask _ | FinishDelete _ _ | FinishSnapshotDelete _ _ _ => Z
  | FinishPower _ _ _ => Z * Z
  | Sleep _ | Go _ | PutVM _ _ | PutTask _ _ | PutSnapshot _ _ _ | WriteIPs _ _ => unit
  | GetVM _ | GetTask _ => option ptr
  | HasSnapshot _ _ => bool
  | RangeVMs => list (ptr * VirtualMachine)
  | NewVM _ | NewTask _ => ptr
  | ReadVM _ => VirtualMachine
  | ReadTask _ => Task
  end.
Abbreviation MM := (prog mcall manswer).
Abbreviation mdo := (trigger (E := mcall) (R := manswer)).

(** ** Helpers *)
Definition shouldFail (p : Provider) (operation : string) : bool :=
  if is_empty (mp_failureMode p) then false
  else bool_decide (mp_failureMode p = operation) || bool_decide (mp_failureMode p = "all").

Definition simulateDelay (p : Provider) : MM unit :=
  if mp_slowMode p then n ← mdo (Intn 500); mdo (Sleep ((n + 100) * millisecond)) else Ret tt.

Definition generateID (prefix : string) : MM string :=
  now ← mdo Now;
  n ← mdo (Intn 10000);
  Ret (prefix +:+ "-" +:+ FormatInt (now / second) +:+ "-" +:+ FormatInt n).

Definition console_url (id : string) : string := "https://console.example.com/vm/" +:+ id.

(** Creates a task and stores it, as every operation does. *)
Definition start_task : MM (string * ptr) :=
  taskID ← generateID "task";
  now ← mdo Now;
  task ← mdo (NewTask (mkTask taskID false "" now None));
  _ ← mdo (PutTask taskID task);
  Ret (taskID, task).

(** A new machine that is switched off. *)
Definition new_vm (id name : string) : MM ptr :=
  created ← mdo Now;
  updated ← mdo Now;
  mdo (NewVM (mkVirtualMachine id name "Off" [] (console_url id) created updated ∅)).

Definition completeTaskAfterDelay (taskID : string) (delay : duration) : MM unit :=
  _ ← mdo (Sleep delay);
  _ ← mdo (FinishTask taskID);
  Ret tt.

(** The body of a goroutine. *)
Definition power_effect (vm : ptr) (op : wire_PowerOp) : MM string :=
  match op with
  | POWER_OP_ON =>
      v ← mdo (ReadVM vm);
      if bool_decide (mvm_IPs v = []) then
        n ← mdo (Intn 50);
        _ ← mdo (WriteIPs vm ["192.168.1." +:+ FormatInt (100 + n)]);
        Ret "On"
      else Ret "On"
  | POWER_OP_OFF | POWER_OP_SHUTDOWN_GRACEFUL => _ ← mdo (WriteIPs vm []); Ret "Off"
  | POWER_OP_REBOOT => Ret "On"
  | POWER_OP_UNSPECIFIED => Ret ""
  end.

Definition goroutine_body (g : goroutine) : MM unit :=
  match g with
  | GoCompleteTask taskID delay => completeTaskAfterDelay taskID delay
  | GoDelete id task => _ ← mdo (Sleep second); _ ← mdo (FinishDelete id task); Ret tt
  | GoPower vm op task =>
      _ ← mdo (Sleep second);
      newState ← power_effect vm op;
      _ ← mdo (FinishPower vm newState task);
      Ret tt
  | GoSnapshotDelete vm id task =>
      _ ← mdo (Sleep (2 * second)); _ ← mdo (FinishSnapshotDelete vm id task); Ret tt
  end.

(** ** The RPCs *)
Section Rpcs.
Context `{Lib : StatusLibrary} (format_RFC3339 : Z -> string).

(** The preamble of an operation: the delay and the failure that is asked for. *)
Definition operation {A} (p : Provider) (name what : string) (body : MM (result A ProviderError))
    : MM (result A ProviderError) :=
  _ ← simulateDelay p;
  if shouldFail p name
  then Ret (Err (NewInternal ("mock provider configured to fail " +:+ what +:+ " operations") None))
  else body.

Definition not_found {A} (resource id : string) : MM (result A ProviderError) :=
  Ret (Err (NewNotFound resource id)).

Definition Validate (p : Provider) : MM (result wire_Validate ProviderError) :=
  _ ← simulateDelay p;
  if shouldFail p "validate" then Ret (Ok (mkWireValidate false "Mock provider configured to fail validation"))
  else Ret (Ok (mkWireValidate true "Mock provider is ready")).

Definition Create (p : Provider) (name : string) : MM (result wire_Task ProviderError) :=
  operation p "create" "create" (
    id ← generateID "vm";
    vm ← new_vm id name;
    _ ← mdo (PutVM id vm);
    t ← start_task;
    _ ← mdo (Go (GoCompleteTask (t.1) (2 * second)));
    Ret (Ok (mkWireTask id (Some t.1)))).

Definition Delete (p : Provider) (id : string) : MM (result wire_Task ProviderError) :=
  operation p "delete" "delete" (
    vm ← mdo (GetVM id);
    match vm with
    | None => not_found "VirtualMachine" id
    | Some _ =>
        t ← start_task;
        _ ← mdo (Go (GoDelete id t.2));
        Ret (Ok (mkWireTask "" (Some t.1)))
    end).

Definition Power (p : Provider) (id : string) (op : wire_PowerOp) : MM (result wire_Task ProviderError) :=
  operation p "power" "power" (
    vm ← mdo (GetVM id);
    match vm with
    | None => not_found "VirtualMachine" id
    | Some vm =>
        t ← start_task;
        _ ← mdo (Go (GoPower vm op t.2));
        Ret (Ok (mkWireTask "" (Some t.1)))
    end).

Definition Reconfigure (p : Provider) (id : string) : MM (result wire_Task ProviderError) :=
  operation p "reconfigure" "reconfigure" (
    vm ← mdo (GetVM id);
    match vm with
    | None => not_found "VirtualMachine" id
    | Some _ =>
        t ← start_task;
        _ ← mdo (Go (GoCompleteTask t.1 (3 * second)));
        Ret (Ok (mkWireTask "" (Some t.1)))
    end).

(** The fields are read one after the other, outside the lock. *)
Definition Describe (p : Provider) (id : string) : MM (result wire_Describe ProviderError) :=
  operation p "describe" "describe" (
    vm ← mdo (GetVM id);
    match vm with
    | None => Ret (Ok (mkWireDescribe false "" [] "" ""))
    | Some vm =>
        power ← mdo (ReadVM vm);
        ips ← mdo (ReadVM vm);
        v ← mdo (ReadVM vm);
        let q := String.String (Ascii.ascii_of_nat 34) "" in
        let field name value := q +:+ name +:+ q +:+ ":" +:+ q +:+ value +:+ q in
        Ret (Ok (mkWireDescribe true (mvm_PowerState power) (mvm_IPs ips) (mvm_ConsoleURL v)
          ("{" +:+ field "id" (mvm_ID v) +:+ "," +:+ field "name" (mvm_Name v) +:+ ","
               +:+ field "created" (format_RFC3339 (mvm_Created v)) +:+ ","
               +:+ field "lastUpdated" (format_RFC3339 (mvm_LastUpdated v)) +:+ "}")))
    end).

(** [%02x] of a byte. *)
Definition hex_digit (n : Z) : string :=
  default "" (["0"; "1"; "2"; "3"; "4"; "5"; "6"; "7"; "8"; "9"; "a"; "b"; "c"; "d"; "e"; "f"]
                !! Z.to_nat n).
Definition fmt_02x (n : Z) : string := hex_digit (n / 16) +:+ hex_digit (n mod 16).

(** One machine of the list.  [v] is the machine as the read lock keeps it; its
    addresses are not under the lock and are read again. *)
Definition list_vm (vm : ptr) (v : VirtualMachine) : MM VMInfo :=
  a ← mdo (Intn 256);
  b ← mdo (Intn 256);
  c ← mdo (Intn 256);
  let mac := "52:54:00:" +:+ fmt_02x a +:+ ":" +:+ fmt_02x b +:+ ":" +:+ fmt_02x c in
  len ← mdo (ReadVM vm);
  address ← (if bool_decide (mvm_IPs len = []) then Ret ""
             else first ← mdo (ReadVM vm);
                  match mvm_IPs first with
                  | ip :: _ => Ret ip
                  | [] => Crash "index out of range [0] with length 0"
                  end);
  ips ← mdo (ReadVM vm);
  Ret (mkVMInfo (mvm_ID v) (mvm_Name v) (mvm_PowerState v) (mvm_IPs ips) 2 4096
    [mkDiskInfo (mvm_ID v +:+ "-disk-0") ("/var/lib/libvirt/images/" +:+ mvm_ID v +:+ ".qcow2") 20 "qcow2"]
    [mkNetworkInfo "default" mac address]
    (<["vm_id" := mvm_ID v]> (<["power_state" := mvm_PowerState v]> {["console_url" := mvm_ConsoleURL v]}))).

Fixpoint list_vms (l : list (ptr * VirtualMachine)) : MM (list VMInfo) :=
  match l with
  | [] => Ret []
  | (vm, v) :: l =>
      info ← list_vm vm v;
      rest ← list_vms l;
      Ret (info :: rest)
  end.

Definition ListVMs (p : Provider) : MM (result (list VMInfo) ProviderError) :=
  _ ← simulateDelay p;
  l ← mdo RangeVMs;
  infos ← list_vms l;
  Ret (Ok infos).

(** [req.Task] is nil when the request has no task. *)
Definition TaskStatus (p : Provider) (task : option string) : MM (result wire_TaskStatus ProviderError) :=
  operation p "task_status" "task status" (
    match task with
    | None => Crash "nil pointer dereference"
    | Some id =>
        t ← mdo (GetTask id);
        match t with
        | None => Ret (Ok (mkWireTaskStatus true "task not found"))
        | Some t =>
            done ← mdo (ReadTask t);
            err ← mdo (ReadTask t);
            Ret (Ok (mkWireTaskStatus (mtask_Done done) (mtask_Error err)))
        end
    end).

Definition SnapshotCreate (p : Provider) (vmId nameHint description : string) (includeMemory : bool)
    : MM (result wire_Task ProviderError) :=
  operation p "snapshot_create" "snapshot" (
    vm ← mdo (GetVM vmId);
    match vm with
    | None => not_found "VirtualMachine" vmId
    | Some vm =>
        snapshotID ← generateID "snap";
        now ← mdo Now;
        n ← mdo (Intn 1000000000);
        _ ← mdo (PutSnapshot vm snapshotID
                   (mkSnapshot snapshotID nameHint now description (n + 100000000) includeMemory));
        t ← start_task;
        _ ← mdo (Go (GoCompleteTask t.1 (5 * second)));
        Ret (Ok (mkWireTask snapshotID (Some t.1)))
    end).

(** Finds a snapshot for the operations on one. *)
Definition with_snapshot_of {A} (vmId snapshotId : string) (body : ptr -> MM (result A ProviderError))
    : MM (result A ProviderError) :=
  vm ← mdo (GetVM vmId);
  match vm with
  | None => not_found "VirtualMachine" vmId
  | Some vm =>
      has ← mdo (HasSnapshot vm snapshotId);
      if negb has then not_found "Snapshot" snapshotId else body vm
  end.

Definition SnapshotDelete (p : Provider) (vmId snapshotId : string) : MM (result wire_Task ProviderError) :=
  operation p "snapshot_delete" "snapshot" (
    with_snapshot_of vmId snapshotId (fun vm =>
      t ← start_task;
      _ ← mdo (Go (GoSnapshotDelete vm snapshotId t.2));
      Ret (Ok (mkWireTask "" (Some t.1))))).

Definition SnapshotRevert (p : Provider) (vmId snapshotId : string) : MM (result wire_Task ProviderError) :=
  operation p "snapshot_revert" "snapshot" (
    with_snapshot_of vmId snapshotId (fun _ =>
      t ← start_task;
      _ ← mdo (Go (GoCompleteTask t.1 (4 * second)));
      Ret (Ok (mkWireTask "" (Some t.1))))).

Definition Clone (p : Provider) (sourceVmId targetName : string) : MM (result wire_Task ProviderError) :=
  operation p "clone" "clone" (
    vm ← mdo (GetVM sourceVmId);
    match vm with
    | None => not_found "VirtualMachine" sourceVmId
    | Some _ =>
        targetID ← generateID "vm";
        clonedVM ← new_vm targetID targetName;
        _ ← mdo (PutVM targetID clonedVM);
        t ← start_task;
        _ ← mdo (Go (GoCompleteTask t.1 (10 * second)));
        Ret (Ok (mkWireTask targetID (Some t.1)))
    end).

Definition ImagePrepare (p : Provider) (targetName : string) : MM (result wire_ImagePrepare ProviderError) :=
  operation p "image_prepare" "image" (
    t ← start_task;
    _ ← mdo (Go (GoCompleteTask t.1 (15 * second)));
    Ret (Ok (mkWireImagePrepare targetName ("/var/lib/virtrigaud/mock/" +:+ targetName +:+ ".qcow2")
               (Some t.1)))).

Definition GetCapabilities (p : Provider) : Capabilities := Manager_GetCapabilities (mp_capabilities p).
End Rpcs.

(** ** Start-up *)
Definition mock_capabilities : Manager :=
  let b := SdkCapabilities.Mock (Core NewBuilder) in
  let b := ImageImport (OnlineDiskExpansion (OnlineReconfigure (LinkedClones (MemorySnapshots (Snapshots b))))) in
  let b := SdkCapabilities.TaskStatus b in
  let b := ImportBackends (ExportBackends b PVCOnlyExportBackends) PVCOnlyImportBackends in
  let b := DiskTypes (TransferModes b RelayOnlyTransferModes) ["thin"; "thick"; "raw"; "qcow2"] in
  NetworkTypes b ["bridge"; "nat"; "distributed"].

Definition sample_vms : list (string * string * list string) :=
  [("demo-vm-1", "On", ["192.168.1.10"]); ("demo-vm-2", "Off", []);
   ("demo-vm-3", "On", ["192.168.1.12"; "10.0.0.5"])].

(** The rest of the samples, of which the first has the index [i]. *)
Fixpoint createSampleVMs (i : Z) (samples : list (string * string * list string)) : MM unit :=
  match samples with
  | [] => Ret tt
  | (name, powerState, ips) :: samples =>
      let id := "vm-" +:+ FormatInt (i + 1) in
      now ← mdo Now;
      updated ← mdo Now;
      vm ← mdo (NewVM (mkVirtualMachine id name powerState ips (console_url id)
                         (now - (i + 1) * 3600 * second) updated ∅));
      _ ← mdo (PutVM id vm);
      createSampleVMs (i + 1) samples
  end.

Definition NewProvider : MM Provider :=
  mode ← mdo (Getenv "MOCK_FAILURE_MODE");
  slow ← mdo (Getenv "MOCK_SLOW_MODE");
  _ ← createSampleVMs 0 sample_vms;
  Ret (mkProvider mock_capabilities mode (bool_decide (slow = "true"))).

(** ** What the calls do to the memory *)
Definition update_vm (l : ptr) (f : VirtualMachine -> VirtualMachine) (s : Memory) : Memory :=
  s <| vm_heap := alter f l (vm_heap s) |>.
Definition finish_task (l : ptr) (now : Z) (s : Memory) : Memory :=
  s <| task_heap := alter (fun t => t <| mtask_Done := true |> <| mtask_Completed := Some now |>) l
                      (task_heap s) |>.

Definition deref (s : Memory) (vm : string * ptr) : option (ptr * VirtualMachine) :=
  v ← vm_heap s !! vm.2; Some (vm.2, v).

(** [enact c r s] is the memory after the call [c] was answered with [r] in the
    memory [s], or [None] when that cannot happen.  The environment, the clock and
    the random numbers are free, a map is ranged over in any order, and an allocation
    answers any location that is free. *)
Definition enact (c : mcall) : manswer c -> Memory -> option Memory :=
  match c with
  | Getenv _ | Now | Sleep _ | Go _ => fun _ s => Some s
  | Intn n => fun r s => if bool_decide (0 <= r < n) then Some s else None
  | GetVM id => fun r s => if bool_decide (r = vms s !! id) then Some s else None
  | GetTask id => fun r s => if bool_decide (r = tasks s !! id) then Some s else None
  | HasSnapshot vm id => fun r s =>
      v ← vm_heap s !! vm;
      if bool_decide (r = bool_decide (is_Some (mvm_Snapshots v !! id))) then Some s else None
  | RangeVMs => fun r s =>
      if bool_decide (r ≡ₚ omap (deref s) (map_to_list (vms s))) then Some s else None
  | PutVM id vm => fun _ s => Some (s <| vms := <[id := vm]> (vms s) |>)
  | PutTask id task => fun _ s => Some (s <| tasks := <[id := task]> (tasks s) |>)
  | PutSnapshot vm id x => fun _ s =>
      _ ← vm_heap s !! vm;
      Some (update_vm vm (fun v => v <| mvm_Snapshots := <[id := x]> (mvm_Snapshots v) |>) s)
  | FinishTask id => fun now s =>
      Some (match tasks s !! id with Some t => finish_task t now s | None => s end)
  | FinishDelete id task => fun now s => Some (finish_task task now (s <| vms := delete id (vms s) |>))
  | FinishPower vm state task => fun now s =>
      _ ← vm_heap s !! vm;
      Some (finish_task task now.2
              (update_vm vm (fun v => v <| mvm_PowerState := state |> <| mvm_LastUpdated := now.1 |>) s))
  | FinishSnapshotDelete vm id task => fun now s =>
      _ ← vm_heap s !! vm;
      Some (finish_task task now (update_vm vm (fun v => v <| mvm_Snapshots := delete id (mvm_Snapshots v) |>) s))
  | NewVM v => fun l s =>
      match vm_heap s !! l with
      | None => Some (s <| vm_heap := <[l := v]> (vm_heap s) |>)
      | Some _ => None
      end
  | NewTask t => fun l s =>
      match task_heap s !! l with
      | None => Some (s <| task_heap := <[l := t]> (task_heap s) |>)
      | Some _ => None
      end
  | ReadVM vm => fun r s => if bool_decide (vm_heap s !! vm = Some r) then Some s else None
  | ReadTask t => fun r s => if bool_decide (task_heap s !! t = Some r) then Some s else None
  | WriteIPs vm ips => fun _ s =>
      _ ← vm_heap s !! vm; Some (update_vm vm (fun v => v <| mvm_IPs := ips |>) s)
  end.

(** A program that nothing disturbs, from one memory to another. *)
Fixpoint runs_in {A} (p : MM A) (s : Memory) (o : outcome A) (s' : Memory) : Prop :=
  match p with
  | Ret a => o = Done a /\ s' = s
  | Crash w => o = Panicked w /\ s' = s
  | Vis c k => exists r s1, enact c r s = Some s1 /\ runs_in (k r) s1 o s'
  end.

(** ** Requests and goroutines together *)
Inductive request :=
  | ReqValidate
  | ReqCreate (name : string)
  | ReqDelete (id : string)
  | ReqPower (id : string) (op : wire_PowerOp)
  | ReqReconfigure (id : string)
  | ReqDescribe (id : string)
  | ReqListVMs
  | ReqTaskStatus (task : option string)
  | ReqSnapshotCreate (vmId nameHint description : string) (includeMemory : bool)
  | ReqSnapshotDelete (vmId snapshotId : string)
  | ReqSnapshotRevert (vmId snapshotId : string)
  | ReqClone (sourceVmId targetName : string)
  | ReqImagePrepare (targetName : string).

Section Pool.
Context `{Lib : StatusLibrary} (format_RFC3339 : Z -> string).

(** A request whose reply has been sent is done. *)
Definition answered {A} (p : MM A) : MM unit := _ ← p; Ret tt.

Definition serve (p : Provider) (r : request) : MM unit :=
  match r with
  | ReqValidate => answered (Validate p)
  | ReqCreate name => answered (Create p name)
  | ReqDelete id => answered (Delete p id)
  | ReqPower id op => answered (Power p id op)
  | ReqReconfigure id => answered (Reconfigure p id)
  | ReqDescribe id => answered (Describe format_RFC3339 p id)
  | ReqListVMs => answered (ListVMs p)
  | ReqTaskStatus task => answered (TaskStatus p task)
  | ReqSnapshotCreate vm name description memory => answered (SnapshotCreate p vm name description memory)
  | ReqSnapshotDelete vm snap => answered (SnapshotDelete p vm snap)
  | ReqSnapshotRevert vm snap => answered (SnapshotRevert p vm snap)
  | ReqClone source target => answered (Clone p source target)
  | ReqImagePrepare target => answered (ImagePrepare p target)
  end.

(** The goroutines a call starts. *)
Definition spawned (c : mcall) : list (MM unit) :=
  match c with Go g => [goroutine_body g] | _ => [] end.

Inductive pool_step : list (MM unit) * Memory -> list (MM unit) * Memory -> Prop :=
  | pool_step_intro ts i c k r s s' :
      ts !! i = Some (Vis c k) -> enact c r s = Some s' ->
      pool_step (ts, s) (<[i := k r]> ts ++ spawned c, s').

(** Requests arrive at any time. *)
Inductive server_step (p : Provider) : list (MM unit) * Memory -> list (MM unit) * Memory -> Prop :=
  | server_request ts s r : server_step p (ts, s) (ts ++ [serve p r], s)
  | server_runs c c' : pool_step c c' -> server_step p c c'.
End Pool.
