(* ===== verification/MockProps.v ===== *)
(** * MockProps: the tasks and machines of the mock provider

    Under any interleaving of requests and goroutines, each task that is on record
    is completed once the goroutines are through, and they always can be.  A machine
    that was created is described, one whose deletion is through is not.  What the
    mock does outside its lock, and its identifiers, can go wrong. *)
From stdpp Require Import base gmap strings list fin_maps relations.
From S2P Require Import Prelude Contracts Effects GoLib GrpcClient Storage SdkErrors SdkCapabilities Mock.
From Stdlib Require Import ZArith Lia.
#[local] Open Scope Z_scope.

(** ** A logic for one goroutine

    While it runs, a goroutine knows some valid pointers and may owe the completion
    of a task, which it has put on record or taken over from the goroutine that
    started it. *)
Definition obligation : Type := option (string * ptr).

(** Does a goroutine complete the task that is owed? *)
Definition takes_over (g : goroutine) (O : obligation) : bool :=
  match O with
  | None => false
  | Some (id, l) =>
      match g with
      | GoCompleteTask t _ => bool_decide (t = id)
      | GoDelete _ t | GoPower _ _ t | GoSnapshotDelete _ _ t => bool_decide (t = l)
      end
  end.

Definition meets (c : mcall) (O : obligation) : bool :=
  match O with
  | None => false
  | Some (id, l) =>
      match c with
      | FinishTask t => bool_decide (t = id)
      | FinishDelete _ t | FinishPower _ _ t | FinishSnapshotDelete _ _ t => bool_decide (t = l)
      | Go g => takes_over g O
      | _ => false
      end
  end.

Definition next (O : obligation) (c : mcall) : obligation :=
  match c with
  | PutTask id l => Some (id, l)
  | _ => if meets c O then None else O
  end.

Definition captured (V T : gset ptr) (g : goroutine) : Prop :=
  match g with
  | GoCompleteTask _ _ => True
  | GoDelete _ t => t ∈ T
  | GoPower vm _ t | GoSnapshotDelete vm _ t => vm ∈ V /\ t ∈ T
  end.

(** What a goroutine must know to make a call. *)
Definition ready (V T : gset ptr) (O : obligation) (c : mcall) : Prop :=
  match c with
  | Intn n => 0 < n
  | PutVM _ vm | HasSnapshot vm _ | PutSnapshot vm _ _ | ReadVM vm | WriteIPs vm _ => vm ∈ V
  | PutTask _ t => t ∈ T /\ O = None
  | ReadTask t | FinishDelete _ t => t ∈ T
  | FinishPower vm _ t | FinishSnapshotDelete vm _ t => vm ∈ V /\ t ∈ T
  | Go g => captured V T g
  | _ => True
  end.

(** The pointers an answer gives. *)
Definition vm_learnt (c : mcall) : manswer c -> gset ptr :=
  match c with
  | NewVM _ => fun l => {[l]}
  | GetVM _ => fun r => match r with Some l => {[l]} | None => ∅ end
  | RangeVMs => fun r => list_to_set r.*1
  | _ => fun _ => ∅
  end.
Definition task_learnt (c : mcall) : manswer c -> gset ptr :=
  match c with
  | NewTask _ => fun l => {[l]}
  | GetTask _ => fun r => match r with Some l => {[l]} | None => ∅ end
  | _ => fun _ => ∅
  end.

Fixpoint safe {A} (V T : gset ptr) (O : obligation) (p : MM A)
    (Q : gset ptr -> gset ptr -> obligation -> A -> Prop) : Prop :=
  match p with
  | Ret a => Q V T O a
  | Crash _ => O = None
  | Vis c k =>
      ready V T O c
      /\ forall r, safe (V ∪ vm_learnt c r) (T ∪ task_learnt c r) (next O c) (k r) Q
  end.

(** A goroutine ends when it owes nothing. *)
Definition quits {A} (V T : gset ptr) (O : obligation) (_ : A) : Prop := O = None.

Lemma safe_mono {A} (p : MM A) : forall V T V' T' O (Q Q' : gset ptr -> gset ptr -> obligation -> A -> Prop),
  V ⊆ V' -> T ⊆ T' ->
  (forall V1 T1 V2 T2 O a, V1 ⊆ V2 -> T1 ⊆ T2 -> Q V1 T1 O a -> Q' V2 T2 O a) ->
  safe V T O p Q -> safe V' T' O p Q'.
Proof.
  induction p as [a|c k IH|w]; cbn; intros V T V' T' O Q Q' HV HT HQ; [by apply HQ| |done].
  intros [Hc Hk]. split.
  - destruct c; cbn in *; try set_solver. destruct g; cbn in *; set_solver.
  - intros r. eapply IH; [| |exact HQ|exact (Hk r)]; set_solver.
Qed.

Lemma safe_bind {A B} (p : MM A) (f : A -> MM B) : forall V T O Q,
  safe V T O p (fun V T O a => safe V T O (f a) Q) -> safe V T O (p ≫= f) Q.
Proof.
  unfold mbind, prog_mbind.
  induction p as [a|c k IH|w]; cbn; intros V T O Q H; [done| |done].
  destruct H as [Hc Hk]. split; [done|]. intros r. apply IH, Hk.
Qed.

Lemma safe_call V T O c Q :
  ready V T O c -> (forall r, Q (V ∪ vm_learnt c r) (T ∪ task_learnt c r) (next O c) r) ->
  safe V T O (mdo c) Q.
Proof. intros Hc HQ. split; [done|]. intros r. apply HQ. Qed.

Ltac safe_step :=
  lazymatch goal with
  | |- safe _ _ _ (mbind _ _) _ => apply safe_bind
  | |- safe _ _ _ (trigger _) _ => apply safe_call; cbn [ready captured vm_learnt task_learnt]; [try done; try set_solver|intros]
  | |- safe _ _ _ (Ret _) _ => cbn [safe]
  | |- safe _ _ _ (Crash _) _ => cbn [safe]
  | |- safe _ _ _ (match ?x with _ => _ end) _ => destruct x eqn:?
  end.
Ltac safe_steps := repeat (safe_step; cbn beta zeta).

(** *** The parts the operations share *)
Lemma simulateDelay_safe V T O p (Q : gset ptr -> gset ptr -> obligation -> unit -> Prop) :
  (forall V' T', V ⊆ V' -> T ⊆ T' -> Q V' T' O tt) -> safe V T O (simulateDelay p) Q.
Proof.
  intros HQ. assert (forall O, meets (Intn 500) O = false) as Hm by by intros [[]|].
  assert (forall d O, meets (Sleep d) O = false) as Hs by by intros d [[]|].
  unfold simulateDelay. safe_steps; unfold next; rewrite ?Hm, ?Hs; try destruct r0; apply HQ; set_solver.
Qed.

Lemma generateID_safe V T O prefix (Q : gset ptr -> gset ptr -> obligation -> string -> Prop) :
  (forall V' T' id, V ⊆ V' -> T ⊆ T' -> Q V' T' O id) -> safe V T O (generateID prefix) Q.
Proof.
  intros HQ. unfold generateID. safe_steps.
  assert (next (next O Now) (Intn 10000) = O) as -> by by destruct O as [[]|].
  apply HQ; set_solver.
Qed.

Lemma start_task_safe V T (Q : gset ptr -> gset ptr -> obligation -> string * ptr -> Prop) :
  (forall V' T' id l, V ⊆ V' -> T ⊆ T' -> l ∈ T' -> Q V' T' (Some (id, l)) (id, l)) ->
  safe V T None start_task Q.
Proof.
  intros HQ. unfold start_task. apply safe_bind, generateID_safe. intros V' T' id HV HT.
  safe_steps. apply HQ; set_solver.
Qed.

Lemma new_vm_safe V T id name (Q : gset ptr -> gset ptr -> obligation -> ptr -> Prop) :
  (forall V' T' l, V ⊆ V' -> T ⊆ T' -> l ∈ V' -> Q V' T' None l) ->
  safe V T None (new_vm id name) Q.
Proof. intros HQ. unfold new_vm. safe_steps. apply HQ; set_solver. Qed.

#[local] Hint Resolve simulateDelay_safe generateID_safe start_task_safe new_vm_safe : mock.

(** Puts a task on record and hands it to a goroutine. *)
Ltac safe_use H := apply safe_bind, H; intros; cbn [fst snd].

Lemma hand_over_safe {A} V T O g (a : A) :
  captured V T g -> takes_over g O = true ->
  safe V T O (_ ← mdo (Go g); Ret a) quits.
Proof.
  intros Hg Ho. safe_steps. unfold quits, next, meets.
  destruct O as [[id l]|]; [|done]. by rewrite Ho.
Qed.

Lemma takes_id id l d : takes_over (GoCompleteTask id d) (Some (id, l)) = true.
Proof. cbn. by rewrite bool_decide_true. Qed.
Lemma takes_delete id' id l : takes_over (GoDelete id' l) (Some (id, l)) = true.
Proof. cbn. by rewrite bool_decide_true. Qed.
Lemma takes_power vm op id l : takes_over (GoPower vm op l) (Some (id, l)) = true.
Proof. cbn. by rewrite bool_decide_true. Qed.
Lemma takes_snapshot vm x id l : takes_over (GoSnapshotDelete vm x l) (Some (id, l)) = true.
Proof. cbn. by rewrite bool_decide_true. Qed.
#[local] Hint Resolve takes_id takes_delete takes_power takes_snapshot : mock.

Section Safety.
Context `{Lib : StatusLibrary} (format_RFC3339 : Z -> string).

Lemma operation_safe {A} V T p name what (body : MM (result A ProviderError)) :
  (forall V' T', V ⊆ V' -> T ⊆ T' -> safe V' T' None body quits) ->
  safe V T None (operation p name what body) quits.
Proof. intros Hb. unfold operation. safe_use simulateDelay_safe. destruct shouldFail; [done|by apply Hb]. Qed.

Lemma answered_safe {A} V T (p : MM A) :
  safe V T None p quits -> safe V T None (answered p) quits.
Proof.
  intros Hp. apply safe_bind. eapply safe_mono; [| | |exact Hp]; [done..|]. by intros * _ _ ->.
Qed.

Ltac handed := apply hand_over_safe; [cbn; set_solver|auto with mock].
Ltac start := safe_use start_task_safe; handed.
Ltac in_operation := apply operation_safe; intros ? ? ? ?.

Lemma Create_safe V T p name : safe V T None (Create p name) quits.
Proof.
  in_operation. safe_use generateID_safe. safe_use new_vm_safe. do 2 safe_step. cbn beta. start.
Qed.

(** The operations that look for a machine. *)
Lemma found_safe {A} V T id none (body : ptr -> MM (result A ProviderError)) :
  (forall V' T' vm, V ⊆ V' -> T ⊆ T' -> vm ∈ V' -> safe V' T' None (body vm) quits) ->
  safe V T None none quits ->
  safe V T None (vm ← mdo (GetVM id); match vm with Some vm => body vm | None => none end) quits.
Proof.
  intros Hb Hn. do 2 safe_step. cbn beta. destruct r as [vm|].
  - apply Hb; set_solver.
  - eapply safe_mono; [| | |exact Hn]; [set_solver..|done].
Qed.

Lemma Delete_safe V T p id : safe V T None (Delete p id) quits.
Proof. in_operation. apply (found_safe _ _ _ _ (fun _ => _)); [|done]. intros. start. Qed.
Lemma Power_safe V T p id op : safe V T None (Power p id op) quits.
Proof. in_operation. apply found_safe; [|done]. intros. start. Qed.
Lemma Reconfigure_safe V T p id : safe V T None (Reconfigure p id) quits.
Proof. in_operation. apply (found_safe _ _ _ _ (fun _ => _)); [|done]. intros. start. Qed.
Lemma Clone_safe V T p source target : safe V T None (Clone p source target) quits.
Proof.
  in_operation. apply (found_safe _ _ _ _ (fun _ => _)); [|done]. intros.
  safe_use generateID_safe. safe_use new_vm_safe. do 2 safe_step. cbn beta. start.
Qed.
Lemma Describe_safe V T p id : safe V T None (Describe format_RFC3339 p id) quits.
Proof. in_operation. apply (found_safe _ _ _ _ (fun vm => _)); [|done]. intros. by safe_steps. Qed.
Lemma ImagePrepare_safe V T p target : safe V T None (ImagePrepare p target) quits.
Proof. in_operation. start. Qed.

Lemma SnapshotCreate_safe V T p vm name description memory :
  safe V T None (SnapshotCreate p vm name description memory) quits.
Proof.
  in_operation. apply found_safe; [|done]. intros. safe_use generateID_safe.
  do 6 (safe_step; cbn beta). start.
Qed.

Lemma with_snapshot_safe {A} V T vmId snap (body : ptr -> MM (result A ProviderError)) :
  (forall V' T' vm, V ⊆ V' -> T ⊆ T' -> vm ∈ V' -> safe V' T' None (body vm) quits) ->
  safe V T None (with_snapshot_of vmId snap body) quits.
Proof.
  intros Hb. apply found_safe; [|done]. intros V' T' vm ? ? ?. do 2 safe_step. cbn beta.
  destruct r; [|done]. apply Hb; set_solver.
Qed.
Lemma SnapshotDelete_safe V T p vm snap : safe V T None (SnapshotDelete p vm snap) quits.
Proof. in_operation. apply with_snapshot_safe. intros. start. Qed.
Lemma SnapshotRevert_safe V T p vm snap : safe V T None (SnapshotRevert p vm snap) quits.
Proof. in_operation. apply with_snapshot_safe. intros. start. Qed.

Lemma TaskStatus_safe V T p task : safe V T None (TaskStatus p task) quits.
Proof. in_operation. safe_steps; try done; set_solver. Qed.

Lemma list_vm_safe V T vm v :
  vm ∈ V -> safe V T None (list_vm vm v) (fun V' _ O _ => V ⊆ V' /\ O = None).
Proof.
  intros Hvm. unfold list_vm. do 3 (safe_step; cbn beta; safe_step). cbn zeta.
  safe_step. safe_step. apply safe_bind.
  destruct bool_decide; [|safe_step; safe_step; destruct (mvm_IPs r3); [done|]];
    cbn [safe]; safe_steps; set_solver.
Qed.

Lemma list_vms_safe l : forall V T,
  (list_to_set l.*1 : gset ptr) ⊆ V -> safe V T None (list_vms l) quits.
Proof.
  induction l as [|[vm v] l IH]; intros V T Hl; [done|]. cbn [list_vms].
  apply safe_bind. cbn in Hl. eapply safe_mono; [| | |apply (list_vm_safe V T vm v); set_solver]; [done..|].
  intros V1 T1 V2 T2 O info HV HT [HV1 ->]. apply safe_bind.
  eapply safe_mono; [| | |apply (IH V2 T2); set_solver]; [done..|by intros * _ _ ->].
Qed.

Lemma ListVMs_safe V T p : safe V T None (ListVMs p) quits.
Proof.
  unfold ListVMs. safe_use simulateDelay_safe. do 2 safe_step. cbn beta. apply safe_bind.
  eapply safe_mono; [| | |apply (list_vms_safe r (V' ∪ list_to_set r.*1) (T' ∪ ∅)); set_solver];
    [done..|by intros * _ _ ->].
Qed.

Lemma Validate_safe V T p : safe V T None (Validate p) quits.
Proof. unfold Validate. safe_use simulateDelay_safe. by destruct shouldFail. Qed.

Lemma serve_safe V T p r : safe V T None (serve format_RFC3339 p r) quits.
Proof.
  destruct r; apply answered_safe; auto using Validate_safe, Create_safe, Delete_safe, Power_safe,
    Reconfigure_safe, Describe_safe, ListVMs_safe, TaskStatus_safe, SnapshotCreate_safe,
    SnapshotDelete_safe, SnapshotRevert_safe, Clone_safe, ImagePrepare_safe.
Qed.
End Safety.

(** *** The goroutines *)
Lemma power_effect_safe V T O vm op (Q : gset ptr -> gset ptr -> obligation -> string -> Prop) :
  vm ∈ V -> (forall V' T' state, V ⊆ V' -> T ⊆ T' -> Q V' T' O state) ->
  safe V T O (power_effect vm op) Q.
Proof.
  intros Hvm HQ. unfold power_effect.
  destruct op; safe_steps; try apply HQ; destruct O as [[]|]; cbn; try apply HQ; set_solver.
Qed.

Lemma body_safe V T O g :
  captured V T g -> O = None \/ takes_over g O = true -> safe V T O (goroutine_body g) quits.
Proof.
  intros Hg Ho.
  assert (forall d, next O (Sleep d) = O) as Hs by by destruct O as [[]|].
  destruct g; cbn [goroutine_body]; unfold completeTaskAfterDelay; do 2 safe_step; rewrite Hs; cbn beta;
    try (apply safe_bind, power_effect_safe; [set_solver|intros]);
    do 2 safe_step; try (cbn in Hg; set_solver);
    cbn [safe]; unfold quits, next; cbn; destruct Ho as [->|Ho]; try done;
    destruct O as [[]|]; cbn in Ho |- *; try done; by rewrite Ho.
Qed.

(** ** The invariant of the pool *)
Definition memory_ok (s : Memory) : Prop :=
  (forall id l, vms s !! id = Some l -> l ∈ dom (vm_heap s))
  /\ (forall id l, tasks s !! id = Some l -> l ∈ dom (task_heap s)).

Definition completed (s : Memory) (l : ptr) : Prop :=
  exists t, task_heap s !! l = Some t /\ mtask_Done t = true.

(** [s'] is [s] after the call: it has no fewer objects and no fewer completed tasks. *)
Definition grows (s s' : Memory) : Prop :=
  dom (vm_heap s) ⊆ dom (vm_heap s') /\ dom (task_heap s) ⊆ dom (task_heap s')
  /\ forall l, completed s l -> completed s' l.

Lemma finish_task_completes l now s t :
  task_heap s !! l = Some t -> completed (finish_task l now s) l.
Proof. intros Hl. eexists. split; [cbn; by rewrite lookup_alter_eq, Hl|done]. Qed.

Lemma finish_task_grows l now s s0 :
  grows s0 s -> grows s0 (finish_task l now s).
Proof.
  intros (Hv & Ht & Hc). split_and!; [done|by cbn; rewrite dom_alter_L|].
  intros l' Hl'. destruct (Hc l' Hl') as (t & Hh & Hd). destruct (decide (l' = l)) as [->|Hne].
  - by eapply finish_task_completes.
  - exists t. split; [|done]. cbn. by rewrite lookup_alter_ne.
Qed.

Lemma grows_same s s' :
  dom (vm_heap s) ⊆ dom (vm_heap s') -> task_heap s' = task_heap s -> grows s s'.
Proof. intros Hv Ht. split_and!; [done|by rewrite Ht|]. intros l (t & Hh & Hd). exists t. by rewrite Ht. Qed.

Lemma grows_update_vm l f s : grows s (update_vm l f s).
Proof. apply grows_same; [|done]. cbn. by rewrite dom_alter_L. Qed.

Lemma enact_grows c r s s' : enact c r s = Some s' -> grows s s'.
Proof.
  destruct c; cbn in r |- *; intros He; repeat case_match; simplify_option_eq;
    try (by apply grows_same);
    try (apply grows_same; [cbn; rewrite ?dom_insert_L; set_solver|done]);
    try apply grows_update_vm.
  - by apply finish_task_grows, grows_same.
  - by apply finish_task_grows, grows_same.
  - apply finish_task_grows, grows_update_vm.
  - apply finish_task_grows, grows_update_vm.
  - split_and!; [done|cbn; rewrite dom_insert_L; set_solver|].
    intros l (t' & Hl & Hd). exists t'. split; [|done]. cbn. rewrite lookup_insert_ne; [done|congruence].
Qed.

Lemma deref_fst s l : (omap (deref s) l).*1 ⊆ l.*2.
Proof.
  induction l as [|[id vm] l IH]; cbn; [done|].
  unfold deref at 1. cbn. destruct (vm_heap s !! vm); cbn; set_solver.
Qed.

(** The pointers an answer gives are valid. *)
Lemma enact_learns c r s s' :
  memory_ok s -> enact c r s = Some s' ->
  vm_learnt c r ⊆ dom (vm_heap s') /\ task_learnt c r ⊆ dom (task_heap s').
Proof.
  intros [Hv Ht] He. split.
  - destruct c; cbn in r |- *; try set_solver; cbn in He; repeat case_match; simplify_option_eq.
    + apply singleton_subseteq_l. eapply Hv. by symmetry.
    + set_solver.
    + intros l. rewrite elem_of_list_to_set. intros Hl.
      match goal with H : r ≡ₚ _ |- _ => rewrite H in Hl end.
      apply deref_fst, list_elem_of_fmap in Hl as ([id l'] & -> & Hl).
      apply elem_of_map_to_list in Hl. by eapply Hv.
    + cbn. rewrite dom_insert_L. set_solver.
  - destruct c; cbn in r |- *; try set_solver; cbn in He; repeat case_match; simplify_option_eq.
    + apply singleton_subseteq_l. eapply Ht. by symmetry.
    + set_solver.
    + cbn. rewrite dom_insert_L. set_solver.
Qed.

(** Only [PutVM] and [PutTask] add entries to the maps. *)
Lemma enact_tables c r s s' :
  enact c r s = Some s' ->
  (forall id l, vms s' !! id = Some l -> vms s !! id = Some l \/ c = PutVM id l)
  /\ (forall id l, tasks s' !! id = Some l -> tasks s !! id = Some l \/ c = PutTask id l).
Proof.
  intros He. destruct c; cbn in r, He; repeat case_match; simplify_option_eq; try (split; intros; by left);
    split; intros id' l'; cbn; try (intros ?; by left).
  - rewrite lookup_insert_Some. intros [[-> ->]|[_ ?]]; auto.
  - rewrite lookup_insert_Some. intros [[-> ->]|[_ ?]]; auto.
  - intros [_ ?]%lookup_delete_Some. by left.
Qed.

Lemma enact_memory_ok c r s s' O :
  memory_ok s -> ready (dom (vm_heap s)) (dom (task_heap s)) O c -> enact c r s = Some s' -> memory_ok s'.
Proof.
  intros [Hv Ht] Hr He. destruct (enact_tables _ _ _ _ He) as [Hv' Ht'].
  destruct (enact_grows _ _ _ _ He) as (Hgv & Hgt & _). split; intros id l Hl.
  - apply Hgv. destruct (Hv' id l Hl) as [Ho| ->]; [by eapply Hv|done].
  - apply Hgt. destruct (Ht' id l Hl) as [Ho| ->]; [by eapply Ht|by destruct Hr].
Qed.

(** A call that meets an obligation completes the task, or starts a goroutine that
    has taken it over. *)
Lemma enact_meets c r s s' id l :
  memory_ok s -> tasks s !! id = Some l -> enact c r s = Some s' -> meets c (Some (id, l)) = true ->
  completed s' l \/ exists g, c = Go g /\ takes_over g (Some (id, l)) = true.
Proof.
  intros [_ Ht] Hl He Hm. destruct (proj1 (elem_of_dom _ _) (Ht _ _ Hl)) as [t Hh].
  destruct c; cbn in r, He, Hm; try done; [right; eauto|left..];
    apply bool_decide_eq_true in Hm as ->; simplify_option_eq; by eapply finish_task_completes.
Qed.

Definition thread_ok (s : Memory) (O : obligation) (p : MM unit) : Prop :=
  safe (dom (vm_heap s)) (dom (task_heap s)) O p quits.

(** Each task on record is completed or owed. *)
Definition pool_ok (c : list (MM unit) * Memory) : Prop :=
  memory_ok c.2 /\ exists Os, Forall2 (thread_ok c.2) Os c.1
  /\ forall id l, tasks c.2 !! id = Some l -> completed c.2 l \/ Some (id, l) ∈ Os.

Lemma thread_ok_grows s s' O p : grows s s' -> thread_ok s O p -> thread_ok s' O p.
Proof. intros (Hv & Ht & _). apply safe_mono; [done..|]. by intros * _ _ ->. Qed.

(** What a call leaves its goroutine owing, and the goroutine it starts. *)
Definition inherits (c : mcall) (O : obligation) : list obligation :=
  match c with Go g => [if takes_over g O then O else None] | _ => [] end.

Lemma spawned_ok s c O :
  ready (dom (vm_heap s)) (dom (task_heap s)) O c ->
  Forall2 (thread_ok s) (inherits c O) (spawned c).
Proof.
  destruct c; cbn; intros Hr; try by constructor.
  constructor; [|constructor]. apply body_safe; [done|]. destruct takes_over eqn:E; auto.
Qed.

Lemma pool_step_ok c c' : pool_step c c' -> pool_ok c -> pool_ok c'.
Proof.
  intros [ts i call k r s s' Hi He] (Hmem & Os & Hts & Hall). cbn [fst snd] in *.
  destruct (Forall2_lookup_r _ _ _ _ _ Hts Hi) as (O & HO & Hsafe). destruct Hsafe as [Hr Hk].
  assert (grows s s') as Hg by by eapply enact_grows.
  assert (memory_ok s') as Hmem' by by eapply enact_memory_ok.
  destruct (enact_learns _ _ _ _ Hmem He) as [Hlv Hlt].
  split; [done|]. cbn [fst snd]. exists (<[i := next O call]> Os ++ inherits call O). split.
  - apply Forall2_app.
    + apply Forall2_insert; [eapply Forall2_impl; [exact Hts|]; intros; by eapply thread_ok_grows|].
      destruct Hg as (Hgv & Hgt & _).
      eapply safe_mono; [| | |exact (Hk r)]; [set_solver..|by intros * _ _ ->].
    + eapply Forall2_impl; [by apply spawned_ok|]. intros. by eapply thread_ok_grows.
  - intros id l Hl. destruct (enact_tables _ _ _ _ He) as [_ Htab].
    assert (i < length Os)%nat as Hlen by by eapply lookup_lt_Some.
    destruct (Htab id l Hl) as [Hold| ->].
    + destruct (Hall id l Hold) as [Hc|Hin]; [left; by apply Hg|].
      apply list_elem_of_lookup in Hin as [j Hj].
      destruct (decide (j = i)) as [->|Hne].
      * pose proof (eq_trans (eq_sym HO) Hj) as [= ->].
        destruct (meets call (Some (id, l))) eqn:Hm.
        -- destruct (enact_meets _ _ _ _ _ _ Hmem Hold He Hm) as [Hc|(g & -> & Htk)]; [by left|right].
           apply elem_of_app. right. cbn [inherits]. rewrite Htk. set_solver.
        -- right. apply elem_of_app. left. apply list_elem_of_lookup. exists i.
           rewrite list_lookup_insert_eq by done.
           destruct call; cbn [next] in *; rewrite ?Hm; try done. by destruct Hr as [_ [=]].
      * right. apply elem_of_app. left. apply list_elem_of_lookup. exists j. by rewrite list_lookup_insert_ne.
    + right. apply elem_of_app. left. apply list_elem_of_lookup. exists i.
      by rewrite list_lookup_insert_eq.
Qed.

(** ** The goroutines can always finish *)
Definition finished (p : MM unit) : Prop :=
  match p with Vis _ _ => False | _ => True end.

(** A goroutine that starts no other. *)
Fixpoint quiet {A} (p : MM A) : Prop :=
  match p with
  | Vis c k => spawned c = [] /\ forall r, quiet (k r)
  | _ => True
  end.

Lemma body_quiet g : quiet (goroutine_body g).
Proof.
  destruct g as [| |vm op t|]; cbn; try (split_and!; done).
  split; [done|]. intros _. destruct op; cbn; try (split_and!; done).
  split; [done|]. intros v. case_bool_decide; cbn; split_and!; try done.
Qed.

Lemma spawned_quiet c : Forall quiet (spawned c).
Proof. destruct c; constructor; [apply body_quiet|constructor]. Qed.

(** A call that is ready is answered. *)
Lemma ready_enact c O s :
  ready (dom (vm_heap s)) (dom (task_heap s)) O c -> exists r s', enact c r s = Some s'.
Proof.
  assert (forall A (m : gmap ptr A), exists l, m !! l = None) as Hfresh.
  { intros A m. exists (fresh (dom m)). apply not_elem_of_dom, is_fresh. }
  intros Hr. destruct c; cbn in Hr |- *;
    repeat match goal with
           | H : _ /\ _ |- _ => destruct H
           | H : _ ∈ dom _ |- _ => apply elem_of_dom in H as [? ?]
           end;
    lazymatch goal with
    | |- context [match vm_heap s !! _ with _ => _ end] =>
        destruct (Hfresh _ (vm_heap s)) as [l Hl]; exists l; eexists; by rewrite Hl
    | |- context [match task_heap s !! _ with _ => _ end] =>
        destruct (Hfresh _ (task_heap s)) as [l Hl]; exists l; eexists; by rewrite Hl
    | |- exists r : Z, _ => exists 0; eexists; simplify_option_eq; first [done|lia]
    | |- exists r : string, _ => by exists "", s
    | |- exists r : unit, _ => exists tt; eexists; by simplify_option_eq
    | |- exists r : Z * Z, _ => exists (0, 0); eexists; by simplify_option_eq
    | _ => eexists; eexists; simplify_option_eq; first [done | by rewrite bool_decide_true]
    end.
Qed.

Lemma finish_thread (p : MM unit) : forall ts i s,
  pool_ok (ts, s) -> ts !! i = Some p ->
  exists q gs s', rtc pool_step (ts, s) (<[i := q]> ts ++ gs, s')
  /\ finished q /\ Forall quiet gs /\ (quiet p -> gs = []).
Proof.
  induction p as [a|c k IH|w]; intros ts i s Hok Hi.
  1, 3: eexists _, [], s; rewrite app_nil_r, list_insert_id by done; split; [reflexivity|done].
  pose proof Hok as (Hmem & Os & Hts & _).
  destruct (Forall2_lookup_r _ _ _ _ _ Hts Hi) as (O & _ & [Hr _]).
  destruct (ready_enact _ _ _ Hr) as (r & s1 & He).
  pose proof (pool_step_intro _ _ _ _ _ _ _ Hi He) as Hstep.
  pose proof (lookup_lt_Some _ _ _ Hi) as Hlen.
  destruct (IH r (<[i := k r]> ts ++ spawned c) i s1) as (q & gs & s' & Hrtc & Hq & Hgs & Hquiet).
  - by eapply pool_step_ok.
  - rewrite lookup_app_l by (by rewrite length_insert). by rewrite list_lookup_insert_eq.
  - exists q, (spawned c ++ gs), s'. split_and!.
    + eapply rtc_l; [exact Hstep|]. rewrite insert_app_l in Hrtc by (by rewrite length_insert).
      by rewrite list_insert_insert_eq, <-app_assoc in Hrtc.
    + done.
    + apply Forall_app. split; [apply spawned_quiet|done].
    + intros [-> Hk]. by rewrite (Hquiet (Hk r)).
Qed.

Lemma pool_steps_ok c c' : rtc pool_step c c' -> pool_ok c -> pool_ok c'.
Proof. induction 1; eauto using pool_step_ok. Qed.

Lemma finish_threads ts : forall pre gs0 s,
  pool_ok (pre ++ ts ++ gs0, s) -> Forall finished pre -> Forall quiet gs0 ->
  exists pre' gs s', rtc pool_step (pre ++ ts ++ gs0, s) (pre' ++ gs0 ++ gs, s')
  /\ Forall finished pre' /\ Forall quiet gs /\ (Forall quiet ts -> gs = []).
Proof.
  induction ts as [|p ts IH]; intros pre gs0 s Hok Hpre Hgs0.
  - exists pre, [], s. rewrite app_nil_r. done.
  - destruct (finish_thread p (pre ++ (p :: ts) ++ gs0) (length pre) s) as (q & gs & s1 & Hrtc & Hq & Hgs & Hp).
    { done. }
    { by rewrite lookup_app_r, Nat.sub_diag by lia. }
    replace (<[length pre := q]> (pre ++ (p :: ts) ++ gs0) ++ gs) with ((pre ++ [q]) ++ ts ++ gs0 ++ gs)
      in Hrtc by (rewrite insert_app_r_alt by lia; rewrite Nat.sub_diag; cbn;
        rewrite <-!app_assoc; cbn; by rewrite <-?app_assoc).
    destruct (IH (pre ++ [q]) (gs0 ++ gs) s1) as (pre' & gs' & s' & Hrtc' & Hpre' & Hgs' & Hts).
    + by eapply pool_steps_ok.
    + apply Forall_app. split; [done|]. by constructor.
    + by apply Forall_app.
    + exists pre', (gs ++ gs'), s'. split_and!.
      * etrans; [exact Hrtc|]. by rewrite <-(app_assoc gs0) in Hrtc'.
      * done.
      * by apply Forall_app.
      * intros [Hqp Hqts]%Forall_cons. by rewrite (Hp Hqp), (Hts Hqts).
Qed.

Lemma pool_finishes ts s :
  pool_ok (ts, s) -> exists ts' s', rtc pool_step (ts, s) (ts', s') /\ Forall finished ts'.
Proof.
  intros Hok. destruct (finish_threads ts [] [] s) as (pre & gs & s1 & Hrtc & Hpre & Hgs & _).
  { by rewrite app_nil_r. } { done. } { done. }
  rewrite app_nil_r in Hrtc. cbn in Hrtc.
  destruct (finish_threads gs pre [] s1) as (pre' & gs' & s' & Hrtc' & Hpre' & _ & Hnone).
  { rewrite app_nil_r. by eapply pool_steps_ok. } { done. } { done. }
  rewrite app_nil_r, (Hnone Hgs), !app_nil_r in Hrtc'. exists pre', s'. split; [by etrans|done].
Qed.

Lemma finished_pool_completed ts s id l :
  pool_ok (ts, s) -> Forall finished ts -> tasks s !! id = Some l -> completed s l.
Proof.
  intros (_ & Os & Hts & Hall) Hfin Hl. destruct (Hall id l Hl) as [?|Hin]; [done|].
  apply list_elem_of_lookup in Hin as [j Hj].
  destruct (Forall2_lookup_l _ _ _ _ _ Hts Hj) as (p & Hp & Hsafe).
  rewrite Forall_lookup in Hfin. specialize (Hfin j p Hp). cbn in *. by destruct p.
Qed.

(** ** Start-up *)
Definition started (p : Provider) (s : Memory) : Prop :=
  runs_in NewProvider (mkMemory ∅ ∅ ∅ ∅) (Done p) s.

Lemma createSampleVMs_ok l : forall i s o s',
  runs_in (createSampleVMs i l) s o s' -> memory_ok s -> tasks s = ∅ -> memory_ok s' /\ tasks s' = ∅.
Proof.
  induction l as [|[[name power] ips] l IH]; intros i s o s'; cbn; [by intros [_ ->]|].
  intros (now & ? & [= <-] & upd & ? & [= <-] & vm & s1 & H1 & [] & ? & [= <-] & Hr) [Hv Ht] Htasks.
  case_match; [done|]. injection H1 as <-. eapply (IH (i + 1)); [exact Hr| |done].
  split; cbn; [|rewrite Htasks; by intros id l0 [=]].
  intros id l0. rewrite dom_insert_L, lookup_insert_Some. intros [[_ <-]|[_ Hl]]; [set_solver|].
  apply elem_of_union_r. by eapply Hv.
Qed.

Lemma runs_in_bind {A B} (p : MM A) (k : A -> MM B) : forall s o s',
  runs_in (p ≫= k) s o s' ->
  (exists a s1, runs_in p s (Done a) s1 /\ runs_in (k a) s1 o s')
  \/ exists w, runs_in p s (Panicked w) s' /\ o = Panicked w.
Proof.
  unfold mbind, prog_mbind. induction p as [a|c q IH|w]; cbn; intros s o s'.
  - left. by exists a, s.
  - intros (r & s1 & He & Hr). destruct (IH r _ _ _ Hr) as [(a & s2 & Hp & Hk)|(w & Hp & ->)].
    + left. exists a, s2. split; [|done]. by exists r, s1.
    + right. exists w. split; [|done]. by exists r, s1.
  - intros [-> ->]. right. by exists w.
Qed.

Lemma started_ok p s : started p s -> memory_ok s /\ tasks s = ∅ /\ mp_capabilities p = mock_capabilities.
Proof.
  unfold started, NewProvider. intros (mode & s1 & H1 & slow & s2 & H2 & Hr).
  injection H1 as <-. injection H2 as <-. apply (runs_in_bind (createSampleVMs 0 sample_vms)) in Hr as [([] & s3 & Hs & Hr)|(w & _ & [=])].
  cbn in Hr. destruct Hr as [[= ->] ->].
  apply createSampleVMs_ok in Hs as [? ?]; [done| |done]. split; intros id l; cbn; by rewrite lookup_empty.
Qed.

Section Server.
Context `{Lib : StatusLibrary} (format_RFC3339 : Z -> string).

Lemma server_ok p s0 c : started p s0 -> rtc (server_step format_RFC3339 p) ([], s0) c -> pool_ok c.
Proof.
  intros (Hmem & Ht & _)%started_ok. revert c. refine (rtc_ind_r _ _ _ _).
  - split; [done|]. exists []. split; [constructor|]. cbn. rewrite Ht. by intros id l [=].
  - intros c c' _ Hstep. destruct Hstep as [ts s r|c c' Hstep]; [|by apply pool_step_ok].
    intros (Hm & Os & Hts & Hall). split; [done|]. exists (Os ++ [None]). split.
    + apply Forall2_app; [done|]. constructor; [apply serve_safe|constructor].
    + intros id l Hl. destruct (Hall id l Hl) as [?|?]; [by left|right]. set_solver.
Qed.

(** C40. Whatever requests the mock provider serves, and however their handlers and
    the goroutines they start are interleaved: its goroutines can always run to their
    end, and once they have, every task on record is done, also when two operations
    were given the same task identifier. *)
Theorem mock_tasks_complete p s0 ts s :
  started p s0 -> rtc (server_step format_RFC3339 p) ([], s0) (ts, s) ->
  (exists ts' s', rtc pool_step (ts, s) (ts', s') /\ Forall finished ts')
  /\ forall ts' s' id l,
       rtc pool_step (ts, s) (ts', s') -> Forall finished ts' -> tasks s' !! id = Some l ->
       exists t, task_heap s' !! l = Some t /\ mtask_Done t = true.
Proof.
  intros Hp Hrun. pose proof (server_ok _ _ _ Hp Hrun) as Hok. split; [by apply pool_finishes|].
  intros ts' s' id l Hrtc Hfin Hl. eapply finished_pool_completed; [|done..].
  by eapply pool_steps_ok.
Qed.
End Server.

(** ** Operations that nothing disturbs *)
Lemma simulateDelay_in p s o s' : runs_in (simulateDelay p) s o s' -> o = Done tt /\ s' = s.
Proof.
  unfold simulateDelay. destruct mp_slowMode; [|by intros [-> ->]].
  intros (n & s1 & He & [] & s2 & [= <-] & [-> ->]). cbn in He. by case_bool_decide; simplify_eq.
Qed.

Lemma generateID_in prefix s o s' :
  runs_in (generateID prefix) s o s' -> exists id, o = Done id /\ s' = s.
Proof.
  intros (now & s1 & H1 & n & s2 & H2 & [-> ->]). cbn in H1, H2. case_bool_decide; simplify_eq. eauto.
Qed.

Lemma new_vm_in id name s o s' :
  runs_in (new_vm id name) s o s' ->
  exists l v, o = Done l /\ vm_heap s !! l = None /\ s' = s <| vm_heap := <[l := v]> (vm_heap s) |>
  /\ mvm_Name v = name /\ mvm_PowerState v = "Off" /\ mvm_IPs v = [].
Proof.
  intros (t1 & s1 & H1 & t2 & s2 & H2 & l & s3 & H3 & [-> ->]). cbn in H1, H2, H3. simplify_eq.
  case_match; simplify_eq. eauto 10.
Qed.

Lemma start_task_in s o s' :
  runs_in start_task s o s' ->
  exists id l, o = Done (id, l) /\ vms s' = vms s /\ vm_heap s' = vm_heap s
  /\ (exists t, task_heap s' !! l = Some t) /\ tasks s' = <[id := l]> (tasks s).
Proof.
  unfold start_task. intros [(id & s1 & (id' & [= <-] & ->)%generateID_in & Hr)|(w & (id & [=] & _)%generateID_in & _)]%runs_in_bind.
  destruct Hr as (now & s2 & H2 & l & s3 & H3 & u & s4 & H4 & [-> ->]). cbn in H2, H3, H4. simplify_eq.
  case_match; simplify_eq. exists id, l. split_and!; try done.
  eexists. cbn. by rewrite lookup_insert_eq.
Qed.

Lemma runs_in_memory_ok {A} (p : MM A) : forall O Q s o s',
  (forall V1 T1 V2 T2 O a, V1 ⊆ V2 -> T1 ⊆ T2 -> Q V1 T1 O a -> Q V2 T2 O a) ->
  safe (dom (vm_heap s)) (dom (task_heap s)) O p Q -> memory_ok s -> runs_in p s o s' -> memory_ok s'.
Proof.
  induction p as [a|c k IH|w]; cbn; intros O Q s o s' HQ Hsafe Hmem; [by intros [_ ->]| |by intros [_ ->]].
  intros (r & s1 & He & Hr). destruct Hsafe as [Hc Hk].
  destruct (enact_grows _ _ _ _ He) as (Hgv & Hgt & _). destruct (enact_learns _ _ _ _ Hmem He) as [Hlv Hlt].
  eapply (IH r (next O c) Q); [done| |by eapply enact_memory_ok|exact Hr].
  eapply safe_mono; [| |exact HQ|exact (Hk r)]; set_solver.
Qed.

Definition machine (s : Memory) (id : string) : option VirtualMachine :=
  l ← vms s !! id; vm_heap s !! l.

Section Alone.
Context `{Lib : StatusLibrary} (format_RFC3339 : Z -> string).

Lemma operation_in {A} p name what (body : MM (result A ProviderError)) s o s' :
  shouldFail p name = false -> runs_in (operation p name what body) s o s' -> runs_in body s o s'.
Proof.
  intros Hf [([] & s1 & [_ ->]%simulateDelay_in & Hr)|(w & [[=] _]%simulateDelay_in & _)]%runs_in_bind.
  by rewrite Hf in Hr.
Qed.

Lemma Create_in p name s o s' :
  shouldFail p "create" = false -> runs_in (Create p name) s o s' ->
  exists id task l v, o = Done (Ok (mkWireTask id (Some task)))
  /\ vm_heap s !! l = None /\ vms s' = <[id := l]> (vms s) /\ vm_heap s' = <[l := v]> (vm_heap s)
  /\ mvm_Name v = name /\ mvm_PowerState v = "Off" /\ mvm_IPs v = [].
Proof.
  intros Hf Hr. apply operation_in in Hr; [|done].
  apply runs_in_bind in Hr as [(id & s1 & (id' & [= <-] & ->)%generateID_in & Hr)|(w & (id & [=] & _)%generateID_in & _)].
  apply runs_in_bind in Hr as [(l & s2 & (l' & v & [= <-] & Hl & -> & Hv)%new_vm_in & Hr)|(w & (l & v & [=] & _)%new_vm_in & _)].
  destruct Hr as (u & s3 & [= <-] & Hr).
  apply (runs_in_bind start_task) in Hr as [([tid tl] & s4 & (tid' & tl' & [= <- <-] & Hvms & Hheap & _)%start_task_in & Hr)
    |(w & (tid & tl & [=] & _)%start_task_in & _)].
  destruct Hr as (u' & s5 & [= <-] & [-> ->]).
  exists id, tid, l, v. by rewrite Hvms, Hheap.
Qed.

Lemma Describe_in p id s o s' :
  shouldFail p "describe" = false -> memory_ok s -> runs_in (Describe format_RFC3339 p id) s o s' ->
  exists d, o = Done (Ok d) /\ s' = s /\
  match machine s id with
  | None => w_Exists d = false
  | Some v => w_Exists d = true /\ w_PowerState d = mvm_PowerState v /\ w_Ips d = mvm_IPs v
  end.
Proof.
  intros Hf [Hv _] Hr. apply operation_in in Hr; [|done].
  destruct Hr as (r & s1 & H1 & Hr). cbn in H1. case_bool_decide as Hget; [|done]. simplify_eq.
  unfold machine. destruct (vms s1 !! id) as [l|] eqn:Hl; cbn.
  - destruct (proj1 (elem_of_dom _ _) (Hv _ _ Hl)) as [v Hh]. rewrite Hh.
    destruct Hr as (v1 & s2 & H1 & v2 & s3 & H2 & v3 & s4 & H3 & [-> ->]). cbn in H1, H2, H3.
    repeat (case_bool_decide; [|done]). simplify_eq. by eexists.
  - destruct Hr as [-> ->]. by eexists.
Qed.

Lemma deletion_in id t s o s' :
  runs_in (goroutine_body (GoDelete id t)) s o s' ->
  vms s' = delete id (vms s) /\ vm_heap s' = vm_heap s.
Proof. intros (u & s1 & [= <-] & now & s2 & [= <-] & [_ ->]). done. Qed.

(** On a mock provider that is not told to fail, one request at a time: a
    machine that is created leaves every machine of another identifier as it was and
    is then described as existing, switched off and without an address; once the
    goroutine of its deletion is through, it is described as gone. *)
Theorem mock_machine_lifecycle p name s r s1 :
  mp_failureMode p = "" -> memory_ok s -> runs_in (Create p name) s (Done r) s1 ->
  exists id task, r = Ok (mkWireTask id (Some task))
  /\ (forall other, other <> id -> machine s1 other = machine s other)
  /\ (forall o s2, runs_in (Describe format_RFC3339 p id) s1 o s2 ->
        exists d, o = Done (Ok d) /\ w_Exists d = true /\ w_PowerState d = "Off" /\ w_Ips d = [])
  /\ (forall t u s2 o s3, runs_in (goroutine_body (GoDelete id t)) s1 u s2 ->
        runs_in (Describe format_RFC3339 p id) s2 o s3 ->
        exists d, o = Done (Ok d) /\ w_Exists d = false).
Proof.
  intros Hmode Hmem Hr. assert (forall op, shouldFail p op = false) as Hf.
  { intros op. unfold shouldFail. by rewrite Hmode. }
  destruct (Create_in _ _ _ _ _ (Hf _) Hr) as (id & task & l & v & [= ->] & Hl & Hvms & Hheap & _ & Hoff & Hips).
  assert (memory_ok s1) as Hmem1.
  { eapply (runs_in_memory_ok (Create p name) None quits); [by intros * _ _ ->|apply Create_safe|done..]. }
  exists id, task. split; [done|]. split_and!.
  - intros other Hne. unfold machine. rewrite Hvms, lookup_insert_ne by done.
    destruct (vms s !! other) as [l'|] eqn:Ho; [|done]. cbn. rewrite Hheap.
    rewrite lookup_insert_ne; [done|]. intros ->.
    by destruct (proj1 (elem_of_dom _ _) (proj1 Hmem _ _ Ho)); simplify_eq.
  - intros o s2 (d & -> & _ & Hd)%Describe_in; [|done..]. exists d. split; [done|].
    unfold machine in Hd. rewrite Hvms, lookup_insert_eq in Hd. cbn in Hd.
    rewrite Hheap, lookup_insert_eq in Hd. by rewrite Hoff, Hips in Hd.
  - intros t u s2 o s3 Hgo. assert (memory_ok s2) as Hmem2.
    { destruct Hgo as (x & s' & [= <-] & now & s'' & [= <-] & [_ ->]). destruct Hmem1 as [H1 H2].
      split; cbn; intros id' l'; [intros [_ ?]%lookup_delete_Some; by eapply H1|].
      rewrite dom_alter_L. apply H2. }
    apply deletion_in in Hgo as [Hdel _].
    intros (d & -> & _ & Hd)%Describe_in; [|done..]. exists d. split; [done|].
    unfold machine in Hd. by rewrite Hdel, lookup_delete_eq in Hd.
Qed.

Lemma runs_in_then {A B} (p : MM A) (k : A -> MM B) : forall s a s1 o s',
  runs_in p s (Done a) s1 -> runs_in (k a) s1 o s' -> runs_in (p ≫= k) s o s'.
Proof.
  unfold mbind, prog_mbind. induction p as [b|c q IH|w]; cbn; intros s a s1 o s'.
  - by intros [[= ->] ->].
  - intros (r & s2 & He & Hr) Hk. exists r, s2. split; [done|]. by eapply IH.
  - by intros [[=] _].
Qed.

Lemma generateID_can prefix s now n :
  0 <= n < 10000 ->
  runs_in (generateID prefix) s (Done (prefix +:+ "-" +:+ FormatInt (now / second) +:+ "-" +:+ FormatInt n)) s.
Proof. intros Hn. exists now, s. split; [done|]. exists n, s. split; [|done]. cbn. by rewrite bool_decide_true. Qed.

Lemma start_task_can s : exists t s', runs_in start_task s (Done t) s' /\ vms s' = vms s /\ vm_heap s' = vm_heap s.
Proof.
  pose (l := fresh (dom (task_heap s))).
  assert (task_heap s !! l = None) as Hl by apply not_elem_of_dom, is_fresh.
  do 2 eexists. split; [|split].
  - eapply runs_in_then; [by apply (generateID_can _ _ 0 0)|]. exists 0, s. split; [done|].
    exists l. eexists. split; [cbn; by rewrite Hl|]. exists tt. eexists. split; [done|]. done.
  - done.
  - done.
Qed.

(** An identifier of the right form may be given to a new machine, whether or not it
    is in use. *)
Lemma Create_can p name s now n :
  mp_failureMode p = "" -> mp_slowMode p = false -> 0 <= n < 10000 ->
  let id := "vm-" +:+ FormatInt (now / second) +:+ "-" +:+ FormatInt n in
  exists task s' v, runs_in (Create p name) s (Done (Ok (mkWireTask id (Some task)))) s'
  /\ machine s' id = Some v /\ mvm_Name v = name.
Proof.
  intros Hmode Hslow Hn id.
  pose (l := fresh (dom (vm_heap s))).
  assert (vm_heap s !! l = None) as Hl by apply not_elem_of_dom, is_fresh.
  pose (v := mkVirtualMachine id name "Off" [] (console_url id) 0 0 ∅).
  pose (s1 := s <| vm_heap := <[l := v]> (vm_heap s) |> <| vms := <[id := l]> (vms s) |>).
  destruct (start_task_can s1) as (t & s2 & Ht & Hvms & Hheap).
  exists t.1, s2, v. split; [|split; [|done]].
  - unfold Create, operation, simulateDelay, shouldFail. rewrite Hmode, Hslow.
    eapply runs_in_then; [done|]. cbn [is_empty].
    eapply runs_in_then; [by apply (generateID_can "vm" s now n)|].
    eapply (runs_in_then _ _ s l (s <| vm_heap := <[l := v]> (vm_heap s) |>));
      [|exists tt, s1; split; [reflexivity|]].
    + exists 0, s. split; [done|]. exists 0, s. split; [done|]. exists l. eexists.
      split; [cbn; by rewrite Hl|done].
    + eapply runs_in_then; [exact Ht|]. exists tt, s2. done.
  - unfold machine. rewrite Hvms, Hheap. cbn. rewrite lookup_insert_eq. cbn. by rewrite lookup_insert_eq.
Qed.

(** Identifiers are made of the second and a random number, although a comment
    calls them unique: two machines can be created with one identifier, and then the
    first of them cannot be found again. *)
Theorem mock_identifiers_collide p first second_ s :
  mp_failureMode p = "" -> mp_slowMode p = false ->
  exists id t1 t2 s1 s2 v,
    runs_in (Create p first) s (Done (Ok (mkWireTask id (Some t1)))) s1
    /\ runs_in (Create p second_) s1 (Done (Ok (mkWireTask id (Some t2)))) s2
    /\ machine s2 id = Some v /\ mvm_Name v = second_.
Proof.
  intros Hmode Hslow.
  destruct (Create_can p first s 0 0) as (t1 & s1 & v1 & H1 & _); [done..|].
  destruct (Create_can p second_ s1 0 0) as (t2 & s2 & v2 & H2 & Hm & Hn); [done..|].
  eauto 10.
Qed.
End Alone.

(** The goroutine of a power operation writes the addresses outside the lock: when it
    does so between the two reads of a listing, the listing panics. *)
Ltac pool_go i c r :=
  eapply rtc_l;
  [eapply (pool_step_intro _ i c _ r); [reflexivity|cbn; simplify_option_eq; reflexivity]|cbn].

Theorem listing_can_panic `{Lib : StatusLibrary} format_RFC3339 p id l t v ip :
  mp_slowMode p = false -> mvm_IPs v = [ip] ->
  exists q w s',
    rtc pool_step ([serve format_RFC3339 p ReqListVMs; goroutine_body (GoPower l POWER_OP_OFF t)],
                   mkMemory {[id := l]} ∅ {[l := v]} ∅)
                  ([Crash w; q], s').
Proof.
  intros Hslow Hip. unfold serve, ListVMs, simulateDelay, answered. rewrite Hslow. cbn.
  assert (vm_heap (mkMemory {[id := l]} ∅ {[l := v]} ∅) !! l = Some v) as Hl by apply lookup_singleton_eq.
  do 3 eexists.
  eapply rtc_l.
  { eapply (pool_step_intro _ 0 RangeVMs _ [(l, v)]); [reflexivity|].
    unfold enact. rewrite bool_decide_true; [reflexivity|]. cbn [vms]. rewrite map_to_list_singleton.
    cbn [omap list_omap]. unfold deref. cbn [snd]. by rewrite Hl. }
  cbn. do 3 pool_go 0%nat (Intn 256) 0. pool_go 0%nat (ReadVM l) v. rewrite bool_decide_false by (by rewrite Hip). cbn.
  pool_go 1%nat (Sleep second) tt. pool_go 1%nat (WriteIPs l []) tt.
  eapply rtc_l.
  { eapply (pool_step_intro _ 0 (ReadVM l) _ (v <| mvm_IPs := [] |>)); [reflexivity|].
    cbn in Hl |- *. by rewrite lookup_alter_eq, Hl, bool_decide_true. }
  cbn. reflexivity.
Qed.

(** The profiles the mock declares: it implements [Reconfigure] but does not say so. *)
Example mock_profiles :
  GetSupportedProfiles mock_capabilities = [ProfileCore; ProfileSnapshot; ProfileClone; ProfileImagePrepare]
  /\ HasCapability mock_capabilities CapabilityReconfigure = false
  /\ SupportsDiskExport (Manager_GetCapabilities mock_capabilities) = false
  /\ SupportedExportBackends (Manager_GetCapabilities mock_capabilities) = ["pvc"].
Proof. by vm_compute. Qed.

(** ** Concrete runs *)
Module DemoMock.

Import DemoStatus.

Definition demo_mock : Provider := mkProvider mock_capabilities "" false.
Definition sample (i : Z) (name power : string) (ips : list string) : VirtualMachine :=
  let id := "vm-" +:+ FormatInt (i + 1) in
  mkVirtualMachine id name power ips (console_url id) (- ((i + 1) * 3600 * second)) 0 ∅.
Definition demo_memory : Memory :=
  mkMemory {["vm-1" := 1%positive; "vm-2" := 2%positive; "vm-3" := 3%positive]} ∅
    {[1%positive := sample 0 "demo-vm-1" "On" ["192.168.1.10"]; 2%positive := sample 1 "demo-vm-2" "Off" [];
      3%positive := sample 2 "demo-vm-3" "On" ["192.168.1.12"; "10.0.0.5"]]} ∅.

Lemma demo_started : started demo_mock demo_memory.
Proof.
  exists "". eexists. split; [reflexivity|]. exists "". eexists. split; [reflexivity|].
  do 3 (exists 0; eexists; split; [reflexivity|]; exists 0; eexists; split; [reflexivity|];
        (first [exists 1%positive; eexists; split; [vm_compute; reflexivity|]
               |exists 2%positive; eexists; split; [vm_compute; reflexivity|]
               |exists 3%positive; eexists; split; [vm_compute; reflexivity|]]);
        exists tt; eexists; split; [vm_compute; reflexivity|]).
  vm_compute. done.
Defined.

Lemma mock_tasks_complete_witness :
  exists ts s, rtc pool_step ([serve (fun _ => "") demo_mock (ReqCreate "web")], demo_memory) (ts, s)
  /\ Forall finished ts.
Proof.
  apply (mock_tasks_complete (fun _ => "") demo_mock demo_memory); [exact demo_started|].
  apply rtc_once. exact (server_request _ demo_mock [] demo_memory (ReqCreate "web")).
Defined.

Lemma demo_memory_ok : memory_ok demo_memory.
Proof. apply (started_ok demo_mock), demo_started. Qed.

End DemoMock.
