(* ===== verification/Json.v ===== *)
(** * Json: decoded JSON values and decimal numbers

    The value that [encoding/json] decodes a text into, the type assertions and the
    struct fields that read it, and [strconv.ParseInt]; the decoding of a text is a
    parameter. *)
From S2P Require Import Prelude GoLib Utf8.
From stdpp Require Import base gmap strings list.
From Stdlib Require Import Ascii ZArith QArith.
#[local] Open Scope Z_scope.

(** ** JSON

    A value decoded into an [interface{}]; a number is a finite [float64], an object
    a map. *)
Inductive json :=
  | JNull
  | JBool (b : bool)
  | JNum (q : Q)
  | JStr (s : string)
  | JArr (l : list json)
  | JObj (fields : list (string * json)).

(** The entry of a map; of two with one key the later one stays. *)
Fixpoint jget (fields : list (string * json)) (k : string) : option json :=
  match fields with
  | [] => None
  | (k', v) :: rest =>
      match jget rest k with
      | Some v' => Some v'
      | None => if String.eqb k' k then Some v else None
      end
  end.

(** [v.(string)], [v.(float64)], [v.(map[string]interface{})], [v.([]interface{})]. *)
Definition as_string (v : option json) : option string :=
  match v with Some (JStr s) => Some s | _ => None end.
Definition as_float (v : option json) : option Q :=
  match v with Some (JNum q) => Some q | _ => None end.
Definition as_object (v : option json) : option (list (string * json)) :=
  match v with Some (JObj o) => Some o | _ => None end.
Definition as_array (v : option json) : option (list json) :=
  match v with Some (JArr l) => Some l | _ => None end.

(** The conversion of a [float64] to an integer cuts off the fraction. *)
Definition truncate (q : Q) : Z := Z.quot (Qnum q) (Zpos (Qden q)).
Definition positive_float (q : Q) : bool := 0 <? Qnum q.

Definition int64_ok (n : Z) : bool := (- 2 ^ 63 <=? n) && (n <? 2 ^ 63).

(** Decoding into a struct: a field takes the values of all keys that are its tag up
    to the case of letters, one after the other; null leaves a number or a text as it
    is and makes a pointer or a list nil; a value of another type is an error. *)
Definition same_key (a b : string) : bool := String.eqb (map_chars lower_ascii a) (map_chars lower_ascii b).
Fixpoint field {A} (dec : A -> json -> option A) (k : string) (cur : A) (o : list (string * json)) : option A :=
  match o with
  | [] => Some cur
  | (k', v) :: rest => if same_key k' k then cur ← dec cur v; field dec k cur rest else field dec k cur rest
  end.
Definition field_string (o : list (string * json)) (k : string) : option string :=
  field (fun cur v => match v with JNull => Some cur | JStr s => Some s | _ => None end) k "" o.
Definition field_int (o : list (string * json)) (k : string) : option Z :=
  field (fun cur v =>
    match v with
    | JNull => Some cur
    | JNum q =>
        if Z.eqb (Z.rem (Qnum q) (Zpos (Qden q))) 0 && int64_ok (truncate q) then Some (truncate q) else None
    | _ => None
    end) k 0 o.
Definition field_pointer (o : list (string * json)) (k : string) : option (option string) :=
  field (fun _ v => match v with JNull => Some None | JStr s => Some (Some s) | _ => None end) k None o.
Definition field_list {A} (dec : json -> option A) (o : list (string * json)) (k : string)
    : option (list A) :=
  field (fun _ v => match v with JNull => Some [] | JArr l => mapM dec l | _ => None end) k [] o.

(** A value decoded into a struct; null leaves it as it is. *)
Definition into_struct {A} (dec : list (string * json) -> option A) (v : json) : option A :=
  match v with JObj o => dec o | JNull => dec [] | _ => None end.
Definition field_uint64 (o : list (string * json)) (k : string) : option Z :=
  field (fun cur v =>
    match v with
    | JNull => Some cur
    | JNum q =>
        if Z.eqb (Z.rem (Qnum q) (Zpos (Qden q))) 0 && (0 <=? truncate q) && (truncate q <? 2 ^ 64)
        then Some (truncate q) else None
    | _ => None
    end) k 0 o.
Definition field_float (o : list (string * json)) (k : string) : option Q :=
  field (fun cur v => match v with JNull => Some cur | JNum q => Some q | _ => None end) k 0%Q o.
Definition field_bool (o : list (string * json)) (k : string) : option bool :=
  field (fun cur v => match v with JNull => Some cur | JBool b => Some b | _ => None end) k false o.
(** A struct in a struct: the values of the key are decoded one on top of the other. *)
Definition field_struct {A} (dec : list (string * json) -> option A) (o : list (string * json)) (k : string)
    : option A :=
  fields ← field (fun cur v => match v with JNull => Some cur | JObj f => Some (cur ++ f) | _ => None end) k [] o;
  dec fields.
(** A pointer to a struct: null makes it nil, an object is decoded on top. *)
Definition field_struct_pointer {A} (dec : list (string * json) -> option A) (o : list (string * json))
    (k : string) : option (option A) :=
  fields ← field (fun cur v =>
    match v with
    | JNull => Some None
    | JObj f => Some (Some (default [] cur ++ f))
    | _ => None
    end) k None o;
  match fields with Some f => Some <$> dec f | None => Some None end.

(** ** Numbers in decimal *)
Fixpoint decimal (acc : Z) (s : string) : option Z :=
  match s with
  | EmptyString => Some acc
  | String c s' =>
      if is_digit c then decimal (10 * acc + (Z.of_nat (nat_of_ascii c) - 48)) s' else None
  end.

(** [strconv.ParseInt(s, 10, bits)], which with 64 bits is [strconv.Atoi]. *)
Definition ParseInt (s : string) (bits : Z) : option Z :=
  let in_range n := if (- 2 ^ (bits - 1) <=? n) && (n <? 2 ^ (bits - 1)) then Some n else None in
  match s with
  | EmptyString => None
  | String c s' =>
      if Ascii.eqb c "-" then (if is_empty s' then None else n ← decimal 0 s'; in_range (- n))
      else if Ascii.eqb c "+" then (if is_empty s' then None else n ← decimal 0 s'; in_range n)
      else n ← decimal 0 s; in_range n
  end.
Definition Atoi (s : string) : option Z := ParseInt s 64.

(** [json.Unmarshal] into an [interface{}], and the text of its error. *)
Class JsonLibrary := { json_Unmarshal : string -> option json; json_problem : string -> string }.
