(* ===== verification/PveApi.v ===== *)
(** * PveApi: the client of the Proxmox VE API

    Models [internal/providers/proxmox/pveapi/client.go]: the form encoding of a
    request, the methods and their reading of the answers, the memoized list of
    nodes and the wait for a task.  A request is a call; its answer is a failure of
    the transport, or a status with a body, which comes with the value that JSON
    decoding makes of it. *)
From S2P Require Import Prelude Effects GoLib Utf8 Json SdkErrors.
From stdpp Require Import base gmap strings list sorting.
From Stdlib Require Import Ascii ZArith QArith.
#[local] Open Scope Z_scope.

(** ** Form encoding *)
Definition hex_upper (n : nat) : ascii :=
  ascii_of_nat (if Nat.ltb n 10 then 48 + n else 55 + n).
Definition percent (c : ascii) : string :=
  let n := nat_of_ascii c in
  String "%" (String (hex_upper (n / 16)) (String (hex_upper (n mod 16)) EmptyString)).
Definition unreserved (c : ascii) : bool :=
  let n := nat_of_ascii c in
  is_digit c || (Nat.leb 65 n && Nat.leb n 90) || (Nat.leb 97 n && Nat.leb n 122)
  || Ascii.eqb c "-" || Ascii.eqb c "_" || Ascii.eqb c "." || Ascii.eqb c "~".

(** [url.QueryEscape]. *)
Fixpoint QueryEscape (s : string) : string :=
  match s with
  | EmptyString => EmptyString
  | String c s' =>
      if unreserved c then String c (QueryEscape s')
      else if Ascii.eqb c " " then String "+" (QueryEscape s')
      else percent c +:+ QueryEscape s'
  end.

Fixpoint plus_to_20 (s : string) : string :=
  match s with
  | EmptyString => EmptyString
  | String c s' => if Ascii.eqb c "+" then "%20" +:+ plus_to_20 s' else String c (plus_to_20 s')
  end.

(** [url.Values], of which every key has one value here, and its [Encode], which
    sorts by key. *)
Abbreviation Values := (gmap string string).
Definition key_le (a b : string * string) : Prop := String.leb a.1 b.1 = true.
#[export] Instance key_le_dec a b : Decision (key_le a b).
Proof. unfold key_le. apply _. Defined.
Definition encode_pair (p : string * string) : string := QueryEscape p.1 +:+ "=" +:+ QueryEscape p.2.
Definition Encode (v : Values) : string :=
  String.concat "&" (encode_pair <$> merge_sort key_le (map_to_list v)).

(** The body of a request: the keys of SSH are encoded twice. *)
Definition double_encode (sshKey : string) : string :=
  plus_to_20 (QueryEscape (plus_to_20 (QueryEscape (TrimSpace sshKey)))).
Definition encode_body (data : Values) : string :=
  let sshKey := default "" (data !! "sshkeys") in
  if is_empty sshKey then Encode data
  else
    let base := Encode (delete "sshkeys" data) in
    if is_empty base then "sshkeys=" +:+ double_encode sshKey
    else base +:+ "&sshkeys=" +:+ double_encode sshKey.

(** ** Configuration and data *)
Record Config := mkConfig {
  cfg_Endpoint : string; cfg_TokenID : string; cfg_TokenSecret : string;
  cfg_Username : string; cfg_Password : string; cfg_InsecureSkipVerify : bool; cfg_CABundle : string;
  cfg_NodeSelector : list string; cfg_DefaultStorage : string;
  cfg_RequestTimeout : duration; cfg_TaskPollInterval : duration; cfg_TaskTimeout : duration
}.
#[export] Instance Config_eta : Eta Config := fun r =>
  mkConfig (cfg_Endpoint r) (cfg_TokenID r) (cfg_TokenSecret r) (cfg_Username r) (cfg_Password r)
    (cfg_InsecureSkipVerify r) (cfg_CABundle r) (cfg_NodeSelector r) (cfg_DefaultStorage r)
    (cfg_RequestTimeout r) (cfg_TaskPollInterval r) (cfg_TaskTimeout r).

Record VM := mkVM {
  pvm_VMID : Z; pvm_Name : string; pvm_Status : string; pvm_Node : string; pvm_CPUs : Z; pvm_Memory : Z;
  pvm_Template : Z; pvm_QMPStatus : string; pvm_PID : Z; pvm_ConfigLock : string
}.
#[export] Instance VM_eta : Eta VM := fun r =>
  mkVM (pvm_VMID r) (pvm_Name r) (pvm_Status r) (pvm_Node r) (pvm_CPUs r) (pvm_Memory r)
    (pvm_Template r) (pvm_QMPStatus r) (pvm_PID r) (pvm_ConfigLock r).

Record NetworkConfig := mkNetworkConfig {
  nc_Index : Z; nc_Model : string; nc_Bridge : string; nc_VLAN : Z; nc_MAC : string;
  nc_Firewall : bool; nc_LinkDown : bool
}.
#[export] Instance NetworkConfig_eta : Eta NetworkConfig := fun r =>
  mkNetworkConfig (nc_Index r) (nc_Model r) (nc_Bridge r) (nc_VLAN r) (nc_MAC r) (nc_Firewall r) (nc_LinkDown r).
Record IPConfig := mkIPConfig {
  ipc_Index : Z; ipc_IP : string; ipc_Gateway : string; ipc_DNS : string; ipc_DHCP : bool
}.
#[export] Instance IPConfig_eta : Eta IPConfig := fun r =>
  mkIPConfig (ipc_Index r) (ipc_IP r) (ipc_Gateway r) (ipc_DNS r) (ipc_DHCP r).

Record VMConfig := mkVMConfig {
  vc_VMID : Z; vc_Name : string; vc_CPUs : Z; vc_Memory : Z; vc_Template : string; vc_Clone : string;
  vc_Storage : string; vc_IDE2 : string; vc_CIUser : string; vc_CIPasswd : string; vc_SSHKeys : string;
  vc_Networks : list NetworkConfig; vc_IPConfigs : list IPConfig; vc_Custom : gmap string string;
  vc_ImportedDiskPath : string; vc_ImportedDiskFormat : string
}.
#[export] Instance VMConfig_eta : Eta VMConfig := fun r =>
  mkVMConfig (vc_VMID r) (vc_Name r) (vc_CPUs r) (vc_Memory r) (vc_Template r) (vc_Clone r)
    (vc_Storage r) (vc_IDE2 r) (vc_CIUser r) (vc_CIPasswd r) (vc_SSHKeys r) (vc_Networks r)
    (vc_IPConfigs r) (vc_Custom r) (vc_ImportedDiskPath r) (vc_ImportedDiskFormat r).
Definition empty_VMConfig : VMConfig := mkVMConfig 0 "" 0 0 "" "" "" "" "" "" "" [] [] ∅ "" "".

(** A task, with the two fields that are read. *)
Record Task := mkPveTask { pt_Status : string; pt_ExitCode : option string }.
Record StorageVolume := mkStorageVolume { vol_ID : string; vol_Size : Z; vol_Used : Z; vol_Format : string }.
Record GuestNetworkInterface := mkGuestInterface { gni_Name : string; gni_IPAddresses : list string }.
Record ReconfigureConfig := mkReconfigureConfig { rc_CPUs : option Z; rc_Memory : option Z }.

(** Decoding. *)
Definition decode_VM (o : list (string * json)) : option VM :=
  vmid ← field_int o "vmid"; name ← field_string o "name"; status ← field_string o "status";
  node ← field_string o "node"; cpus ← field_int o "cpus"; memory ← field_int o "maxmem";
  template ← field_int o "template"; qmp ← field_string o "qmpstatus"; pid ← field_int o "pid";
  lock ← field_string o "lock";
  Some (mkVM vmid name status node cpus memory template qmp pid lock).
Definition decode_Task (o : list (string * json)) : option Task :=
  _ ← field_string o "upid"; _ ← field_string o "type"; _ ← field_string o "id"; _ ← field_string o "user";
  _ ← field_string o "node"; _ ← field_int o "pid"; _ ← field_int o "starttime";
  status ← field_string o "status"; exit ← field_pointer o "exitstatus";
  Some (mkPveTask status exit).
Definition decode_volume : json -> option StorageVolume :=
  into_struct (fun o =>
    id ← field_string o "volid"; size ← field_int o "size"; used ← field_int o "used";
    format ← field_string o "format"; Some (mkStorageVolume id size used format)).
Definition decode_address : json -> option string :=
  into_struct (fun o =>
    ip ← field_string o "ip-address"; _ ← field_string o "ip-address-type"; _ ← field_int o "prefix"; Some ip).
Definition decode_interface : json -> option GuestNetworkInterface :=
  into_struct (fun o =>
    name ← field_string o "name"; _ ← field_string o "hardware-address";
    ips ← field_list decode_address o "ip-addresses"; Some (mkGuestInterface name ips)).
Definition decode_snapshot : json -> option string :=
  into_struct (fun o =>
    name ← field_string o "name"; _ ← field_string o "description"; _ ← field_int o "snaptime";
    _ ← field_int o "vmstate"; _ ← field_string o "parent"; Some name).
Definition decode_node : json -> option string := into_struct (fun o => field_string o "node").

(** ** Calls *)
Record http_answer := mkHttpAnswer {
  ha_Status : Z; ha_Body : string; ha_Json : result json string
}.
Inductive wake := TickFired | DeadlinePassed (why : string).

Inductive pcall :=
  | Http (method path query : string) (authorization body : option string)
  | LoadNodes                                  (* the memoized nodes, under their mutex *)
  | StoreNodes (nodes : list string)
  | AwaitTick (interval timeout : duration)    (* the select of a wait *)
  | UnixNow
  | RunSSH (command : string)
  | RangeMap (entries : list (string * json))  (* the order a map is ranged over in *)
  | Getenv (name : string)
  | ReadCredential (path : string)             (* the contents of a file, if it can be read *)
  | NewSSHTransport (endpoint : string).
Definition panswer (c : pcall) : Type :=
  match c with
  | Http _ _ _ _ _ => result http_answer string
  | LoadNodes => list string
  | StoreNodes _ => unit
  | AwaitTick _ _ => wake
  | UnixNow => Z
  | RunSSH _ => string * string * option string  (* stdout, stderr, error *)
  | RangeMap _ => list (string * json)
  | Getenv _ => string
  | ReadCredential _ => option string
  | NewSSHTransport _ => bool
  end.
Abbreviation PM := (prog pcall panswer).
Abbreviation pdo := (trigger (E := pcall) (R := panswer)).

(** The errors of the client; [ErrVMNotFound] is compared by identity. *)
Inductive perr := ErrVMNotFound | ApiErr (e : sdkerr).
Definition perr_err (e : perr) : sdkerr :=
  match e with ErrVMNotFound => NativeErr "VM not found" | ApiErr e => e end.
Definition api_error {A} (msg : string) : result A perr := Err (ApiErr (NativeErr msg)).
Definition wrapped {A} (prefix msg : string) : result A perr := Err (ApiErr (WrapErr prefix (NativeErr msg))).

Definition and_then {A B} (r : result A perr) (f : A -> result B perr) : result B perr :=
  match r with Ok a => f a | Err e => Err e end.

(** [NewClient]: the configuration with its defaults; [url.Parse] is a parameter. *)
Definition hasPasswordAuth (config : Config) : bool :=
  negb (is_empty (cfg_Username config)) && negb (is_empty (cfg_Password config)).
Definition hasTokenAuth (config : Config) : bool :=
  negb (is_empty (cfg_TokenID config)) && negb (is_empty (cfg_TokenSecret config)).
Definition or_duration (d default : duration) : duration := if d =? 0 then default else d.
Definition NewClient (parse_url : string -> option string) (config : Config) : result Config string :=
  if is_empty (cfg_Endpoint config) then
    Err "PVE_ENDPOINT environment variable is required. Set it to your Proxmox VE server URL (e.g., https://pve.example.com:8006). See docs/providers/proxmox.md for complete configuration instructions"
  else if negb (hasPasswordAuth config) && negb (hasTokenAuth config) then
    Err "proxmox authentication credentials are required. Provide either:
  • Username/Password: Set PVE_USERNAME and PVE_PASSWORD environment variables
  • API Token: Set PVE_TOKEN_ID and PVE_TOKEN_SECRET environment variables (recommended)
See docs/providers/proxmox.md for detailed setup instructions"
  else
    match parse_url (cfg_Endpoint config) with
    | Some err =>
        Err ("invalid PVE_ENDPOINT URL '" +:+ cfg_Endpoint config +:+ "': " +:+ err
             +:+ ". Expected format: https://pve.example.com:8006")
    | None =>
        Ok (config <| cfg_RequestTimeout := or_duration (cfg_RequestTimeout config) (30 * second) |>
                   <| cfg_TaskPollInterval := or_duration (cfg_TaskPollInterval config) (2 * second) |>
                   <| cfg_TaskTimeout := or_duration (cfg_TaskTimeout config) (300 * second) |>)
    end.

(** The parameters of a VM. *)
Definition set_if (k v : string) (vals : Values) : Values := if is_empty v then vals else <[k := v]> vals.
Definition set_int (k : string) (n : Z) (vals : Values) : Values :=
  if n =? 0 then vals else <[k := FormatInt n]> vals.

(** The client's spelling of an interface and of an address. *)
Definition client_buildNetworkString (n : NetworkConfig) : string :=
  String.concat "," (
    [if is_empty (nc_Model n) then "virtio" else nc_Model n;
     if is_empty (nc_Bridge n) then "bridge=vmbr0" else "bridge=" +:+ nc_Bridge n]
    ++ (if 0 <? nc_VLAN n then ["tag=" +:+ FormatInt (nc_VLAN n)] else [])
    ++ (if is_empty (nc_MAC n) then [] else ["macaddr=" +:+ nc_MAC n])
    ++ (if nc_Firewall n then ["firewall=1"] else [])
    ++ (if nc_LinkDown n then ["link_down=1"] else [])).
Definition client_buildIPConfigString (c : IPConfig) : string :=
  if ipc_DHCP c then "ip=dhcp"
  else String.concat "," (
    (if is_empty (ipc_IP c) then [] else ["ip=" +:+ ipc_IP c])
    ++ (if is_empty (ipc_Gateway c) then [] else ["gw=" +:+ ipc_Gateway c])
    ++ (if is_empty (ipc_DNS c) then [] else ["nameserver=" +:+ ipc_DNS c])).

Definition set_networks (build : NetworkConfig -> string) (l : list NetworkConfig) (vals : Values) : Values :=
  fold_left (fun vals n => set_if ("net" +:+ FormatInt (nc_Index n)) (build n) vals) l vals.
Definition set_ipconfigs (build : IPConfig -> string) (l : list IPConfig) (vals : Values) : Values :=
  fold_left (fun vals c => set_if ("ipconfig" +:+ FormatInt (ipc_Index c)) (build c) vals) l vals.

Definition configToValues (config : VMConfig) : Values :=
  let v := set_int "vmid" (vc_VMID config) ∅ in
  let v := set_if "name" (vc_Name config) v in
  let v := set_int "memory" (vc_Memory config) (set_int "cores" (vc_CPUs config) v) in
  let v := set_if "storage" (vc_Storage config)
             (set_if "clone" (vc_Clone config) (set_if "template" (vc_Template config) v)) in
  let v := set_if "cipassword" (vc_CIPasswd config)
             (set_if "ciuser" (vc_CIUser config) (set_if "ide2" (vc_IDE2 config) v)) in
  let v := if is_empty (vc_SSHKeys config) then v else <["sshkeys" := TrimSpace (vc_SSHKeys config)]> v in
  let v := set_ipconfigs client_buildIPConfigString (vc_IPConfigs config)
             (set_networks client_buildNetworkString (vc_Networks config) v) in
  vc_Custom config ∪ v.

(** The parameters of a clone. *)
Definition clone_values (config : VMConfig) : Values :=
  let custom k v := match vc_Custom config !! k with Some x => <[k := x]> v | None => v end in
  let v := set_if "storage" (vc_Storage config)
             (set_if "name" (vc_Name config) (set_int "newid" (vc_VMID config) ∅)) in
  custom "format" (custom "description" (custom "target" (custom "full" v))).

(** ** The methods

    [ticks] bounds the ticks a wait takes before it takes its timeout; [json_error] is
    the text of the error for a value of the wrong type. *)
Section Client.
Context `{UnicodeTable} (config : Config) (ticks : nat) (json_error : string).

Definition authorization : option string :=
  if hasTokenAuth config
  then Some ("PVEAPIToken=" +:+ cfg_TokenID config +:+ "=" +:+ cfg_TokenSecret config) else None.

Definition request (method path : string) (body : option Values) : PM (result http_answer string) :=
  let '(p, q) := match Cut "?" path with Some pq => pq | None => (path, "") end in
  pdo (Http method p q authorization (encode_body <$> body)).

Definition node_path (node rest : string) : string := "/api2/json/nodes/" +:+ node +:+ rest.
Definition vm_path (node : string) (vmid : Z) (rest : string) : string :=
  node_path node ("/qemu/" +:+ FormatInt vmid +:+ rest).

(** The ["data"] of a decoded answer. *)
Definition api_data (resp : http_answer) : result (option json) perr :=
  match ha_Json resp with
  | Err e => wrapped "failed to decode response" e
  | Ok (JObj o) => Ok (jget o "data")
  | Ok JNull => Ok None
  | Ok _ => wrapped "failed to decode response" json_error
  end.

Definition status_error {A} (what : string) (resp : http_answer) : result A perr :=
  api_error (what +:+ " failed with status " +:+ FormatInt (ha_Status resp) +:+ ": " +:+ ha_Body resp).
Definition unexpected_status {A} (resp : http_answer) : result A perr :=
  api_error ("unexpected status code: " +:+ FormatInt (ha_Status resp)).

(** The end of a method that starts a task: the task's identifier, or what the method
    makes of an answer without one. *)
Definition task_answer (what : string) (none : result string perr) (resp : http_answer) : result string perr :=
  if negb (ha_Status resp =? 200) then status_error what resp
  else
    match api_data resp with
    | Err e => Err e
    | Ok data => match as_string data with Some t => Ok t | None => none end
    end.
Definition no_task : result string perr := Ok "".
Definition unexpected : result string perr := api_error "unexpected response format".

Definition read_started (doing what : string) (none : result string perr) (r : result http_answer string)
    : result string perr :=
  match r with
  | Err e => wrapped ("failed to " +:+ doing) e
  | Ok resp => task_answer what none resp
  end.

Definition task_method (method path : string) (body : option Values) (doing what : string)
    (none : result string perr) : PM (result string perr) :=
  r ← request method path body;
  Ret (read_started doing what none r).

(** A [DELETE] for which an object that is missing counts as deleted. *)
Definition read_deleted (doing what : string) (r : result http_answer string) : result string perr :=
  match r with
  | Err e => wrapped ("failed to " +:+ doing) e
  | Ok resp => if ha_Status resp =? 404 then Ok "" else task_answer what no_task resp
  end.
Definition delete_method (path doing what : string) : PM (result string perr) :=
  r ← request "DELETE" path None;
  Ret (read_deleted doing what r).

Definition CreateVM (node : string) (vm : VMConfig) : PM (result string perr) :=
  task_method "POST" (node_path node "/qemu") (Some (configToValues vm)) "create VM" "create VM" unexpected.
Definition CloneVM (node : string) (vmid : Z) (vm : VMConfig) : PM (result string perr) :=
  task_method "POST" (vm_path node vmid "/clone") (Some (clone_values vm)) "clone VM" "clone VM" unexpected.
Definition DeleteVM (node : string) (vmid : Z) (purge : bool) : PM (result string perr) :=
  delete_method (vm_path node vmid (if purge then "?purge=1&destroy-unreferenced-disks=1" else ""))
    "delete VM" "delete VM".
Definition PowerOperationWithParams (node : string) (vmid : Z) (operation : string) (params : Values)
    : PM (result string perr) :=
  task_method "POST" (vm_path node vmid ("/status/" +:+ operation))
    (if bool_decide (params = ∅) then None else Some params)
    "perform power operation" "power operation" no_task.
Definition PowerOperation (node : string) (vmid : Z) (operation : string) : PM (result string perr) :=
  PowerOperationWithParams node vmid operation ∅.
Definition ReconfigureVMRaw (node : string) (vmid : Z) (values : Values) : PM (result string perr) :=
  task_method "PUT" (vm_path node vmid "/config") (Some values) "reconfigure VM" "reconfigure VM" no_task.
(** No caller sets the sockets or the disk. *)
Definition ReconfigureVM (node : string) (vmid : Z) (c : ReconfigureConfig) : PM (result string perr) :=
  let v := match rc_CPUs c with Some n => <["cores" := FormatInt n]> ∅ | None => ∅ end in
  let v := match rc_Memory c with Some n => <["memory" := FormatInt n]> v | None => v end in
  ReconfigureVMRaw node vmid v.
Definition ResizeDisk (node : string) (vmid : Z) (disk : string) (sizeGB : Z) : PM (result string perr) :=
  task_method "PUT" (vm_path node vmid "/resize")
    (Some (<["disk" := disk]> {["size" := FormatInt sizeGB +:+ "G"]})) "resize disk" "resize disk" no_task.
Definition CreateSnapshot (node : string) (vmid : Z) (snapname description : string) (includeMemory : bool)
    : PM (result string perr) :=
  let v := set_if "description" description {["snapname" := snapname]} in
  task_method "POST" (vm_path node vmid "/snapshot") (Some (if includeMemory then <["vmstate" := "1"]> v else v))
    "create snapshot" "create snapshot" unexpected.
Definition DeleteSnapshot (node : string) (vmid : Z) (snapname : string) : PM (result string perr) :=
  delete_method (vm_path node vmid ("/snapshot/" +:+ snapname)) "delete snapshot" "delete snapshot".
Definition RevertSnapshot (node : string) (vmid : Z) (snapname : string) : PM (result string perr) :=
  task_method "POST" (vm_path node vmid ("/snapshot/" +:+ snapname +:+ "/rollback")) None
    "revert snapshot" "revert snapshot" unexpected.
Definition PrepareImage (node storage imageURL templateName format : string) : PM (result string perr) :=
  if is_empty imageURL then Ret (Ok "")
  else
    let format := if is_empty format then "qcow2" else format in
    task_method "POST" (node_path node ("/storage/" +:+ storage +:+ "/download-url"))
      (Some (<["content" := "import"]> (<["filename" := templateName +:+ "." +:+ format]> {["url" := imageURL]})))
      "import image" "image import" no_task.

(** A value read with a second pass through JSON. *)
Definition reread {A} (dec : json -> option A) (what : string) (data : option json) : result A perr :=
  match dec (default JNull data) with
  | Some a => Ok a
  | None => wrapped ("failed to unmarshal " +:+ what) json_error
  end.

Definition read_VM (node : string) (vmid : Z) (r : result http_answer string) : result VM perr :=
  match r with
  | Err e => wrapped "failed to get VM" e
  | Ok resp =>
      if ha_Status resp =? 404 then Err ErrVMNotFound
      else if negb (ha_Status resp =? 200) then unexpected_status resp
      else
        and_then (api_data resp) (fun data =>
        and_then (reread (into_struct decode_VM) "VM" data) (fun vm =>
        Ok (vm <| pvm_Node := node |> <| pvm_VMID := vmid |>)))
  end.
Definition GetVM (node : string) (vmid : Z) : PM (result VM perr) :=
  r ← request "GET" (vm_path node vmid "/status/current") None;
  Ret (read_VM node vmid r).

Definition read_VMConfig (r : result http_answer string) : result (list (string * json)) perr :=
  match r with
  | Err e => wrapped "failed to get VM config" e
  | Ok resp =>
      if ha_Status resp =? 404 then Err ErrVMNotFound
      else if negb (ha_Status resp =? 200) then unexpected_status resp
      else
        and_then (api_data resp) (fun data =>
        match as_object data with Some o => Ok o | None => api_error "unexpected response format" end)
  end.
Definition GetVMConfig (node : string) (vmid : Z) : PM (result (list (string * json)) perr) :=
  r ← request "GET" (vm_path node vmid "/config") None;
  Ret (read_VMConfig r).

Definition task_path (node taskID : string) : string := node_path node ("/tasks/" +:+ taskID +:+ "/status").
Definition read_Task (r : result http_answer string) : result Task perr :=
  match r with
  | Err e => wrapped "failed to get task status" e
  | Ok resp =>
      if negb (ha_Status resp =? 200) then unexpected_status resp
      else and_then (api_data resp) (reread (into_struct decode_Task) "task")
  end.
Definition GetTaskStatus (node taskID : string) : PM (result Task perr) :=
  r ← request "GET" (task_path node taskID) None;
  Ret (read_Task r).

Fixpoint wait_loop (rounds : nat) (node taskID : string) : PM (option perr) :=
  match rounds with
  | O => Ret (Some (ApiErr (NativeErr "task timeout: context deadline exceeded")))
  | S n =>
      w ← pdo (AwaitTick (cfg_TaskPollInterval config) (cfg_TaskTimeout config));
      match w with
      | DeadlinePassed why => Ret (Some (ApiErr (WrapErr "task timeout" (NativeErr why))))
      | TickFired =>
          t ← GetTaskStatus node taskID;
          match t with
          | Err e => Ret (Some (ApiErr (WrapErr "failed to get task status" (perr_err e))))
          | Ok task =>
              if bool_decide (pt_Status task = "stopped") then
                match pt_ExitCode task with
                | Some code =>
                    if bool_decide (code = "OK") then Ret None
                    else Ret (Some (ApiErr (NativeErr ("task failed with exit code: " +:+ code))))
                | None => Ret None
                end
              else wait_loop n node taskID
          end
      end
  end.
Definition WaitForTask (node taskID : string) : PM (option perr) :=
  if is_empty taskID then Ret None else wait_loop ticks node taskID.

(** A list whose elements are pointers: null is the nil pointer. *)
Definition pointer_to {A} (dec : list (string * json) -> option A) (v : json) : option (option A) :=
  match v with
  | JNull => Some None
  | JObj o => Some <$> dec o
  | _ => None
  end.

(** An answer decoded in one pass into a struct with the field ["data"]. *)
Definition typed_data {A} (dec : json -> option A) (what : string) (resp : http_answer) : result (list A) perr :=
  match ha_Json resp with
  | Err e => wrapped ("failed to decode " +:+ what) e
  | Ok v =>
      match into_struct (fun o => field_list dec o "data") v with
      | Some l => Ok l
      | None => wrapped ("failed to decode " +:+ what) json_error
      end
  end.

Definition client_ListVMs (node : string) : PM (result (list (option VM)) perr) :=
  r ← request "GET" (node_path node "/qemu") None;
  Ret (match r with
       | Err e => wrapped "failed to list VMs" e
       | Ok resp =>
           if negb (ha_Status resp =? 200)
           then api_error ("failed to list VMs: status " +:+ FormatInt (ha_Status resp))
           else typed_data (pointer_to decode_VM) "VM list" resp
       end).

Definition GetStorageContent (node storage : string) : PM (result (list StorageVolume) perr) :=
  r ← request "GET" (node_path node ("/storage/" +:+ storage +:+ "/content")) None;
  Ret (match r with
       | Err e => wrapped "failed to get storage content" e
       | Ok resp =>
           if negb (ha_Status resp =? 200) then status_error "get storage content" resp
           else typed_data decode_volume "storage content" resp
       end).

Definition GetNextVMID : PM (result Z perr) :=
  r ← request "GET" "/api2/json/cluster/nextid" None;
  Ret (match r with
       | Err e => wrapped "failed to get next VMID" e
       | Ok resp =>
           if negb (ha_Status resp =? 200) then status_error "get next VMID" resp
           else
             match ha_Json resp with
             | Err e => wrapped "failed to decode next VMID response" e
             | Ok v =>
                 match into_struct (fun o => Some (jget o "data")) v with
                 | None => wrapped "failed to decode next VMID response" json_error
                 | Some (Some (JStr s)) =>
                     match Atoi s with
                     | Some id => Ok id
                     | None => api_error ("invalid next VMID " +:+ s)
                     end
                 | Some (Some (JNum q)) => Ok (truncate q)
                 | Some _ => api_error "unexpected next VMID type"
                 end
             end
       end).

Definition ListNodes : PM (result (list string) perr) :=
  cached ← pdo LoadNodes;
  if negb (bool_decide (cached = [])) then Ret (Ok cached)
  else
    r ← request "GET" "/api2/json/nodes" None;
    match r with
    | Err e => Ret (wrapped "failed to list nodes" e)
    | Ok resp =>
        if negb (ha_Status resp =? 200) then Ret (status_error "list nodes" resp)
        else
          match typed_data decode_node "nodes response" resp with
          | Err e => Ret (Err e)
          | Ok names =>
              let nodes := List.filter (fun n => negb (is_empty n)) names in
              if bool_decide (nodes = []) then Ret (api_error "PVE returned no nodes")
              else _ ← pdo (StoreNodes nodes); Ret (Ok nodes)
          end
    end.

Definition FindNode : PM (result string perr) :=
  match cfg_NodeSelector config with
  | node :: _ => Ret (Ok node)
  | [] =>
      nodes ← ListNodes;
      match nodes with
      | Err e => Ret (Err (ApiErr (WrapErr "no NodeSelector configured and node discovery failed" (perr_err e))))
      | Ok (node :: _) => Ret (Ok node)
      | Ok [] => Crash "index out of range [0] with length 0"
      end
  end.

(** The keys of the disks, in the order of preference. *)
Definition disk_keys : list string :=
  ["virtio"; "scsi"; "sata"; "ide"] ≫= fun prefix => (fun i => prefix +:+ FormatInt (Z.of_nat i)) <$> seq 0 16.
Definition is_disk (vm : list (string * json)) (key : string) : bool :=
  match as_string (jget vm key) with
  | Some s => negb (is_empty s) && negb (contains (ToLower s) "media=cdrom")
  | None => false
  end.
Definition DetectPrimaryDisk (node : string) (vmid : Z) : PM (result string perr) :=
  c ← GetVMConfig node vmid;
  Ret (match c with
       | Err e => Err e
       | Ok vm => Ok (default "scsi0" (head (List.filter (is_disk vm) disk_keys)))
       end).

Definition read_interfaces (r : result http_answer string) : result (list GuestNetworkInterface) perr :=
  match r with
  | Err e => wrapped "failed to get guest network interfaces" e
  | Ok resp =>
      if negb (ha_Status resp =? 200) then status_error "get guest network interfaces" resp
      else
        and_then (api_data resp)
          (reread (into_struct (fun o => field_list decode_interface o "result")) "guest network interfaces")
  end.
Definition GetGuestNetworkInterfaces (node : string) (vmid : Z) : PM (result (list GuestNetworkInterface) perr) :=
  r ← request "GET" (vm_path node vmid "/agent/network-get-interfaces") None;
  Ret (read_interfaces r).

Definition ListSnapshots (node : string) (vmid : Z) : PM (result (list (option string)) perr) :=
  r ← request "GET" (vm_path node vmid "/snapshot") None;
  Ret (match r with
       | Err e => wrapped "failed to list snapshots" e
       | Ok resp =>
           if negb (ha_Status resp =? 200) then unexpected_status resp
           else
             and_then (api_data resp)
               (reread (fun v => match v with
                              | JNull => Some []
                              | JArr l => mapM (fun x => match x with
                                                         | JNull => Some None
                                                         | x => Some <$> decode_snapshot x
                                                         end) l
                              | _ => None
                              end) "snapshots")
       end).
End Client.
