(* ===== verification/Proxmox.v ===== *)
(** * Proxmox: the Proxmox VE provider

    Models [internal/providers/proxmox/server.go] and, of [s3import.go] and [ssh.go],
    the creation of a machine around an imported disk, over the calls of [PveApi].
    Reading JSON texts, the CRD form of an image and the printing of a raw map are
    parameters.  Log lines are left out. *)
From S2P Require Import Prelude Contracts Effects GoLib Utf8 GrpcClient Storage SdkErrors SdkCapabilities Json PveApi.
From stdpp Require Import base gmap strings list.
From Stdlib Require Import Ascii ZArith QArith.
#[local] Open Scope Z_scope.

(** The source of an image in the CRD, with the fields the provider reads. *)
Record ProxmoxSource := mkProxmoxSource {
  ps_TemplateID : option Z; ps_TemplateName : string; ps_Storage : string; ps_Node : string;
  ps_FullClone : option bool
}.
Class JsonText := {
  Unmarshal : string -> option json;
  Unmarshal_image : string -> option (option ProxmoxSource);  (* spec.source.proxmox *)
  Marshal_raw : gmap string string -> string
}.

(** [client] is nil when it could not be made, [ssh] says whether the transport to
    the node is there. *)
Record Provider := mkProvider {
  prx_client : option Config; prx_capabilities : Manager; prx_ssh : bool
}.

(** ** Strings *)
(** The longest prefix of characters that satisfy [f], and the rest. *)
Fixpoint span (f : ascii -> bool) (s : string) : string * string :=
  match s with
  | EmptyString => ("", "")
  | String c s' => if f c then let '(a, b) := span f s' in (String c a, b) else ("", s)
  end.
Definition nonempty (s : string) : option string := if is_empty s then None else Some s.

(** [unused\d+:] at the start: what follows. *)
Definition after_unused (s : string) : option string :=
  if has_prefix s "unused" then
    let '(ds, rest) := span is_digit (TrimPrefix s "unused") in
    if is_empty ds then None else if has_prefix rest ":" then Some (TrimPrefix rest ":") else None
  else None.

(** The first match of [(?m)^unused\d+:\s*(\S+)]. *)
Definition unused_here (s : string) : option string :=
  rest ← after_unused s;
  nonempty (span (fun c => negb (re_space c)) (span re_space rest).2).1.
Fixpoint find_unused (line_start : bool) (s : string) : option string :=
  match (if line_start then unused_here s else None) with
  | Some v => Some v
  | None =>
      match s with
      | EmptyString => None
      | String c s' => find_unused (Ascii.eqb c newline) s'
      end
  end.
Definition parseUnusedVolid (qmConfig : string) : string :=
  match find_unused true qmConfig with Some v => TrimSpace v | None => "" end.

(** The first match of the pattern for the volume of [qm importdisk]: the words
    "imported disk as", a quote or none, [unused\d+:] or none, and the volume. *)
Definition imported_here (s : string) : option string :=
  if has_prefix s "imported disk as " then
    let rest := TrimPrefix s "imported disk as " in
    let rest := match rest with
                | String c r => if is_quote_char c then r else rest
                | EmptyString => rest
                end in
    let volume t := nonempty (span (fun c => negb (is_quote_char c || re_space c)) t).1 in
    match (t ← after_unused rest; volume t) with
    | Some v => Some v
    | None => volume rest
    end
  else None.
Fixpoint find_imported (s : string) : option string :=
  match imported_here s with
  | Some v => Some v
  | None => match s with EmptyString => None | String _ s' => find_imported s' end
  end.
Definition parseImportedVolid (output : string) : string :=
  match find_imported output with Some v => TrimSpace v | None => "" end.

(** Text in single quotes for the shell. *)
Fixpoint escape_quotes (s : string) : string :=
  match s with
  | EmptyString => EmptyString
  | String c s' => if Ascii.eqb c "'" then "'\''" +:+ escape_quotes s' else String c (escape_quotes s')
  end.
Definition proxmoxShellQuote (s : string) : string := "'" +:+ escape_quotes s +:+ "'".

Definition importedDiskVolume (storage : string) (vmid : Z) : string :=
  storage +:+ ":vm-" +:+ FormatInt vmid +:+ "-disk-0".
Definition buildImportDiskCommand (vmid : Z) (stagePath storage format : string) : string :=
  "qm importdisk " +:+ FormatInt vmid +:+ " " +:+ proxmoxShellQuote stagePath +:+ " "
  +:+ proxmoxShellQuote storage +:+ " --format " +:+ proxmoxShellQuote format.
Definition buildImportedDiskSetCommand (vmid : Z) (importedVolume : string) : string :=
  String.concat " " ["qm set " +:+ FormatInt vmid; "--scsihw virtio-scsi-pci";
                     "--scsi0 " +:+ proxmoxShellQuote importedVolume; "--boot order=scsi0"].
Definition buildImportedDiskCloudInitValues (storage : string) (vm : VMConfig) : Values :=
  let v := set_if "ciuser" (vc_CIUser vm) {["ide2" := storage +:+ ":cloudinit"]} in
  if is_empty (vc_SSHKeys vm) then v else <["sshkeys" := TrimSpace (vc_SSHKeys vm)]> v.

(** The provider's own spelling of an interface and of an address. *)
Definition buildNetworkString (n : NetworkConfig) : string :=
  nc_Model n +:+ ",bridge=" +:+ nc_Bridge n
  +:+ (if 0 <? nc_VLAN n then ",tag=" +:+ FormatInt (nc_VLAN n) else "")
  +:+ (if is_empty (nc_MAC n) then "" else ",mac=" +:+ nc_MAC n)
  +:+ (if nc_Firewall n then ",firewall=1" else "").
Definition buildIPConfigString (c : IPConfig) : string :=
  if ipc_DHCP c then "ip=dhcp"
  else "ip=" +:+ ipc_IP c +:+ (if is_empty (ipc_Gateway c) then "" else ",gw=" +:+ ipc_Gateway c).

(** ** Reading the request *)
Definition int32_field (o : list (string * json)) (k : string) : option Z :=
  n ← field_int o k; if (- 2 ^ 31 <=? n) && (n <? 2 ^ 31) then Some n else None.

Section Parse.
Context `{JsonText}.

(** The CPU count and the memory of a class; [None] when it cannot be read. *)
Definition class_sizing (classJSON : string) : option (Z * Z) :=
  j ← Unmarshal classJSON;
  into_struct (fun o => cpu ← int32_field o "CPU"; mem ← int32_field o "MemoryMiB"; Some (cpu, mem)) j.
Definition parseClassSizing (classJSON : string) : Z * Z :=
  if is_empty classJSON then (0, 0) else default (0, 0) (class_sizing classJSON).

Definition parse_class (classJSON : string) (vm : VMConfig) : VMConfig :=
  if is_empty classJSON then vm
  else
    match class_sizing classJSON with
    | None => vm
    | Some (cpu, mem) =>
        let vm := if 0 <? cpu then vm <| vc_CPUs := cpu |> else vm in
        if 0 <? mem then vm <| vc_Memory := mem |> else vm
    end.

(** The image as the manager sends it. *)
Definition contracts_image (o : list (string * json)) (vm : VMConfig) : VMConfig :=
  let vm := match as_string (jget o "TemplateName") with
            | Some t => if is_empty t then vm else vm <| vc_Template := t |>
            | None => vm
            end in
  let vm := match as_string (jget o "Path") with
            | Some path =>
                if negb (is_empty (TrimSpace path)) && is_empty (vc_Template vm) then
                  let vm := vm <| vc_ImportedDiskPath := TrimSpace path |> in
                  match as_string (jget o "Format") with
                  | Some f => if is_empty f then vm else vm <| vc_ImportedDiskFormat := f |>
                  | None => vm
                  end
                else vm
            | None => vm
            end in
  match as_string (jget o "storage") with
  | Some st => if is_empty st then vm else vm <| vc_Storage := st |>
  | None => vm
  end.

(** The image as the custom resource has it. *)
Definition spec_image (src : ProxmoxSource) (vm : VMConfig) : VMConfig :=
  let vm := match ps_TemplateID src with
            | Some id => vm <| vc_Template := FormatInt id |>
            | None => if is_empty (ps_TemplateName src) then vm else vm <| vc_Template := ps_TemplateName src |>
            end in
  let vm := if is_empty (ps_Storage src) then vm else vm <| vc_Storage := ps_Storage src |> in
  let vm := if is_empty (ps_Node src) then vm
            else vm <| vc_Custom := <["template_node" := ps_Node src]> (vc_Custom vm) |> in
  match ps_FullClone src with
  | Some false => vm <| vc_Custom := <["full_clone" := "0"]> (vc_Custom vm) |>
  | _ => vm
  end.

Definition parse_image (imageJSON : string) (vm : VMConfig) : VMConfig :=
  if is_empty imageJSON then vm
  else
    let vm := match Unmarshal imageJSON with
              | Some (JObj o) => contracts_image o vm
              | Some JNull => contracts_image [] vm
              | _ => vm
              end in
    if is_empty (vc_Template vm) then
      match Unmarshal_image imageJSON with
      | Some (Some src) => spec_image src vm
      | _ => vm
      end
    else vm.

Definition bridge_of (name : string) : string :=
  if bool_decide (name = "lan") || bool_decide (name = "default") then "vmbr0"
  else if bool_decide (name = "dmz") then "vmbr1"
  else if bool_decide (name = "management") || bool_decide (name = "mgmt") then "vmbr2"
  else if has_prefix name "vmbr" then name else "vmbr0".

Definition default_network (i : Z) : NetworkConfig := mkNetworkConfig i "virtio" "vmbr0" 0 "" false false.
Definition default_ipconfig (i : Z) : IPConfig := mkIPConfig i "" "" "" true.

Definition static_ip (o : list (string * json)) (c : IPConfig) : IPConfig :=
  let c := match as_string (jget o "address") with
           | Some ip => c <| ipc_IP := ip |> <| ipc_DHCP := false |>
           | None => c
           end in
  let c := match as_string (jget o "gateway") with Some gw => c <| ipc_Gateway := gw |> | None => c end in
  match as_array (jget o "dns") with
  | Some dns =>
      let servers := omap (fun d => as_string (Some d)) dns in
      if bool_decide (servers = []) then c else c <| ipc_DNS := String.concat "," servers |>
  | None => c
  end.

Definition parse_network (i : Z) (o : list (string * json)) : NetworkConfig * IPConfig :=
  let n := default_network i in
  let n := match as_string (jget o "name") with Some name => n <| nc_Bridge := bridge_of name |> | None => n end in
  let n := match as_float (jget o "vlan") with Some v => n <| nc_VLAN := truncate v |> | None => n end in
  let c := match as_object (jget o "static_ip") with
           | Some s => static_ip s (default_ipconfig i)
           | None => default_ipconfig i
           end in
  (match as_string (jget o "mac") with Some m => n <| nc_MAC := m |> | None => n end, c).

Fixpoint parse_networks (i : Z) (l : list json) : list (NetworkConfig * IPConfig) :=
  match l with
  | [] => []
  | JObj o :: rest => parse_network i o :: parse_networks (i + 1) rest
  | _ :: rest => parse_networks (i + 1) rest
  end.

Definition with_networks (networksJSON : string) (vm : VMConfig) : VMConfig :=
  let found := if is_empty networksJSON then []
               else match Unmarshal networksJSON with
                    | Some (JArr l) => parse_networks 0 l
                    | _ => []
                    end in
  let found := if bool_decide (found = []) then [(default_network 0, default_ipconfig 0)] else found in
  vm <| vc_Networks := found.*1 |> <| vc_IPConfigs := found.*2 |>.

(** The keys under [ssh_authorized_keys:]; the flag says whether the lines are in the
    list. *)
Fixpoint ssh_keys (inKeys : bool) (lines : list string) : list string :=
  match lines with
  | [] => []
  | line :: rest =>
      if contains line "ssh_authorized_keys:" then ssh_keys true rest
      else if inKeys && has_prefix (TrimSpace line) "- " then
        let key := TrimSpace (TrimPrefix (TrimSpace line) "- ") in
        let key := TrimSpace (Trim is_quote_char key) in
        if is_empty key then ssh_keys true rest else key :: ssh_keys true rest
      else ssh_keys (inKeys && has_prefix (TrimSpace line) " ") rest
  end.

(** The user of the first line with [name:] that is not a [hostname:]. *)
Fixpoint ci_user (lines : list string) : string :=
  match lines with
  | [] => ""
  | line :: rest =>
      if contains line "name:" && negb (contains line "hostname:") then
        match Split ":" line with
        | _ :: p :: _ => Trim is_quote_or_space (TrimSpace p)
        | _ => ""
        end
      else ci_user rest
  end.

Definition parse_userdata (userData : string) (vm : VMConfig) : VMConfig :=
  if is_empty userData then vm
  else
    let storage := if is_empty (vc_Storage vm) then "local" else vc_Storage vm in
    let vm := vm <| vc_IDE2 := storage +:+ ":cloudinit" |> in
    let lines := Split newline userData in
    let keys := if contains userData "ssh_authorized_keys:" then ssh_keys false lines else [] in
    let vm := if bool_decide (keys = []) then vm
              else vm <| vc_SSHKeys := TrimSpace (join_lines keys) |> in
    let user := if contains userData "name:" then ci_user lines else "" in
    if is_empty user then vm else vm <| vc_CIUser := user |>.
End Parse.

(** ** The operations *)
Section Server.
Context `{Text : JsonText} `{Status : StatusLibrary} `{Unicode : UnicodeTable}.
Context (ticks : nat) (json_error : string).

Abbreviation PR A := (PM (result A ProviderError)).
Definition unavailable {A} : PR A := Ret (Err (NewUnavailable "PVE client not configured" None)).
Definition internal {A} (msg : string) (e : perr) : result A ProviderError :=
  Err (NewInternal msg (Some (perr_err e))).
Definition invalid_reference {A} (msg : string) : PR A :=
  Ret (Err (NewInvalidSpec ("invalid VM reference: " +:+ msg))).

(** A response with the task, when there is one. *)
Definition task_response (id taskID : string) : wire_Task :=
  mkWireTask id (if is_empty taskID then None else Some taskID).

(** Waits for a task that an operation may have started. *)
Definition wait_if_any (config : Config) (node taskID : string) : PM (option perr) :=
  WaitForTask config ticks json_error node taskID.

Definition Validate (p : Provider) : PR wire_Validate :=
  match prx_client p with
  | None => Ret (Ok (mkWireValidate false "PVE client not configured"))
  | Some c =>
      node ← FindNode c json_error;
      Ret (Ok (match node with
               | Err e => mkWireValidate false ("Failed to connect to Proxmox VE: " +:+ err_Error (perr_err e))
               | Ok node => mkWireValidate true ("Proxmox VE provider is ready (node: " +:+ node +:+ ")")
               end))
  end.

Definition nextVMID (c : Config) : PM Z :=
  id ← GetNextVMID c json_error;
  match id with
  | Ok id => Ret id
  | Err _ => now ← pdo UnixNow; Ret (Z.rem now 999999 + 100000)
  end.

(** An identifier, or a node and an identifier. *)
Definition parseVMReference (c : Config) (ref : string) : PM (result (Z * string) string) :=
  match Atoi ref with
  | Some vmid =>
      node ← FindNode c json_error;
      Ret (match node with
           | Err e => Err ("failed to find node: " +:+ err_Error (perr_err e))
           | Ok node => Ok (vmid, node)
           end)
  | None =>
      Ret (match Split ":" ref with
           | [node; id] =>
               match Atoi id with
               | Some vmid => Ok (vmid, node)
               | None => Err ("invalid VMID in reference: " +:+ id)
               end
           | _ => Err ("invalid VM reference format: " +:+ ref)
           end)
  end.

(** The operations on one machine. *)
Definition with_vm {A} (p : Provider) (ref : string) (body : Config -> Z -> string -> PR A) : PR A :=
  match prx_client p with
  | None => unavailable
  | Some c =>
      r ← parseVMReference c ref;
      match r with
      | Err msg => invalid_reference msg
      | Ok (vmid, node) => body c vmid node
      end
  end.

Definition applyVMClassSizing (c : Config) (node : string) (vmid cpus memoryMiB : Z) : PM (option perr) :=
  let vals : Values := if 0 <? cpus then <["sockets" := "1"]> {["cores" := FormatInt cpus]} else ∅ in
  let vals := if 0 <? memoryMiB then <["memory" := FormatInt memoryMiB]> vals else vals in
  if bool_decide (vals = ∅) then Ret None
  else
    task ← ReconfigureVMRaw c json_error node vmid vals;
    match task with
    | Err e => Ret (Some e)
    | Ok task => wait_if_any c node task
    end.

Definition parseCreateRequest (c : Config) (req : wire_CreateRequest) : PM (result (VMConfig * string) string) :=
  vmid ← nextVMID c;
  let vm := empty_VMConfig <| vc_VMID := vmid |> <| vc_Name := w_Name req |> in
  let vm := parse_image (w_ImageJson req) (parse_class (w_ClassJson req) vm) in
  let vm := parse_userdata (w_UserData req) (with_networks (w_NetworksJson req) vm) in
  node ← FindNode c json_error;
  Ret (match node with
       | Err e => Err ("failed to find node: " +:+ err_Error (perr_err e))
       | Ok node => Ok (vm, node)
       end).

(** *** Creating a machine *)
Definition rollback_shell (c : Config) (node : string) (vmid : Z) : PM unit :=
  task ← DeleteVM c json_error node vmid true;
  match task with
  | Err _ => Ret tt
  | Ok task => _ ← wait_if_any c node task; Ret tt
  end.
Definition fail_shell {A} (c : Config) (node : string) (vmid : Z) (e : ProviderError) : PR A :=
  _ ← rollback_shell c node vmid; Ret (Err e).

Definition cleanupNodeFile (p : Provider) (path : string) : PM unit :=
  if negb (prx_ssh p) || is_empty path then Ret tt
  else _ ← pdo (RunSSH ("rm -f " +:+ proxmoxShellQuote path)); Ret tt.

(** The error of a command, with what it wrote to its standard error. *)
Definition ssh_failed (what : string) (vmid : Z) (stderr err : string) : ProviderError :=
  NewInternal (what +:+ " failed for vmid " +:+ FormatInt vmid +:+ " (stderr: " +:+ TrimSpace stderr +:+ ")")
    (Some (NativeErr err)).

Definition attach_cloudinit (p : Provider) (c : Config) (req : wire_CreateRequest) (vm : VMConfig)
    (node storage : string) : PM (option ProviderError) :=
  if is_empty (w_UserData req) then Ret None
  else
    task ← ReconfigureVMRaw c json_error node (vc_VMID vm) (buildImportedDiskCloudInitValues storage vm);
    match task with
    | Err e =>
        Ret (Some (NewInternal ("failed to attach cloud-init to imported-disk VM " +:+ FormatInt (vc_VMID vm))
                     (Some (perr_err e))))
    | Ok task =>
        w ← wait_if_any c node task;
        Ret (match w with
             | Some e => Some (NewInternal "cloud-init reconfigure task failed" (Some (perr_err e)))
             | None => None
             end)
    end.

(** The volume that [qm importdisk] made. *)
Definition imported_volume (vm : VMConfig) (storage out err : string) : PM string :=
  r ← pdo (RunSSH ("qm config " +:+ FormatInt (vc_VMID vm)));
  let '(cfgOut, _, cfgErr) := (r : string * string * option string) in
  let v := match cfgErr with None => parseUnusedVolid cfgOut | Some _ => "" end in
  let v := if is_empty v then parseImportedVolid (out +:+ String newline err) else v in
  Ret (if is_empty v then importedDiskVolume storage (vc_VMID vm) else v).

(** After the shell was made. *)
Definition attach_disk (p : Provider) (c : Config) (req : wire_CreateRequest) (vm : VMConfig)
    (node storage format : string) : PR wire_Task :=
  let vmid := vc_VMID vm in
  r ← pdo (RunSSH (buildImportDiskCommand vmid (vc_ImportedDiskPath vm) storage format));
  let '(out, err, failed) := (r : string * string * option string) in
  match failed with
  | Some e => fail_shell c node vmid (ssh_failed "qm importdisk" vmid err e)
  | None =>
      volume ← imported_volume vm storage out err;
      r ← pdo (RunSSH (buildImportedDiskSetCommand vmid volume));
      let '(_, err, failed) := (r : string * string * option string) in
      match failed with
      | Some e => fail_shell c node vmid (ssh_failed "qm set (attach imported disk)" vmid err e)
      | None =>
          ci ← attach_cloudinit p c req vm node storage;
          match ci with
          | Some e => fail_shell c node vmid e
          | None =>
              _ ← cleanupNodeFile p (vc_ImportedDiskPath vm);
              Ret (Ok (task_response (FormatInt vmid) ""))
          end
      end
  end.

Definition createFromImportedDisk (p : Provider) (c : Config) (req : wire_CreateRequest) (vm : VMConfig)
    (node : string) : PR wire_Task :=
  if negb (prx_ssh p) then
    Ret (Err (NewUnavailable
      "migration SSH data plane not configured; cannot attach imported disk via qm importdisk" None))
  else
    let storage := if is_empty (vc_Storage vm) then cfg_DefaultStorage c else vc_Storage vm in
    let storage := if is_empty storage then "local-lvm" else storage in
    let format := if is_empty (vc_ImportedDiskFormat vm) then "qcow2" else vc_ImportedDiskFormat vm in
    let vm := vm <| vc_Template := "" |> <| vc_Clone := "" |> in
    task ← CreateVM c json_error node vm;
    match task with
    | Err e => Ret (internal "failed to create VM shell for imported disk" e)
    | Ok task =>
        w ← wait_if_any c node task;
        match w with
        | Some e => Ret (internal "VM shell create task failed" e)
        | None => attach_disk p c req vm node storage format
        end
    end.

(** The text of the error of [strconv.Atoi]. *)
Definition Atoi_error (s : string) : string :=
  "strconv.Atoi: parsing " +:+ quote s +:+ ": invalid syntax".

Definition cloudinit_values (vm : VMConfig) (primaryDisk : string) : Values :=
  let v := set_if "ciuser" (vc_CIUser vm) (set_if "sshkeys" (vc_SSHKeys vm) (set_if "ide2" (vc_IDE2 vm) ∅)) in
  let v := <["boot" := "order=" +:+ primaryDisk +:+ ";ide2"]> v in
  set_ipconfigs buildIPConfigString (vc_IPConfigs vm) (set_networks buildNetworkString (vc_Networks vm) v).

(** The settings of cloud-init on a clone; answers the task. *)
Definition reconfigure_clone (c : Config) (vm : VMConfig) (node : string) : PR string :=
  disk ← DetectPrimaryDisk c json_error node (vc_VMID vm);
  let disk := match disk with Ok d => d | Err _ => "scsi0" end in
  task ← ReconfigureVMRaw c json_error node (vc_VMID vm) (cloudinit_values vm disk);
  match task with
  | Err e => Ret (internal "failed to reconfigure VM" e)
  | Ok task =>
      w ← wait_if_any c node task;
      Ret (match w with Some e => internal "reconfigure task failed" e | None => Ok task end)
  end.

(** The reply carries the task of the last step, which is over. *)
Definition create_from_template (c : Config) (req : wire_CreateRequest) (vm : VMConfig) (node : string)
    : PR wire_Task :=
  match Atoi (vc_Template vm) with
  | None =>
      Ret (Err (NewInvalidSpec ("invalid template ID '" +:+ vc_Template vm +:+ "': " +:+ Atoi_error (vc_Template vm))))
  | Some templateID =>
      let vm := vm <| vc_Custom := <["full" := "1"]> (vc_Custom vm) |> in
      task ← CloneVM c json_error node templateID vm;
      match task with
      | Err e => Ret (Err (NewInvalidSpec ("failed to clone template: " +:+ err_Error (perr_err e))))
      | Ok task =>
          w ← wait_if_any c node task;
          match w with
          | Some e => Ret (internal "clone task failed" e)
          | None =>
              s ← applyVMClassSizing c node (vc_VMID vm) (vc_CPUs vm) (vc_Memory vm);
              match s with
              | Some e => Ret (internal "failed to apply VMClass sizing to cloned VM" e)
              | None =>
                  if is_empty (w_UserData req) && is_empty (vc_SSHKeys vm)
                  then Ret (Ok (task_response (FormatInt (vc_VMID vm)) task))
                  else
                    task ← reconfigure_clone c vm node;
                    Ret (match task with
                         | Err e => Err e
                         | Ok task => Ok (task_response (FormatInt (vc_VMID vm)) task)
                         end)
              end
          end
      end
  end.

Definition classify_create_error (vmid : Z) (e : perr) : ProviderError :=
  let msg := err_Error (perr_err e) in
  if contains msg "already exists" then NewAlreadyExists "VM" (FormatInt vmid)
  else if contains msg "insufficient" || contains msg "no space" then NewRateLimit (300 * second)
  else if contains msg "permission" || contains msg "access denied" then NewPermissionDenied "create VM"
  else if contains msg "invalid" || contains msg "bad parameter"
  then NewInvalidSpec ("invalid VM configuration: " +:+ msg)
  else if contains msg "timeout" || contains msg "connection"
  then NewUnavailable "Proxmox VE API unavailable: %v" (Some (perr_err e))
  else NewInternal "failed to create VM" (Some (perr_err e)).

Definition create_new (c : Config) (vm : VMConfig) (node : string) : PR wire_Task :=
  task ← CreateVM c json_error node vm;
  Ret (match task with
       | Err e => Err (classify_create_error (vc_VMID vm) e)
       | Ok task => Ok (task_response (FormatInt (vc_VMID vm)) task)
       end).

Definition make_vm (p : Provider) (c : Config) (req : wire_CreateRequest) (vm : VMConfig) (node : string)
    : PR wire_Task :=
  if negb (is_empty (vc_ImportedDiskPath vm)) then createFromImportedDisk p c req vm node
  else if negb (is_empty (vc_Template vm)) then create_from_template c req vm node
  else create_new c vm node.

Definition Create (p : Provider) (req : wire_CreateRequest) : PR wire_Task :=
  match prx_client p with
  | None => unavailable
  | Some c =>
      r ← parseCreateRequest c req;
      match r with
      | Err msg => Ret (Err (NewInvalidSpec ("failed to parse create request: " +:+ msg)))
      | Ok (vm, node) =>
          existing ← GetVM c json_error node (vc_VMID vm);
          match existing with
          | Ok x =>
              if bool_decide (pvm_Name x = w_Name req)
              then Ret (Ok (task_response (FormatInt (vc_VMID vm)) ""))
              else vmid ← nextVMID c; make_vm p c req (vm <| vc_VMID := vmid |>) node
          | Err _ => make_vm p c req vm node
          end
      end
  end.

(** *** The operations on a machine *)
Definition stop_before_delete (c : Config) (vmid : Z) (node : string) : PM (option ProviderError) :=
  vm ← GetVM c json_error node vmid;
  match vm with
  | Err _ => Ret None
  | Ok vm =>
      if bool_decide (pvm_Status vm ∈ ["running"; "paused"; "suspended"]) then
        task ← PowerOperation c json_error node vmid "stop";
        match task with
        | Err e => Ret (Some (NewInternal "failed to stop VM before delete" (Some (perr_err e))))
        | Ok task =>
            w ← wait_if_any c node task;
            Ret (match w with
                 | Some e => Some (NewInternal "failed waiting for VM to stop before delete" (Some (perr_err e)))
                 | None => None
                 end)
        end
      else Ret None
  end.

Definition Delete (p : Provider) (id : string) : PR wire_Task :=
  with_vm p id (fun c vmid node =>
    stopped ← stop_before_delete c vmid node;
    match stopped with
    | Some e => Ret (Err e)
    | None =>
        task ← DeleteVM c json_error node vmid true;
        match task with
        | Err e => Ret (internal "failed to delete VM" e)
        | Ok task =>
            w ← wait_if_any c node task;
            Ret (match w with
                 | Some e => internal "failed waiting for VM destroy task" e
                 | None => Ok (task_response "" "")
                 end)
        end
    end).

Definition power_operation (op : wire_PowerOp) : option string :=
  match op with
  | POWER_OP_ON => Some "start"
  | POWER_OP_OFF => Some "stop"
  | POWER_OP_REBOOT => Some "reboot"
  | POWER_OP_SHUTDOWN_GRACEFUL => Some "shutdown"
  | POWER_OP_UNSPECIFIED => None
  end.

(** The reply of an operation that answers with its task. *)
Definition as_task (msg : string) (r : result string perr) : result wire_Task ProviderError :=
  match r with
  | Err e => internal msg e
  | Ok task => Ok (task_response "" task)
  end.

Definition Power (p : Provider) (id : string) (op : wire_PowerOp) (gracefulTimeoutSeconds : Z) : PR wire_Task :=
  with_vm p id (fun c vmid node =>
    match power_operation op with
    | None => Ret (Err (NewInvalidSpec "unsupported power operation: POWER_OP_UNSPECIFIED"))
    | Some operation =>
        let graceful := match op with POWER_OP_SHUTDOWN_GRACEFUL => 0 <? gracefulTimeoutSeconds | _ => false end in
        r ← (if graceful
             then PowerOperationWithParams c json_error node vmid operation
                    (<["forceStop" := "1"]> {["timeout" := FormatInt gracefulTimeoutSeconds]})
             else PowerOperation c json_error node vmid operation);
        Ret (as_task "failed to perform power operation" r)
    end).

(** What a disk of the desired state asks of the current one. *)
Inductive disk_change := Unchanged | Shrinks (current : Z) | Grows.
Fixpoint disk_change_of (sizeGB : Z) (parts : list string) : disk_change :=
  match parts with
  | [] => Unchanged
  | part :: rest =>
      if has_prefix part "size=" then
        match ParseInt (TrimSuffix (TrimPrefix part "size=") "G") 64 with
        | Some current =>
            if sizeGB <? current then Shrinks current
            else if current <? sizeGB then Grows
            else disk_change_of sizeGB rest
        | None => disk_change_of sizeGB rest
        end
      else disk_change_of sizeGB rest
  end.
Definition change_of (current : list (string * json)) (sizeGB : Z) : disk_change :=
  match as_string (jget current "scsi0") with
  | Some s => if contains s "size=" then disk_change_of sizeGB (Split "," s) else Unchanged
  | None => Unchanged
  end.

(** The size a disk is to have. *)
Definition desired_size (disk : json) : option Z :=
  o ← as_object (Some disk);
  _ ← as_string (jget o "Name");
  size ← as_float (jget o "SizeGiB");
  if positive_float size then Some (truncate size) else None.

(** [Some] is the reply, [None] goes on. *)
Fixpoint reconfigure_disks (c : Config) (vmid : Z) (node : string) (current : list (string * json))
    (disks : list json) : PM (option (result wire_Task ProviderError)) :=
  match disks with
  | [] => Ret None
  | disk :: rest =>
      match desired_size disk with
      | None => reconfigure_disks c vmid node current rest
      | Some sizeGB =>
          match change_of current sizeGB with
          | Unchanged => reconfigure_disks c vmid node current rest
          | Shrinks size =>
              Ret (Some (Err (NewInvalidSpec ("disk shrinking not allowed: current=" +:+ FormatInt size
                                              +:+ "G, requested=" +:+ FormatInt sizeGB +:+ "G"))))
          | Grows =>
              r ← ResizeDisk c json_error node vmid "scsi0" sizeGB;
              Ret (Some (as_task "failed to resize disk" r))
          end
      end
  end.

Definition desired_amount (class : list (string * json)) (k : string) : option Z :=
  n ← as_float (jget class k); if positive_float n then Some (truncate n) else None.

(** The machine is looked up for a log line only. *)
Definition look_up {A} (c : Config) (vmid : Z) (node : string) (amount : option A) : PM unit :=
  match amount with
  | Some _ => _ ← GetVM c json_error node vmid; Ret tt
  | None => Ret tt
  end.

Definition Reconfigure (p : Provider) (id desiredJSON : string) : PR wire_Task :=
  with_vm p id (fun c vmid node =>
    cfg ← GetVMConfig c json_error node vmid;
    match cfg with
    | Err e => Ret (internal "failed to get current VM config" e)
    | Ok current =>
        match Unmarshal desiredJSON with
        | Some (JObj desired) =>
            let class := default [] (as_object (jget desired "Class")) in
            let cpus := desired_amount class "CPU" in
            let memory := desired_amount class "MemoryMiB" in
            _ ← look_up c vmid node cpus;
            _ ← look_up c vmid node memory;
            done ← reconfigure_disks c vmid node current (default [] (as_array (jget desired "Disks")));
            match done with
            | Some reply => Ret reply
            | None =>
                if bool_decide (cpus = None) && bool_decide (memory = None)
                then Ret (Ok (task_response "" ""))
                else
                  r ← ReconfigureVM c json_error node vmid (mkReconfigureConfig cpus memory);
                  Ret (as_task "failed to reconfigure VM" r)
            end
        | Some JNull => Ret (Ok (task_response "" ""))
        | _ => Ret (Err (NewInvalidSpec ("failed to parse desired configuration: " +:+ json_error)))
        end
    end).

Definition power_state (status : string) : string :=
  if bool_decide (status ∈ ["running"; "suspended"; "paused"]) then "On" else "Off".

Definition routable (ip : string) : bool :=
  negb (is_empty ip) && negb (has_prefix ip "127.") && negb (has_prefix ip "169.254.")
  && negb (has_prefix ip "fe80:").
Definition guest_ips (interfaces : list GuestNetworkInterface) : list string :=
  interfaces ≫= fun i =>
    if bool_decide (gni_Name i = "lo") then [] else List.filter routable (gni_IPAddresses i).

Definition describe_raw (vm : VM) : gmap string string :=
  let m := <["node" := pvm_Node vm]> (<["vmid" := FormatInt (pvm_VMID vm)]>
             (<["status" := pvm_Status vm]> {["qmpstatus" := pvm_QMPStatus vm]})) in
  let m := if pvm_PID vm =? 0 then m else <["pid" := FormatInt (pvm_PID vm)]> m in
  if is_empty (pvm_ConfigLock vm) then m else <["lock" := pvm_ConfigLock vm]> m.

Definition Describe (p : Provider) (id : string) : PR wire_Describe :=
  with_vm p id (fun c vmid node =>
    r ← GetVM c json_error node vmid;
    match r with
    | Err ErrVMNotFound => Ret (Ok (mkWireDescribe false "notfound" [] "" ""))
    | Err e => Ret (internal "failed to describe VM" e)
    | Ok vm =>
        let url := TrimSuffix (cfg_Endpoint c) "/api2" +:+ "/#v1:0:=qemu/" +:+ FormatInt vmid
                     +:+ ":4:5:=console" in
        ips ← (if bool_decide (pvm_Status vm = "running") then
                 i ← GetGuestNetworkInterfaces c json_error node vmid;
                 Ret (match i with Ok l => guest_ips l | Err _ => [] end)
               else Ret []);
        Ret (Ok (mkWireDescribe true (power_state (pvm_Status vm)) ips url (Marshal_raw (describe_raw vm))))
    end).

Definition TaskStatus (p : Provider) (task : option string) : PR wire_TaskStatus :=
  match prx_client p with
  | None => unavailable
  | Some c =>
      match task with
      | None => Crash "nil pointer dereference"
      | Some taskID =>
          match Split ":" taskID with
          | _ :: node :: _ :: _ =>
              t ← GetTaskStatus c json_error node taskID;
              Ret (Ok (match t with
                       | Err e =>
                           mkWireTaskStatus true ("failed to get task status: " +:+ err_Error (perr_err e))
                       | Ok t =>
                           let done := bool_decide (pt_Status t = "stopped") in
                           mkWireTaskStatus done
                             (match pt_ExitCode t with
                              | Some code =>
                                  if done && negb (bool_decide (code = "OK"))
                                  then "task failed with exit code: " +:+ code else ""
                              | None => ""
                              end)
                       end))
          | _ => Ret (Ok (mkWireTaskStatus true ("invalid task ID format: " +:+ taskID)))
          end
      end
  end.

Definition SnapshotCreate (p : Provider) (vmId nameHint description : string) (includeMemory : bool)
    : PR wire_Task :=
  with_vm p vmId (fun c vmid node =>
    name ← (if is_empty nameHint then now ← pdo UnixNow; Ret ("snapshot-" +:+ FormatInt now) else Ret nameHint);
    r ← CreateSnapshot c json_error node vmid name description includeMemory;
    Ret (match r with
         | Err e => internal "failed to create snapshot" e
         | Ok task => Ok (task_response name task)
         end)).
Definition SnapshotDelete (p : Provider) (vmId snapshotId : string) : PR wire_Task :=
  with_vm p vmId (fun c vmid node =>
    r ← DeleteSnapshot c json_error node vmid snapshotId; Ret (as_task "failed to delete snapshot" r)).
Definition SnapshotRevert (p : Provider) (vmId snapshotId : string) : PR wire_Task :=
  with_vm p vmId (fun c vmid node =>
    r ← RevertSnapshot c json_error node vmid snapshotId; Ret (as_task "failed to revert snapshot" r)).

(** The host and the datastore of a placement. *)
Definition placement (placementJSON : string) : string * string :=
  if is_empty placementJSON then ("", "")
  else
    default ("", "")
      (j ← Unmarshal placementJSON;
       into_struct (fun o => h ← field_string o "Host"; d ← field_string o "Datastore"; Some (h, d)) j).

Definition Clone (p : Provider) (req : CloneRequest) : PR wire_Task :=
  match prx_client p with
  | None => unavailable
  | Some c =>
      r ← parseVMReference c (clq_SourceVmID req);
      match r with
      | Err msg => Ret (Err (NewInvalidSpec ("invalid source VM reference: " +:+ msg)))
      | Ok (sourceVMID, sourceNode) =>
          vmid ← nextVMID c;
          let '(host, datastore) := placement (clq_PlacementJSON req) in
          let custom : gmap string string := {["full" := if clq_Linked req then "0" else "1"]} in
          let custom := set_if "target" host custom in
          let targetNode := if is_empty host then sourceNode else host in
          let vm := empty_VMConfig <| vc_VMID := vmid |> <| vc_Name := clq_TargetName req |>
                      <| vc_Custom := custom |> <| vc_Storage := datastore |> in
          task ← CloneVM c json_error sourceNode sourceVMID vm;
          match task with
          | Err e => Ret (internal "failed to clone VM" e)
          | Ok task =>
              w ← wait_if_any c sourceNode task;
              match w with
              | Some e => Ret (internal "clone task failed" e)
              | None =>
                  let '(cpus, mem) := parseClassSizing (clq_ClassJSON req) in
                  s ← applyVMClassSizing c targetNode vmid cpus mem;
                  Ret (match s with
                       | Some e => internal "failed to apply VMClass sizing to cloned VM" e
                       | None => Ok (task_response (FormatInt vmid) "")
                       end)
              end
          end
      end
  end.

Definition GetCapabilities (p : Provider) : Capabilities := Manager_GetCapabilities (prx_capabilities p).

(** *** Listing *)
Definition is_disk_key (key : string) : bool :=
  has_prefix key "virtio" || has_prefix key "scsi" || has_prefix key "ide" || has_prefix key "sata".

(** The last value among the parts with a prefix. *)
Fixpoint last_with (prefix deflt : string) (parts : list string) : string :=
  match parts with
  | [] => deflt
  | part :: rest => last_with prefix (if has_prefix part prefix then TrimPrefix part prefix else deflt) rest
  end.

Definition disk_info (vmid : Z) (entry : string * json) : option DiskInfo :=
  if is_disk_key entry.1 then
    s ← as_string (Some entry.2);
    if is_empty s then None
    else
      match Split "," s with
      | path :: parts =>
          let size := match Split ":" path with
                      | _ :: n :: _ => default 0 (ParseInt n 32)
                      | _ => 0
                      end in
          Some (mkDiskInfo (FormatInt vmid +:+ "-" +:+ entry.1) path size (last_with "format=" "qcow2" parts))
      | [] => None
      end
  else None.

Definition network_info (entry : string * json) : option NetworkInfo :=
  if has_prefix entry.1 "net" then
    s ← as_string (Some entry.2);
    if is_empty s then None
    else
      let parts := Split "," s in
      Some (mkNetworkInfo (last_with "bridge=" "" parts) (last_with "mac=" "" parts) "")
  else None.

Definition list_vm (c : Config) (node : string) (vm : VM) : PM (option VMInfo) :=
  if pvm_Template vm =? 1 then Ret None
  else
    cfg ← GetVMConfig c json_error node (pvm_VMID vm);
    match cfg with
    | Err _ => Ret None
    | Ok cfg =>
        let power := if bool_decide (pvm_Status vm = "running") then "On" else "Off" in
        let cpu := to_int32 (pvm_CPUs vm) in
        let cpu := if cpu =? 0 then match as_float (jget cfg "cores") with
                                    | Some n => to_int32 (truncate n)
                                    | None => 1
                                    end
                   else cpu in
        let mem := Z.quot (pvm_Memory vm) (1024 * 1024) in
        let mem := if mem =? 0 then match as_float (jget cfg "memory") with
                                    | Some n => truncate n
                                    | None => 1024
                                    end
                   else mem in
        disks ← pdo (RangeMap cfg);
        nets ← pdo (RangeMap cfg);
        let raw : gmap string string :=
          <["vmid" := FormatInt (pvm_VMID vm)]> (<["node" := node]>
            (<["status" := pvm_Status vm]> {["power_state" := power]})) in
        Ret (Some (mkVMInfo (FormatInt (pvm_VMID vm)) (pvm_Name vm) power [] cpu mem
                     (omap (disk_info (pvm_VMID vm)) disks) (omap network_info nets) raw))
    end.

Fixpoint list_node_vms (c : Config) (node : string) (vms : list (option VM)) : PM (list VMInfo) :=
  match vms with
  | [] => Ret []
  | None :: _ => Crash "nil pointer dereference"
  | Some vm :: rest =>
      info ← list_vm c node vm;
      infos ← list_node_vms c node rest;
      Ret (match info with Some i => i :: infos | None => infos end)
  end.

Fixpoint list_nodes (c : Config) (nodes : list string) : PM (list VMInfo) :=
  match nodes with
  | [] => Ret []
  | node :: rest =>
      vms ← client_ListVMs c json_error node;
      infos ← (match vms with Ok vms => list_node_vms c node vms | Err _ => Ret [] end);
      others ← list_nodes c rest;
      Ret (infos ++ others)
  end.

Definition ListVMs (p : Provider) : PM (result (list VMInfo) sdkerr) :=
  match prx_client p with
  | None => Ret (Err (NativeErr "Proxmox client not configured"))
  | Some c =>
      nodes ← (if bool_decide (cfg_NodeSelector c = []) then ListNodes c json_error
               else Ret (Ok (cfg_NodeSelector c)));
      match nodes with
      | Err e => Ret (Err (WrapErr "no node selector configured and node discovery failed" (perr_err e)))
      | Ok nodes => infos ← list_nodes c nodes; Ret (Ok infos)
      end
  end.
End Server.

(** ** Start-up *)
Definition GetProviderCapabilities : Manager :=
  let b := ImageImport (OnlineDiskExpansion (OnlineReconfigure
             (LinkedClones (MemorySnapshots (Snapshots (Core NewBuilder)))))) in
  let b := ExportCompression (DiskExport b ["qcow2"; "raw"; "vmdk"]) in
  let b := DiskImport b ["qcow2"; "raw"; "vmdk"] in
  let b := ImportBackends (ExportBackends b S3AndNFSExportBackends) S3AndNFSImportBackends in
  NetworkTypes (DiskTypes (TransferModes b RelayOnlyTransferModes) ["raw"; "qcow2"]) ["bridge"; "vlan"].

Definition readCredentialFile (path : string) : PM string :=
  data ← pdo (ReadCredential path);
  Ret (match data with Some s => TrimSpace s | None => "" end).

(** A setting under its new name, or else under its old one. *)
Definition env_or (new old : string) : PM string :=
  v ← pdo (Getenv new);
  if is_empty v then pdo (Getenv old) else Ret v.
Definition or_env (v new old : string) : PM string := if is_empty v then env_or new old else Ret v.

Definition New (parse_url : string -> option string) : PM Provider :=
  endpoint ← env_or "PROVIDER_ENDPOINT" "PVE_ENDPOINT";
  tokenID ← readCredentialFile "/etc/virtrigaud/credentials/token_id";
  tokenSecret ← readCredentialFile "/etc/virtrigaud/credentials/token_secret";
  username ← readCredentialFile "/etc/virtrigaud/credentials/username";
  password ← readCredentialFile "/etc/virtrigaud/credentials/password";
  tokenID ← or_env tokenID "PROVIDER_TOKEN_ID" "PVE_TOKEN_ID";
  tokenSecret ← or_env tokenSecret "PROVIDER_TOKEN_SECRET" "PVE_TOKEN_SECRET";
  username ← or_env username "PROVIDER_USERNAME" "PVE_USERNAME";
  password ← or_env password "PROVIDER_PASSWORD" "PVE_PASSWORD";
  skip ← pdo (Getenv "TLS_INSECURE_SKIP_VERIFY");
  skip ← (if bool_decide (skip = "true") then Ret true
          else old ← pdo (Getenv "PVE_INSECURE_SKIP_VERIFY"); Ret (bool_decide (old = "true")));
  defaultStorage ← env_or "PROVIDER_DEFAULT_STORAGE" "PVE_DEFAULT_STORAGE";
  selector ← env_or "PROVIDER_NODE_SELECTOR" "PVE_NODE_SELECTOR";
  caBundle ← env_or "PROVIDER_CA_BUNDLE" "PVE_CA_BUNDLE";
  let selector := if is_empty selector then [] else TrimSpace <$> Split "," selector in
  let config := mkConfig endpoint tokenID tokenSecret username password skip caBundle selector
                  (TrimSpace defaultStorage) 0 0 0 in
  ssh ← pdo (NewSSHTransport endpoint);
  Ret (mkProvider (match NewClient parse_url config with Ok c => Some c | Err _ => None end)
         GetProviderCapabilities ssh).
