(* ===== verification/ProxmoxProps.v ===== *)
(** * ProxmoxProps: what the Proxmox provider guarantees

    A deletion that is reported as done was confirmed by the API; a disk is never
    shrunk; a request makes at most one machine and an import that fails takes its
    half-built machine away again; the state of a machine is one the manager accepts;
    identifiers, SSH keys and shell words survive their encodings. *)
From stdpp Require Import base gmap strings list pretty.
From Stdlib Require Import Ascii ZArith QArith Lia.
From S2P Require Import Prelude Contracts Effects GoLib Utf8 GrpcClient Storage SdkErrors SdkCapabilities Json PveApi Proxmox.
#[local] Open Scope Z_scope.

(** ** Encodings *)

(** Form decoding: [%XX] is a byte and [+] a space. *)
Definition unhex (c : ascii) : option nat :=
  let n := nat_of_ascii c in
  if Nat.leb 48 n && Nat.leb n 57 then Some (n - 48)%nat
  else if Nat.leb 65 n && Nat.leb n 70 then Some (n - 55)%nat
  else None.
Fixpoint form_decode (s : string) : option string :=
  match s with
  | EmptyString => Some EmptyString
  | String c s' =>
      if Ascii.eqb c "%" then
        match s' with
        | String h (String l rest) =>
            a ← unhex h; b ← unhex l; r ← form_decode rest; Some (String (ascii_of_nat (16 * a + b)) r)
        | _ => None
        end
      else r ← form_decode s'; Some (String (if Ascii.eqb c "+" then " "%char else c) r)
  end.

Lemma unhex_hex n : (n < 16)%nat -> unhex (hex_upper n) = Some n.
Proof. intros Hn. do 16 (destruct n as [|n]; [reflexivity|]). lia. Qed.

Lemma percent_decodes c s r :
  form_decode s = Some r -> form_decode (percent c +:+ s) = Some (String c r).
Proof.
  intros Hs.
  change (percent c +:+ s) with
    (String "%" (String (hex_upper (nat_of_ascii c / 16)) (String (hex_upper (nat_of_ascii c mod 16)) s))).
  cbn [form_decode]. rewrite Ascii.eqb_refl.
  pose proof (nat_ascii_bounded c). set (n := nat_of_ascii c) in *.
  rewrite !unhex_hex by (first [apply Nat.Div0.div_lt_upper_bound; lia | apply Nat.mod_upper_bound; lia]).
  cbn [mbind option_bind]. rewrite Hs. cbn [mbind option_bind].
  rewrite <-(Nat.div_mod_eq n 16). unfold n. by rewrite ascii_nat_embedding.
Qed.

Lemma unreserved_plain c : unreserved c = true -> Ascii.eqb c "%" = false /\ Ascii.eqb c "+" = false.
Proof. destruct c as [[] [] [] [] [] [] [] []]; vm_compute; done. Qed.

Lemma hex_plain n : (n < 16)%nat -> Ascii.eqb (hex_upper n) "+" = false.
Proof. intros Hn. do 16 (destruct n as [|n]; [reflexivity|]). lia. Qed.

Lemma percent_no_plus c s : plus_to_20 (percent c +:+ s) = percent c +:+ plus_to_20 s.
Proof.
  pose proof (nat_ascii_bounded c).
  change (percent c +:+ s) with
    (String "%" (String (hex_upper (nat_of_ascii c / 16)) (String (hex_upper (nat_of_ascii c mod 16)) s))).
  cbn [plus_to_20]. rewrite !hex_plain by (first [apply Nat.Div0.div_lt_upper_bound; lia | apply Nat.mod_upper_bound; lia]).
  reflexivity.
Qed.

Lemma escaped_decodes s : form_decode (plus_to_20 (QueryEscape s)) = Some s.
Proof.
  induction s as [|c s IH]; [done|]. cbn [QueryEscape].
  destruct (unreserved c) eqn:Hu.
  - destruct (unreserved_plain c Hu) as [Hp Hq]. cbn [plus_to_20 form_decode].
    rewrite Hq. cbn [form_decode]. by rewrite Hp, IH, Hq.
  - destruct (Ascii.eqb_spec c " ") as [->|Hsp].
    + cbn [plus_to_20]. change (Ascii.eqb "+" "+") with true. cbn iota.
      change "%20" with (percent " "). by apply percent_decodes.
    + assert (plus_to_20 (percent c +:+ QueryEscape s) = percent c +:+ plus_to_20 (QueryEscape s)) as ->.
      { apply percent_no_plus. }
      by apply percent_decodes.
Qed.

(** An SSH key of the cloud-init settings arrives as it was, but for white space
    around it: the form decoding of the request and the decoding that Proxmox VE
    applies to the value undo the double encoding of the client. *)
Theorem ssh_keys_round_trip key :
  (s ← form_decode (double_encode key); form_decode s) = Some (TrimSpace key).
Proof. unfold double_encode. rewrite escaped_decodes. apply escaped_decodes. Qed.

(** *** Shell words

    The words of a command line, as a POSIX shell reads one that has only plain
    characters, single quotes and backslashes; [None] when it has anything else. *)
Definition sh_plain (c : ascii) : bool :=
  let n := nat_of_ascii c in
  is_digit c || (Nat.leb 65 n && Nat.leb n 90) || (Nat.leb 97 n && Nat.leb n 122)
  || Ascii.eqb c "-" || Ascii.eqb c "_" || Ascii.eqb c "." || Ascii.eqb c "=".

Inductive sh_mode := Between | Plain | Quoted.
Definition sh_push (r : option string * list string) : list string :=
  match r.1 with Some w => w :: r.2 | None => r.2 end.
Definition sh_cons (c : ascii) (r : option string * list string) : option string * list string :=
  (Some (String c (default "" r.1)), r.2).

Fixpoint sh (m : sh_mode) (s : string) : option (option string * list string) :=
  match s with
  | EmptyString =>
      match m with Between => Some (None, []) | Plain => Some (Some "", []) | Quoted => None end
  | String c s' =>
      match m with
      | Quoted => if Ascii.eqb c "'" then sh Plain s' else sh_cons c <$> sh Quoted s'
      | _ =>
          if Ascii.eqb c "'" then sh Quoted s'
          else if Ascii.eqb c "\" then
            match s' with String d s'' => sh_cons d <$> sh Plain s'' | EmptyString => None end
          else if Ascii.eqb c " " then
            r ← sh Between s';
            Some (match m with Between => r | _ => (Some "", sh_push r) end)
          else if sh_plain c then sh_cons c <$> sh Plain s' else None
      end
  end.
Definition sh_words (command : string) : option (list string) := sh_push <$> sh Between command.

Definition sh_app (w : string) (r : option string * list string) : option string * list string :=
  (Some (w +:+ default "" r.1), r.2).

Lemma sh_cons_app c w (r : option (option string * list string)) :
  sh_cons c <$> (sh_app w <$> r) = sh_app (String c w) <$> r.
Proof. by destruct r as [[[?|] ?]|]. Qed.

Lemma sh_in_word s : forall m r, m <> Between -> sh m s = Some r -> exists w, r.1 = Some w.
Proof.
  induction s as [|c s IH]; intros m r Hm; cbn [sh].
  { destruct m; [by destruct Hm|intros [= <-]; by eexists|done]. }
  destruct m; [by destruct Hm| |].
  - destruct (Ascii.eqb c "'"); [by apply IH|]. destruct (Ascii.eqb c "\").
    + destruct s as [|d s]; [done|]. intros (x & _ & ->)%fmap_Some. by eexists.
    + destruct (Ascii.eqb c " "); [intros (x & _ & [= <-])%bind_Some; by eexists|].
      destruct (sh_plain c); [|done]. intros (x & _ & ->)%fmap_Some. by eexists.
  - destruct (Ascii.eqb c "'"); [by apply IH|]. intros (x & _ & ->)%fmap_Some. by eexists.
Qed.

Lemma sh_app_nil rest : sh_app "" <$> sh Plain rest = sh Plain rest.
Proof.
  destruct (sh Plain rest) as [[x ws]|] eqn:E; [|done].
  assert (Plain <> Between) as Hne by discriminate. destruct (sh_in_word _ _ _ Hne E) as [w Hw]. cbn in Hw. by subst.
Qed.

Lemma sh_quoted w rest : sh Quoted (escape_quotes w +:+ String "'" rest) = sh_app w <$> sh Plain rest.
Proof.
  induction w as [|c w IH].
  - symmetry. apply sh_app_nil.
  - cbn [escape_quotes]. destruct (Ascii.eqb_spec c "'") as [->|Hc].
    + change (sh_cons "'" <$> sh Quoted (escape_quotes w +:+ String "'" rest) = sh_app (String "'" w) <$> sh Plain rest).
      by rewrite IH, sh_cons_app.
    + change (String c (escape_quotes w) +:+ String "'" rest)
        with (String c (escape_quotes w +:+ String "'" rest)). cbn [sh].
      destruct (Ascii.eqb_spec c "'") as [|_]; [done|]. by rewrite IH, sh_cons_app.
Qed.

(** A quoted text is one word. *)
Lemma sh_shell_quote m w rest :
  m <> Quoted -> sh m (proxmoxShellQuote w +:+ rest) = sh_app w <$> sh Plain rest.
Proof.
  intros Hm. unfold proxmoxShellQuote.
  replace (("'" +:+ escape_quotes w +:+ "'") +:+ rest)
    with (String "'" (escape_quotes w +:+ String "'" rest)) by (cbn; by rewrite <-!string_app_assoc).
  destruct m; [|..]; try done; cbn [sh]; rewrite Ascii.eqb_refl; apply sh_quoted.
Qed.

(** Plain text belongs to the word it stands in. *)
Lemma sh_plain_word w : forall rest,
  all_chars sh_plain w = true -> sh Plain (w +:+ rest) = sh_app w <$> sh Plain rest.
Proof.
  induction w as [|c w IH]; intros rest; [intros _; symmetry; apply sh_app_nil|].
  cbn [all_chars]. intros [Hc Hw]%andb_prop. change (String c w +:+ rest) with (String c (w +:+ rest)).
  cbn [sh]. assert (Ascii.eqb c "'" = false /\ Ascii.eqb c "\" = false /\ Ascii.eqb c " " = false) as (-> & -> & ->).
  { split_and!; apply Ascii.eqb_neq; intros ->; vm_compute in Hc; done. }
  rewrite Hc, (IH _ Hw). apply sh_cons_app.
Qed.
Lemma sh_plain_start c w rest :
  all_chars sh_plain (String c w) = true ->
  sh Between (String c w +:+ rest) = sh_app (String c w) <$> sh Plain rest.
Proof.
  cbn [all_chars]. intros [Hc Hw]%andb_prop. change (String c w +:+ rest) with (String c (w +:+ rest)).
  cbn [sh]. assert (Ascii.eqb c "'" = false /\ Ascii.eqb c "\" = false /\ Ascii.eqb c " " = false) as (-> & -> & ->).
  { split_and!; apply Ascii.eqb_neq; intros ->; vm_compute in Hc; done. }
  rewrite Hc, (sh_plain_word _ _ Hw). apply sh_cons_app.
Qed.
Lemma sh_space rest : sh Plain (String " " rest) = (fun r => (Some "", sh_push r)) <$> sh Between rest.
Proof.
  transitivity (r ← sh Between rest; Some (Some "", sh_push r)); [reflexivity|by destruct (sh Between rest)].
Qed.

Lemma digits_plain w : all_chars is_digit w = true -> all_chars sh_plain w = true.
Proof.
  induction w as [|c w IH]; [done|]. cbn [all_chars]. intros [Hc Hw]%andb_prop.
  rewrite (IH Hw). unfold sh_plain. by rewrite Hc.
Qed.

Lemma pretty_N_go_nonempty (n : N) : forall s, s <> "" -> pretty_N_go n s <> "".
Proof.
  induction (N.lt_wf_0 n) as [n _ IH]. intros s Hs.
  destruct (decide (n = 0)%N) as [->|Hn]; [by rewrite pretty_N_go_0|].
  rewrite pretty_N_go_step by lia. apply IH; [apply N.div_lt; lia|done].
Qed.

Lemma FormatInt_nonempty n : FormatInt n <> "".
Proof.
  unfold FormatInt, pretty, pretty_Z.
  assert (forall m, pretty_N m <> "") as Hn.
  { intros m. unfold pretty_N. case_decide; [done|]. rewrite pretty_N_go_step by lia. by apply pretty_N_go_nonempty. }
  destruct n; [done|apply Hn|done].
Qed.

(** The command that imports a disk on the node is read by the shell as the
    seven words that are meant, whatever the path, the storage and the format are: no
    part of them is taken for anything else. *)
Theorem import_command_is_read_back vmid path storage format :
  0 <= vmid ->
  sh_words (buildImportDiskCommand vmid path storage format)
  = Some ["qm"; "importdisk"; FormatInt vmid; path; storage; "--format"; format].
Proof.
  intros Hv. unfold sh_words, buildImportDiskCommand.
  change ("qm importdisk " +:+ FormatInt vmid +:+ " " +:+ proxmoxShellQuote path +:+ " "
          +:+ proxmoxShellQuote storage +:+ " --format " +:+ proxmoxShellQuote format)
    with ("qm" +:+ String " " ("importdisk" +:+ String " " (FormatInt vmid +:+ String " " (
          proxmoxShellQuote path +:+ String " " (proxmoxShellQuote storage +:+ String " " ("--format"
          +:+ String " " (proxmoxShellQuote format))))))).
  pose proof (FormatInt_nonempty vmid) as Hne. pose proof (digits_plain _ (FormatInt_digits _ Hv)) as Hd.
  destruct (FormatInt vmid) as [|c w]; [done|].
  rewrite (sh_plain_start "q" "m") by reflexivity. rewrite sh_space.
  rewrite (sh_plain_start "i" "mportdisk") by reflexivity. rewrite sh_space.
  rewrite sh_plain_start by exact Hd. rewrite sh_space, sh_shell_quote by discriminate.
  rewrite sh_space, sh_shell_quote by discriminate. rewrite sh_space.
  rewrite (sh_plain_start "-" "-format") by reflexivity. rewrite sh_space.
  rewrite <-(string_app_nil_r (proxmoxShellQuote format)), sh_shell_quote by discriminate.
  cbn. by rewrite !string_app_nil_r.
Qed.

(** *** Numbers and references *)
Lemma pretty_N_char_value d : (d < 10)%N -> Z.of_nat (nat_of_ascii (pretty_N_char d)) - 48 = Z.of_N d.
Proof.
  intros Hd. assert (d = 0 \/ d = 1 \/ d = 2 \/ d = 3 \/ d = 4 \/ d = 5 \/ d = 6 \/ d = 7 \/ d = 8 \/ d = 9)%N as H by lia.
  repeat destruct H as [->|H]; try reflexivity. by subst.
Qed.

Lemma decimal_pretty (x : N) : forall s, decimal 0 (pretty_N_go x s) = decimal (Z.of_N x) s.
Proof.
  induction (N.lt_wf_0 x) as [x _ IH]. intros s.
  destruct (decide (x = 0)%N) as [->|Hx]; [by rewrite pretty_N_go_0|].
  rewrite pretty_N_go_step by lia. rewrite IH by (apply N.div_lt; lia).
  cbn [decimal]. rewrite pretty_N_char_digit, pretty_N_char_value by (apply N.mod_lt; lia).
  f_equal. pose proof (N.div_mod x 10). lia.
Qed.

Lemma decimal_FormatInt n : 0 <= n -> decimal 0 (FormatInt n) = Some n.
Proof.
  intros Hn. unfold FormatInt, pretty, pretty_Z. destruct n as [|p|p]; [done| |lia].
  unfold pretty, pretty_positive, pretty, pretty_N. case_decide; [done|]. by rewrite decimal_pretty.
Qed.

Lemma Atoi_FormatInt n : int64_ok n = true -> Atoi (FormatInt n) = Some n.
Proof.
  intros Hok. unfold Atoi, ParseInt. destruct (Z.leb_spec 0 n) as [Hn|Hn].
  - pose proof (decimal_FormatInt n Hn) as Hd. pose proof (FormatInt_digits n Hn) as Hdig.
    pose proof (FormatInt_nonempty n) as Hne. destruct (FormatInt n) as [|c s]; [done|].
    cbn [all_chars] in Hdig. apply andb_prop in Hdig as [Hc _].
    assert (Ascii.eqb c "-" = false /\ Ascii.eqb c "+" = false) as [-> ->].
    { split; apply Ascii.eqb_neq; intros ->; vm_compute in Hc; done. }
    rewrite Hd. cbn [mbind option_bind]. unfold int64_ok in Hok. change (64 - 1) with 63. by rewrite Hok.
  - assert (exists p, n = Z.neg p) as [p ->] by (destruct n; try lia; eauto).
    pose proof (decimal_FormatInt (Z.pos p) ltac:(lia)) as Hd. pose proof (FormatInt_nonempty (Z.pos p)) as Hne.
    change (FormatInt (Z.neg p)) with (String "-" (FormatInt (Z.pos p))). cbn iota.
    rewrite Ascii.eqb_refl. destruct (FormatInt (Z.pos p)) as [|c s] eqn:E; [done|]. cbn [is_empty].
    rewrite Hd. cbn [mbind option_bind]. change (- Z.pos p) with (Z.neg p). unfold int64_ok in Hok.
    change (64 - 1) with 63. by rewrite Hok.
Qed.

Lemma Split_no_sep c s : all_chars (fun d => negb (Ascii.eqb d c)) s = true -> Split c s = [s].
Proof.
  induction s as [|d s IH]; [done|]. cbn [all_chars Split]. intros [Hd Hs]%andb_prop.
  apply negb_true_iff in Hd. by rewrite Hd, (IH Hs).
Qed.
Lemma Split_first c s t :
  all_chars (fun d => negb (Ascii.eqb d c)) s = true -> Split c (s +:+ String c t) = s :: Split c t.
Proof.
  induction s as [|d s IH]; cbn [all_chars].
  - intros _. change ("" +:+ String c t) with (String c t). cbn [Split]. by rewrite Ascii.eqb_refl.
  - intros [Hd Hs]%andb_prop. apply negb_true_iff in Hd.
    change (String d s +:+ String c t) with (String d (s +:+ String c t)). cbn [Split]. by rewrite Hd, (IH Hs).
Qed.

(** ** Requests in a run *)
Abbreviation pevent := (event pcall panswer).

Definition split_query (path : string) : string * string :=
  match Cut "?" path with Some pq => pq | None => (path, "") end.
(** A request of the client, with its answer. *)
Definition req_event (c : Config) (method path : string) (body : option Values)
    (r : result http_answer string) : pevent :=
  ev (Http method (split_query path).1 (split_query path).2 (authorization c) (encode_body <$> body)) r.

Definition method_of (e : pevent) : string :=
  match projT1 e with Http m _ _ _ _ => m | RunSSH _ => "SSH" | _ => "" end.
(** A call that changes nothing at the API or on the node. *)
Definition reads (e : pevent) : Prop := method_of e = "GET" \/ method_of e = "".

Lemma request_wp c m path body Q :
  (forall r, Q [req_event c m path body r] (Done r)) -> wp (request c m path body) Q.
Proof.
  intros HQ. unfold request. unfold req_event, split_query in HQ.
  destruct (Cut "?" path) as [[p q]|]; wp_step; apply HQ.
Qed.

(** A client method is one request, whose answer it reads. *)
Lemma reader_wp {A} c m path body (read : result http_answer string -> A) Q :
  (forall r, Q [req_event c m path body r] (Done (read r))) ->
  wp (r ← request c m path body; Ret (read r)) Q.
Proof. intros HQ. wp_step. apply request_wp. intros r. cbn. apply HQ. Qed.

Lemma req_event_reads c path body r : reads (req_event c "GET" path body r).
Proof. by left. Qed.

Lemma tick_reads i t r : reads (ev (AwaitTick i t) r).
Proof. by right. Qed.
#[local] Hint Resolve req_event_reads tick_reads : reads.
#[local] Hint Constructors Forall : reads.
#[local] Opaque reads.

Section Runs.
Context `{Text : JsonText} `{Status : StatusLibrary} `{Unicode : UnicodeTable}.
Context (ticks : nat) (json_error : string).

(** The task was seen to have ended well. *)
Definition task_seen (c : Config) (node t : string) (tr : list pevent) : Prop :=
  exists r task, req_event c "GET" (task_path node t) None r ∈ tr
  /\ read_Task json_error r = Ok task /\ pt_Status task = "stopped"
  /\ (pt_ExitCode task = None \/ pt_ExitCode task = Some "OK").
Definition task_over (c : Config) (node t : string) (tr : list pevent) : Prop :=
  t = "" \/ task_seen c node t tr.

Lemma task_over_app_r c node t tr tr' : task_over c node t tr' -> task_over c node t (tr ++ tr').
Proof. intros [->|(r & task & Hr & H)]; [by left|right]. exists r, task. split; [set_solver|done]. Qed.

Ltac refuted := eexists; split; [reflexivity|intros [=]].
Lemma wait_loop_wp c node t : forall rounds,
  wp (wait_loop c json_error rounds node t)
    (fun tr o => (exists x, o = Done x /\ (x = None -> task_seen c node t tr)) /\ Forall reads tr).
Proof.
  induction rounds as [|n IH]; cbn [wait_loop]; [cbn; split; [refuted|constructor]|].
  wp_step. wp_step. cbn. destruct r as [|why]; [|cbn; split; [refuted|auto with reads]].
  apply wp_bind, reader_wp. intros r. cbn [bind_post].
  destruct (read_Task json_error r) as [task|e] eqn:Hr; cbn.
  2: { split; [refuted|auto with reads]. }
  case_bool_decide as Hs.
  - destruct (pt_ExitCode task) as [code|] eqn:Hc; [case_bool_decide as Hok|]; cbn.
    + split; [|auto with reads]. eexists. split; [done|]. intros _. exists r, task. subst.
      split_and!; [set_solver|done..|by right].
    + split; [refuted|auto with reads].
    + split; [|auto with reads]. eexists. split; [done|]. intros _. exists r, task.
      split_and!; [set_solver|done..|by left].
  - eapply wp_mono; [apply IH|]. cbn. intros tr o [(x & -> & Hx) Ht]. split; [|auto with reads].
    exists x. split; [done|]. intros Hn. destruct (Hx Hn) as (r' & task' & Hin & H). exists r', task'. set_solver.
Qed.

Lemma WaitForTask_wp c node t :
  wp (WaitForTask c ticks json_error node t)
    (fun tr o => (exists x, o = Done x /\ (x = None -> task_over c node t tr)) /\ Forall reads tr).
Proof.
  unfold WaitForTask. destruct t as [|ch t]; cbn [is_empty].
  - cbn. split; [|done]. eexists. split; [done|]. by left.
  - eapply wp_mono; [apply wait_loop_wp|]. intros tr o [(x & -> & Hx) Hr]. split; [|done].
    exists x. split; [done|]. intros Hn. right. by apply Hx.
Qed.

(** *** References *)
Lemma ListNodes_wp c :
  wp (ListNodes c json_error)
    (fun tr o => (exists x, o = Done x /\ x <> Ok []) /\ Forall reads tr).
Proof.
  unfold ListNodes. wp_step. wp_step. cbn [bind_post].
  assert (reads (ev LoadNodes r)) as Hl by by right.
  case_bool_decide as Hc; cbn [negb]; [|cbn; split; [exists (Ok r); split; [done|by intros [= ->]]|auto with reads]].
  apply wp_bind, request_wp. intros a. cbn [bind_post].
  destruct a as [resp|e]; [|cbn; split; [by eexists|auto with reads]].
  destruct (negb (ha_Status resp =? 200)); [cbn; split; [by eexists|auto with reads]|].
  destruct (typed_data _ _ _ _) as [names|e]; [|cbn; split; [by eexists|auto with reads]].
  case_bool_decide as Hn; [cbn; split; [by eexists|auto with reads]|].
  wp_steps. cbn. split; [eexists; split; [done|by intros [= Hf]]|].
  repeat apply Forall_cons_2; auto with reads.
Qed.

Lemma FindNode_wp c :
  wp (FindNode c json_error) (fun tr o => (exists x, o = Done x) /\ Forall reads tr).
Proof.
  unfold FindNode. destruct (cfg_NodeSelector c) as [|n l]; [|cbn; by eauto].
  apply wp_bind. eapply wp_mono; [apply ListNodes_wp|]. intros tr o [(x & -> & Hx) Hr]. cbn [bind_post].
  destruct x as [[|n l]|e]; cbn; rewrite ?app_nil_r; [done|by eauto|by eauto].
Qed.

(** The machine a reference names. *)
Definition refers (ref : string) (vmid : Z) : Prop :=
  Atoi ref = Some vmid \/ exists node s, Split ":" ref = [node; s] /\ Atoi s = Some vmid.

Lemma parseVMReference_wp c ref :
  wp (parseVMReference json_error c ref)
    (fun tr o => (exists x, o = Done x /\ forall vmid node, x = Ok (vmid, node) -> refers ref vmid)
                 /\ Forall reads tr).
Proof.
  unfold parseVMReference. destruct (Atoi ref) as [vmid|] eqn:Ha.
  - apply wp_bind. eapply wp_mono; [apply FindNode_wp|]. intros tr o [(x & ->) Hr]. cbn. rewrite app_nil_r.
    split; [|done]. destruct x as [node|e]; (eexists; split; [done|]); [|done].
    intros v n [= <- <-]. by left.
  - cbn. split; [|constructor]. eexists. split; [done|]. intros vmid node.
    destruct (Split ":" ref) as [|a [|b [|]]] eqn:Hs; try done.
    destruct (Atoi b) eqn:Hb; [|done]. intros [= <- <-]. right. eauto.
Qed.

Lemma with_vm_wp {A} p ref (body : Config -> Z -> string -> PM (result A ProviderError)) Q :
  (forall tr e, Forall reads tr -> Q tr (Done (Err e))) ->
  (forall c tr vmid node, prx_client p = Some c -> Forall reads tr -> refers ref vmid ->
     wp (body c vmid node) (fun tr' => Q (tr ++ tr'))) ->
  wp (with_vm json_error p ref body) Q.
Proof.
  intros Herr Hbody. unfold with_vm. destruct (prx_client p) as [c|] eqn:Hc; [|cbn; by apply Herr].
  apply wp_bind. eapply wp_mono; [apply parseVMReference_wp|]. intros tr o [(x & -> & Hx) Hr]. cbn [bind_post].
  destruct x as [[vmid node]|msg]; [eauto|]. cbn. rewrite app_nil_r. by apply Herr.
Qed.

(** *** Deletion *)
(** The API accepted a request, and the task it named in its answer, if any, is over. *)
Definition accepted (c : Config) (node method path : string) (body : option Values) (tr : list pevent) : Prop :=
  exists tr1 a tr2 t,
    tr = tr1 ++ req_event c method path body (Ok a) :: tr2 /\ ha_Status a = 200
    /\ task_answer json_error "" no_task a = Ok t /\ task_over c node t tr2.

Definition delete_path (node : string) (vmid : Z) : string :=
  vm_path node vmid "?purge=1&destroy-unreferenced-disks=1".

(** The machine was seen stopped, or was stopped, or could not be seen. *)
Definition stopped_before (c : Config) (node : string) (vmid : Z) (tr : list pevent) : Prop :=
  exists r, req_event c "GET" (vm_path node vmid "/status/current") None r ∈ tr
  /\ forall vm, read_VM json_error node vmid r = Ok vm ->
       pvm_Status vm ∈ ["running"; "paused"; "suspended"] ->
       accepted c node "POST" (vm_path node vmid "/status/stop") None tr.

Lemma task_answer_ok what none a t :
  task_answer json_error what none a = Ok t -> none = no_task ->
  ha_Status a = 200 /\ task_answer json_error "" no_task a = Ok t.
Proof.
  unfold task_answer. intros H ->. destruct (Z.eqb_spec (ha_Status a) 200) as [Hs|Hs]; [|done]. cbn in *. by split.
Qed.

Lemma accepted_app c node m path b tr tr' : accepted c node m path b tr' -> accepted c node m path b (tr ++ tr').
Proof.
  intros (tr1 & a & tr2 & t & -> & H). exists (tr ++ tr1), a, tr2, t. by rewrite <-app_assoc.
Qed.

(** A request that starts a task, and the wait for it. *)
Lemma started_and_over c node m path b doing what r tr x :
  read_started json_error doing what no_task r = Ok x -> task_over c node x tr ->
  accepted c node m path b (req_event c m path b r :: tr).
Proof.
  destruct r as [a|e]; cbn; [|done]. intros [Hs Ht]%task_answer_ok Ho; [|done]. by exists [], a, tr, x.
Qed.

Lemma stop_before_delete_wp c vmid node :
  wp (stop_before_delete ticks json_error c vmid node)
    (fun tr o => exists x, o = Done x /\ (x = None -> stopped_before c node vmid tr)).
Proof.
  unfold stop_before_delete. apply wp_bind, reader_wp. intros r. cbn [bind_post].
  set (e := req_event _ _ _ _ _).
  destruct (read_VM json_error node vmid r) as [vm|err] eqn:Hr.
  2: { cbn. eexists. split; [done|]. intros _. exists r. split; [set_solver|]. by rewrite Hr. }
  case_bool_decide as Hs.
  - unfold PowerOperation, PowerOperationWithParams, task_method. apply wp_bind, reader_wp. intros a. cbn [bind_post].
    rewrite bool_decide_true by done.
    destruct (read_started _ _ _ _ a) as [t|err] eqn:Ha; [|cbn; by refuted].
    apply wp_bind. eapply wp_mono; [apply WaitForTask_wp|]. intros tr o [(x & -> & Hx) _]. cbn.
    destruct x as [err|]; [refuted|]. eexists. split; [done|]. intros _. exists r. split; [set_solver|].
    intros vm' _ _. rewrite app_nil_r. apply (accepted_app _ _ _ _ _ [e]).
    eapply started_and_over; [exact Ha|by apply Hx].
  - cbn. eexists. split; [done|]. intros _. exists r. split; [set_solver|]. rewrite Hr. by intros ? [= <-].
Qed.

(** C23. When the Proxmox provider reports a machine as deleted, then: the API was
    asked to destroy the machine the identifier names, with its disks, and answered
    that there is none, or accepted and the task of the destruction was seen to end
    well; and before that the machine was seen not to be running, or a stop was
    accepted and seen to end, or its state could not be read. *)
Theorem deletion_is_confirmed p id tr o :
  runs (Delete ticks json_error p id) tr o ->
  exists reply, o = Done reply /\
  (is_ok reply = true ->
   exists c vmid node tr1 a tr2,
     tr = tr1 ++ req_event c "DELETE" (delete_path node vmid) None (Ok a) :: tr2
     /\ prx_client p = Some c /\ refers id vmid /\ stopped_before c node vmid tr1
     /\ (ha_Status a = 404 \/
         ha_Status a = 200 /\ exists t, task_answer json_error "" no_task a = Ok t /\ task_over c node t tr2)).
Proof.
  revert tr o. apply wp_runs. apply with_vm_wp; [intros tr e _; refuted|].
  intros c tr vmid node Hc _ Href. apply wp_bind. eapply wp_mono; [apply stop_before_delete_wp|].
  intros tr1 o (x & -> & Hx). cbn [bind_post]. destruct x as [e|]; [cbn; refuted|].
  apply wp_bind, reader_wp. intros r. cbn [bind_post].
  destruct (read_deleted _ _ _ r) as [t|e] eqn:Hr; [|cbn; refuted].
  apply wp_bind. eapply wp_mono; [apply WaitForTask_wp|]. intros tr2 o [(y & -> & Hy) _]. cbn.
  eexists. split; [done|]. destruct y as [e|]; [done|]. intros _.
  destruct r as [a|e]; [|done]. exists c, vmid, node, (tr ++ tr1), a, tr2. cbn. split_and!; [by rewrite app_nil_r, <-app_assoc|done..| |].
  - destruct (Hx eq_refl) as (r & Hin & Hvm). exists r. split; [set_solver|]. intros vm H1 H2. by apply accepted_app, (Hvm vm).
  - cbn in Hr. destruct (Z.eqb_spec (ha_Status a) 404); [by left|right].
    apply task_answer_ok in Hr as [Hs Ht]; [|done]. eauto.
Qed.

(** *** Reconfiguration *)
(** The current configuration has a size for the disk that is below [n]. *)
Definition resize_grows (current : list (string * json)) (n : Z) : Prop :=
  exists s part size, jget current "scsi0" = Some (JStr s) /\ part ∈ Split "," s
  /\ has_prefix part "size=" = true
  /\ ParseInt (TrimSuffix (TrimPrefix part "size=") "G") 64 = Some size /\ size < n.

Lemma disk_change_grows n parts :
  disk_change_of n parts = Grows ->
  exists part size, part ∈ parts /\ has_prefix part "size=" = true
  /\ ParseInt (TrimSuffix (TrimPrefix part "size=") "G") 64 = Some size /\ size < n.
Proof.
  induction parts as [|part parts IH]; cbn [disk_change_of]; [done|].
  assert (disk_change_of n parts = Grows -> exists p size, p ∈ part :: parts /\ has_prefix p "size=" = true
    /\ ParseInt (TrimSuffix (TrimPrefix p "size=") "G") 64 = Some size /\ size < n) as Hrest.
  { intros (p & size & Hp & H)%IH. exists p, size. set_solver. }
  destruct (has_prefix part "size=") eqn:Hp; [|done].
  destruct (ParseInt _ 64) as [size|] eqn:Hs; [|done].
  destruct (Z.ltb_spec n size); [done|]. destruct (Z.ltb_spec size n); [|done].
  intros _. exists part, size. set_solver.
Qed.

Lemma change_of_grows current n : change_of current n = Grows -> resize_grows current n.
Proof.
  unfold change_of. destruct (jget current "scsi0") as [[]|] eqn:Hg; cbn; try done.
  destruct (contains s "size="); [|done]. intros (part & size & H)%disk_change_grows.
  exists s, part, size. tauto.
Qed.

Definition resize_request (c : Config) (node : string) (vmid n : Z) (a : result http_answer string) : pevent :=
  req_event c "PUT" (vm_path node vmid "/resize")
    (Some (<["disk" := "scsi0"]> {["size" := FormatInt n +:+ "G"]})) a.

Lemma reconfigure_disks_wp c vmid node current disks :
  wp (reconfigure_disks json_error c vmid node current disks)
    (fun tr o => exists x, o = Done x /\
       ((x = None /\ tr = []) \/ (exists r, x = Some r /\
         (tr = [] \/ exists n a, tr = [resize_request c node vmid n a] /\ resize_grows current n)))).
Proof.
  induction disks as [|disk disks IH]; cbn [reconfigure_disks]; [cbn; by eauto|].
  destruct (desired_size disk) as [n|]; [|done].
  destruct (change_of current n) eqn:Hc; [done|cbn; eexists; split; [done|right; eauto]|].
  apply wp_bind, reader_wp. intros r. cbn. eexists. split; [done|]. right. eexists. split; [done|]. right.
  exists n, r. split; [done|]. by apply change_of_grows.
Qed.

Lemma look_up_wp {A} c vmid node (amount : option A) :
  wp (look_up json_error c vmid node amount) (fun tr o => o = Done tt /\ Forall reads tr).
Proof.
  unfold look_up. destruct amount; [|cbn; by split]. apply wp_bind, reader_wp. intros r. cbn. auto with reads.
Qed.

(** What the last call of a reconfiguration may be. *)
Definition reconfigures (c : Config) (node : string) (vmid : Z) (tr : list pevent) (e : pevent) : Prop :=
  (exists r0 current n a, req_event c "GET" (vm_path node vmid "/config") None r0 ∈ tr
     /\ read_VMConfig json_error r0 = Ok current /\ resize_grows current n
     /\ e = resize_request c node vmid n a)
  \/ (exists vals a, e = req_event c "PUT" (vm_path node vmid "/config") (Some vals) a
      /\ dom vals ⊆ {["cores"; "memory"]}).

(** C25. A reconfiguration on Proxmox changes at most one thing, with its last request:
    it sets the cores and the memory, or it enlarges the first disk beyond the size
    that the configuration it read gives for it.  A disk is never shrunk. *)
Theorem reconfigure_never_shrinks p id desired tr o :
  runs (Reconfigure json_error p id desired) tr o ->
  exists tr1 tr2, tr = tr1 ++ tr2 /\ Forall reads tr1 /\
  (tr2 = [] \/ exists c node vmid e, tr2 = [e] /\ refers id vmid /\ reconfigures c node vmid tr1 e).
Proof.
  revert tr o. apply wp_runs.
  apply with_vm_wp; [intros tr e Hr; exists tr, []; rewrite app_nil_r; auto|].
  intros c tr vmid node _ Hreads Href. apply wp_bind, reader_wp. intros r0. cbn [bind_post].
  set (e0 := req_event _ _ _ _ _).
  assert (forall tr', Forall reads tr' -> exists tr1 tr2, tr ++ e0 :: tr' = tr1 ++ tr2 /\ Forall reads tr1 /\
    (tr2 = [] \/ exists c node vmid e, tr2 = [e] /\ refers id vmid /\ reconfigures c node vmid tr1 e)) as Hquiet.
  { intros tr' H. exists (tr ++ e0 :: tr'), []. rewrite app_nil_r. split_and!; [done| |by left].
    apply Forall_app. split; [done|]. apply Forall_cons_2; [apply req_event_reads|done]. }
  destruct (read_VMConfig json_error r0) as [current|err] eqn:Hcur; [|cbn; by apply Hquiet].
  destruct (Unmarshal desired) as [[| | | | |o]|]; try (cbn; by apply Hquiet). cbv zeta.
  set (cpus := desired_amount _ "CPU"). set (memory := desired_amount _ "MemoryMiB").
  apply wp_bind. eapply wp_mono; [apply look_up_wp|]. intros tr1 ? [-> Ht1]. cbn [bind_post].
  apply wp_bind. eapply wp_mono; [apply look_up_wp|]. intros tr2 ? [-> Ht2]. cbn [bind_post].
  apply wp_bind. eapply wp_mono; [apply reconfigure_disks_wp|]. intros tr3 ? (x & -> & Hx). cbn [bind_post].
  assert (Forall reads (tr ++ e0 :: tr1 ++ tr2)) as Hall.
  { apply Forall_app. split; [done|]. apply Forall_cons_2; [apply req_event_reads|]. by apply Forall_app. }
  assert (forall e, reconfigures c node vmid (tr ++ e0 :: tr1 ++ tr2) e ->
    exists trA trB, tr ++ e0 :: tr1 ++ tr2 ++ [e] = trA ++ trB /\ Forall reads trA /\
    (trB = [] \/ exists c node vmid e, trB = [e] /\ refers id vmid /\ reconfigures c node vmid trA e)) as Hlast.
  { intros e He. exists (tr ++ e0 :: tr1 ++ tr2), [e]. split_and!; [by rewrite <-!app_assoc, <-app_comm_cons, <-app_assoc|done|].
    right. exists c, node, vmid, e. done. }
  destruct Hx as [[-> ->]|(r & -> & [->|(n & a & -> & Hn)])].
  - case_match; cbn.
    + rewrite !app_nil_r. apply Hquiet. by apply Forall_app.
    + apply wp_bind, reader_wp. intros a. cbn. apply Hlast. right.
      eexists _, a. split; [done|]. destruct cpus, memory; cbn; rewrite ?dom_insert_L; set_solver.
  - cbn. rewrite !app_nil_r. apply Hquiet. by apply Forall_app.
  - cbn. apply Hlast. left. exists r0, current, n, a. split; [set_solver|]. done.
Qed.

(** *** Creation *)
Definition posts (tr : list pevent) : nat := length (filter (fun e => method_of e = "POST") tr).
Lemma posts_app tr tr' : posts (tr ++ tr') = (posts tr + posts tr')%nat.
Proof. unfold posts. by rewrite filter_app, length_app. Qed.
#[local] Transparent reads.
Lemma posts_reads tr : Forall reads tr -> posts tr = 0%nat.
Proof.
  unfold posts. induction 1 as [|e tr He _ IH]; [done|]. rewrite filter_cons_False; [done|].
  destruct He as [-> | ->]; done.
Qed.
#[local] Opaque reads.

(** [p] makes at most [n] requests with POST. *)
Definition posts_le {A} (n : nat) (p : PM A) : Prop := wp p (fun tr _ => (posts tr <= n)%nat).

Lemma posts_ret {A} (a : A) : posts_le 0 (Ret a).
Proof. apply Nat.le_refl. Qed.
Lemma posts_bind {A B} a b (p : PM A) (f : A -> PM B) :
  posts_le a p -> (forall x, posts_le b (f x)) -> posts_le (a + b) (p ≫= f).
Proof.
  intros Hp Hf. apply wp_bind. eapply wp_mono; [exact Hp|]. intros tr [x|w] Hn; cbn; [|lia].
  eapply wp_mono; [apply Hf|]. intros tr' o Hn'. cbn in Hn'. rewrite posts_app. lia.
Qed.
Lemma posts_bind0 {A B} n (p : PM A) (f : A -> PM B) :
  posts_le 0 p -> (forall x, posts_le n (f x)) -> posts_le n (p ≫= f).
Proof. apply (posts_bind 0). Qed.
Lemma posts_from_reads {A} (p : PM A) Q : wp p (fun tr o => Q tr o /\ Forall reads tr) -> posts_le 0 p.
Proof. intros H. eapply wp_mono; [exact H|]. intros tr o [_ Hr]. cbn. by rewrite posts_reads. Qed.
Lemma posts_request c m path body : posts_le (if bool_decide (m = "POST") then 1 else 0) (request c m path body).
Proof. apply request_wp. intros r. unfold posts, filter. cbn. case_bool_decide as H; case_decide; cbn; try lia; done. Qed.

Lemma posts_task_method c m path body doing what none :
  posts_le (if bool_decide (m = "POST") then 1 else 0) (task_method c json_error m path body doing what none).
Proof. pose proof (posts_bind _ 0 (request c m path body) (fun r => Ret (read_started json_error doing what none r))
    (posts_request c m path body) (fun _ => posts_ret _)) as H. by rewrite Nat.add_0_r in H. Qed.
Lemma posts_quiet_request c m path body :
  m <> "POST" -> posts_le 0 (request c m path body).
Proof. intros Hm. pose proof (posts_request c m path body) as H. by rewrite bool_decide_false in H. Qed.
Lemma posts_wait c node t : posts_le 0 (wait_if_any ticks json_error c node t).
Proof. eapply posts_from_reads, (WaitForTask_wp c node t). Qed.
Lemma posts_find c : posts_le 0 (FindNode c json_error).
Proof. eapply posts_from_reads, (FindNode_wp c). Qed.
Lemma posts_ssh cmd : posts_le 0 (pdo (RunSSH cmd)).
Proof. intros r. unfold posts, filter. cbn. case_decide; [done|cbn; lia]. Qed.
Lemma posts_now : posts_le 0 (pdo UnixNow).
Proof. intros r. unfold posts, filter. cbn. case_decide; [done|cbn; lia]. Qed.

#[local] Hint Resolve posts_ret posts_wait posts_find posts_ssh posts_now : posts.

(** Follows a program that makes no request with POST. *)
Ltac no_posts :=
  repeat first
    [ solve [auto with posts]
    | apply posts_quiet_request; discriminate
    | apply posts_ssh
    | apply posts_now
    | apply posts_bind0; [|intros]
    | progress cbv zeta
    | match goal with |- posts_le _ (match ?x with _ => _ end) => destruct x end ].

Lemma posts_raw c node vmid vals : posts_le 0 (ReconfigureVMRaw c json_error node vmid vals).
Proof. unfold ReconfigureVMRaw, task_method. no_posts. Qed.
Lemma posts_delete c node vmid : posts_le 0 (DeleteVM c json_error node vmid true).
Proof. unfold DeleteVM, delete_method. no_posts. Qed.
Lemma posts_getvm c node vmid : posts_le 0 (GetVM c json_error node vmid).
Proof. unfold GetVM. no_posts. Qed.
Lemma posts_detect c node vmid : posts_le 0 (DetectPrimaryDisk c json_error node vmid).
Proof. unfold DetectPrimaryDisk, GetVMConfig. no_posts. Qed.
#[local] Hint Resolve posts_raw posts_delete posts_getvm posts_detect : posts.
Lemma posts_next c : posts_le 0 (nextVMID json_error c).
Proof. unfold nextVMID, GetNextVMID. no_posts. Qed.
#[local] Hint Resolve posts_next : posts.
Lemma posts_parse c req : posts_le 0 (parseCreateRequest json_error c req).
Proof. unfold parseCreateRequest. no_posts. Qed.
Lemma posts_sizing c node vmid cpus mem : posts_le 0 (applyVMClassSizing ticks json_error c node vmid cpus mem).
Proof. unfold applyVMClassSizing. no_posts. Qed.
#[local] Hint Resolve posts_parse posts_sizing : posts.
Lemma posts_attach p c req vm node storage format :
  posts_le 0 (attach_disk ticks json_error p c req vm node storage format).
Proof. unfold attach_disk, fail_shell, rollback_shell, imported_volume, attach_cloudinit, cleanupNodeFile. no_posts. Qed.
Lemma posts_reconfigure c vm node : posts_le 0 (reconfigure_clone ticks json_error c vm node).
Proof. unfold reconfigure_clone. no_posts. Qed.
#[local] Hint Resolve posts_attach posts_reconfigure : posts.

(** One request with POST, and then none. *)
Lemma posts_once {A B} (p : PM A) (f : A -> PM B) :
  posts_le 1 p -> (forall x, posts_le 0 (f x)) -> posts_le 1 (p ≫= f).
Proof. apply (posts_bind 1 0). Qed.
Lemma posts_weaken {A} (p : PM A) : posts_le 0 p -> posts_le 1 p.
Proof. intros H. eapply wp_mono; [exact H|]. cbn. lia. Qed.

Lemma posts_make p c req vm node : posts_le 1 (make_vm ticks json_error p c req vm node).
Proof.
  unfold make_vm. destruct (negb (is_empty (vc_ImportedDiskPath vm))).
  { unfold createFromImportedDisk. destruct (negb (prx_ssh p)); [apply posts_weaken, posts_ret|]. cbv zeta.
    apply posts_once; [apply (posts_task_method c "POST")|]. intros. no_posts. }
  destruct (negb (is_empty (vc_Template vm))).
  { unfold create_from_template. destruct (Atoi (vc_Template vm)); [|apply posts_weaken, posts_ret]. cbv zeta.
    apply posts_once; [apply (posts_task_method c "POST")|]. intros. no_posts. }
  unfold create_new. apply posts_once; [apply (posts_task_method c "POST")|]. intros. no_posts.
Qed.

(** The request that makes a machine was accepted. *)
Definition made (c : Config) (node : string) (vm : VMConfig) (tr : list pevent) : Prop :=
  exists a, ha_Status a = 200 /\
  (req_event c "POST" (node_path node "/qemu") (Some (configToValues vm)) (Ok a) ∈ tr
   \/ exists template, req_event c "POST" (vm_path node template "/clone") (Some (clone_values vm)) (Ok a) ∈ tr).

Lemma made_app_l c node vm tr tr' : made c node vm tr -> made c node vm (tr ++ tr').
Proof. intros (a & Ha & [H|(t & H)]); exists a; (split; [done|]); [left|right; exists t]; set_solver. Qed.
Lemma made_app_r c node vm tr tr' : made c node vm tr' -> made c node vm (tr ++ tr').
Proof. intros (a & Ha & [H|(t & H)]); exists a; (split; [done|]); [left|right; exists t]; set_solver. Qed.

Lemma started_200 doing what r t :
  read_started json_error doing what unexpected r = Ok t -> exists a, r = Ok a /\ ha_Status a = 200.
Proof.
  destruct r as [a|e]; cbn; [|done]. unfold task_answer. destruct (Z.eqb_spec (ha_Status a) 200); [eauto|done].
Qed.

(** A program all of whose successful replies carry the identifier. *)
Definition replies {A} (good : A -> Prop) (p : PM (result A ProviderError)) : Prop :=
  wp p (fun _ o => forall a, o = Done (Ok a) -> good a).
Lemma replies_bind {A B} good (p : PM A) (f : A -> PM (result B ProviderError)) :
  (forall x, replies good (f x)) -> replies good (p ≫= f).
Proof.
  intros Hf. apply wp_bind. eapply wp_mono; [apply wp_true|]. intros tr [x|w] _; cbn; [|done].
  eapply wp_mono; [apply Hf|]. cbn. auto.
Qed.
Lemma replies_err {A} (good : A -> Prop) e : replies good (Ret (Err e)).
Proof. by intros a [=]. Qed.
Lemma replies_ok {A} (good : A -> Prop) a : good a -> replies good (Ret (Ok a)).
Proof. by intros Ha b [= <-]. Qed.
Ltac replying :=
  repeat first
    [ apply replies_err
    | apply replies_ok; reflexivity
    | apply replies_bind; intros
    | match goal with |- replies _ (match ?x with _ => _ end) => destruct x end
    | match goal with |- replies _ (Ret (match ?x with _ => _ end)) => destruct x end ].

Definition carries (vmid : Z) (r : wire_Task) : Prop := w_Id r = FormatInt vmid.

(** After the request that makes the machine. *)
Lemma made_then {A} c node vm m path body doing what (f : result string perr -> PM (result A ProviderError)) good :
  (forall a, ha_Status a = 200 -> made c node vm [req_event c m path body (Ok a)]) ->
  (forall r, replies good (f r)) ->
  (forall e, exists e', f (Err e) = Ret (Err e')) ->
  wp (r ← task_method c json_error m path body doing what unexpected; f r)
    (fun tr o => forall a, o = Done (Ok a) -> good a /\ made c node vm tr).
Proof.
  intros Hmade Hf Herr. apply wp_bind, reader_wp. intros r. cbn [bind_post].
  destruct (read_started _ _ _ _ r) as [t|e] eqn:Hr.
  - destruct (started_200 _ _ _ _ Hr) as (a & -> & Ha). eapply wp_mono; [apply Hf|].
    intros tr o Hg b Ho. split; [by apply Hg|]. apply (made_app_l _ _ _ [_]). by apply Hmade.
  - destruct (Herr e) as [e' ->]. cbn. done.
Qed.

Lemma make_vm_wp p c req vm node :
  wp (make_vm ticks json_error p c req vm node)
    (fun tr o => forall reply, o = Done (Ok reply) ->
       carries (vc_VMID vm) reply /\
       exists vm', vc_VMID vm' = vc_VMID vm /\ vc_Name vm' = vc_Name vm /\ made c node vm' tr).
Proof.
  assert (forall vm' (p : PM (result wire_Task ProviderError)),
    vc_VMID vm' = vc_VMID vm -> vc_Name vm' = vc_Name vm ->
    wp p (fun tr o => forall reply, o = Done (Ok reply) -> carries (vc_VMID vm) reply /\ made c node vm' tr) ->
    wp p (fun tr o => forall reply, o = Done (Ok reply) ->
       carries (vc_VMID vm) reply /\
       exists vm', vc_VMID vm' = vc_VMID vm /\ vc_Name vm' = vc_Name vm /\ made c node vm' tr)) as Hwith.
  { intros vm' q H1 H2 H. eapply wp_mono; [exact H|]. intros tr o Hr reply Ho.
    destruct (Hr reply Ho). split; [done|]. by exists vm'. }
  unfold make_vm. destruct (negb (is_empty (vc_ImportedDiskPath vm))).
  { unfold createFromImportedDisk. destruct (negb (prx_ssh p)); [done|]. cbv zeta.
    apply (Hwith (vm <| vc_Template := "" |> <| vc_Clone := "" |>)); [done..|].
    apply made_then; [|intros r|intros e; by eexists].
    - intros a Ha. exists a. split; [done|]. left. set_solver.
    - unfold attach_disk, fail_shell. replying. }
  destruct (negb (is_empty (vc_Template vm))).
  { unfold create_from_template. destruct (Atoi (vc_Template vm)) as [template|]; [|done]. cbv zeta.
    apply (Hwith (vm <| vc_Custom := <["full" := "1"]> (vc_Custom vm) |>)); [done..|].
    apply made_then; [|intros r|intros e; by eexists].
    - intros a Ha. exists a. split; [done|]. right. exists template. set_solver.
    - replying. }
  apply (Hwith vm); [done..|]. apply made_then; [|intros r|intros e; by eexists].
  - intros a Ha. exists a. split; [done|]. left. set_solver.
  - replying.
Qed.

(** Reading the request sets neither the identifier nor the name. *)
Definition same_vm (vm vm' : VMConfig) : Prop := vc_VMID vm' = vc_VMID vm /\ vc_Name vm' = vc_Name vm.
Lemma parse_class_same j vm : same_vm vm (parse_class j vm).
Proof. unfold parse_class. repeat case_match; done. Qed.
Lemma contracts_image_same o vm : same_vm vm (contracts_image o vm).
Proof. unfold contracts_image. cbv zeta. repeat case_match; done. Qed.
Lemma spec_image_same src vm : same_vm vm (spec_image src vm).
Proof. unfold spec_image. cbv zeta. repeat case_match; done. Qed.
Lemma parse_image_same j vm : same_vm vm (parse_image j vm).
Proof.
  unfold parse_image. destruct (is_empty j); [done|].
  set (vm1 := match Unmarshal j with Some (JObj o) => _ | Some JNull => _ | _ => vm end).
  assert (same_vm vm vm1) as [H1 H2].
  { subst vm1. destruct (Unmarshal j) as [[]|]; first [apply contracts_image_same | done]. }
  cbv zeta. destruct (is_empty (vc_Template vm1)); [|done].
  destruct (Unmarshal_image j) as [[src|]|]; [|done..].
  destruct (spec_image_same src vm1) as [H3 H4]. split; congruence.
Qed.
Lemma parse_userdata_same u vm : same_vm vm (parse_userdata u vm).
Proof. unfold parse_userdata. cbv zeta. repeat case_match; done. Qed.

Lemma parseCreateRequest_wp c req :
  wp (parseCreateRequest json_error c req)
    (fun _ o => forall vm node, o = Done (Ok (vm, node)) -> vc_Name vm = w_Name req).
Proof.
  unfold parseCreateRequest. apply wp_bind. eapply wp_mono; [apply wp_true|]. intros tr [vmid|w] _; cbn; [|done].
  apply wp_bind. eapply wp_mono; [apply wp_true|]. intros tr' [[node|e]|w] _; cbn; [|done..].
  intros vm node' [= <- <-].
  set (vm0 := empty_VMConfig <| vc_VMID := vmid |> <| vc_Name := w_Name req |>).
  set (vm1 := parse_image _ _). destruct (parse_userdata_same (w_UserData req) (with_networks (w_NetworksJson req) vm1)) as [_ ->].
  change (vc_Name vm1 = w_Name req). subst vm1.
  destruct (parse_image_same (w_ImageJson req) (parse_class (w_ClassJson req) vm0)) as [_ ->].
  by destruct (parse_class_same (w_ClassJson req) vm0) as [_ ->].
Qed.

(** C24. One [Create] asks the Proxmox API for at most one machine, by any of its three
    ways.  When it succeeds, its reply names a machine that the API had under this
    identifier and the requested name, or one it accepted to make so. *)
Theorem create_makes_one_machine p req tr o :
  runs (Create ticks json_error p req) tr o ->
  (posts tr <= 1)%nat /\
  forall reply, o = Done (Ok reply) ->
    exists c node vmid, prx_client p = Some c /\ w_Id reply = FormatInt vmid /\
    ((exists r vm, req_event c "GET" (vm_path node vmid "/status/current") None r ∈ tr
        /\ read_VM json_error node vmid r = Ok vm /\ pvm_Name vm = w_Name req)
     \/ exists vm, vc_VMID vm = vmid /\ vc_Name vm = w_Name req /\ made c node vm tr).
Proof.
  revert tr o. apply wp_runs. unfold Create. destruct (prx_client p) as [c|] eqn:Hc.
  2: { cbn. split; [unfold posts; cbn; lia|done]. }
  apply wp_and.
  { apply posts_bind0; [auto with posts|]. intros [[vm node]|msg]; [|apply posts_weaken, posts_ret].
    apply posts_bind0; [auto with posts|]. intros [x|e]; [case_bool_decide|]; try apply posts_make.
    - apply posts_weaken, posts_ret.
    - apply posts_bind0; [auto with posts|]. intros. apply posts_make. }
  apply wp_bind. eapply wp_mono; [apply parseCreateRequest_wp|].
  intros tr0 [[[vm node]|msg]|w] Hname; cbn [bind_post]; [|done..]. specialize (Hname _ _ eq_refl).
  apply wp_bind, reader_wp. intros r. cbn [bind_post].
  assert (forall trx vm1, vc_Name vm1 = w_Name req ->
    wp (make_vm ticks json_error p c req vm1 node) (fun tr' o => forall reply, o = Done (Ok reply) ->
      exists c0 node vmid, Some c = Some c0 /\ w_Id reply = FormatInt vmid /\
      ((exists r vm, req_event c0 "GET" (vm_path node vmid "/status/current") None r ∈ trx ++ tr'
          /\ read_VM json_error node vmid r = Ok vm /\ pvm_Name vm = w_Name req)
       \/ exists vm, vc_VMID vm = vmid /\ vc_Name vm = w_Name req /\ made c0 node vm (trx ++ tr')))) as Hmake.
  { intros trx vm1 Hn. eapply wp_mono; [apply make_vm_wp|]. intros tr' o Hr reply Ho.
    destruct (Hr reply Ho) as (Hid & vm2 & Hv & Hn2 & Hm). exists c, node, (vc_VMID vm1).
    split_and!; [done|done|]. right. exists vm2. split_and!; [done|congruence|by apply made_app_r]. }
  destruct (read_VM json_error node (vc_VMID vm) r) as [x|e] eqn:Hr.
  - case_bool_decide as Hx.
    + cbn. intros reply [= <-]. exists c, node, (vc_VMID vm). split_and!; [done|done|]. left.
      exists r, x. split_and!; [set_solver|done..].
    + apply wp_bind. eapply wp_mono; [apply wp_true|]. intros tr1 [vmid|w] _; cbn; [|done].
      eapply wp_mono; [apply (Hmake (tr0 ++ req_event c "GET" (vm_path node (vc_VMID vm) "/status/current") None r :: tr1)); done|].
      cbn. intros tr2 o H. by rewrite <-app_assoc in H.
  - eapply wp_mono; [apply (Hmake (tr0 ++ [req_event c "GET" (vm_path node (vc_VMID vm) "/status/current") None r])); done|].
    cbn. intros tr2 o H. by rewrite <-app_assoc in H.
Qed.

(** *** Creation around an imported disk *)
(** [p] ends in a failure only after it asked for the destruction of the shell. *)
Definition rolls_back {A} (c : Config) (node : string) (vmid : Z) (p : PM (result A ProviderError)) : Prop :=
  wp p (fun tr o => exists reply, o = Done reply
    /\ (is_ok reply = false -> exists r, req_event c "DELETE" (delete_path node vmid) None r ∈ tr)).

Lemma rolls_back_bind {A B} c node vmid (p : PM A) (f : A -> PM (result B ProviderError)) :
  wp p (fun _ o => exists x, o = Done x) -> (forall x, rolls_back c node vmid (f x)) ->
  rolls_back c node vmid (p ≫= f).
Proof.
  intros Hp Hf. apply wp_bind. eapply wp_mono; [exact Hp|]. intros tr ? [x ->]. cbn.
  eapply wp_mono; [apply Hf|]. intros tr' o (reply & -> & Hr). exists reply. split; [done|].
  intros H. destruct (Hr H) as [r Hin]. exists r. set_solver.
Qed.

Lemma wait_done c node t : wp (wait_if_any ticks json_error c node t) (fun _ o => exists x, o = Done x).
Proof. eapply wp_mono; [apply WaitForTask_wp|]. intros tr o [(x & -> & _) _]. eauto. Qed.
Lemma ssh_done cmd : wp (pdo (RunSSH cmd)) (fun _ o => exists x, o = Done x).
Proof. intros r. cbn. eauto. Qed.
Lemma done_bind {A B} (p : PM A) (f : A -> PM B) :
  wp p (fun _ o => exists x, o = Done x) -> (forall x, wp (f x) (fun _ o => exists x, o = Done x)) ->
  wp (p ≫= f) (fun _ o => exists x, o = Done x).
Proof.
  intros Hp Hf. apply wp_bind. eapply wp_mono; [exact Hp|]. intros tr ? [x ->]. cbn.
  eapply wp_mono; [apply Hf|]. done.
Qed.
Lemma request_done {A} c m path body (read : result http_answer string -> A) :
  wp (r ← request c m path body; Ret (read r)) (fun _ o => exists x, o = Done x).
Proof. apply reader_wp. eauto. Qed.

Lemma fail_shell_rolls_back {A} c node vmid e : rolls_back c node vmid (fail_shell (A := A) ticks json_error c node vmid e).
Proof.
  unfold rolls_back, fail_shell, rollback_shell. apply wp_bind, wp_bind, reader_wp. intros r. cbn [bind_post].
  destruct (read_deleted _ _ _ r) as [t|err].
  - apply wp_bind. eapply wp_mono; [apply wait_done|]. intros tr ? [x ->]. cbn. eexists. split; [done|].
    intros _. exists r. set_solver.
  - cbn. eexists. split; [done|]. intros _. exists r. set_solver.
Qed.

Lemma attach_disk_rolls_back p c req vm node storage format :
  rolls_back c node (vc_VMID vm) (attach_disk ticks json_error p c req vm node storage format).
Proof.
  unfold attach_disk. apply rolls_back_bind; [apply ssh_done|]. intros [[out err] [e|]]; [apply fail_shell_rolls_back|].
  apply rolls_back_bind.
  { unfold imported_volume. apply done_bind; [apply ssh_done|]. intros [[? ?] ?]. cbn. eauto. }
  intros volume. apply rolls_back_bind; [apply ssh_done|]. intros [[? err'] [e|]]; [apply fail_shell_rolls_back|].
  apply rolls_back_bind.
  { unfold attach_cloudinit. destruct (is_empty (w_UserData req)); [cbn; eauto|].
    apply done_bind; [apply request_done|]. intros [t|e]; [|cbn; eauto].
    apply done_bind; [apply wait_done|]. cbn. eauto. }
  intros [e|]; [apply fail_shell_rolls_back|]. apply rolls_back_bind; [|intros; cbn; refuted].
  unfold cleanupNodeFile. destruct (negb (prx_ssh p) || _); [cbn; eauto|].
  apply done_bind; [apply ssh_done|]. cbn. eauto.
Qed.

(** C26. When making a machine around an imported disk fails after a command was run on
    the node, which is after its shell was made, the API is asked to destroy the shell
    with its disks; and such a creation never panics. *)
Theorem failed_import_is_rolled_back p c req vm node tr o :
  runs (createFromImportedDisk ticks json_error p c req vm node) tr o ->
  exists reply, o = Done reply
  /\ (is_ok reply = false -> (exists e, e ∈ tr /\ method_of e = "SSH") ->
      exists r, req_event c "DELETE" (delete_path node (vc_VMID vm)) None r ∈ tr).
Proof.
  revert tr o. apply wp_runs. unfold createFromImportedDisk. destruct (negb (prx_ssh p)).
  { cbn. eexists. split; [done|]. intros _ (e & He & _). by apply not_elem_of_nil in He. }
  cbv zeta. set (vm' := set_field _ _). apply wp_bind, reader_wp. intros r. cbn [bind_post].
  set (e0 := req_event _ _ _ _ _).
  assert (method_of e0 <> "SSH") as He0 by (subst e0; unfold method_of, req_event; cbn; discriminate).
  destruct (read_started _ _ _ _ r) as [t|e]; [|cbn].
  2: { eexists. split; [done|]. intros _ (e' & He & Hm). apply list_elem_of_singleton in He as ->. done. }
  apply wp_bind. eapply wp_mono; [apply WaitForTask_wp|]. intros tr ? [(x & -> & _) Hreads]. cbn [bind_post].
  destruct x as [e|].
  - cbn. rewrite app_nil_r. eexists. split; [done|]. intros _ (e' & [->|He]%elem_of_cons & Hm); [done|].
    rewrite Forall_forall in Hreads. destruct (Hreads e' He) as [H|H]; rewrite Hm in H; discriminate.
  - eapply wp_mono; [apply (attach_disk_rolls_back p c req vm' node)|].
    intros tr' o (reply & -> & Hr). exists reply. split; [done|]. intros H _. destruct (Hr H) as [r' Hin].
    exists r'. set_solver.
Qed.

(** *** Describing *)
(** An address that may be reported: not empty, and without a prefix of the IPv4 loopback
    and link-local networks or the usual one of IPv6 link-local addresses. *)
Definition reportable (ip : string) : Prop :=
  ip <> "" /\ has_prefix ip "127." = false /\ has_prefix ip "169.254." = false /\ has_prefix ip "fe80:" = false.

Lemma routable_spec ip : routable ip = true <-> reportable ip.
Proof.
  unfold routable, reportable. rewrite !andb_true_iff, !negb_true_iff, is_empty_false. naive_solver.
Qed.

(** The addresses a guest agent reported for interfaces other than the loopback one. *)
Definition reported_by (l : list GuestNetworkInterface) (ip : string) : Prop :=
  exists i, i ∈ l /\ gni_Name i <> "lo" /\ ip ∈ gni_IPAddresses i.

Lemma guest_ips_spec l ip : ip ∈ guest_ips l <-> reported_by l ip /\ reportable ip.
Proof.
  unfold guest_ips, reported_by. rewrite list_elem_of_bind, <- routable_spec. split.
  - intros (i & Hx & Hin). case_bool_decide; [by apply not_elem_of_nil in Hx|].
    apply list_elem_of_In, filter_In in Hx as [Hx%list_elem_of_In Hr]. eauto 6.
  - intros [(i & Hin & Hlo & Hx) Hr]. exists i. split; [|done]. rewrite bool_decide_eq_false_2 by done.
    apply list_elem_of_In, filter_In. split; [by apply list_elem_of_In|done].
Qed.

(** The guest agent of the machine reported the address during a run. *)
Definition guest_reported (id : string) (tr : list pevent) (ip : string) : Prop :=
  exists c node vmid r l, refers id vmid
    /\ req_event c "GET" (vm_path node vmid "/agent/network-get-interfaces") None r ∈ tr
    /\ read_interfaces json_error r = Ok l /\ reported_by l ip.

(** The prefixes are those of a spelling: other IPv6 loopback and link-local addresses pass. *)
Theorem some_local_addresses_are_reported :
  Forall (fun ip => reportable ip) ["::1"; "FE80::1"; "fe90::1"].
Proof. repeat constructor; done. Qed.

(** C27. The description of a machine is one the manager accepts.  Either the machine does
    not exist, which is said only when the API answers that it does not; or its state is
    On or Off, and every address is one that the guest agent reported for an interface
    other than lo, is not empty, and does not begin with 127., 169.254. or fe80: (other
    spellings of local IPv6 addresses are not looked for).  Nothing is changed. *)
Theorem description_is_valid p id tr o :
  runs (Describe json_error p id) tr o ->
  Forall reads tr /\
  exists reply, o = Done reply /\ forall d, reply = Ok d ->
    (w_Exists d = false /\ w_PowerState d = "notfound"
       /\ exists c node vmid a, refers id vmid /\ ha_Status a = 404
          /\ req_event c "GET" (vm_path node vmid "/status/current") None (Ok a) ∈ tr)
    \/ (w_Exists d = true /\ w_PowerState d ∈ ["On"; "Off"]
        /\ forall ip, ip ∈ w_Ips d -> reportable ip /\ guest_reported id tr ip).
Proof.
  assert (forall status, power_state status ∈ ["On"; "Off"]) as Hstate.
  { intros status. unfold power_state. case_bool_decide; set_solver. }
  revert tr o. apply wp_runs. apply with_vm_wp.
  { intros tr e Hr. split; [done|]. eexists. split; [done|]. by intros d [=]. }
  intros c tr vmid node _ Hr Href. apply wp_bind, reader_wp. intros r. cbn [bind_post].
  assert (forall l, Forall reads l -> Forall reads (tr ++ req_event c "GET" (vm_path node vmid "/status/current") None r :: l)) as Hreads.
  { intros l Hl. apply Forall_app. split; [done|]. apply Forall_cons_2; [apply req_event_reads|done]. }
  destruct (read_VM json_error node vmid r) as [vm|[|e]] eqn:Hvm.
  - case_bool_decide as Hrun.
    + apply wp_bind, wp_bind, reader_wp. intros i. cbn. split; [apply Hreads; auto with reads|].
      eexists. split; [done|]. intros d [= <-]. right. cbn [w_Exists w_PowerState w_Ips].
      split_and!; [done|apply Hstate|]. intros ip Hip.
      destruct (read_interfaces json_error i) as [l|e] eqn:Hi; [|by apply elem_of_nil in Hip].
      apply guest_ips_spec in Hip as [Hrep Hok]. split; [done|]. exists c, node, vmid, i, l.
      split_and!; [done| |done|done]. apply elem_of_app. right. right. by left.
    + cbn. split; [apply Hreads; constructor|]. eexists. split; [done|]. intros d [= <-]. right. cbn.
      split_and!; [done|apply Hstate|by intros ip ?%elem_of_nil].
  - cbn. split; [apply Hreads; constructor|]. eexists. split; [done|]. intros d [= <-]. left.
    split_and!; [done..|]. destruct r as [a|err]; [|done]. cbn in Hvm.
    destruct (Z.eqb_spec (ha_Status a) 404) as [Hs|Hs].
    + exists c, node, vmid, a. split_and!; [done|done|set_solver].
    + exfalso. destruct (negb (ha_Status a =? 200)); [done|].
      destruct (api_data json_error a) as [data|e] eqn:Ha; cbn in Hvm.
      * unfold reread in Hvm. by destruct (into_struct _ _).
      * simplify_eq. unfold api_data in Ha. repeat case_match; done.
  - cbn. split; [apply Hreads; constructor|]. eexists. split; [done|]. by intros d [=].
Qed.
End Runs.

(** An identifier the provider gave out names the machine it was given for. *)
Lemma refers_FormatInt vmid v : 0 <= vmid -> int64_ok vmid = true -> refers (FormatInt vmid) v -> v = vmid.
Proof.
  intros Hn Hok. unfold refers. rewrite Atoi_FormatInt by done. intros [[= ->]|(n & s & Hs & Ha)]; [done|].
  rewrite Split_no_sep in Hs; [done|]. pose proof (FormatInt_digits vmid Hn) as Hd.
  revert Hd. generalize (FormatInt vmid). intros t. induction t as [|c t IH]; [done|]. cbn [all_chars].
  intros [Hc Ht]%andb_prop. rewrite (IH Ht), andb_true_r. apply negb_true_iff, Ascii.eqb_neq. intros ->.
  vm_compute in Hc. done.
Qed.

(** *** The networks the manager sends *)
(** A network as [encoding/json] prints the manager's type, whose fields have no tags. *)
Definition network_json (n : NetworkAttachment) : json :=
  JObj [("Name", JStr (na_Name n)); ("Portgroup", JStr (Portgroup n)); ("NetworkName", JStr (NetworkName n));
        ("Bridge", JStr (Bridge n)); ("VLAN", JNum (inject_Z (VLAN n))); ("Model", JStr (Model n));
        ("MacAddress", JStr (MacAddress n)); ("IPPolicy", JStr (IPPolicy n)); ("StaticIP", JStr (StaticIP n));
        ("Prefix", JNum (inject_Z (Prefix n))); ("Gateway", JStr (Gateway n)); ("DNS", JStr (DNS n));
        ("PCISlotNumber", match PCISlotNumber n with Some p => JNum (inject_Z p) | None => JNull end)].

Lemma parse_networks_json l : forall i,
  parse_networks i (network_json <$> l)
  = (fun j => (default_network j, default_ipconfig j)) <$> ((fun k => i + Z.of_nat k) <$> seq 0 (length l)).
Proof.
  induction l as [|n l IH]; intros i; [done|].
  change (parse_network i (match network_json n with JObj o => o | _ => [] end)
          :: parse_networks (i + 1) (network_json <$> l)
        = (fun j => (default_network j, default_ipconfig j)) <$> ((fun k => i + Z.of_nat k) <$> seq 0 (S (length l)))).
  rewrite IH. cbn [seq fmap list_fmap]. f_equal; [by rewrite Z.add_0_r|].
  rewrite <-fmap_S_seq. rewrite <-!list_fmap_compose. apply list_fmap_ext. intros k x _. cbn. f_equal; f_equal; lia.
Qed.

(** Of the networks the manager sends only the number reaches a Proxmox machine:
    the provider looks for the names of the fields in lower case, so every interface is
    on the default bridge, without VLAN, MAC address or static address. *)
Theorem network_settings_are_lost `{Text : JsonText} networks text vm :
  networks <> [] -> Unmarshal text = Some (JArr (network_json <$> networks)) -> text <> "" ->
  vc_Networks (with_networks text vm) = default_network <$> (Z.of_nat <$> seq 0 (length networks))
  /\ vc_IPConfigs (with_networks text vm) = default_ipconfig <$> (Z.of_nat <$> seq 0 (length networks)).
Proof.
  intros Hne Ht Htext. unfold with_networks. destruct text as [|c text]; [done|]. cbn [is_empty]. rewrite Ht.
  rewrite parse_networks_json. cbv zeta.
  rewrite bool_decide_false by (destruct networks; [done|discriminate]).
  set (found := if is_empty _ then _ else _).
  change (found.*1 = default_network <$> (Z.of_nat <$> seq 0 (length networks))
          /\ found.*2 = default_ipconfig <$> (Z.of_nat <$> seq 0 (length networks))).
  subst found. change (is_empty (String c text)) with false. cbn iota. rewrite <-!list_fmap_compose. done.
Qed.

(** *** The overrides of a clone *)
(** The tags of the class and of the reference that the clone controller prints. *)
Definition class_tags : list string :=
  ["cpu"; "memory"; "firmware"; "diskDefaults"; "guestToolsPolicy"; "extraConfig"; "resourceLimits";
   "performanceProfile"; "securityProfile"].
Definition reference_tags : list string := ["name"].

Lemma field_absent {A} (dec : A -> json -> option A) k cur (o : list (string * json)) (tags : list string) :
  forallb (fun t => negb (same_key t k)) tags = true -> o.*1 ⊆ tags -> field dec k cur o = Some cur.
Proof.
  intros Ht. induction o as [|[k' v] o IH]; intros Ho; [done|]. cbn [field].
  assert (k' ∈ tags) as Hk by (apply Ho; cbn; left).
  apply list_elem_of_In, (proj1 (forallb_forall _ _) Ht) in Hk. apply negb_true_iff in Hk. rewrite Hk.
  apply IH. intros x Hx. apply Ho. cbn. by right.
Qed.

(** The memory of the class and the placement that a clone asks for never reach a
    Proxmox machine: the provider reads other keys than the manager writes. *)
Theorem clone_overrides_are_lost `{Text : JsonText} text fields :
  Unmarshal text = Some (JObj fields) ->
  (fields.*1 ⊆ class_tags -> (parseClassSizing text).2 = 0) /\
  (fields.*1 ⊆ reference_tags -> placement text = ("", "")).
Proof.
  intros Ht. unfold parseClassSizing, class_sizing, placement. destruct (is_empty text); [done|]. rewrite Ht.
  cbn [mbind option_bind into_struct]. split; intros Hk.
  - destruct (int32_field fields "CPU") as [cpu|]; [|done]. cbn [mbind option_bind].
    unfold int32_field, field_int. rewrite (field_absent _ _ _ _ class_tags) by done. done.
  - unfold field_string. rewrite !(field_absent _ _ _ _ reference_tags) by done. done.
Qed.

(** ** Concrete runs *)
Module DemoProxmox.
#[export] Instance demo_text : JsonText := {|
  Unmarshal s := if String.eqb s "desired"
                 then Some (JObj [("Disks", JArr [JObj [("Name", JStr "root"); ("SizeGiB", JNum (inject_Z 40))]])])
                 else if String.eqb s "networks" then Some (JArr [network_json (mkNetworkAttachment
                        "dmz" "" "" "" 7 "" "" "" "" 0 "" "" None)]) else None;
  Unmarshal_image _ := None;
  Marshal_raw _ := "{}"
|}.
#[export] Instance demo_unicode : UnicodeTable := {| unicode_ToLower r := r |}.
Import DemoStatus.

Definition demo_config : Config := mkConfig "https://pve:8006" "t" "s" "" "" false "" ["pve"] "" 0 0 0.
Definition demo_provider : Provider := mkProvider (Some demo_config) GetProviderCapabilities true.
Definition answer (data : json) : result http_answer string := Ok (mkHttpAnswer 200 "" (Ok (JObj [("data", data)]))).

(** An API with one stopped machine, 105, whose tasks end at once.  Commands on the
    node fail. *)
Definition demo_api (c : pcall) (w : unit) : panswer c * unit :=
  match c with
  | Http m p _ _ _ =>
      (if String.eqb m "GET" then
         if contains p "nextid" then answer (JStr "106")
         else if contains p "/tasks/" then answer (JObj [("status", JStr "stopped"); ("exitstatus", JStr "OK")])
         else if contains p "/qemu/105/status" then answer (JObj [("status", JStr "stopped"); ("name", JStr "web")])
         else if contains p "/qemu/105/config" then answer (JObj [("scsi0", JStr "local:vm-105-disk-0,size=32G")])
         else Ok (mkHttpAnswer 404 "" (Ok JNull))
       else answer (JStr "UPID:pve:1"), tt)
  | LoadNodes => ([], tt)
  | StoreNodes _ => (tt, tt)
  | AwaitTick _ _ => (TickFired, tt)
  | UnixNow => (0, tt)
  | RunSSH _ => (("", "no such file", Some "exit status 1"), tt)
  | RangeMap l => (l, tt)
  | Getenv _ => ("", tt)
  | ReadCredential _ => (None, tt)
  | NewSSHTransport _ => (true, tt)
  end.
Definition outcome_of {A} (p : PM A) : outcome A := (exec demo_api p tt).1.2.
Definition trace_of {A} (p : PM A) : list pevent := (exec demo_api p tt).1.1.
Definition request_web : wire_CreateRequest := mkWireCreate "web2" "" "" "" "" "" "" "" [].

Lemma deletion_is_confirmed_witness :
  exists c vmid node tr1 a tr2,
    trace_of (Delete 3 "" demo_provider "105") = tr1 ++ req_event c "DELETE" (delete_path node vmid) None (Ok a) :: tr2
    /\ refers "105" vmid /\ stopped_before "" c node vmid tr1.
Proof.
  destruct (deletion_is_confirmed 3 "" demo_provider "105" _ _ (exec_runs demo_api (Delete 3 "" demo_provider "105") tt))
    as (reply & Ho & H).
  destruct H as (c & vmid & node & tr1 & a & tr2 & Htr & _ & Href & Hst & _).
  - vm_compute in Ho. by injection Ho as <-.
  - exists c, vmid, node, tr1, a, tr2. done.
Defined.

Lemma reconfigure_never_shrinks_witness :
  exists tr1 tr2, trace_of (Reconfigure "" demo_provider "105" "desired") = tr1 ++ tr2 /\ Forall reads tr1 /\
  (tr2 = [] \/ exists c node vmid e, tr2 = [e] /\ refers "105" vmid /\ reconfigures "" c node vmid tr1 e).
Proof.
  exact (reconfigure_never_shrinks "" demo_provider "105" "desired" _ _
           (exec_runs demo_api (Reconfigure "" demo_provider "105" "desired") tt)).
Defined.

Lemma create_makes_one_machine_witness :
  (posts (trace_of (Create 3 "" demo_provider request_web)) <= 1)%nat /\
  exists c node vmid, "106" = FormatInt vmid /\
    ((exists r vm, req_event c "GET" (vm_path node vmid "/status/current") None r
                   ∈ trace_of (Create 3 "" demo_provider request_web)
        /\ read_VM "" node vmid r = Ok vm /\ pvm_Name vm = "web2")
     \/ exists vm, vc_VMID vm = vmid /\ vc_Name vm = "web2"
        /\ made c node vm (trace_of (Create 3 "" demo_provider request_web))).
Proof.
  destruct (create_makes_one_machine 3 "" demo_provider request_web _ _
              (exec_runs demo_api (Create 3 "" demo_provider request_web) tt)) as [Hp Hr].
  split; [exact Hp|]. destruct (Hr (mkWireTask "106" (Some "UPID:pve:1"))) as (c & node & vmid & _ & Hid & Hm).
  - vm_compute. reflexivity.
  - exists c, node, vmid. split; [exact Hid|exact Hm].
Defined.

(** Importing a disk fails, since commands on the node do. *)
Definition shell_vm : VMConfig := empty_VMConfig <| vc_VMID := 106 |> <| vc_Name := "web2" |>.
Definition import_run : PM (result wire_Task ProviderError) :=
  createFromImportedDisk 3 "" demo_provider demo_config request_web shell_vm "pve".

Lemma failed_import_is_rolled_back_witness :
  exists r, req_event demo_config "DELETE" (delete_path "pve" 106) None r ∈ trace_of import_run.
Proof.
  destruct (failed_import_is_rolled_back 3 "" demo_provider demo_config request_web shell_vm "pve" _ _
              (exec_runs demo_api import_run tt)) as (reply & Ho & H).
  apply H.
  - vm_compute in Ho. by injection Ho as <-.
  - assert (existsb (fun e => String.eqb (method_of e) "SSH") (trace_of import_run) = true) as Hs
      by (vm_compute; reflexivity).
    apply existsb_exists in Hs as (e & He & Hm). exists e. apply String.eqb_eq in Hm.
    split; [by apply list_elem_of_In|exact Hm].
Defined.

Lemma description_is_valid_witness :
  exists reply, outcome_of (Describe "" demo_provider "105") = Done (Ok reply)
    /\ w_Exists reply = true /\ w_PowerState reply ∈ ["On"; "Off"].
Proof.
  destruct (description_is_valid "" demo_provider "105" _ _
              (exec_runs demo_api (Describe "" demo_provider "105") tt)) as (_ & reply & Ho & H).
  destruct reply as [d|e]; [|vm_compute in Ho; discriminate Ho].
  exists d. split; [exact Ho|]. destruct (H d eq_refl) as [[Hx _]|(Hx & Hp & _)].
  - exfalso. vm_compute in Ho. injection Ho as <-. discriminate Hx.
  - split; assumption.
Defined.

Lemma network_settings_are_lost_witness :
  vc_Networks (with_networks "networks" empty_VMConfig) = [default_network 0].
Proof.
  refine (proj1 (network_settings_are_lost [mkNetworkAttachment "dmz" "" "" "" 7 "" "" "" "" 0 "" "" None]
                   "networks" empty_VMConfig _ _ _)); [discriminate|reflexivity|discriminate].
Defined.
End DemoProxmox.
