(* ===== verification/Virsh.v ===== *)
(** * Virsh: the libvirt provider's command line

    Models [internal/providers/libvirt/sshhostkey.go] and, of [virsh.go], the set-up of
    the connection with its host-key policy, the process that a command becomes,
    locally or over SSH, and the retry of connections that failed.  Running a process
    is a call; the parsing and printing of URLs is a parameter.  Log lines are left
    out, and the number of slots. *)
From stdpp Require Import base gmap strings list.
From Stdlib Require Import Ascii ZArith.
From S2P Require Import Prelude Contracts Effects GoLib Utf8 Json.
#[local] Open Scope Z_scope.

(** ** Strings *)
Definition lines (s : string) : list string := Split newline s.

(** [strings.Fields]. *)
Fixpoint fields_from (skip : nat) (word : string) (s : string) : list string :=
  let emit rest := if is_empty word then rest else word :: rest in
  match s with
  | EmptyString => emit []
  | String c s' =>
      match skip with
      | S k => fields_from k word s'
      | O =>
          match List.find (has_prefix s) space_encodings with
          | Some e => emit (fields_from (String.length e - 1) "" s')
          | None => fields_from 0 (word +:+ String c "") s'
          end
      end
  end.
Definition Fields (s : string) : list string := fields_from 0 "" s.

(** [strings.Index] and slices; [None] when there is no occurrence. *)
Definition Index (s sub : string) : option nat := String.index 0 sub s.
Definition from (n : nat) (s : string) : string := String.substring n (String.length s) s.
Definition slice (lo hi : nat) (s : string) : string := String.substring lo (hi - lo) s.

(** ** The connection *)
(** [%q] of package fmt. *)
Class FmtLibrary := { quote : string -> string }.

Record Credentials := mkCredentials { Username : string; Password : string; SSHPrivateKey : string }.
Record hostKeyPolicy := mkHostKeyPolicy { insecure : bool }.
(** [vp_env] is the environment of the processes, nil for the provider's own;
    [vp_execSem] says whether the number of processes is bounded. *)
Record VirshProvider := mkVirshProvider {
  vp_uri : string; vp_credentials : Credentials; vp_env : option (list string);
  vp_hostKey : hostKeyPolicy; vp_execSem : bool
}.
#[export] Instance VirshProvider_eta : Eta VirshProvider := fun r =>
  mkVirshProvider (vp_uri r) (vp_credentials r) (vp_env r) (vp_hostKey r) (vp_execSem r).

(** A parsed URL: the parts the provider reads and sets, and the others.  The user
    has a name and, perhaps, a password. *)
Record URL := mkURL {
  url_Scheme : string; url_User : option (string * option string); url_Host : string; url_Path : string;
  url_RawQuery : string; url_others : string
}.
#[export] Instance URL_eta : Eta URL := fun r =>
  mkURL (url_Scheme r) (url_User r) (url_Host r) (url_Path r) (url_RawQuery r) (url_others r).
Definition url_Username (u : URL) : string := match url_User u with Some (name, _) => name | None => "" end.

(** [url.Values]: every key has its values in order. *)
Abbreviation Query := (gmap string (list string)).
Class UrlLibrary := {
  url_Parse : string -> result URL string;
  url_String : URL -> string;
  ParseQuery : string -> Query;
  EncodeQuery : Query -> string
}.
Definition query_Get (q : Query) (k : string) : string :=
  match q !! k with Some (v :: _) => v | _ => "" end.
Definition query_Set (k v : string) (q : Query) : Query := <[k := [v]]> q.

Record VirshResult := mkVirshResult { vr_Command : string; vr_ExitCode : Z; vr_Stdout : string; vr_Stderr : string }.

(** A process that was run, with the error of running it. *)
Record process := mkProcess { p_ExitCode : Z; p_Stdout : string; p_Stderr : string; p_error : option string }.

Inductive vcall :=
  | AcquireSlot                       (* [Some] is the error of the context *)
  | ReleaseSlot
  | Exec (env : option (list string)) (argv : list string)
  | Backoff (d : duration)            (* [false] when the context is done first *)
  | Getenv (name : string)
  | Environ
  (* the provider's own file system *)
  | ReadFile (path : string)
  | FileSize (path : string)
  | MkdirAll (path : string) (mode : Z)
  | WriteFile (path content : string) (mode : Z)
  | Chmod (path : string) (mode : Z)
  | RemoveAll (path : string)
  | UnixNano
  | Now                               (* seconds, and the time in RFC 3339 *)
  | AwaitSecond                       (* [false] when the half minute is over first *)
  | RandomBytes (n : nat).
Definition vanswer (c : vcall) : Type :=
  match c with
  | AcquireSlot => option string
  | ReleaseSlot => unit
  | Exec _ _ => process
  | Backoff _ => bool
  | Getenv _ => string
  | Environ => list string
  | ReadFile _ => option string
  | FileSize _ => result Z string
  | MkdirAll _ _ | WriteFile _ _ _ | Chmod _ _ => option string
  | UnixNano => Z
  | Now => Z * string
  | RemoveAll _ => option string
  | AwaitSecond => bool
  | RandomBytes _ => option (list Z)
  end.
Abbreviation VM := (prog vcall vanswer).
Abbreviation vdo := (trigger (E := vcall) (R := vanswer)).

(** What [runVirshCommand] returns: a result, or an error with a result or nil. *)
Inductive ran := Ran (r : VirshResult) | Failed (r : option VirshResult) (e : goerror).

(** ** The host-key policy *)
Definition CredentialsPath : string := "/etc/virtrigaud/credentials".
Definition KnownHostsFile : string := CredentialsPath +:+ "/known_hosts".
Definition insecureKnownHostsFile : string := "/tmp/known_hosts".
Definition EnvInsecureSkipHostKeyVerification : string := "LIBVIRT_INSECURE_SKIP_HOST_KEY_VERIFICATION".
Definition EnvDisableSSHMultiplexing : string := "LIBVIRT_SSH_DISABLE_MULTIPLEXING".
Definition sshControlPath : string := "/tmp/virtrigaud-ssh-%C".
Definition sshControlPersist : string := "60s".
Definition sshPrivateKeyDir : string := "/tmp/virtrigaud-libvirt".
Definition sshPrivateKeyPath : string := sshPrivateKeyDir +:+ "/ssh-privatekey".

(** [strings.EqualFold(strings.TrimSpace(v), "true")]: outside ASCII nothing folds to
    one of these letters. *)
Definition is_true (v : string) : bool := String.eqb (map_chars lower_ascii (TrimSpace v)) "true".

Definition resolveHostKeyPolicy : VM hostKeyPolicy :=
  v ← vdo (Getenv EnvInsecureSkipHostKeyVerification); Ret (mkHostKeyPolicy (is_true v)).
Definition strictHostKeyChecking (p : hostKeyPolicy) : string := if insecure p then "accept-new" else "yes".
Definition knownHostsFile (p : hostKeyPolicy) : string :=
  if insecure p then insecureKnownHostsFile else KnownHostsFile.
Definition sshHostKeyOptions (p : hostKeyPolicy) : list string :=
  ["-o"; "StrictHostKeyChecking=" +:+ strictHostKeyChecking p; "-o"; "UserKnownHostsFile=" +:+ knownHostsFile p].
Definition sshMultiplexingEnabled : VM bool :=
  v ← vdo (Getenv EnvDisableSSHMultiplexing); Ret (negb (is_true v)).
Definition sshMultiplexOptions : VM (list string) :=
  on ← sshMultiplexingEnabled;
  Ret (if (on : bool) then ["-o"; "ControlMaster=auto"; "-o"; "ControlPath=" +:+ sshControlPath;
                   "-o"; "ControlPersist=" +:+ sshControlPersist]
       else []).
Definition sshConfigStanza (p : hostKeyPolicy) : VM string :=
  let stanza := ["Host *"; "    StrictHostKeyChecking " +:+ strictHostKeyChecking p;
                 "    PasswordAuthentication yes"; "    PubkeyAuthentication yes";
                 "    UserKnownHostsFile " +:+ knownHostsFile p; "    LogLevel ERROR"] in
  on ← sshMultiplexingEnabled;
  Ret (join_lines (stanza ++ (if (on : bool) then ["    ControlMaster auto"; "    ControlPath " +:+ sshControlPath;
                                          "    ControlPersist " +:+ sshControlPersist] else []) ++ [""])).
Definition applyURIHostKeyOptions (p : hostKeyPolicy) (q : Query) : Query :=
  if insecure p then query_Set "no_verify" "1" q else delete "no_verify" q.
Definition verifyKnownHostsPresent `{FmtLibrary} (p : hostKeyPolicy) (host : string) : VM (option goerror) :=
  if insecure p then Ret None
  else
    size ← vdo (FileSize KnownHostsFile);
    Ret (if match (size : result Z string) with Ok n => 0 <? n | Err _ => false end then None
         else Some (ENew (
           "libvirt SSH host-key verification is on (default) but no usable known_hosts was found at "
           +:+ KnownHostsFile +:+ " for host " +:+ quote host
           +:+ ". Seed it from a trusted bastion with `ssh-keyscan -H " +:+ host
           +:+ " >> known_hosts` and add it as the `known_hosts` key in the credentials Secret referenced by the Provider's credentialSecretRef, OR set "
           +:+ EnvInsecureSkipHostKeyVerification
           +:+ "=true to connect without verification (audit-flagged, NOT recommended for production)"))).

(** ** Running a command *)
Section Commands.
Context `{Url : UrlLibrary} `{Unicode : UnicodeTable} (v : VirshProvider).

Definition sshKeyAuthOptions (keyFile : string) : list string :=
  ["-i"; keyFile; "-o"; "IdentitiesOnly=yes"; "-o"; "PasswordAuthentication=no"; "-o"; "PubkeyAuthentication=yes"].
Definition resolveSSHKeyFile (u : URL) : string :=
  let kf := query_Get (ParseQuery (url_RawQuery u)) "keyfile" in
  if is_empty kf then sshPrivateKeyPath else kf.

Definition remoteVirshConnectURI (rawURI : string) : string :=
  match url_Parse rawURI with
  | Err _ => ""
  | Ok u =>
      let driver := match Cut "+" (url_Scheme u) with Some (d, _) => d | None => url_Scheme u end in
      let path := Trim is_slash (url_Path u) in
      if is_empty driver || is_empty path then "" else driver +:+ ":///" +:+ path
  end.

Definition over_ssh : bool := contains (vp_uri v) "ssh://".
Definition has_password : bool := negb (is_empty (Password (vp_credentials v))).
Definition has_key : bool := negb (is_empty (TrimSpace (SSHPrivateKey (vp_credentials v)))).

(** What the library panics on: the URL is used without a look at the error. *)
Definition with_url {A} (f : URL -> VM A) : VM A :=
  match url_Parse (vp_uri v) with
  | Ok u => f u
  | Err _ => Crash "nil pointer dereference"
  end.
Definition at_host (u : URL) : string := url_Username u +:+ "@" +:+ url_Host u.

(** An argument vector with the text that stands for it in messages. *)
Definition password_ssh (u : URL) (remote : list string) : VM (list string * string) :=
  mux ← sshMultiplexOptions;
  Ret (["sshpass"; "-e"; "ssh"; "-o"; "PasswordAuthentication=yes"; "-o"; "PubkeyAuthentication=no";
        "-o"; "LogLevel=ERROR"] ++ sshHostKeyOptions (vp_hostKey v) ++ mux ++ [at_host u] ++ remote,
       "sshpass -e ssh " +:+ at_host u +:+ " " +:+ String.concat " " remote).
Definition key_ssh (u : URL) (remote : list string) : VM (list string * string) :=
  let keyFile := resolveSSHKeyFile u in
  mux ← sshMultiplexOptions;
  Ret ("ssh" :: sshKeyAuthOptions keyFile ++ ["-o"; "LogLevel=ERROR"] ++ sshHostKeyOptions (vp_hostKey v)
         ++ mux ++ [at_host u] ++ remote,
       "ssh -i " +:+ keyFile +:+ " " +:+ at_host u +:+ " " +:+ String.concat " " remote).

(** A command of the host, written with a leading exclamation mark. *)
Definition direct_command (args : list string) : VM (list string * string) :=
  if over_ssh then
    with_url (fun u =>
      if has_password then password_ssh u args
      else if has_key then key_ssh u args
      else Ret (args, String.concat " " args))
  else Ret (args, String.concat " " args).

(** A command of [virsh]. *)
Definition virsh_command (args : list string) : VM (list string * string) :=
  if has_password && over_ssh then
    with_url (fun u =>
      let uri := remoteVirshConnectURI (vp_uri v) in
      password_ssh u ("virsh" :: (if is_empty uri then args else "-c" :: uri :: args)))
  else Ret ("virsh" :: args, "virsh " +:+ String.concat " " args).

Definition VirshError (r : VirshResult) : goerror :=
  ENew ("virsh command '" +:+ vr_Command r +:+ "' failed (exit code " +:+ FormatInt (vr_ExitCode r)
        +:+ "): stderr=" +:+ vr_Stderr r +:+ ", stdout=" +:+ vr_Stdout r).

Definition run_process (argv : list string) (command : string) : VM ran :=
  p ← vdo (Exec (vp_env v) argv);
  let r := mkVirshResult command (p_ExitCode p) (p_Stdout p) (p_Stderr p) in
  Ret (match p_error p with Some _ => Failed (Some r) (VirshError r) | None => Ran r end).

Definition acquireExecSlot : VM (option goerror) :=
  if vp_execSem v then e ← vdo AcquireSlot; Ret (option_map ENew (e : option string)) else Ret None.
Definition release : VM unit := if vp_execSem v then vdo ReleaseSlot else Ret tt.

Definition execute (args : list string) : VM ran :=
  match args with
  | "!" :: [] => Ret (Failed None (ENew "no command specified after '!' prefix"))
  | "!" :: direct => c ← direct_command direct; run_process c.1 c.2
  | _ => c ← virsh_command args; run_process c.1 c.2
  end.
Definition runVirshCommandOnce (args : list string) : VM ran :=
  slot ← acquireExecSlot;
  match slot with
  | Some e => Ret (Failed None e)
  | None => r ← execute args; _ ← release; Ret r
  end.

(** *** Retries *)
Definition transient_markers : list string :=
  ["kex_exchange_identification"; "connection closed by remote host"; "connection reset by peer";
   "connection refused"; "connection timed out"; "no route to host"; "ssh: connect to host";
   "temporary failure in name resolution"].
Definition transientSSHConnectError (stderr : string) : bool :=
  existsb (contains (ToLower stderr)) transient_markers.

Definition sshConnectMaxAttempts : nat := 3.
Definition sshConnectBaseBackoff : duration := second.
Definition stderr_of (r : option VirshResult) : string :=
  match r with Some r => vr_Stderr r | None => "" end.

Fixpoint retry_from (left : nat) (backoff : duration) (attempt : VM ran) : VM ran :=
  r ← attempt;
  match r with
  | Ran _ => Ret r
  | Failed res e =>
      match left with
      | O => Ret r
      | S left' =>
          if transientSSHConnectError (stderr_of res) then
            go ← vdo (Backoff backoff);
            if (go : bool) then retry_from left' (2 * backoff) attempt else Ret r
          else Ret r
      end
  end.
Definition retryOnTransientSSH (attempt : VM ran) : VM ran :=
  retry_from (sshConnectMaxAttempts - 1) sshConnectBaseBackoff attempt.

Definition runVirshCommand (args : list string) : VM ran := retryOnTransientSSH (runVirshCommandOnce args).
Definition runRemoteVirshCommand (args : list string) : VM ran :=
  let uri := remoteVirshConnectURI (vp_uri v) in
  runVirshCommand ("!" :: "virsh" :: (if is_empty uri then [] else ["-c"; uri]) ++ args).

(** The text of the standard output, or the error. *)
Definition output (args : list string) : VM (res string) :=
  r ← runVirshCommand args;
  Ret (match r with Ran r => Ok (vr_Stdout r) | Failed _ e => Err e end).
(** A command whose failure is only logged. *)
Definition attempt (args : list string) : VM unit := _ ← runVirshCommand args; Ret tt.
(** A command whose error is returned with a prefix. *)
Definition perform (what : string) (args : list string) : VM (option goerror) :=
  r ← output args;
  Ret (match r with Ok _ => None | Err e => Some (EWrap what e) end).
(** The same, with the standard error in the message: a nil result is dereferenced. *)
Definition perform_verbose (what : string) (run : VM ran) : VM (option goerror) :=
  r ← run;
  match r with
  | Ran _ => Ret None
  | Failed (Some r) e => Ret (Some (ENew (what +:+ ": " +:+ Error e +:+ ", output: " +:+ vr_Stderr r)))
  | Failed None _ => Crash "nil pointer dereference"
  end.

End Commands.

(** ** Setting the connection up *)
Section Setup.
Context `{Url : UrlLibrary} `{Unicode : UnicodeTable} `{Fmt : FmtLibrary}.

Definition credential_file (name : string) : string := CredentialsPath +:+ "/" +:+ name.
(** The value of a variable, or what stands in a mounted file. *)
Definition or_file (value name : string) : VM string :=
  if is_empty value then
    data ← vdo (ReadFile (credential_file name));
    Ret (match (data : option string) with Some d => TrimSpace d | None => value end)
  else Ret value.
Definition loadCredentialsFromEnv : VM (Credentials * option goerror) :=
  username ← vdo (Getenv "LIBVIRT_USERNAME");
  password ← vdo (Getenv "LIBVIRT_PASSWORD");
  key ← vdo (Getenv "LIBVIRT_SSH_PRIVATE_KEY");
  username ← or_file username "username";
  password ← or_file password "password";
  key ← or_file key "ssh-privatekey";
  Ret (mkCredentials username password key,
       if is_empty username && is_empty password && is_empty key
       then Some (ENew "no valid credentials found in environment variables or mounted files") else None).

Definition os_error (what : string) (e : option string) : option goerror :=
  option_map (fun m => EWrap what (ENew m)) e.
Definition writeSSHPrivateKey (c : Credentials) : VM (option goerror) :=
  e ← vdo (MkdirAll sshPrivateKeyDir 448);
  match os_error "failed to create SSH private key directory" e with
  | Some e => Ret (Some e)
  | None =>
      e ← vdo (WriteFile sshPrivateKeyPath (TrimSpace (SSHPrivateKey c) +:+ String newline "") 384);
      match os_error "failed to write SSH private key" e with
      | Some e => Ret (Some e)
      | None => e ← vdo (Chmod sshPrivateKeyPath 384); Ret (os_error "failed to chmod SSH private key" e)
      end
  end.

(** The directories that are tried for the configuration of SSH, with the home that
    goes with them; what is added to the environment. *)
Fixpoint write_config (config : string) (lastErr : string) (l : list (string * string))
    : VM (res (list string)) :=
  match l with
  | [] => Ret (Err (EWrap "failed to create writable SSH config" (ENew lastErr)))
  | (dir, home) :: rest =>
      e ← vdo (MkdirAll dir 448);
      match (e : option string) with
      | Some m => write_config config m rest
      | None =>
          e ← vdo (WriteFile (dir +:+ "/config") config 384);
          match (e : option string) with
          | Some m => write_config config m rest
          | None => Ret (Ok (if is_empty home then [] else ["HOME=" +:+ home]))
          end
      end
  end.
Definition createSSHConfig (p : hostKeyPolicy) : VM (res (list string)) :=
  config ← sshConfigStanza p;
  write_config config "" [("/home/app/.ssh", ""); ("/tmp/.ssh", "/tmp")].

Definition key_given (c : Credentials) : bool := negb (is_empty (TrimSpace (SSHPrivateKey c))).
Definition with_user (c : Credentials) (u : URL) : URL :=
  match url_User u with
  | None => if is_empty (Username c) then u else u <| url_User := Some (Username c, None) |>
  | Some _ => u
  end.
(** The URL of an SSH connection, once its files are there. *)
Definition ssh_url (p : hostKeyPolicy) (c : Credentials) (u : URL) : VM (res URL) :=
  let query := query_Set "no_tty" "1" (applyURIHostKeyOptions p (ParseQuery (url_RawQuery u))) in
  e ← (if key_given c then writeSSHPrivateKey c else Ret None);
  match e with
  | Some e => Ret (Err (EWrap "failed to write SSH private key for libvirt transport" e))
  | None =>
      let query := if key_given c
                   then query_Set "sshauth" "privkey" (query_Set "keyfile" sshPrivateKeyPath query) else query in
      e ← verifyKnownHostsPresent p (url_Host u);
      Ret (match e with
           | Some e => Err (EWrap "libvirt SSH host-key verification pre-flight failed" e)
           | None => Ok (u <| url_RawQuery := EncodeQuery query |>)
           end)
  end.

Definition password_env (c : Credentials) : list string :=
  if is_empty (Password c) then [] else ["SSHPASS=" +:+ Password c; "SSH_ASKPASS_REQUIRE=never"].
(** The address and the environment are set once the URL is complete. *)
Definition connect (v : VirshProvider) (ssh : bool) (u : URL) : VM (VirshProvider * option goerror) :=
  let c := vp_credentials v in
  env ← vdo Environ;
  let env := env ++ ["LIBVIRT_DEFAULT_URI=" +:+ url_String u] in
  let v := v <| vp_uri := url_String u |> <| vp_env := Some env |> in
  config ← (if ssh then createSSHConfig (vp_hostKey v) else Ret (Ok []));
  match config with
  | Err e =>
      if key_given c
      then Ret (v, Some (EWrap "failed to create SSH config for key-based libvirt transport" e))
      else Ret (v <| vp_env := Some (env ++ password_env c) |>, None)
  | Ok more => Ret (v <| vp_env := Some (env ++ more ++ password_env c) |>, None)
  end.
Definition setupConnection (endpoint : string) (v : VirshProvider) : VM (VirshProvider * option goerror) :=
  policy ← resolveHostKeyPolicy;
  let v := v <| vp_hostKey := policy |> in
  let c := vp_credentials v in
  match url_Parse (if is_empty endpoint then "qemu:///system" else endpoint) with
  | Err e => Ret (v, Some (EWrap "failed to parse URI" (ENew e)))
  | Ok u =>
      if contains (url_Scheme u) "ssh" then
        r ← ssh_url policy c (with_user c u);
        match r with
        | Err e => Ret (v, Some e)
        | Ok u => connect v true u
        end
      else connect v false u
  end.

Definition testConnection (v : VirshProvider) : VM (option goerror) :=
  r ← output v ["version"];
  match r with
  | Err e => Ret (Some (EWrap "failed to connect" e))
  | Ok _ => perform v "connection established but domain listing failed" ["list"; "--all"; "--name"]
  end.

(** The provider as it stands afterwards, with the error of the set-up. *)
Definition Initialize (endpoint : string) (v : VirshProvider) : VM (VirshProvider * option goerror) :=
  loaded ← loadCredentialsFromEnv;
  let '(c, e) := loaded in
  let v := v <| vp_credentials := c |> in
  match e with
  | Some e => Ret (v, Some (EWrap "failed to load credentials" e))
  | None =>
      r ← setupConnection endpoint v;
      let '(v, e) := r in
      match e with
      | Some e => Ret (v, Some (EWrap "failed to setup connection" e))
      | None => e ← testConnection v; Ret (v, option_map (EWrap "failed to connect to libvirt") e)
      end
  end.

(** A provider that could not be initialized is kept. *)
Definition NewVirshProvider : VirshProvider :=
  mkVirshProvider "" (mkCredentials "" "" "") None (mkHostKeyPolicy false) true.
Definition New : VM VirshProvider :=
  endpoint ← vdo (Getenv "PROVIDER_ENDPOINT");
  r ← Initialize endpoint NewVirshProvider;
  Ret r.1.
End Setup.
