(* ===== verification/LibvirtDomains.v ===== *)
(** * LibvirtDomains: domains and what is read from their listings

    Models the domains, their monitoring and the snapshot listings of
    [internal/providers/libvirt/virsh.go] over the commands of [Virsh]. *)
From stdpp Require Import base gmap strings list.
From Stdlib Require Import Ascii ZArith.
From S2P Require Import Prelude Contracts Effects GoLib Utf8 Json Virsh.
#[local] Open Scope Z_scope.

Record VirshDomain := mkVirshDomain { dom_ID : string; dom_Name : string; dom_State : string }.

(** A map of the texts before and after the first colon of each line. *)
Definition colon_entry (prefix line : string) : option (string * string) :=
  '(k, v) ← Cut ":" line; Some (prefix +:+ TrimSpace k, TrimSpace v).
Definition info_of (entries : list (string * string)) : gmap string string :=
  foldl (fun m e => <[e.1 := e.2]> m) ∅ entries.

Section Domains.
Context `{Url : UrlLibrary} `{Unicode : UnicodeTable} (v : VirshProvider).

(** ** Domains *)
Definition colSlice (line : string) (lo hi : nat) : string :=
  if (String.length line <? lo)%nat then "" else slice lo (Nat.min hi (String.length line)) line.

Fixpoint domain_rows (nameAt stateAt : nat) (count : Z) (rows : list string) : list VirshDomain :=
  match rows with
  | [] => []
  | line :: rest =>
      let name := TrimSpace (colSlice line nameAt stateAt) in
      if is_empty (TrimSpace line) || is_empty name then domain_rows nameAt stateAt count rest
      else mkVirshDomain (FormatInt count) name (TrimSpace (colSlice line stateAt (String.length line)))
             :: domain_rows nameAt stateAt (count + 1) rest
  end.

(** The header is the line above the first separator. *)
Fixpoint split_table (above : option string) (ls : list string) : option (string * list string) :=
  match ls with
  | [] => None
  | line :: rest =>
      if has_prefix (TrimSpace line) "---" then header ← above; Some (header, rest)
      else split_table (Some line) rest
  end.
Definition parseDomainListTable (stdout : string) : list VirshDomain :=
  match split_table None (lines stdout) with
  | None => []
  | Some (header, rows) =>
      match Index header "Name", Index header "State" with
      | Some nameAt, Some stateAt =>
          if (stateAt <=? nameAt)%nat then [] else domain_rows nameAt stateAt 0 rows
      | _, _ => []
      end
  end.
Definition listDomains : VM (res (list VirshDomain)) :=
  r ← output v ["list"; "--all"];
  Ret (match r with Ok out => Ok (parseDomainListTable out) | Err e => Err (EWrap "failed to list domains" e) end).

Definition startDomain (name : string) : VM (option goerror) :=
  perform v ("failed to start domain " +:+ name) ["start"; name].
Definition stopDomain (name : string) : VM (option goerror) :=
  perform v ("failed to stop domain " +:+ name) ["destroy"; name].
Definition shutdownDomain (name : string) : VM (option goerror) :=
  perform v ("failed to shutdown domain " +:+ name) ["shutdown"; name].
Definition destroyDomain (name : string) : VM (option goerror) :=
  perform v ("failed to destroy domain " +:+ name) ["destroy"; name].
Definition undefineDomain (name : string) : VM (option goerror) :=
  perform v ("failed to undefine domain " +:+ name) ["undefine"; name].

Definition getDomainState (name : string) : VM (res string) :=
  r ← output v ["domstate"; name];
  Ret (match r with Ok out => Ok (TrimSpace out) | Err e => Err (EWrap "failed to get domain state" e) end).

(** *** Monitoring *)
(** The lines of a listing with two words or more. *)
Definition word_entry (prefix line : string) : option (string * string) :=
  match Fields line with
  | k :: v :: _ => Some (prefix +:+ k, v)
  | _ => None
  end.
Definition getDomainMemoryStats (name : string) : VM (res (gmap string string)) :=
  r ← output v ["dommemstat"; name];
  Ret (match r with
       | Ok out => Ok (info_of (omap (word_entry "memory_") (lines (TrimSpace out))))
       | Err e => Err e
       end).
Definition getDomainCPUStats (name : string) : VM (res (gmap string string)) :=
  r ← output v ["cpu-stats"; name];
  Ret (match r with
       | Ok out => Ok (info_of (omap (colon_entry "cpu_") (lines (TrimSpace out))))
       | Err e => Err e
       end).

(** The first words of the rows below the header. *)
Definition row_words (out : string) : list (list string) :=
  Fields <$> List.filter (fun l => negb (has_prefix l "-")) (tail (lines (TrimSpace out))).
Definition first_words (out : string) : list string := omap head (row_words out).

Definition without_prefix_length (ip : string) : string :=
  match Split "/" ip with a :: _ => a | [] => ip end.
Definition usable_address (words : list string) : option string :=
  match words with
  | interface :: _ :: _ :: ip :: _ =>
      if String.eqb interface "lo" || String.eqb interface "-" || String.eqb ip "N/A" || String.eqb ip "-" then None
      else
        let ip := without_prefix_length ip in
        if String.eqb ip "127.0.0.1" || String.eqb ip "::1" || has_prefix ip "fe80:" then None
        else if has_prefix interface "e" then Some ip else None
  | _ => None
  end.
Fixpoint addresses_from (name : string) (sources : list (list string)) : VM (list string) :=
  match sources with
  | [] => Ret []
  | source :: rest =>
      r ← output v ("domifaddr" :: name :: source);
      match r with
      | Err _ => addresses_from name rest
      | Ok out =>
          match omap usable_address (row_words out) with
          | [] => addresses_from name rest
          | ips => Ret ips
          end
      end
  end.
Definition getDomainIPAddresses (name : string) : VM string :=
  ips ← addresses_from name [["--source"; "agent"]; []; ["--source"; "arp"]];
  Ret (String.concat "," ips).
Definition getDomainNetworkInfo (name : string) : VM (res (gmap string string)) :=
  r ← output v ["domiflist"; name];
  match r with
  | Err e => Ret (Err e)
  | Ok out =>
      ips ← getDomainIPAddresses name;
      Ret (Ok (<["guest_ip_addresses" := ips]> {["network_interfaces" := String.concat "," (first_words out)]}))
  end.

Definition getBlockDeviceStats (name device : string) : VM (res (gmap string string)) :=
  r ← output v ["domblkstat"; name; device];
  Ret (match r with
       | Ok out => Ok (info_of (omap (word_entry "block_") (lines (TrimSpace out))))
       | Err e => Err e
       end).
(** The entries of a result on top of others; an error leaves them. *)
Definition enrich (info : gmap string string) (r : res (gmap string string)) : gmap string string :=
  match r with Ok more => more ∪ info | Err _ => info end.
Definition getDomainBlockStats (name : string) : VM (res (gmap string string)) :=
  r ← output v ["domblklist"; name];
  match r with
  | Err e => Ret (Err e)
  | Ok out =>
      let devices := first_words out in
      let info : gmap string string := {["block_devices" := String.concat "," devices]} in
      match devices with
      | [] => Ret (Ok info)
      | device :: _ => stats ← getBlockDeviceStats name device; Ret (Ok (enrich info stats))
      end
  end.
Definition getDomainGuestInfo (name : string) : VM (gmap string string) :=
  os ← output v ["guestinfo"; name; "--os"];
  let info := match os with
              | Ok out => info_of (omap (colon_entry "guest_") (lines (TrimSpace out)))
              | Err _ => ∅
              end in
  host ← output v ["guestinfo"; name; "--hostname"];
  Ret (match host with
       | Ok out => if is_empty (TrimSpace out) then info else <["guest_hostname" := TrimSpace out]> info
       | Err _ => info
       end).
Definition enrichDomainInfo (name : string) (info : gmap string string) : VM (gmap string string) :=
  mem ← getDomainMemoryStats name;
  cpu ← getDomainCPUStats name;
  net ← getDomainNetworkInfo name;
  blk ← getDomainBlockStats name;
  guest ← getDomainGuestInfo name;
  Ret (guest ∪ enrich (enrich (enrich (enrich info mem) cpu) net) blk).
Definition getDomainInfo (name : string) : VM (res (gmap string string)) :=
  r ← output v ["dominfo"; name];
  match r with
  | Err e => Ret (Err (EWrap ("failed to get domain info for " +:+ name) e))
  | Ok out =>
      info ← enrichDomainInfo name (info_of (omap (colon_entry "") (lines out)));
      Ret (Ok info)
  end.

(** *** Snapshots *)
Definition snapshot_names (out : string) : list string := TrimSpace <$> lines (TrimSpace out).
Definition no_snapshots (e : goerror) : bool := contains (Error e) "no domain snapshot".
Definition snapshotExists (name snapshot : string) : VM (res bool) :=
  r ← output v ["snapshot-list"; name; "--name"];
  Ret (match r with
       | Err e => if no_snapshots e then Ok false else Err (EWrap "failed to list snapshots" e)
       | Ok out => Ok (bool_decide (snapshot ∈ snapshot_names out))
       end).
Definition listSnapshots (name : string) : VM (res (list string)) :=
  r ← output v ["snapshot-list"; name; "--name"];
  Ret (match r with
       | Err e => if no_snapshots e then Ok [] else Err (EWrap "failed to list snapshots" e)
       | Ok out => Ok (List.filter (fun s => negb (is_empty s)) (snapshot_names out))
       end).
End Domains.
