(* ===== verification/GuestAgent.v ===== *)
(** * GuestAgent: questions to the agent inside a guest

    Models [internal/providers/libvirt/guest_agent.go].  A command that runs in the
    guest is polled for half a minute: [ticks] bounds the polls, after which the half
    minute is over. *)
From stdpp Require Import base gmap strings list.
From Stdlib Require Import Ascii ZArith QArith.
From S2P Require Import Prelude Contracts Effects GoLib Utf8 Json Virsh.
#[local] Open Scope Z_scope.

Record NetworkStats := mkNetworkStats { RxBytes : Z; RxPackets : Z; TxBytes : Z; TxPackets : Z }.
Record GuestNetworkInterface := mkGuestNetworkInterface {
  gif_Name : string; gif_HardwareAddr : string; gif_IPAddresses : list string; gif_Statistics : NetworkStats
}.
Record GuestFilesystem := mkGuestFilesystem {
  gfs_Name : string; gfs_Mountpoint : string; gfs_Type : string;
  gfs_TotalBytes : Z; gfs_UsedBytes : Z; gfs_FreeBytes : Z
}.
Record GuestUser := mkGuestUser { gu_User : string; gu_Domain : string; gu_LoginTime : Z }.
(** The time is in nanoseconds; [None] is the zero time. *)
Record GuestAgentInfo := mkGuestAgentInfo {
  OSName : string; OSVersion : string; OSKernelRelease : string; OSKernelVersion : string;
  OSMachine : string; OSPrettyName : string; NetworkInterfaces : list GuestNetworkInterface;
  Filesystems : list GuestFilesystem; AgentVersion : string; AgentStatus : string;
  GuestTime : option Z; Users : list GuestUser
}.
#[export] Instance GuestAgentInfo_eta : Eta GuestAgentInfo := fun r =>
  mkGuestAgentInfo (OSName r) (OSVersion r) (OSKernelRelease r) (OSKernelVersion r) (OSMachine r)
    (OSPrettyName r) (NetworkInterfaces r) (Filesystems r) (AgentVersion r) (AgentStatus r)
    (GuestTime r) (Users r).

(** ** Answers *)
Definition uint64_sub (a b : Z) : Z := (a - b) mod 2 ^ 64.

Definition decode_os (o : list (string * json)) : option (GuestAgentInfo -> GuestAgentInfo) :=
  name ← field_string o "name"; release ← field_string o "kernel-release"; version ← field_string o "version";
  pretty ← field_string o "pretty-name"; _ ← field_string o "version-id"; kernel ← field_string o "kernel-version";
  machine ← field_string o "machine"; _ ← field_string o "id";
  Some (fun i => i <| OSName := name |> <| OSVersion := version |> <| OSKernelRelease := release |>
                   <| OSKernelVersion := kernel |> <| OSMachine := machine |> <| OSPrettyName := pretty |>).
Definition decode_stats (o : list (string * json)) : option NetworkStats :=
  rb ← field_uint64 o "rx-bytes"; rp ← field_uint64 o "rx-packets";
  tb ← field_uint64 o "tx-bytes"; tp ← field_uint64 o "tx-packets";
  Some (mkNetworkStats rb rp tb tp).
Definition decode_ip : json -> option string :=
  into_struct (fun o =>
    ip ← field_string o "ip-address"; _ ← field_string o "ip-address-type"; _ ← field_int o "prefix"; Some ip).
Definition decode_guest_interface : json -> option GuestNetworkInterface :=
  into_struct (fun o =>
    name ← field_string o "name"; mac ← field_string o "hardware-address";
    ips ← field_list decode_ip o "ip-addresses";
    stats ← field_struct decode_stats o "statistics";
    Some (mkGuestNetworkInterface name mac ips stats)).
Definition decode_filesystem : json -> option GuestFilesystem :=
  into_struct (fun o =>
    name ← field_string o "name"; mount ← field_string o "mountpoint"; type ← field_string o "type";
    total ← field_uint64 o "total-bytes"; used ← field_uint64 o "used-bytes";
    Some (mkGuestFilesystem name mount type total used (uint64_sub total used))).
Definition decode_user : json -> option GuestUser :=
  into_struct (fun o =>
    user ← field_string o "user"; domain ← field_string o "domain"; login ← field_float o "login-time";
    Some (mkGuestUser user domain (truncate login))).

(** The field [return] of a response. *)
Definition returned {A} (dec : list (string * json) -> option A) (v : json) : option A := into_struct dec v.
Definition returned_list {A} (dec : json -> option A) : json -> option (list A) :=
  returned (fun o => field_list dec o "return").

Section Agent.
Context `{Url : UrlLibrary} `{Unicode : UnicodeTable} `{Json : JsonLibrary}.
Context (v : VirshProvider) (ticks : nat).

(** The answer of the agent, read as JSON in a here-document. *)
Definition dquote : string := String (ascii_of_nat 34) "".
Definition agent_command (name request : string) : list string :=
  ["!"; "bash"; "-c";
   "virsh qemu-agent-command " +:+ name +:+ " " +:+ dquote +:+ "$(cat <<'EOF'" +:+ String newline request
   +:+ String newline "EOF" +:+ String newline ")" +:+ dquote].
Definition member (k val : string) : string := dquote +:+ k +:+ dquote +:+ ":" +:+ val.
Definition text (s : string) : string := dquote +:+ s +:+ dquote.
Definition request (what : string) : string := "{" +:+ member "execute" (text what) +:+ "}".
Definition ask {A} (name what : string) (dec : json -> option A) : VM (option A) :=
  r ← output v (agent_command name (request what));
  Ret (match r with Ok out => j ← json_Unmarshal out; dec j | Err _ => None end).

Definition isGuestAgentAvailable (name : string) : VM bool :=
  r ← output v (agent_command name (request "guest-ping"));
  Ret (match r with Ok out => contains out "return" | Err _ => false end).

Definition getGuestOSInfo (name : string) : VM (option (GuestAgentInfo -> GuestAgentInfo)) :=
  ask name "guest-get-osinfo" (returned (fun o => field_struct decode_os o "return")).
Definition getGuestNetworkInfo (name : string) : VM (option (list GuestNetworkInterface)) :=
  ask name "guest-network-get-interfaces" (returned_list decode_guest_interface).
Definition getGuestFilesystemInfo (name : string) : VM (option (list GuestFilesystem)) :=
  ask name "guest-get-fsinfo" (returned_list decode_filesystem).
Definition getGuestTime (name : string) : VM (option Z) :=
  ask name "guest-get-time" (returned (fun o => field_int o "return")).
Definition getGuestUsers (name : string) : VM (option (list GuestUser)) :=
  ask name "guest-get-users" (returned_list decode_user).

Definition no_info (status : string) : GuestAgentInfo :=
  mkGuestAgentInfo "" "" "" "" "" "" [] [] "" status None [].
Definition GetGuestInfo (name : string) : VM GuestAgentInfo :=
  up ← isGuestAgentAvailable name;
  if negb up then Ret (no_info "not_available")
  else
    os ← getGuestOSInfo name;
    nets ← getGuestNetworkInfo name;
    fss ← getGuestFilesystemInfo name;
    time ← getGuestTime name;
    users ← getGuestUsers name;
    let info := default id os (no_info "available") in
    Ret (info <| NetworkInterfaces := default [] nets |> <| Filesystems := default [] fss |>
              <| GuestTime := time |> <| Users := default [] users |>).

(** ** Commands in the guest *)
Fixpoint escape_dquotes (s : string) : string :=
  match s with
  | EmptyString => EmptyString
  | String c s' => if Ascii.eqb c (ascii_of_nat 34) then "\" +:+ String c (escape_dquotes s') else String c (escape_dquotes s')
  end.
Definition exec_request (command : string) : string :=
  "{" +:+ member "execute" (text "guest-exec") +:+ "," +:+ member "arguments"
    ("{" +:+ member "path" (text "/bin/sh") +:+ "," +:+ member "arg" ("[" +:+ text "-c" +:+ "," +:+ text (escape_dquotes command) +:+ "]")
     +:+ "," +:+ member "capture-output" "true" +:+ "}") +:+ "}".
Definition status_request (pid : Z) : string :=
  "{" +:+ member "execute" (text "guest-exec-status") +:+ "," +:+ member "arguments"
    ("{" +:+ member "pid" (FormatInt pid) +:+ "}") +:+ "}".

Definition decode_pid : json -> option Z :=
  returned (fun o => field_struct (fun r => field_int r "pid") o "return").
(** Exited, exit code, output, error output. *)
Definition decode_status : json -> option (bool * Z * string * string) :=
  returned (fun o => field_struct (fun r =>
    exited ← field_bool r "exited"; code ← field_int r "exitcode"; out ← field_string r "out-data";
    err ← field_string r "err-data"; Some (exited, code, out, err)) o "return").

Fixpoint await_command (polls : nat) (name : string) (pid : Z) : VM (res string) :=
  match polls with
  | O => Ret (Err (ENew "command execution timeout"))
  | S n =>
      tick ← vdo AwaitSecond;
      if negb tick then Ret (Err (ENew "command execution timeout"))
      else
        r ← output v (agent_command name (status_request pid));
        match r with
        | Err _ => await_command n name pid
        | Ok out =>
            match (j ← json_Unmarshal out; decode_status j) with
            | Some (true, code, out, err) =>
                Ret (if code =? 0 then Ok out
                     else Err (ENew ("command failed with exit code " +:+ FormatInt code +:+ ": " +:+ err)))
            | _ => await_command n name pid
            end
        end
  end.
Definition ExecuteGuestCommand (name command : string) : VM (res string) :=
  up ← isGuestAgentAvailable name;
  if negb up then Ret (Err (ENew ("guest agent not available for domain: " +:+ name)))
  else
    r ← output v (agent_command name (exec_request command));
    match r with
    | Err e => Ret (Err (EWrap "failed to execute guest command" e))
    | Ok out =>
        match (j ← json_Unmarshal out; decode_pid j) with
        | None => Ret (Err (EWrap "failed to parse exec response" (ENew (json_problem out))))
        | Some pid => await_command ticks name pid
        end
    end.
Definition SetGuestTime (name : string) : VM (option goerror) :=
  up ← isGuestAgentAvailable name;
  if negb up then Ret (Some (ENew ("guest agent not available for domain: " +:+ name)))
  else perform v "failed to set guest time" (agent_command name (request "guest-set-time")).
End Agent.
