(* ===== verification/LibvirtStorage.v ===== *)
(** * LibvirtStorage: pools, volumes and cloud-init on a libvirt host

    Models [internal/providers/libvirt/storage.go] and [cloudinit.go].  The printing of a
    number with decimals is a parameter. *)
From stdpp Require Import base gmap strings list.
From Stdlib Require Import Ascii ZArith.
From S2P Require Import Prelude Contracts Effects GoLib Utf8 Json Virsh.
#[local] Open Scope Z_scope.

Record StoragePool := mkStoragePool {
  pool_Name : string; pool_UUID : string; pool_State : string; pool_Autostart : string;
  pool_Capacity : string; pool_Available : string; pool_Used : string; pool_Path : string
}.
#[export] Instance StoragePool_eta : Eta StoragePool := fun r =>
  mkStoragePool (pool_Name r) (pool_UUID r) (pool_State r) (pool_Autostart r) (pool_Capacity r)
    (pool_Available r) (pool_Used r) (pool_Path r).
Record StorageVolume := mkStorageVolume {
  vol_Name : string; vol_Pool : string; vol_Path : string; vol_Type : string;
  vol_Capacity : string; vol_Allocation : string; vol_Format : string
}.
#[export] Instance StorageVolume_eta : Eta StorageVolume := fun r =>
  mkStorageVolume (vol_Name r) (vol_Pool r) (vol_Path r) (vol_Type r) (vol_Capacity r)
    (vol_Allocation r) (vol_Format r).
Record ImageTemplate := mkImageTemplate { tpl_Name : string; tpl_URL : string }.
Record CloudInitConfig := mkCloudInitConfig {
  ci_UserData : string; ci_MetaData : string; ci_InstanceID : string; ci_Hostname : string
}.

(** A number of bytes in GiB with two decimals. *)
Class SizeFormat := { format_GiB : Z -> string }.

(** A script that writes a file on the host: the marker ends the text. *)
Definition here_document (path marker text : string) : string :=
  "cat > '" +:+ path +:+ "' << '" +:+ marker +:+ "'" +:+ String newline text +:+ String newline marker.
Definition script (command : string) : list string := ["!"; "bash"; "-c"; command].

(** A command that can fail stops the rest. *)
Abbreviation VE := (VM (option goerror)).
Definition then_ {A} (p : VE) (what : string) (k : VM (res A)) : VM (res A) :=
  e ← p;
  match e with
  | Some e => Ret (Err (EWrap what e))
  | None => k
  end.

Section Storage.
Context `{Url : UrlLibrary} `{Unicode : UnicodeTable} `{Json : JsonLibrary} `{Size : SizeFormat}.
Context (v : VirshProvider).

Definition images : string := "/var/lib/libvirt/images".

(** ** Pools *)
Definition ensurePoolActive (pool : string) : VE :=
  r ← output v ["pool-info"; pool];
  match r with
  | Err e => Ret (Some (EWrap "failed to get pool info" e))
  | Ok out =>
      if negb (contains out "State:") || negb (contains out "running")
      then perform v "failed to start storage pool" ["pool-start"; pool]
      else Ret None
  end.

Definition pool_xml : string :=
  join_lines ["<pool type='dir'>"; "  <name>default</name>"; "  <target>"; "    <path>" +:+ images +:+ "</path>";
           "    <permissions>"; "      <mode>0755</mode>"; "      <owner>0</owner>"; "      <group>0</group>";
           "    </permissions>"; "  </target>"; "</pool>"].
Definition createDefaultStoragePool : VE :=
  e ← perform v "failed to create pool directory" ["!"; "mkdir"; "-p"; images];
  match e with
  | Some e => Ret (Some e)
  | None =>
      now ← vdo UnixNano;
      e ← perform v "failed to write pool XML"
            (script (here_document "/tmp/default-pool.xml" ("EOF_POOL_" +:+ FormatInt now) pool_xml));
      match e with
      | Some e => Ret (Some e)
      | None =>
          r ← runRemoteVirshCommand v ["pool-define"; "/tmp/default-pool.xml"];
          match r with
          | Failed _ e => Ret (Some (EWrap "failed to define storage pool" e))
          | Ran _ =>
              _ ← attempt v ["!"; "rm"; "-f"; "/tmp/default-pool.xml"];
              _ ← attempt v ["pool-build"; "default"];
              _ ← attempt v ["pool-autostart"; "default"];
              Ret None
          end
      end
  end.

(** Whether the pool there is can stay; one with another path is removed. *)
Definition keep_default_pool (listing : string) : VM bool :=
  if contains listing "default" then
    r ← output v ["pool-dumpxml"; "default"];
    match r with
    | Ok out =>
        if contains out images then Ret true
        else _ ← attempt v ["pool-destroy"; "default"]; _ ← attempt v ["pool-undefine"; "default"]; Ret false
    | Err _ => Ret true
    end
  else Ret false.
Definition EnsureDefaultStoragePool : VE :=
  r ← output v ["pool-list"; "--all"];
  match r with
  | Err e => Ret (Some (EWrap "failed to list storage pools" e))
  | Ok listing =>
      keep ← keep_default_pool listing;
      e ← (if (keep : bool) then Ret None else createDefaultStoragePool : VE);
      match (e : option goerror) with
      | Some e => Ret (Some (EWrap "failed to create default storage pool" e))
      | None =>
          e ← ensurePoolActive "default";
          Ret (EWrap "failed to activate default storage pool" <$> e)
      end
  end.

(** The value of a line, under the first label that fits. *)
Fixpoint labelled {A} (set : list (string * (string -> A -> A))) (line : string) (a : A) : A :=
  match set with
  | [] => a
  | (label, f) :: rest =>
      if has_prefix line label then f (TrimSpace (TrimPrefix line label)) a else labelled rest line a
  end.
Definition read_labels {A} (set : list (string * (string -> A -> A))) (out : string) (a : A) : A :=
  foldl (fun a line => labelled set (TrimSpace line) a) a (lines out).

(** The text between the first path tag and the next closing one. *)
Definition path_of_xml (out : string) : string :=
  match Index out "<path>" with
  | None => ""
  | Some i =>
      let rest := from (i + 6) out in
      match Index rest "</path>" with
      | Some (S _ as n) => slice 0 n rest
      | _ => ""
      end
  end.
Definition GetPoolInfo (pool : string) : VM (res StoragePool) :=
  r ← output v ["pool-info"; pool];
  match r with
  | Err e => Ret (Err (EWrap "failed to get pool info" e))
  | Ok out =>
      let p := read_labels
        [("UUID:", fun s (p : StoragePool) => p <| pool_UUID := s |>); ("State:", fun s p => p <| pool_State := s |>);
         ("Autostart:", fun s p => p <| pool_Autostart := s |>); ("Capacity:", fun s p => p <| pool_Capacity := s |>);
         ("Available:", fun s p => p <| pool_Available := s |>)] out (mkStoragePool pool "" "" "" "" "" "" "") in
      let p := if negb (is_empty (pool_Capacity p)) && negb (is_empty (pool_Available p))
               then p <| pool_Used := "calculated" |> else p in
      x ← output v ["pool-dumpxml"; pool];
      Ret (Ok (match x with Ok xml => p <| pool_Path := path_of_xml xml |> | Err _ => p end))
  end.

(** ** Volumes *)
Definition GetVolumeInfo (pool volume : string) : VM (res StorageVolume) :=
  r ← output v ["vol-info"; volume; "--pool"; pool];
  match r with
  | Err e => Ret (Err (EWrap "failed to get volume info" e))
  | Ok out =>
      let vol := read_labels
        [("Type:", fun s (x : StorageVolume) => x <| vol_Type := s |>);
         ("Capacity:", fun s x => x <| vol_Capacity := s |>);
         ("Allocation:", fun s x => x <| vol_Allocation := s |>)] out (mkStorageVolume volume pool "" "" "" "" "") in
      p ← output v ["vol-path"; volume; "--pool"; pool];
      Ret (Ok (match p with Ok path => vol <| vol_Path := TrimSpace path |> | Err _ => vol end))
  end.

(** Ownership, mode and security context; failures are logged. *)
Definition own (path : string) : VM unit :=
  _ ← attempt v ["!"; "sudo"; "chown"; "libvirt-qemu:kvm"; path];
  attempt v ["!"; "sudo"; "chmod"; "777"; path].
Definition own_and_label (path : string) : VM unit :=
  _ ← own path; attempt v ["!"; "sudo"; "restorecon"; path].

Definition size_arg (sizeGB : Z) : string := FormatInt sizeGB +:+ "G".
Definition CreateVolume (pool volume format : string) (sizeGB : Z) : VM (res StorageVolume) :=
  then_ (ensurePoolActive pool) "failed to ensure pool is active" (
    e ← perform_verbose "failed to create volume"
          (runVirshCommand v ["vol-create-as"; pool; volume; size_arg sizeGB; "--format"; format]);
    match e with
    | Some e => Ret (Err e)
    | None =>
        vol ← GetVolumeInfo pool volume;
        match vol with
        | Err e => Ret (Err (EWrap "failed to get created volume info" e))
        | Ok vol => _ ← own_and_label (vol_Path vol); Ret (Ok vol)
        end
    end).

Definition convert_args (source target : string) : list string :=
  ["!"; "qemu-img"; "convert"; "-f"; "qcow2"; "-O"; "qcow2"; source; target].
Definition resize_args (target : string) (sizeGB : Z) : list string :=
  ["!"; "qemu-img"; "resize"; target; size_arg sizeGB].
Definition fallback_volume (pool volume path type : string) : StorageVolume :=
  mkStorageVolume volume pool path type "" "" "qcow2".

(** Converts a download and gives it its size. *)
Definition install_image (temp target : string) (sizeGB : Z) : VE :=
  e ← perform_verbose "failed to convert image" (runVirshCommand v (convert_args temp target));
  match e with
  | Some e => Ret (Some e)
  | None =>
      if 0 <? sizeGB
      then perform_verbose "failed to resize image" (runVirshCommand v (resize_args target sizeGB))
      else Ret None
  end.
Definition DownloadCloudImage (url volume pool : string) (sizeGB : Z) : VM (res StorageVolume) :=
  then_ (ensurePoolActive pool) "failed to ensure pool is active" (
    info ← GetPoolInfo pool;
    match info with
    | Err e => Ret (Err (EWrap "failed to get pool info" e))
    | Ok info =>
        let temp := filepath_Join "/tmp" (volume +:+ "-temp.img") in
        e ← perform_verbose "failed to download image" (runVirshCommand v ["!"; "wget"; "-O"; temp; url]);
        match e with
        | Some e => Ret (Err e)
        | None =>
            _ ← attempt v (script ("qemu-img info '" +:+ temp +:+ "'"));
            let target := filepath_Join (pool_Path info) (volume +:+ ".qcow2") in
            e ← install_image temp target sizeGB;
            match e with
            | Some e => Ret (Err e)
            | None =>
                _ ← attempt v ["!"; "rm"; "-f"; temp];
                _ ← own_and_label target;
                _ ← attempt v ["pool-refresh"; pool];
                vol ← GetVolumeInfo pool volume;
                Ret (Ok (match vol with Ok vol => vol | Err _ => fallback_volume pool volume target "file" end))
            end
        end
    end).

(** The virtual size that [qemu-img info] reports. *)
Definition shown_capacity (out : string) : string :=
  match (j ← json_Unmarshal out; o ← as_object (Some j); as_float (jget o "virtual-size")) with
  | Some q => format_GiB (truncate q)
  | None => ""
  end.
(** An image that lies in the pool already is used as it is. *)
Definition adopt_image (source pool : string) : VM StorageVolume :=
  _ ← own source;
  _ ← attempt v ["pool-refresh"; pool];
  info ← output v ["!"; "qemu-img"; "info"; "--output=json"; source];
  Ret (mkStorageVolume (TrimSuffix (filepath_Base source) ".qcow2") pool source ""
         (match info with Ok out => shown_capacity out | Err _ => "" end) "" "qcow2").
Definition CreateVolumeFromImageFile (source volume pool : string) (sizeGB : Z) : VM (res StorageVolume) :=
  then_ (ensurePoolActive pool) "failed to ensure pool is active" (
    info ← GetPoolInfo pool;
    match info with
    | Err e => Ret (Err (EWrap "failed to get pool info" e))
    | Ok info =>
        let target := filepath_Join (pool_Path info) (volume +:+ ".qcow2") in
        found ← output v ["!"; "test"; "-f"; source];
        match found with
        | Err _ => Ret (Err (ENew ("source image file not found: " +:+ source)))
        | Ok _ =>
            if String.eqb (filepath_Dir source) (pool_Path info) && HasSuffix source ".qcow2"
            then vol ← adopt_image source pool; Ret (Ok vol)
            else
              e ← perform_verbose "failed to convert image" (runVirshCommand v (convert_args source target));
              match e with
              | Some e => Ret (Err e)
              | None =>
                  _ ← (if 0 <? sizeGB then attempt v (resize_args target sizeGB) else Ret tt);
                  _ ← own_and_label target;
                  _ ← attempt v ["pool-refresh"; "default"];
                  Ret (Ok (fallback_volume pool volume target ""))
              end
        end
    end).

Fixpoint volumes_of (pool : string) (rows : list string) : VM (list StorageVolume) :=
  match rows with
  | [] => Ret []
  | line :: rest =>
      match Fields line with
      | name :: _ :: _ =>
          if String.eqb name "Name" || String.eqb name "----" then volumes_of pool rest
          else
            vol ← GetVolumeInfo pool name;
            more ← volumes_of pool rest;
            Ret (match vol with Ok vol => vol :: more | Err _ => more end)
      | _ => volumes_of pool rest
      end
  end.
Definition ListVolumes (pool : string) : VM (res (list StorageVolume)) :=
  r ← output v ["vol-list"; pool];
  match r with
  | Err e => Ret (Err (EWrap "failed to list volumes" e))
  | Ok out => l ← volumes_of pool (drop 2 (lines out)); Ret (Ok l)
  end.

Definition GetPredefinedTemplates : list ImageTemplate :=
  [mkImageTemplate "ubuntu-22.04-server"
     "https://cloud-images.ubuntu.com/jammy/current/jammy-server-cloudimg-amd64.img";
   mkImageTemplate "ubuntu-20.04-server"
     "https://cloud-images.ubuntu.com/focal/current/focal-server-cloudimg-amd64.img";
   mkImageTemplate "centos-stream-9"
     "https://cloud.centos.org/centos/9-stream/x86_64/images/CentOS-Stream-GenericCloud-9-latest.x86_64.qcow2";
   mkImageTemplate "debian-12"
     "https://cloud.debian.org/images/cloud/bookworm/latest/debian-12-generic-amd64.qcow2"].
Definition CreateVolumeFromTemplate (template volume pool : string) (sizeGB : Z) : VM (res StorageVolume) :=
  match List.find (fun t => String.eqb (tpl_Name t) template) GetPredefinedTemplates with
  | None => Ret (Err (ENew ("template not found: " +:+ template)))
  | Some t => DownloadCloudImage (tpl_URL t) volume pool sizeGB
  end.

Definition ResizeVolume (pool volume : string) (sizeGB : Z) : VE :=
  perform_verbose "failed to resize volume"
    (runVirshCommand v ["vol-resize"; volume; size_arg sizeGB; "--pool"; pool]).
Definition DeleteVolume (pool volume : string) : VE :=
  perform_verbose "failed to delete volume" (runVirshCommand v ["vol-delete"; volume; "--pool"; pool]).
Definition CloneVolume (pool source target : string) : VM (res StorageVolume) :=
  e ← perform_verbose "failed to clone volume" (runVirshCommand v ["vol-clone"; source; target; "--pool"; pool]);
  match e with
  | Some e => Ret (Err e)
  | None =>
      vol ← GetVolumeInfo pool target;
      Ret (match vol with Err e => Err (EWrap "failed to get cloned volume info" e) | Ok vol => Ok vol end)
  end.

(** ** Cloud-init *)
Definition cloudinit_dir (instance : string) : string := "/tmp/virtrigaud-cloudinit/" +:+ instance.
Definition interface_metadata (comment name : string) : list string :=
  ["    # " +:+ comment; "    - type: physical"; "      name: " +:+ name; "      subnets:";
   "        - type: dhcp4"; "        - type: dhcp6"].
Definition generateMetaData (instance hostname : string) : string :=
  join_lines (["instance-id: " +:+ instance; "local-hostname: " +:+ hostname; "network:"; "  version: 1"; "  config:"]
    ++ interface_metadata "Traditional interface naming (older distros, custom configs)" "eth0"
    ++ interface_metadata "Predictable naming - most common for virtio NICs in VMs" "ens3"
    ++ interface_metadata "Predictable naming with PCI slot info" "enp0s3"
    ++ interface_metadata "Alternative PCI-based naming" "enp1s0" ++ [""]).

Definition writeRemoteFile (path content : string) : VE :=
  now ← vdo UnixNano;
  perform v ("failed to write remote file " +:+ path)
    (script (here_document path ("EOF_CLOUDINIT_" +:+ FormatInt now) content)).
Definition createRemoteCloudInitISO (dir iso : string) : VE :=
  perform_verbose "genisoimage failed on remote host"
    (runVirshCommand v ["!"; "genisoimage"; "-output"; iso; "-volid"; "cidata"; "-joliet"; "-rock";
                        "-input-charset"; "utf-8"; dir]).
Definition PrepareCloudInit (config : CloudInitConfig) : VM (res string) :=
  let dir := cloudinit_dir (ci_InstanceID config) in
  e ← perform v "failed to create remote cloud-init directory" ["!"; "mkdir"; "-p"; dir];
  match e with
  | Some e => Ret (Err e)
  | None =>
      let metadata := if is_empty (ci_MetaData config)
                      then generateMetaData (ci_InstanceID config) (ci_Hostname config) else ci_MetaData config in
      then_ (writeRemoteFile (filepath_Join dir "user-data") (ci_UserData config)) "failed to write remote user-data" (
      then_ (writeRemoteFile (filepath_Join dir "meta-data") metadata) "failed to write remote meta-data" (
      then_ (createRemoteCloudInitISO dir (filepath_Join dir "cloud-init.iso"))
        "failed to create remote cloud-init ISO" (
      Ret (Ok (filepath_Join dir "cloud-init.iso")))))
  end.

Definition copyISOToRemote (local_ name : string) : VM (res string) :=
  let dir := images +:+ "/cloud-init" in
  let remote := dir +:+ "/" +:+ name +:+ "-cloud-init.iso" in
  e ← perform v "failed to create remote cloud-init directory" ["!"; "mkdir"; "-p"; dir];
  match e with
  | Some e => Ret (Err e)
  | None =>
      e ← perform_verbose "failed to copy cloud-init ISO on remote host"
            (runVirshCommand v ["!"; "cp"; "-f"; local_; remote]);
      match e with
      | Some e => Ret (Err e)
      | None =>
          e ← perform v "failed to chmod remote cloud-init ISO" ["!"; "chmod"; "0644"; remote];
          Ret (match e with Some e => Err e | None => Ok remote end)
      end
  end.
Definition AttachCloudInitISO (name iso : string) : VE :=
  r ← copyISOToRemote iso name;
  match r with
  | Err e => Ret (Some (EWrap "failed to copy ISO to remote server" e))
  | Ok remote =>
      perform_verbose "failed to attach cloud-init ISO"
        (runVirshCommand v ["attach-disk"; name; remote; "hdc"; "--type"; "cdrom"; "--config"])
  end.

Fixpoint hostname_in (ls : list string) : string :=
  match ls with
  | [] => ""
  | line :: rest =>
      let line := TrimSpace line in
      if has_prefix line "hostname:" then
        match Cut ":" line with
        | Some (_, h) => Trim is_quote_or_space (TrimSpace h)
        | None => hostname_in rest
        end
      else hostname_in rest
  end.
Definition ExtractHostnameFromCloudInit (data : string) : string := hostname_in (lines data).
Definition ValidateCloudInitData (data : string) : option goerror :=
  if is_empty (TrimSpace data) then Some (ENew "cloud-init data is empty") else None.
Definition CleanupCloudInit (instance : string) : VM (option string) :=
  vdo (RemoveAll (filepath_Join "/tmp/virtrigaud-cloudinit" instance)).
End Storage.
