(* ===== verification/LibvirtXml.v ===== *)
(** * LibvirtXml: the definition of a domain

    Models [internal/providers/libvirt/reconfigure_online.go], [domainxml.go], the
    generation of a domain in [provider_virsh.go] and its rewriting for a clone in
    [clone.go].  [encoding/xml] is a parameter that yields the fields of a domain. *)
From stdpp Require Import base gmap strings list pretty.
From Stdlib Require Import Ascii ZArith.
From S2P Require Import Prelude Contracts Effects GoLib Utf8 Json Virsh.
#[local] Open Scope Z_scope.

(** ** Processors and memory *)
Definition hotplugResourceMultiplier : Z := 4.
Definition maxHotplugVCPUs : Z := 64.
Record CPUMemoryXML := mkCPUMemoryXML { x_VCPU : string; x_Memory : string; x_CurrentMemory : string }.
Definition to_int64 (z : Z) : Z := (z + 2 ^ 63) mod 2 ^ 64 - 2 ^ 63.

Definition computeHotplugCeilingVCPUs (initial : Z) : Z :=
  let initial := if initial <? 1 then 1 else initial in
  let ceiling := to_int32 (initial * hotplugResourceMultiplier) in
  let ceiling := if ceiling <=? initial then to_int32 (initial + 1) else ceiling in
  let ceiling := if maxHotplugVCPUs <? ceiling then maxHotplugVCPUs else ceiling in
  if ceiling <? initial then initial else ceiling.
Definition computeHotplugCeilingMemoryMiB (initial : Z) : Z :=
  let initial := if initial <? 1 then 1 else initial in
  let ceiling := to_int64 (initial * hotplugResourceMultiplier) in
  if ceiling <=? initial then to_int64 (initial + 1) else ceiling.

Definition memory_element (tag : string) (MiB : Z) : string :=
  "<" +:+ tag +:+ " unit='MiB'>" +:+ FormatInt MiB +:+ "</" +:+ tag +:+ ">".
Definition buildCPUMemoryXML (cpuCount memMiB : Z) (cpuHotAdd memHotAdd : bool) : CPUMemoryXML :=
  mkCPUMemoryXML
    (if cpuHotAdd
     then "<vcpu placement='static' current='" +:+ FormatInt cpuCount +:+ "'>"
          +:+ FormatInt (computeHotplugCeilingVCPUs cpuCount) +:+ "</vcpu>"
     else "<vcpu placement='static'>" +:+ FormatInt cpuCount +:+ "</vcpu>")
    (memory_element "memory" (if memHotAdd then computeHotplugCeilingMemoryMiB memMiB else memMiB))
    (memory_element "currentMemory" memMiB).

(** ** Interfaces *)
Definition hex_lower (n : N) : ascii := ascii_of_N (if (n <? 10)%N then 48 + n else 87 + n).
Fixpoint hex_digits (k : nat) (n : N) : string :=
  match k with
  | O => ""
  | S k' => if (n =? 0)%N then "" else hex_digits k' (n / 16) +:+ String (hex_lower (n mod 16)) ""
  end.
(** [%02x] of a slot: at most sixteen digits. *)
Definition hex2 (n : Z) : string :=
  let s := hex_digits 16 (Z.to_N n) in
  (if (String.length s =? 0)%nat then "00" else if (String.length s =? 1)%nat then "0" else "") +:+ s.

Definition pci_address (slot : string) : string :=
  "      <address type='pci' domain='0x0000' bus='0x00' slot='" +:+ slot +:+ "' function='0x0'/>".
Definition interface_xml (idx : Z) (net : NetworkAttachment) : string :=
  let model := if is_empty (Model net) then "virtio" else Model net in
  let mac := if is_empty (MacAddress net) then []
             else ["      <mac address='" +:+ MacAddress net +:+ "'/>"] in
  let rest := ["      <model type='" +:+ model +:+ "'/>"; pci_address ("0x" +:+ hex2 (3 + idx)); "    </interface>"] in
  join_lines
    (if negb (is_empty (Bridge net)) then
       "    <interface type='bridge'>" :: mac ++ ("      <source bridge='" +:+ Bridge net +:+ "'/>") :: rest
     else if negb (is_empty (NetworkName net)) then
       "    <interface type='network'>" :: mac ++ ("      <source network='" +:+ NetworkName net +:+ "'/>") :: rest
     else "    <interface type='user'>" :: mac ++ rest).
Fixpoint interfaces_xml (idx : Z) (nets : list NetworkAttachment) : list string :=
  match nets with
  | [] => []
  | net :: rest => interface_xml idx net :: interfaces_xml (idx + 1) rest
  end.
Definition generateNetworkInterfacesXML (nets : list NetworkAttachment) : string :=
  match nets with
  | [] => join_lines ["    <interface type='user'>"; "      <model type='virtio'/>"; pci_address "0x03"; "    </interface>"]
  | _ => join_lines (interfaces_xml 0 nets)
  end.

(** ** The domain *)
Definition disk_devices (diskPath isoPath : string) : list string :=
  ["    <disk type='file' device='disk'>"; "      <driver name='qemu' type='qcow2'/>";
   "      <source file='" +:+ diskPath +:+ "'/>"; "      <target dev='vda' bus='virtio'/>";
   pci_address "0x07"; "    </disk>"]
  ++ (if is_empty isoPath then []
      else ["    <disk type='file' device='cdrom'>"; "      <driver name='qemu' type='raw'/>";
            "      <source file='" +:+ isoPath +:+ "'/>"; "      <target dev='hda' bus='ide'/>"; "      <readonly/>";
            "      <address type='drive' controller='0' bus='0' target='0' unit='0'/>"; "    </disk>"]).
Definition features_xml (secureBoot vtd : bool) : list string :=
  ["    <acpi/>"; "    <apic/>"]
  ++ (if secureBoot then ["    <smm state='on'>"; "      <tseg unit='MiB'>16</tseg>"; "    </smm>"] else [])
  ++ (if vtd then ["    <iommu model='intel'/>"] else []).
Definition cpu_xml (nested : bool) : string :=
  "<cpu mode='host-model' check='partial'>"
  +:+ (if nested then
         String newline "    <feature policy='require' name='vmx'/> <!-- Intel VT-x -->"
         +:+ String newline "    <feature policy='require' name='svm'/> <!-- AMD-V -->"
       else "") +:+ "</cpu>".
Definition os_xml (secureBoot : bool) : list string :=
  (if secureBoot
   then ["    <type arch='x86_64' machine='q35'>hvm</type>";
         "    <loader readonly='yes' type='pflash' secure='yes'>/usr/share/OVMF/OVMF_CODE_4M.secboot.fd</loader>";
         "    <nvram template='/usr/share/OVMF/OVMF_VARS_4M.fd'/>"]
   else ["    <type arch='x86_64' machine='pc'>hvm</type>"])
  ++ ["    <boot dev='hd'/>"; "    <boot dev='cdrom'/>"].
Definition tpm_xml (tpm : bool) : list string :=
  if tpm then ["    <tpm model='tpm-tis'>"; "      <backend type='emulator' version='2.0'/>"; "    </tpm>"] else [].
Definition usb_controller (model master address : string) : list string :=
  ("    <controller type='usb' index='0' model='" +:+ model +:+ "'>")
  :: (if is_empty master then [] else ["      <master startport='" +:+ master +:+ "'/>"])
  ++ ["      <address type='pci' domain='0x0000' bus='0x00' slot='0x05' " +:+ address +:+ "/>"; "    </controller>"].
Definition controllers_xml : list string :=
  usb_controller "ich9-ehci1" "" "function='0x7'"
  ++ usb_controller "ich9-uhci1" "0" "function='0x0' multifunction='on'"
  ++ usb_controller "ich9-uhci2" "2" "function='0x1'"
  ++ usb_controller "ich9-uhci3" "4" "function='0x2'"
  ++ ["    <controller type='pci' index='0' model='pci-root'/>";
      "    <controller type='ide' index='0'>";
      "      <address type='pci' domain='0x0000' bus='0x00' slot='0x01' function='0x1'/>"; "    </controller>";
      "    <controller type='virtio-serial' index='0'>"; pci_address "0x06"; "    </controller>"].
Definition fixed_devices : list string :=
  ["    <serial type='pty'>"; "      <target type='isa-serial' port='0'>"; "        <model name='isa-serial'/>";
   "      </target>"; "    </serial>"; "    <console type='pty'>"; "      <target type='serial' port='0'/>";
   "    </console>"; "    <channel type='unix'>"; "      <target type='virtio' name='org.qemu.guest_agent.0'/>";
   "      <address type='virtio-serial' controller='0' bus='0' port='1'/>"; "    </channel>";
   "    <input type='tablet' bus='usb'>"; "      <address type='usb' bus='0' port='1'/>"; "    </input>";
   "    <input type='mouse' bus='ps2'/>"; "    <input type='keyboard' bus='ps2'/>";
   "    <graphics type='vnc' port='-1' autoport='yes' listen='127.0.0.1'>";
   "      <listen type='address' address='127.0.0.1'/>"; "    </graphics>"; "    <sound model='ich6'>";
   pci_address "0x04"; "    </sound>"; "    <video>";
   "      <model type='cirrus' vram='16384' heads='1' primary='yes'/>"; pci_address "0x02"; "    </video>";
   "    <memballoon model='virtio'>"; pci_address "0x08"; "    </memballoon>"; "  </devices>"].

(** What the class asks for. *)
Definition cpu_count (req : CreateRequest) : Z := if 0 <? CPU (req_Class req) then CPU (req_Class req) else 1.
Definition memory_mb (req : CreateRequest) : Z :=
  if 0 <? MemoryMiB (req_Class req) then MemoryMiB (req_Class req) else 1024.
Definition performance (req : CreateRequest) (f : PerformanceProfile -> bool) : bool :=
  match class_PerformanceProfile (req_Class req) with Some p => f p | None => false end.
Definition security (req : CreateRequest) (f : SecurityProfile -> bool) : bool :=
  match class_SecurityProfile (req_Class req) with Some p => f p | None => false end.

Definition domain_xml (domainType uuid : string) (req : CreateRequest) (diskPath isoPath : string) : string :=
  let cm := buildCPUMemoryXML (cpu_count req) (memory_mb req) (performance req CPUHotAddEnabled)
              (performance req MemoryHotAddEnabled) in
  let secureBoot := security req SecureBoot in
  join_lines
    (["<domain type='" +:+ domainType +:+ "'>"; "  <name>" +:+ req_Name req +:+ "</name>";
      "  <uuid>" +:+ uuid +:+ "</uuid>"; "  " +:+ x_Memory cm; "  " +:+ x_CurrentMemory cm; "  " +:+ x_VCPU cm;
      "  <os>"] ++ os_xml secureBoot
     ++ ["  </os>"; "  <features>"] ++ features_xml secureBoot (security req VTDEnabled)
     ++ ["  </features>"; "  " +:+ cpu_xml (performance req NestedVirtualization); "  <clock offset='utc'>";
         "    <timer name='rtc' tickpolicy='catchup'/>"; "    <timer name='pit' tickpolicy='delay'/>";
         "    <timer name='hpet' present='no'/>"; "  </clock>"; "  <on_poweroff>destroy</on_poweroff>";
         "  <on_reboot>restart</on_reboot>"; "  <on_crash>destroy</on_crash>"; "  <devices>"]
     ++ disk_devices diskPath isoPath ++ tpm_xml (security req TPMEnabled) ++ controllers_xml
     ++ [generateNetworkInterfacesXML (req_Networks req)] ++ fixed_devices ++ ["</domain>"]).

(** ** Reading a domain *)
Record xml_disk := mkXmlDisk { xd_Device : string; xd_DriverType : string; xd_SourceFile : string }.
Record domainXML := mkDomainXML {
  dx_Name : string; dx_UUID : string; dx_VCPU : Z; dx_KiB : Z; dx_Unit : string;
  dx_Disks : list xml_disk; dx_Interfaces : list string  (* MAC addresses *)
}.
Class XmlLibrary := { xml_Unmarshal : string -> res domainXML }.

Definition parseDomainXML `{XmlLibrary} (raw : string) : res domainXML :=
  match xml_Unmarshal raw with
  | Ok d => Ok d
  | Err e => Err (EWrap "failed to parse domain XML" e)
  end.
Definition dx_MemoryMiB `{FmtLibrary} (d : domainXML) : res Z :=
  if negb (is_empty (dx_Unit d)) && negb (String.eqb (dx_Unit d) "KiB")
  then Err (ENew ("unexpected memory unit " +:+ quote (dx_Unit d) +:+ " (want KiB)"))
  else Ok (Z.quot (dx_KiB d) 1024).
Definition is_cloudinit_iso (path : string) : bool := HasSuffix path "-cidata.iso" || HasSuffix path "cloud-init.iso".
Fixpoint data_disks (domainName : string) (count : Z) (l : list xml_disk) : list DiskInfo :=
  match l with
  | [] => []
  | d :: rest =>
      if negb (String.eqb (xd_Device d) "disk") || is_empty (xd_SourceFile d) || is_cloudinit_iso (xd_SourceFile d)
      then data_disks domainName count rest
      else mkDiskInfo (domainName +:+ "-disk-" +:+ FormatInt count) (xd_SourceFile d) 0
             (if is_empty (xd_DriverType d) then "qcow2" else xd_DriverType d)
             :: data_disks domainName (count + 1) rest
  end.
Definition Disks (d : domainXML) (domainName : string) : list DiskInfo := data_disks domainName 0 (dx_Disks d).
Definition Networks (d : domainXML) : list NetworkInfo := (fun mac => mkNetworkInfo "" mac "") <$> dx_Interfaces d.

(** ** Rewriting a domain for a clone *)
Definition no_newline (s : string) : bool := all_chars (fun c => negb (Ascii.eqb c newline)) s.

(** A match of [<tag[^>]*>.*?</tag>] at the start: the lengths of the opening and of the
    text between; [multi] says whether the text may have line ends. *)
Definition element_here (open close : string) (multi : bool) (s : string) : option (nat * nat) :=
  if has_prefix s open then
    gt ← Index (from (String.length open) s) ">";
    let opening := (String.length open + gt + 1)%nat in
    n ← Index (from opening s) close;
    if multi || no_newline (slice 0 n (from opening s)) then Some (opening, n) else None
  else None.
(** The first match: where it begins, and the same lengths. *)
Fixpoint find_element (open close : string) (multi : bool) (at_ : nat) (s : string) : option (nat * nat * nat) :=
  match element_here open close multi s with
  | Some (o, n) => Some (at_, o, n)
  | None => match s with EmptyString => None | String _ s' => find_element open close multi (S at_) s' end
  end.
Definition splice (s : string) (lo hi : nat) (by_ : string) : string := slice 0 lo s +:+ by_ +:+ from hi s.
(** [replaceFirst]; [None] when nothing matches. *)
Definition replace_element (open close : string) (multi : bool) (s repl : string) : option string :=
  match find_element open close multi 0 s with
  | Some (i, o, n) => Some (splice s i (i + o + n + String.length close) repl)
  | None => None
  end.
(** An element without attributes: the opening tag has its bracket. *)
Definition replace_plain (tag s repl : string) : option string :=
  i ← Index s ("<" +:+ tag +:+ ">");
  n ← Index (from i s) ("</" +:+ tag +:+ ">");
  Some (splice s i (i + n + String.length tag + 3) repl).

(** [strings.Replace] with one replacement. *)
Definition replace_once (s old new : string) : string :=
  match Index s old with Some i => splice s i (i + String.length old) new | None => s end.

(** A match of the pattern of a MAC address at the start: its length. *)
Definition quoted_here (s : string) : option nat :=
  match s with
  | String q s' =>
      if Ascii.eqb q "'" || Nat.eqb (nat_of_ascii q) 34 then n ← Index s' (String q ""); Some (n + 2)%nat else None
  | EmptyString => None
  end.
Definition spaces (s : string) : nat := (String.length s - String.length (TrimLeft re_space s))%nat.
Definition mac_here (s : string) : option nat :=
  if has_prefix s "<mac" then
    let a := from 4 s in
    let k := spaces a in
    if (k =? 0)%nat then None
    else
      let b := from k a in
      if has_prefix b "address=" then
        q ← quoted_here (from 8 b);
        let c := from (8 + q) b in
        let e := from (spaces c) c in
        if has_prefix e "/>" then Some (4 + k + 8 + q + spaces c + 2)%nat else None
      else None
  else None.

Definition two_hex (n : Z) : string :=
  String (hex_lower (Z.to_N n / 16)) (String (hex_lower (Z.to_N n mod 16)) "").
Definition generateRandomMAC : VM (option string) :=
  b ← vdo (RandomBytes 3);
  Ret (bs ← b; Some ("52:54:00" +:+ foldr (fun x s => ":" +:+ two_hex x +:+ s) "" bs)).
Definition generateRandomUUID : VM (option string) :=
  b ← vdo (RandomBytes 16);
  Ret (bs ← b;
       let bs := <[6%nat := Z.lor (Z.land (default 0 (bs !! 6%nat)) 15) 64]> bs in
       let bs := <[8%nat := Z.lor (Z.land (default 0 (bs !! 8%nat)) 63) 128]> bs in
       let hex lo n := String.concat "" (two_hex <$> take n (drop lo bs)) in
       Some (String.concat "-" [hex 0%nat 4%nat; hex 4%nat 2%nat; hex 6%nat 2%nat; hex 8%nat 2%nat; hex 10%nat 6%nat])).

(** Each address is replaced by a fresh one; [skip] bytes belong to a match. *)
Fixpoint replace_macs (skip : nat) (s : string) : VM string :=
  match s with
  | EmptyString => Ret ""
  | String c s' =>
      match skip with
      | S k => replace_macs k s'
      | O =>
          match mac_here s with
          | Some n =>
              mac ← generateRandomMAC;
              rest ← replace_macs (n - 1) s';
              Ret ("<mac address='" +:+ default "52:54:00:00:00:00" mac +:+ "'/>" +:+ rest)
          | None => rest ← replace_macs 0 s'; Ret (String c rest)
          end
      end
  end.

(** The new domain, and the two paths of the variables of the firmware. *)
Definition rewriteNVRAMPath (domain targetName : string) : string * string * string :=
  match find_element "<nvram" "</nvram>" true 0 domain with
  | None => (domain, "", "")
  | Some (i, o, n) =>
      let inner := slice (i + o) (i + o + n) domain in
      let lead := spaces inner in
      let path := TrimRight re_space (from lead inner) in
      let src := TrimSpace path in
      if is_empty src then (domain, "", "")
      else
        let dst := filepath_Join (filepath_Dir src) (targetName +:+ "_VARS.fd") in
        if String.eqb dst src then (domain, src, dst)
        else (splice domain (i + o + lead) (i + o + lead + String.length path) dst, src, dst)
  end.

Definition source_file (q : string) (path : string) : string := "file=" +:+ q +:+ path +:+ q.
Definition double_quote : string := String (ascii_of_nat 34) "".
Definition replace_disk `{FmtLibrary} (domain src dst : string) : res string :=
  if is_empty src || is_empty dst then Ok domain
  else
    let one := replace_once domain (source_file "'" src) (source_file "'" dst) in
    let one := if String.eqb one domain
               then replace_once domain (source_file double_quote src) (source_file double_quote dst) else one in
    if String.eqb one domain
    then Err (ENew ("primary disk source " +:+ quote src +:+ " not found in source domain XML"))
    else Ok one.

Definition rewriteDomainXMLForClone `{FmtLibrary} (source targetName srcDisk dstDisk : string)
    : VM (res (string * string * string)) :=
  if is_empty (TrimSpace source) then Ret (Err (ENew "source domain XML is empty"))
  else
    match replace_plain "name" source ("<name>" +:+ targetName +:+ "</name>") with
    | None => Ret (Err (ENew "source domain XML has no <name> element"))
    | Some out =>
        uuid ← generateRandomUUID;
        match uuid with
        | None => Ret (Err (EWrap "generate clone UUID" (ENew "random source failed")))
        | Some uuid =>
            match replace_plain "uuid" out ("<uuid>" +:+ uuid +:+ "</uuid>") with
            | None => Ret (Err (ENew "source domain XML has no <uuid> element"))
            | Some out =>
                out ← replace_macs 0 out;
                Ret (match replace_disk out srcDisk dstDisk with
                     | Err e => Err e
                     | Ok out => Ok (rewriteNVRAMPath out targetName)
                     end)
            end
        end
    end.

(** The override of the class: the processors, the memory in MiB, and the two flags. *)
Record clone_class := mkCloneClass { cc_CPU : Z; cc_MemoryMiB : Z; cc_CPUHotAdd : bool; cc_MemoryHotAdd : bool }.
Class CloneClassReader := { read_clone_class : string -> option clone_class }.
Definition replace_if (open close : string) (s repl : string) : string := default s (replace_element open close false s repl).
Definition applyClassOverrides `{CloneClassReader} (domain classJSON : string) : string :=
  if is_empty (TrimSpace classJSON) then domain
  else
    match read_clone_class classJSON with
    | None => domain
    | Some c =>
        let r := buildCPUMemoryXML (cc_CPU c) (cc_MemoryMiB c) (cc_CPUHotAdd c) (cc_MemoryHotAdd c) in
        let out := if 0 <? cc_MemoryMiB c
                   then replace_if "<currentMemory" "</currentMemory>"
                          (replace_if "<memory" "</memory>" domain (x_Memory r)) (x_CurrentMemory r)
                   else domain in
        if 0 <? cc_CPU c then replace_if "<vcpu" "</vcpu>" out (x_VCPU r) else out
    end.
