(* ===== verification/Libvirt.v ===== *)
(** * Libvirt: the libvirt provider

    Models the connection check of [internal/providers/libvirt/provider.go] and, of
    [provider_virsh.go], the creation of a machine, its deletion and its power
    operations, over the commands of [Virsh].  Log lines are left out. *)
From stdpp Require Import base gmap strings list pretty.
From Stdlib Require Import Ascii ZArith.
From S2P Require Import Prelude Contracts Effects GoLib Utf8 Json Virsh LibvirtDomains GuestAgent LibvirtStorage LibvirtXml.
#[local] Open Scope Z_scope.

Record Provider := mkProvider { virshProvider : option VirshProvider }.

Abbreviation PR A := (VM (res A)).
Definition not_initialized {A} : PR A := Ret (Err (NewRetryableError "virsh provider not initialized" None)).
Definition with_virsh {A} (p : Provider) (k : VirshProvider -> PR A) : PR A :=
  match virshProvider p with
  | None => not_initialized
  | Some v => k v
  end.
Definition retryable {A} (what : string) (e : goerror) : res A := Err (NewRetryableError what (Some e)).

Section Provider.
Context `{Url : UrlLibrary} `{Unicode : UnicodeTable} `{Json : JsonLibrary} `{Size : SizeFormat}.

Definition Validate (p : Provider) : VM (option goerror) :=
  match virshProvider p with
  | None => Ret (Some (NewRetryableError "virsh provider not initialized" None))
  | Some v =>
      r ← output v ["list"; "--all"; "--name"];
      Ret (match r with
           | Ok _ => None
           | Err e => Some (NewRetryableError "virsh connection validation failed" (Some e))
           end)
  end.

(** ** Creating a machine *)
Definition extractImageSpec (req : CreateRequest) : string :=
  let i := req_Image req in
  if negb (is_empty (Path i)) then Path i
  else if negb (is_empty (Contracts.URL i)) then Contracts.URL i
  else TemplateName i.
Definition extractDiskSize (req : CreateRequest) : Z :=
  match class_DiskDefaults (req_Class req) with
  | Some d => if 0 <? dd_SizeGiB d then dd_SizeGiB d else 20
  | None => 20
  end.
Definition generateDefaultCloudInit (name : string) : string :=
  join_lines ["#cloud-config"; "hostname: " +:+ name; "users:"; "  - name: ubuntu"; "    sudo: ALL=(ALL) NOPASSWD:ALL";
           "    shell: /bin/bash"; "    ssh_authorized_keys:";
           "      - ssh-ed25519 AAAAC3NzaC1lZDI1NTE5AAAAIN7lHIuo2QJBkdVDL79bl+tEmJh3pBz7rHImwvNMjenK"; "      ";
           "packages:"; "  - qemu-guest-agent"; "  - htop"; "  - stress"; "  "; "runcmd:";
           "  - systemctl enable qemu-guest-agent"; "  - systemctl start qemu-guest-agent";
           "  - echo " +:+ dquote +:+ "VM " +:+ name +:+ " ready" +:+ dquote +:+ " > /tmp/vm-ready"; "  ";
           "final_message: " +:+ dquote +:+ "VM " +:+ name +:+ " is ready!" +:+ dquote; ""].

(** [%012d]. *)
Definition pad12 (n : Z) : string :=
  let s := FormatInt n in String.concat "" (repeat "0" (12 - String.length s)) +:+ s.
Definition generateUUID : VM string :=
  now ← vdo UnixNano; Ret ("550e8400-e29b-41d4-a716-" +:+ pad12 (Z.rem now 1000000000000)).

Definition domainTypeFromProbe (readable : bool) : string := if readable then "kvm" else "qemu".
Definition detectDomainType (v : VirshProvider) : VM string :=
  r ← output v ["!"; "test"; "-r"; "/dev/kvm"];
  match r with
  | Ok _ => Ret (domainTypeFromProbe true)
  | Err _ => _ ← attempt v ["!"; "test"; "-e"; "/dev/kvm"]; Ret (domainTypeFromProbe false)
  end.
Definition generateDomainXMLWithStorage (v : VirshProvider) (req : CreateRequest) (diskPath isoPath : string)
    : VM string :=
  uuid ← generateUUID;
  type ← detectDomainType v;
  Ret (domain_xml type uuid req diskPath isoPath).

Definition definition_path (name : string) : string := "/tmp/" +:+ name +:+ "-domain.xml".
Definition createDomainDefinition (v : VirshProvider) (name xml : string) : VE :=
  now ← vdo UnixNano;
  perform_verbose "failed to create domain definition file"
    (runVirshCommand v (script (here_document (definition_path name) ("EOF_DOMAIN_" +:+ FormatInt now) xml))).
Definition defineDomain (v : VirshProvider) (name : string) : VE :=
  e ← perform_verbose "failed to define domain" (runRemoteVirshCommand v ["define"; definition_path name]);
  match e with
  | Some e => Ret (Some e)
  | None => _ ← attempt v ["!"; "rm"; "-f"; definition_path name]; Ret None
  end.

Definition disk_volume (name : string) : string := name +:+ "-disk".
(** The path of the new disk. *)
Definition create_disk (v : VirshProvider) (req : CreateRequest) : PR string :=
  let volume := disk_volume (req_Name req) in
  let size := extractDiskSize req in
  let image := extractImageSpec req in
  if is_empty image then
    r ← CreateVolume v "default" volume "qcow2" size;
    Ret (match r with
         | Ok vol => Ok (vol_Path vol)
         | Err e => Err (EWrap "failed to create disk volume" e)
         end)
  else
    r ← (if has_prefix image "http://" || has_prefix image "https://" then DownloadCloudImage v image volume "default" size
         else if has_prefix image "/" then CreateVolumeFromImageFile v image volume "default" size
         else CreateVolumeFromTemplate v image volume "default" size);
    Ret (match r with
         | Ok vol => Ok (vol_Path vol)
         | Err e => Err (EWrap "failed to create disk from image" e)
         end).

(** The path of the ISO, empty when there is none, and whether the provider's own
    files are removed at the end. *)
Definition prepare_cloudinit (v : VirshProvider) (req : CreateRequest) : PR (string * bool) :=
  let data := match req_UserData req with Some u => CloudInitData u | None => "" end in
  let name := req_Name req in
  if is_empty data then
    r ← PrepareCloudInit v (mkCloudInitConfig (generateDefaultCloudInit name) "" name name);
    Ret (Ok (match r with Ok iso => (iso, true) | Err _ => ("", false) end))
  else
    let hostname := ExtractHostnameFromCloudInit data in
    let hostname := if is_empty hostname then name else hostname in
    match ValidateCloudInitData data with
    | Some e => Ret (Err (EWrap "invalid cloud-init data" e))
    | None =>
        r ← PrepareCloudInit v (mkCloudInitConfig data "" name hostname);
        Ret (match r with
             | Ok iso => Ok (iso, true)
             | Err e => Err (EWrap "failed to prepare cloud-init" e)
             end)
    end.

Definition define_vm (v : VirshProvider) (req : CreateRequest) (diskPath isoPath : string) : PR string :=
  xml ← generateDomainXMLWithStorage v req diskPath isoPath;
  then_ (createDomainDefinition v (req_Name req) xml) "failed to create domain definition" (
  then_ (defineDomain v (req_Name req)) "failed to define domain" (
  Ret (Ok (req_Name req)))).
Definition createVMWithCloudInit (v : VirshProvider) (req : CreateRequest) : PR string :=
  then_ (EnsureDefaultStoragePool v) "failed to ensure storage pool" (
    disk ← create_disk v req;
    match disk with
    | Err e => Ret (Err e)
    | Ok diskPath =>
        ci ← prepare_cloudinit v req;
        match ci with
        | Err e => Ret (Err e)
        | Ok (iso, cleanup) =>
            r ← define_vm v req diskPath iso;
            _ ← (if (cleanup : bool) then CleanupCloudInit (req_Name req) else Ret None);
            Ret r
        end
    end).

Definition has_domain (name : string) (l : list VirshDomain) : bool :=
  existsb (fun d => String.eqb (dom_Name d) name) l.
Definition Create (p : Provider) (req : CreateRequest) : PR CreateResponse :=
  with_virsh p (fun v =>
    domains ← listDomains v;
    match domains with
    | Err e => Ret (retryable "failed to list existing domains" e)
    | Ok domains =>
        if has_domain (req_Name req) domains then Ret (Ok (mkCreateResponse (req_Name req) ""))
        else
          r ← createVMWithCloudInit v req;
          Ret (match r with
               | Ok id => Ok (mkCreateResponse id "")
               | Err e => retryable "failed to create VM" e
               end)
    end).

(** ** Deleting a machine *)
(** The file of a [source] element of the line. *)
Definition quote_at (s : string) : option nat :=
  match Index s "'", Index s dquote with
  | Some a, Some b => Some (Nat.min a b)
  | Some a, None => Some a
  | None, b => b
  end.
Definition file_in_line (line : string) : option string :=
  if contains line "<source file=" then
    start ← match Index line "file='" with Some i => Some i | None => Index line ("file=" +:+ dquote) end;
    let rest := from (start + 6) line in
    n ← quote_at rest;
    Some (slice 0 n rest)
  else None.
Definition disk_in_line (line : string) : option string :=
  if contains line "device='disk'" then None
  else path ← file_in_line line; if is_cloudinit_iso path then None else Some path.
Definition disk_paths (xml : string) : list string := omap (fun l => disk_in_line (TrimSpace l)) (lines xml).
Definition getDomainDiskPaths (v : VirshProvider) (name : string) : PR (list string) :=
  r ← output v ["dumpxml"; name];
  Ret (match r with Ok out => Ok (disk_paths out) | Err e => Err (EWrap "failed to dump domain XML" e) end).

Definition iso_in_line (line : string) : option string :=
  path ← file_in_line line;
  if HasSuffix path "cloud-init.iso" || contains path "virtrigaud-cloudinit" then Some path else None.
Definition getCloudInitISOPath (v : VirshProvider) (name : string) : PR string :=
  r ← output v ["dumpxml"; name];
  Ret (match r with
       | Ok out => Ok (default "" (head (omap (fun l => iso_in_line (TrimSpace l)) (lines out))))
       | Err e => Err (EWrap "failed to dump domain XML" e)
       end).

Definition deleteDiskFile (v : VirshProvider) (path : string) : VE :=
  perform v ("failed to delete disk file " +:+ path) ["!"; "sudo"; "rm"; "-f"; path].
(** The directory of the ISO, with everything in it. *)
Definition directory_of (path : string) : string :=
  let d := (split_last path).1 in if is_empty d then path else TrimSuffix d "/".
Definition deleteCloudInitResources (v : VirshProvider) (iso : string) : VE :=
  perform v ("failed to delete cloud-init directory " +:+ directory_of iso) ["!"; "rm"; "-rf"; directory_of iso].
Definition orphan_paths (name : string) : list string :=
  [images +:+ "/" +:+ name +:+ "-disk.qcow2"; images +:+ "/" +:+ name +:+ ".qcow2"; images +:+ "/" +:+ name +:+ "-disk"].
Fixpoint delete_files (v : VirshProvider) (paths : list string) : VM unit :=
  match paths with
  | [] => Ret tt
  | path :: rest => _ ← deleteDiskFile v path; delete_files v rest
  end.
Definition cleanupOrphanedResources (v : VirshProvider) (name : string) : VM unit :=
  _ ← delete_files v (orphan_paths name); attempt v ["!"; "rm"; "-rf"; cloudinit_dir name].

Definition Delete (p : Provider) (id : string) : PR string :=
  with_virsh p (fun v =>
    domains ← listDomains v;
    match domains with
    | Err e => Ret (retryable "failed to list domains" e)
    | Ok domains =>
        if negb (has_domain id domains) then _ ← cleanupOrphanedResources v id; Ret (Ok "")
        else
          disks ← getDomainDiskPaths v id;
          iso ← getCloudInitISOPath v id;
          _ ← destroyDomain v id;
          e ← undefineDomain v id;
          match e with
          | Some e => Ret (retryable "failed to undefine domain" e)
          | None =>
              _ ← delete_files v (match disks with Ok l => l | Err _ => [] end);
              let iso := match iso with Ok i => i | Err _ => "" end in
              _ ← (if is_empty iso then Ret None else deleteCloudInitResources v iso);
              Ret (Ok "")
          end
    end).

(** ** Power *)
Definition syncPersistentXML (v : VirshProvider) (name : string) : VE :=
  r ← output v ["dumpxml"; name];
  match r with
  | Err e => Ret (Some (EWrap "failed to dump running XML" e))
  | Ok xml =>
      let path := "/tmp/" +:+ name +:+ "-sync.xml" in
      now ← vdo UnixNano;
      e ← perform v "failed to write sync XML file" (script (here_document path ("EOF_SYNC_" +:+ FormatInt now) xml));
      match e with
      | Some e => Ret (Some e)
      | None =>
          r ← runRemoteVirshCommand v ["define"; path];
          match r with
          | Failed _ e => Ret (Some (EWrap "failed to redefine domain" e))
          | Ran _ => _ ← attempt v ["!"; "rm"; "-f"; path]; Ret None
          end
      end
  end.
Definition start_and_sync (v : VirshProvider) (name : string) : VE :=
  e ← startDomain v name;
  match e with
  | Some e => Ret (Some e)
  | None => _ ← syncPersistentXML v name; Ret None
  end.
Definition Power (p : Provider) (id : string) (op : PowerOp) : PR string :=
  with_virsh p (fun v =>
    e ← match op with
        | PowerOpOn => start_and_sync v id
        | PowerOpOff => stopDomain v id
        | PowerOpReboot => _ ← stopDomain v id; start_and_sync v id
        | PowerOpShutdownGraceful =>
            e ← shutdownDomain v id;
            match e with Some _ => stopDomain v id | None => Ret None end
        end;
    Ret (match e with
         | Some e => retryable ("failed to perform power operation " +:+ PowerOp_string op) e
         | None => Ok ""
         end)).

End Provider.
