(* ===== verification/LibvirtOps.v ===== *)
(** * LibvirtOps: the operations on a machine of the libvirt provider

    Models, of [internal/providers/libvirt/provider_virsh.go], the change and the
    description of a machine, the guest commands, the snapshots, the information on a
    disk and the listing of machines, with [disk_expand.go] and [clone.go].  Log lines
    are left out; what a change counts as changed is only logged.  Printing a time is a
    parameter. *)
From stdpp Require Import base gmap strings list pretty.
From Stdlib Require Import Ascii ZArith.
From S2P Require Import Prelude Contracts Effects GoLib Utf8 Json Virsh LibvirtDomains GuestAgent LibvirtStorage LibvirtXml Libvirt.
#[local] Open Scope Z_scope.

(** A time in nanoseconds, in RFC 3339. *)
Class TimeFormat := { format_nano : Z -> string }.

Abbreviation Info := (gmap string string).
Record GetDiskInfoResponse := mkGetDiskInfoResponse {
  gdi_DiskId : string; gdi_Format : string; gdi_VirtualSizeBytes : Z; gdi_ActualSizeBytes : Z; gdi_Path : string;
  gdi_IsBootable : bool; gdi_Snapshots : list string; gdi_BackingFile : string; gdi_Metadata : gmap string string
}.

Section Operations.
Context `{Url : UrlLibrary} `{Unicode : UnicodeTable} `{Json : JsonLibrary} `{Size : SizeFormat} `{Fmt : FmtLibrary}.
Context `{Xml : XmlLibrary} `{Time : TimeFormat} `{CloneReader : CloneClassReader}.
Context (ticks : nat).

(** ** Changing a machine *)
Definition extractCPUCount (info : gmap string string) : option Z :=
  s ← info !! "CPU(s)"; ParseInt s 32.
Definition extractMemoryKB (info : gmap string string) : option Z :=
  s ← match info !! "Max memory" with Some s => Some s | None => info !! "Used memory" end;
  ParseInt (TrimSuffix (TrimSuffix (TrimSpace s) " KiB") " kB") 64.

Definition reconfigure_cpu (v : VirshProvider) (id : string) (running : bool) (info : gmap string string)
    (cpu : Z) : VM unit :=
  if 0 <? cpu then
    match extractCPUCount info with
    | Some current =>
        if current =? cpu then Ret tt
        else attempt v ["setvcpus"; id; FormatInt cpu; if running then "--live" else "--config"]
    | None => Ret tt
    end
  else Ret tt.
Definition reconfigure_memory (v : VirshProvider) (id : string) (running : bool) (info : gmap string string)
    (memoryMiB : Z) : VM unit :=
  if 0 <? memoryMiB then
    let desired := memoryMiB * 1024 in
    let size := FormatInt desired +:+ "K" in
    match extractMemoryKB info with
    | Some current =>
        if current =? desired then Ret tt
        else if running then attempt v ["setmem"; id; size; "--live"]
        else
          r ← output v ["setmem"; id; size; "--config"];
          match r with
          | Ok _ => attempt v ["setmaxmem"; id; size; "--config"]
          | Err _ => Ret tt
          end
    | None => Ret tt
    end
  else Ret tt.

Definition bytesPerGiB : Z := 1024 * 1024 * 1024.
Definition growThresholdBytes : Z := 1024 * 1024.
Definition primary_target (words : list string) : option string :=
  match words with
  | target :: source :: _ =>
      if String.eqb source "-" || is_cloudinit_iso source then None else Some target
  | _ => None
  end.
Definition parseDomblklistPrimaryTarget (out : string) : option string :=
  head (omap (fun l => if has_prefix (TrimSpace l) "-" then None else primary_target (Fields (TrimSpace l)))
          (tail (lines (TrimSpace out)))).
(** The text of the error of [strconv.ParseInt]. *)
Definition ParseInt_problem (s : string) : string :=
  let ds := match s with
            | String c s' => if Ascii.eqb c "-" || Ascii.eqb c "+" then s' else s
            | EmptyString => s
            end in
  "strconv.ParseInt: parsing " +:+ quote s +:+ ": "
  +:+ (if negb (is_empty ds) && all_chars is_digit ds then "value out of range" else "invalid syntax").
(** The first line of the capacity decides. *)
Fixpoint capacity_in (ls : list string) : res Z :=
  match ls with
  | [] => Err (ENew "no Capacity line found in domblkinfo output")
  | line :: rest =>
      let line := TrimSpace line in
      if has_prefix line "Capacity:" then
        match Fields line with
        | _ :: n :: _ =>
            match ParseInt n 64 with
            | Some c => Ok c
            | None => Err (EWrap ("parse domblkinfo Capacity " +:+ quote n) (ENew (ParseInt_problem n)))
            end
        | _ => Err (ENew ("malformed Capacity line in domblkinfo: " +:+ quote line))
        end
      else capacity_in rest
  end.
Definition parseDomblkinfoCapacity (out : string) : res Z := capacity_in (lines out).
Definition shouldGrowDisk (current desired : Z) : bool := growThresholdBytes <? to_int64 (desired - current).
Definition fsGrowCommands (target : string) : list string :=
  ["growpart /dev/" +:+ target +:+ " 1"; "resize2fs /dev/" +:+ target +:+ "1"; "xfs_growfs /"].
Fixpoint run_in_guest (v : VirshProvider) (id : string) (commands : list string) : VM unit :=
  match commands with
  | [] => Ret tt
  | c :: rest => _ ← ExecuteGuestCommand v ticks id c; run_in_guest v id rest
  end.
Definition growGuestFilesystemBestEffort (v : VirshProvider) (id target : string) : VM unit :=
  up ← isGuestAgentAvailable v id;
  if (up : bool) then run_in_guest v id (fsGrowCommands target) else Ret tt.

Definition grow_target (v : VirshProvider) (id target : string) (desiredGB : Z) : PR bool :=
  _ ← ResizeVolume v "default" (disk_volume id) desiredGB;
  r ← output v ["blockresize"; id; target; size_arg desiredGB];
  match r with
  | Err e =>
      Ret (Err (EWrap ("blockresize domain " +:+ id +:+ " target " +:+ target +:+ " to " +:+ FormatInt desiredGB
                       +:+ "GB") e))
  | Ok _ => _ ← growGuestFilesystemBestEffort v id target; Ret (Ok true)
  end.
Definition growDiskOnline (v : VirshProvider) (id : string) (desiredGB : Z) : PR bool :=
  r ← output v ["domblklist"; id];
  match r with
  | Err e => Ret (Err (EWrap ("list block devices for domain " +:+ id) e))
  | Ok out =>
      match parseDomblklistPrimaryTarget out with
      | None => Ret (Err (EWrap ("resolve primary disk target for domain " +:+ id)
                            (ENew "no primary disk target found in domblklist output")))
      | Some target =>
          let where_ := " for domain " +:+ id +:+ " target " +:+ target in
          r ← output v ["domblkinfo"; id; target];
          match r with
          | Err e => Ret (Err (EWrap ("read block info" +:+ where_) e))
          | Ok out =>
              match parseDomblkinfoCapacity out with
              | Err e => Ret (Err (EWrap ("parse current capacity" +:+ where_) e))
              | Ok current =>
                  if shouldGrowDisk current (desiredGB * bytesPerGiB) then grow_target v id target desiredGB
                  else Ret (Ok false)
              end
          end
      end
  end.
Definition reconfigure_disk (v : VirshProvider) (id : string) (running : bool) (desired : CreateRequest)
    : VM (option goerror) :=
  let size := match class_DiskDefaults (req_Class desired) with Some d => dd_SizeGiB d | None => 0 end in
  if 0 <? size then
    if running then
      r ← growDiskOnline v id size;
      Ret (match r with Ok _ => None | Err e => Some (NewRetryableError "online disk grow failed" (Some e)) end)
    else _ ← ResizeVolume v "default" (disk_volume id) size; Ret None
  else Ret None.
Definition Reconfigure (p : Provider) (id : string) (desired : CreateRequest) : PR string :=
  with_virsh p (fun v =>
    state ← getDomainState v id;
    match state with
    | Err e => Ret (retryable "failed to get domain state" e)
    | Ok state =>
        let running := String.eqb state "running" in
        info ← getDomainInfo v id;
        match info with
        | Err e => Ret (retryable "failed to get current domain info" e)
        | Ok info =>
            _ ← reconfigure_cpu v id running info (CPU (req_Class desired));
            _ ← reconfigure_memory v id running info (MemoryMiB (req_Class desired));
            e ← reconfigure_disk v id running desired;
            Ret (match e with Some e => Err e | None => Ok "" end)
        end
    end).

(** ** Describing a machine *)
Definition vnc_in_line (line : string) : option Z :=
  if contains line "<graphics" && contains line "type='vnc'" then
    i ← Index line "port='";
    let rest := from (i + 6) line in
    n ← Index rest "'";
    if (0 <? n)%nat then port ← Atoi (slice 0 n rest); if 0 <? port then Some port else None else None
  else None.
Definition getVNCPort (v : VirshProvider) (name : string) : PR Z :=
  r ← output v ["dumpxml"; name];
  Ret (match r with
       | Err e => Err (EWrap "failed to get domain XML" e)
       | Ok out =>
           match omap (fun l => vnc_in_line (TrimSpace l)) (lines out) with
           | port :: _ => Ok port
           | [] => Err (ENew "VNC port not found in domain XML")
           end
       end).

Definition mapLibvirtPowerState (state : string) : string :=
  if String.eqb (ToLower state) "running" then "On" else "Off".

Definition known (info : Info) (k : string) : bool := negb (is_empty (map_get info k)).
Definition getToolsStatus (info : Info) : string :=
  let status := map_get info "guest_agent_status" in
  if negb (is_empty status) then
    if String.eqb status "available" then "toolsOk"
    else if String.eqb status "not_available" then "toolsNotInstalled" else "toolsNotRunning"
  else if known info "guest_hostname" || known info "guest_ip_addresses" then "toolsOk"
  else if known info "guest_os" && negb (String.eqb (map_get info "guest_os") (map_get info "OS Type")) then "toolsOk"
  else "toolsNotInstalled".

(** What the agent says is added entry by entry. *)
Definition set_all (l : list (string * string)) (info : Info) : Info :=
  foldl (fun m e => <[e.1 := e.2]> m) info l.
Definition os_entries (g : GuestAgentInfo) : list (string * string) :=
  if is_empty (OSName g) then []
  else [("guest_os", OSName g); ("guest_os_version", OSVersion g); ("guest_os_pretty_name", OSPrettyName g);
        ("guest_kernel_release", OSKernelRelease g); ("guest_machine", OSMachine g)].
Definition interface_entries (i : GuestNetworkInterface) : list (string * string) :=
  let key what := "net_" +:+ gif_Name i +:+ "_" +:+ what in
  let s := gif_Statistics i in
  [(key "rx_bytes", FormatInt (RxBytes s)); (key "tx_bytes", FormatInt (TxBytes s));
   (key "rx_packets", FormatInt (RxPackets s)); (key "tx_packets", FormatInt (TxPackets s));
   (key "mac", gif_HardwareAddr i)].
Definition network_entries (g : GuestAgentInfo) : list (string * string) :=
  match NetworkInterfaces g with
  | [] => []
  | l => (l ≫= interface_entries) ++ [("guest_network_interfaces", String.concat "," (gif_Name <$> l))]
  end.
Definition guest_addresses (g : GuestAgentInfo) : list string := NetworkInterfaces g ≫= gif_IPAddresses.
Definition uint64_add (a b : Z) : Z := (a + b) mod 2 ^ 64.
Definition filesystem_entries (f : GuestFilesystem) : list (string * string) :=
  let safe := ReplaceAll (ReplaceAll (gfs_Mountpoint f) "/" "_") "-" "_" in
  let key what := "fs_" +:+ safe +:+ "_" +:+ what in
  [(key "total", FormatInt (gfs_TotalBytes f)); (key "used", FormatInt (gfs_UsedBytes f));
   (key "free", FormatInt (gfs_FreeBytes f)); (key "type", gfs_Type f)].
Definition disk_entries (g : GuestAgentInfo) : list (string * string) :=
  match Filesystems g with
  | [] => []
  | l =>
      let total := foldl (fun t f => uint64_add t (gfs_TotalBytes f)) 0 l in
      let used := foldl (fun t f => uint64_add t (gfs_UsedBytes f)) 0 l in
      (l ≫= filesystem_entries)
      ++ [("guest_filesystems", String.concat "," (gfs_Mountpoint <$> l)); ("guest_disk_total", FormatInt total);
          ("guest_disk_used", FormatInt used); ("guest_disk_free", FormatInt (uint64_sub total used))]
  end.
Definition user_name (u : GuestUser) : string :=
  if is_empty (gu_Domain u) then gu_User u else gu_User u +:+ "@" +:+ gu_Domain u.
Definition user_entries (g : GuestAgentInfo) : list (string * string) :=
  match Users g with
  | [] => []
  | l => [("guest_users", String.concat "," (user_name <$> l));
          ("guest_user_count", FormatInt (Z.of_nat (length l)))]
  end.
Definition agent_entries (g : GuestAgentInfo) : list (string * string) :=
  os_entries g ++ [("guest_agent_status", AgentStatus g)]
  ++ (if is_empty (AgentVersion g) then [] else [("guest_agent_version", AgentVersion g)])
  ++ network_entries g ++ disk_entries g
  ++ (match GuestTime g with
      | Some t => [("guest_time", format_nano t); ("guest_time_sync", "available")]
      | None => []
      end)
  ++ user_entries g.

Definition listed_addresses (info : Info) : list string :=
  List.filter (fun ip => negb (is_empty ip)) (TrimSpace <$> Split "," (map_get info "guest_ip_addresses")).
Definition console_host (v : VirshProvider) : string :=
  match url_Parse (vp_uri v) with
  | Ok u =>
      if is_empty (vp_uri v) || is_empty (url_Host u) then "localhost"
      else match Cut ":" (url_Host u) with Some (h, _) => h | None => url_Host u end
  | Err _ => "localhost"
  end.
(** The address of the console, with the port that goes into the data. *)
Definition console_of (v : VirshProvider) (id state : string) : VM (string * list (string * string)) :=
  if String.eqb state "On" then
    port ← getVNCPort v id;
    Ret (match port with
         | Ok p => ("vnc://" +:+ console_host v +:+ ":" +:+ FormatInt p, [("vnc_port", FormatInt p)])
         | Err _ => ("", [])
         end)
  else Ret ("", []).

Definition Describe (p : Provider) (id : string) : PR DescribeResponse :=
  with_virsh p (fun v =>
    r ← getDomainInfo v id;
    match r with
    | Err e => Ret (retryable "failed to get domain info" e)
    | Ok info =>
        let state := mapLibvirtPowerState (map_get info "State") in
        let listed := listed_addresses info in
        let hostname := if known info "guest_hostname" then map_get info "guest_hostname" else map_get info "Name" in
        guest ← (if String.eqb state "On" then g ← GetGuestInfo v id; Ret (Some g) else Ret None);
        let info := match guest with Some g => set_all (agent_entries g) info | None => info end in
        let ips := match guest with
                   | Some g => match guest_addresses g with [] => listed | l => l end
                   | None => listed
                   end in
        let info := set_all [("primary_ip", default "" (head ips)); ("hostname", hostname)] info in
        let info := <["power_state_mapped" := state]> (<["tools_status" := getToolsStatus info]> info) in
        let info := if negb (known info "guest_os") && known info "OS Type"
                    then <["guest_os" := map_get info "OS Type"]> info else info in
        console ← console_of v id state;
        Ret (Ok (mkDescribeResponse true state ips console.1 (set_all console.2 info)))
    end).

(** ** Tasks and guest commands *)
Definition IsTaskComplete (taskRef : string) : PR bool := Ret (Ok true).
Definition TaskStatus (taskRef : string) : PR contracts_TaskStatus := Ret (Ok (mkTaskStatus true "" "Task completed")).

Definition Provider_ExecuteGuestCommand (p : Provider) (id command : string) : PR string :=
  with_virsh p (fun v =>
    r ← ExecuteGuestCommand v ticks id command;
    Ret (match r with Ok out => Ok out | Err e => retryable "failed to execute guest command" e end)).
Definition SyncGuestTime (p : Provider) (id : string) : VM (option goerror) :=
  match virshProvider p with
  | None => Ret (Some (NewRetryableError "virsh provider not initialized" None))
  | Some v =>
      e ← SetGuestTime v id;
      Ret (option_map (fun e => NewRetryableError "failed to sync guest time" (Some e)) e)
  end.
Definition Provider_GetGuestInfo (p : Provider) (id : string) : PR GuestAgentInfo :=
  with_virsh p (fun v => g ← GetGuestInfo v id; Ret (Ok g)).

(** ** Snapshots *)
Definition snapshot_char (c : ascii) : bool :=
  is_digit c || in_range "a" "z" c || in_range "A" "Z" c
  || Ascii.eqb c "_" || Ascii.eqb c "." || Ascii.eqb c "-".
(** The rune that is not allowed becomes one hyphen. *)
Definition snapshot_rune (r : Z) : Z := if (r <? 128) && snapshot_char (char r) then r else byte "-".
Definition leading_mark (c : ascii) : bool := Ascii.eqb c "-" || Ascii.eqb c "_" || Ascii.eqb c ".".
Definition plain_snapshot_name (name : string) : string :=
  String.substring 0 64 (TrimLeft leading_mark (Map snapshot_rune name)).
Definition timestamp_name : VM string :=
  now ← vdo Now; Ret ("snapshot-" +:+ FormatInt (fst (now : Z * string))).
Definition sanitizeSnapshotName (name : string) : VM string :=
  let s := plain_snapshot_name name in
  if is_empty s then timestamp_name else Ret s.

Definition buildSnapshotCreateArgs (vmID name description : string) (includeMemory running : bool)
    : list string * bool :=
  let args := ["snapshot-create-as"; vmID; name; "--description"; description; "--atomic"] in
  if includeMemory && running then (args, true) else (args ++ ["--disk-only"], false).
(** [state_error] is what becomes of the error of the state. *)
Definition snapshot_create (state_error : goerror -> goerror) (v : VirshProvider)
    (vmID nameHint description : string) (includeMemory : bool) : PR string :=
  hint ← (if is_empty nameHint then timestamp_name else Ret nameHint);
  name ← sanitizeSnapshotName hint;
  description ← (if is_empty description
                 then now ← vdo Now; Ret ("Snapshot created by VirtRigaud at " +:+ snd (now : Z * string))
                 else Ret description);
  state ← getDomainState v vmID;
  match state with
  | Err e => Ret (Err (state_error e))
  | Ok state =>
      let args := fst (buildSnapshotCreateArgs vmID name description includeMemory (String.eqb state "running")) in
      e ← perform v "failed to create snapshot" args;
      Ret (match e with Some e => Err e | None => Ok name end)
  end.
Definition snapshot_delete (v : VirshProvider) (vmID snapshot : string) : PR string :=
  found ← snapshotExists v vmID snapshot;
  match found with
  | Err e => Ret (Err (EWrap "failed to check snapshot existence" e))
  | Ok false => Ret (Ok "")
  | Ok true =>
      e ← perform v "failed to delete snapshot" ["snapshot-delete"; vmID; snapshot];
      Ret (match e with Some e => Err e | None => Ok "" end)
  end.
Definition snapshot_revert (v : VirshProvider) (vmID snapshot : string) : PR string :=
  found ← snapshotExists v vmID snapshot;
  match found with
  | Err e => Ret (Err (EWrap "failed to check snapshot existence" e))
  | Ok false => Ret (Err (ENew ("snapshot " +:+ snapshot +:+ " does not exist")))
  | Ok true =>
      state ← getDomainState v vmID;
      match state with
      | Err e => Ret (Err (EWrap "failed to get domain state" e))
      | Ok state =>
          e ← perform v "failed to revert to snapshot"
                (["snapshot-revert"; vmID; snapshot; "--force"]
                 ++ if String.eqb state "running" then ["--running"] else []);
          Ret (match e with Some e => Err e | None => Ok "" end)
      end
  end.
Definition SnapshotCreate (p : Provider) (req : SnapshotCreateRequest) : PR SnapshotCreateResponse :=
  with_virsh p (fun v =>
    r ← snapshot_create (fun e => NewRetryableError "failed to get domain state" (Some e)) v
          (snap_VmId req) (snap_NameHint req) (snap_Description req) (snap_IncludeMemory req);
    Ret (match r with Ok name => Ok (mkSnapshotCreateResponse name None) | Err e => Err e end)).
Definition SnapshotDelete (p : Provider) (vmID snapshot : string) : PR string :=
  with_virsh p (fun v => snapshot_delete v vmID snapshot).
Definition SnapshotRevert (p : Provider) (vmID snapshot : string) : PR string :=
  with_virsh p (fun v => snapshot_revert v vmID snapshot).

(** ** Disks *)
Definition clonePoolName : string := "default".
(** The path and the format; a volume never has a format here. *)
Definition resolvePrimaryDisk (v : VirshProvider) (id : string) : PR (string * string) :=
  r ← getDomainDiskPaths v id;
  match r with
  | Err e => Ret (retryable ("failed to read disks for source VM " +:+ quote id) e)
  | Ok [] => Ret (Err (NewInvalidSpecError ("source VM " +:+ quote id +:+ " has no usable disk to clone") None))
  | Ok (path :: _) =>
      vol ← GetVolumeInfo v clonePoolName (disk_volume id);
      Ret (Ok (path, match vol with
                     | Ok vol => if is_empty (vol_Format vol) then "qcow2" else vol_Format vol
                     | Err _ => "qcow2"
                     end))
  end.

(** What [qemu-img info] says: the virtual and the actual size, and the format. *)
Definition qemu_info (out : string) : option (Z * Z * string) :=
  j ← json_Unmarshal out;
  into_struct (fun o =>
    virtual ← field_int o "virtual-size"; actual ← field_int o "actual-size"; format ← field_string o "format";
    Some (virtual, actual, format)) j.
Definition GetDiskInfo (p : Provider) (vmID diskID : string) : PR GetDiskInfoResponse :=
  with_virsh p (fun v =>
    r ← resolvePrimaryDisk v vmID;
    match r with
    | Err e => Ret (Err (EWrap "failed to resolve primary disk" e))
    | Ok (primary, format) =>
        let path := if negb (is_empty diskID) && contains diskID "/" then diskID else primary in
        out ← output v ["!"; "qemu-img"; "info"; "-U"; "--output=json"; path];
        let '(virtual, actual, format) :=
          match (match out with Ok out => qemu_info out | Err _ => None end) with
          | Some (v, a, f) => (v, a, if is_empty f then format else f)
          | None => (0, 0, format)
          end in
        snapshots ← listSnapshots v vmID;
        Ret (Ok (mkGetDiskInfoResponse path format virtual actual path true
                   (match snapshots with Ok l => l | Err _ => [] end) ""
                   (<["pool" := "default"]> {["type" := "file"]})))
    end).

(** ** Listing machines *)
Definition domain_info (d : VirshDomain) (x : domainXML) : option VMInfo :=
  match dx_MemoryMiB x with
  | Err _ => None
  | Ok memory =>
      let state := mapLibvirtPowerState (dom_State d) in
      let raw := set_all [("domain_name", dom_Name d); ("domain_id", dom_ID d); ("state", dom_State d);
                          ("power_state", state)] ∅ in
      Some (mkVMInfo (dom_Name d) (dom_Name d) state [] (if dx_VCPU x =? 0 then 1 else dx_VCPU x) memory
              (Disks x (dom_Name d)) (Networks x)
              (if is_empty (dx_UUID x) then raw else <["uuid" := dx_UUID x]> raw))
  end.
Fixpoint infos_of (v : VirshProvider) (l : list VirshDomain) : VM (list VMInfo) :=
  match l with
  | [] => Ret []
  | d :: rest =>
      raw ← output v ["dumpxml"; dom_Name d];
      more ← infos_of v rest;
      Ret (match (match raw with Ok out => parseDomainXML out | Err e => Err e end) with
           | Ok x => option_list (domain_info d x) ++ more
           | Err _ => more
           end)
  end.
Definition ListVMs (p : Provider) : PR (list VMInfo) :=
  with_virsh p (fun v =>
    domains ← listDomains v;
    match domains with
    | Err e => Ret (Err (EWrap "failed to list domains" e))
    | Ok domains => l ← infos_of v domains; Ret (Ok l)
    end).

(** ** Cloning a machine *)
Definition finalizeClonedDisk (v : VirshProvider) (path : string) : VM unit :=
  _ ← own_and_label v path; attempt v ["pool-refresh"; clonePoolName].
Definition finish_disk (v : VirshProvider) (path what : string) (args : list string) : VE :=
  e ← perform_verbose what (runVirshCommand v args);
  match e with
  | Some e => Ret (Some e)
  | None => _ ← finalizeClonedDisk v path; Ret None
  end.
Definition createLinkedOverlay (v : VirshProvider) (src format target : string) : VE :=
  finish_disk v target "create linked-clone overlay"
    ["!"; "qemu-img"; "create"; "-f"; "qcow2"; "-b"; src; "-F"; format; target].
Definition createFullCopy (v : VirshProvider) (src target : string) : VE :=
  finish_disk v target "create full-clone copy" ["!"; "qemu-img"; "convert"; "-O"; "qcow2"; src; target].
(** The failure reads the standard error of the copy: a nil result is dereferenced. *)
Definition copyClonedNVRAM (v : VirshProvider) (src target : string) : VM unit :=
  e ← perform_verbose "" (runVirshCommand v ["!"; "sudo"; "cp"; "-f"; "--"; src; target]);
  match e with
  | Some _ => Ret tt
  | None =>
      _ ← attempt v ["!"; "sudo"; "chown"; "libvirt-qemu:kvm"; target];
      attempt v ["!"; "sudo"; "restorecon"; target]
  end.

Definition clone_domain (v : VirshProvider) (req : CloneRequest) (src target : string) : PR CloneResponse :=
  xml ← output v ["dumpxml"; clq_SourceVmID req];
  match xml with
  | Err e => Ret (retryable "failed to dump source domain XML" e)
  | Ok xml =>
      r ← rewriteDomainXMLForClone xml (clq_TargetName req) src target;
      match r with
      | Err e => Ret (Err (NewInvalidSpecError "rewrite source domain XML for clone" (Some e)))
      | Ok (domain, nvram, newNvram) =>
          _ ← (if negb (is_empty nvram) && negb (is_empty newNvram) then copyClonedNVRAM v nvram newNvram else Ret tt);
          let domain := applyClassOverrides domain (clq_ClassJSON req) in
          then_ (createDomainDefinition v (clq_TargetName req) domain) "create target domain definition" (
          then_ (defineDomain v (clq_TargetName req)) "define target domain" (
          Ret (Ok (mkCloneResponse (clq_TargetName req) ""))))
      end
  end.
Definition clone_disk (v : VirshProvider) (req : CloneRequest) : PR CloneResponse :=
  r ← resolvePrimaryDisk v (clq_SourceVmID req);
  match r with
  | Err e => Ret (Err e)
  | Ok (src, format) =>
      pool ← GetPoolInfo v clonePoolName;
      match pool with
      | Err e => Ret (Err (EWrap ("get pool " +:+ quote clonePoolName +:+ " info") e))
      | Ok pool =>
          let target := filepath_Join (pool_Path pool) (disk_volume (clq_TargetName req) +:+ ".qcow2") in
          e ← (if clq_Linked req then createLinkedOverlay v src format target else createFullCopy v src target);
          match e with
          | Some e => Ret (Err e)
          | None => clone_domain v req src target
          end
      end
  end.
Definition Clone (p : Provider) (req : CloneRequest) : PR CloneResponse :=
  with_virsh p (fun v =>
    if is_empty (clq_SourceVmID req) then Ret (Err (NewInvalidSpecError "clone source VM ID is required" None))
    else if is_empty (clq_TargetName req) then Ret (Err (NewInvalidSpecError "clone target name is required" None))
    else
      state ← getDomainState v (clq_SourceVmID req);
      match state with
      | Err e =>
          Ret (Err (NewNotFoundError ("source VM " +:+ quote (clq_SourceVmID req) +:+ " not found") (Some e)))
      | Ok _ =>
          domains ← listDomains v;
          match domains with
          | Err e => Ret (retryable "failed to list domains" e)
          | Ok domains =>
              if has_domain (clq_TargetName req) domains
              then Ret (Err (NewInvalidSpecError ("target VM " +:+ quote (clq_TargetName req) +:+ " already exists") None))
              else clone_disk v req
          end
      end).
End Operations.
