(* ===== verification/LibvirtImage.v ===== *)
(** * LibvirtImage: images and disks that come from elsewhere

    Models [internal/providers/libvirt/image.go], and the helpers in [s3import.go] and
    [provider_virsh_helpers.go] it uses.  The comparison of texts up to case is a
    parameter. *)
From stdpp Require Import base gmap strings list.
From Stdlib Require Import Ascii ZArith.
From S2P Require Import Prelude Contracts Effects GoLib Utf8 Json Virsh LibvirtDomains GuestAgent LibvirtStorage LibvirtXml Libvirt LibvirtOps.
#[local] Open Scope Z_scope.

(** [strings.EqualFold]. *)
Class FoldLibrary := { EqualFold : string -> string -> bool }.

Record libvirtImageSource := mkLibvirtImageSource {
  lis_Path : string; lis_URL : string; lis_Format : string; lis_Checksum : string;
  lis_ChecksumType : string; lis_StoragePool : string
}.
Definition no_source : libvirtImageSource := mkLibvirtImageSource "" "" "" "" "" "".

(** ** The source of an image *)
Definition decode_libvirt_source (o : list (string * json)) : option libvirtImageSource :=
  path ← field_string o "path"; url ← field_string o "url"; format ← field_string o "format";
  sum ← field_string o "checksum"; type ← field_string o "checksumType"; pool ← field_string o "storagePool";
  Some (mkLibvirtImageSource path url format sum type pool).
Definition decode_vmimage_spec : json -> option (option libvirtImageSource) :=
  into_struct (fun o =>
    field_struct (fun source => field_struct_pointer decode_libvirt_source source "libvirt") o "source").
(** The fields of [contracts.VMImage] have no tags. *)
Definition decode_contract_image : json -> option libvirtImageSource :=
  into_struct (fun o =>
    _ ← field_string o "TemplateName"; path ← field_string o "Path"; url ← field_string o "URL";
    format ← field_string o "Format"; sum ← field_string o "Checksum"; type ← field_string o "ChecksumType";
    Some (mkLibvirtImageSource path url format sum type "")).
Definition has_location (s : libvirtImageSource) : bool := negb (is_empty (lis_Path s)) || negb (is_empty (lis_URL s)).
Definition located (s : option libvirtImageSource) : option libvirtImageSource :=
  s ← s; if has_location s then Some s else None.

Definition resolveTargetPool (storageHint sourcePool : string) : string :=
  if negb (is_empty storageHint) then storageHint
  else if negb (is_empty sourcePool) then sourcePool else "default".
Definition targetImagePath (poolPath targetName : string) : string :=
  filepath_Join poolPath (targetName +:+ ".qcow2").

(** ** Names *)
Definition shellQuote (s : string) : string :=
  "'" +:+ String.concat "'\''" (Split "'" s) +:+ "'".
(** Two dots in a row become a hyphen. *)
Fixpoint replace_dots (s : string) : string :=
  match s with
  | String c (String d s' as rest) =>
      if Ascii.eqb c "." && Ascii.eqb d "." then String "-" (replace_dots s') else String c (replace_dots rest)
  | _ => s
  end.
Definition sanitizeVolumeName (name : string) : VM string :=
  let name := TrimSuffix (replace_dots (ReplaceAll (TrimSpace name) "/" "-")) ".qcow2" in
  if is_empty name then now ← vdo Now; Ret ("imported-disk-" +:+ FormatInt (fst (now : Z * string)))
  else Ret name.
Definition qemuImgStderr (r : option VirshResult) : string :=
  let s := TrimSpace (stderr_of r) in
  if is_empty s then "" else " (qemu-img stderr: " +:+ s +:+ ")".
Definition extractPVCNameFromURL (url : string) : res string :=
  let rest := TrimPrefix url "pvc://" in
  let name := match Cut "/" rest with Some (n, _) => n | None => rest end in
  if is_empty name
  then Err (ENew ("invalid PVC URL format: expected pvc://<pvc-name>/<file-path>, got: " +:+ rest))
  else Ok name.

Section Images.
Context `{Url : UrlLibrary} `{Unicode : UnicodeTable} `{Json : JsonLibrary} `{Size : SizeFormat} `{Fmt : FmtLibrary}.
Context `{Fold : FoldLibrary}.

Definition parseLibvirtImageSource (imageJSON : string) : libvirtImageSource :=
  if is_empty (TrimSpace imageJSON) then no_source
  else
    match json_Unmarshal imageJSON with
    | None => no_source
    | Some j =>
        match located (s ← decode_vmimage_spec j; s) with
        | Some s => s
        | None => default no_source (located (decode_contract_image j))
        end
    end.

(** The program of a checksum; [false] when the algorithm is not known. *)
Definition checksumTool (checksumType : string) : string * bool :=
  let t := ToLower (TrimSpace checksumType) in
  if is_empty t || String.eqb t "sha256" then ("sha256sum", true)
  else if String.eqb t "md5" then ("md5sum", true)
  else if String.eqb t "sha1" then ("sha1sum", true)
  else if String.eqb t "sha512" then ("sha512sum", true)
  else ("sha256sum", false).

Definition removeHostFile (v : VirshProvider) (path : string) : VM unit := attempt v ["!"; "rm"; "-f"; path].
Definition targetImageExists (v : VirshProvider) (path : string) : VM bool :=
  r ← output v ["!"; "stat"; "-c"; "%s"; path];
  Ret (match r with Ok out => negb (is_empty (TrimSpace out)) | Err _ => false end).
Definition downloadOnHost (v : VirshProvider) (url path : string) : VE :=
  r ← runVirshCommand v ["!"; "curl"; "-fsSL"; url; "-o"; path];
  Ret (match r with
       | Ran _ => None
       | Failed res e =>
           Some (NewRetryableError ("download image from " +:+ quote url +:+ " on libvirt host: "
                                    +:+ TrimSpace (stderr_of res)) (Some e))
       end).
Definition convertIntoPool (v : VirshProvider) (src target : string) : VE :=
  r ← runVirshCommand v ["!"; "qemu-img"; "convert"; "-O"; "qcow2"; src; target];
  match r with
  | Ran _ => Ret None
  | Failed res e =>
      _ ← removeHostFile v target;
      Ret (Some (ENew ("convert image into pool (" +:+ quote src +:+ " -> " +:+ quote target +:+ "): " +:+ Error e
                       +:+ ", output: " +:+ TrimSpace (stderr_of res))))
  end.
Definition verifyChecksum (v : VirshProvider) (path expected checksumType : string) : VE :=
  if is_empty (TrimSpace expected) then Ret None
  else
    let '(tool, known) := checksumTool checksumType in
    if negb known then
      Ret (Some (NewInvalidSpecError ("unsupported checksum type " +:+ quote checksumType
                                      +:+ " (want md5/sha1/sha256/sha512)") None))
    else
      let what := "compute " +:+ tool +:+ " of " +:+ quote path +:+ ": " in
      r ← runVirshCommand v ["!"; tool; path];
      Ret (match r with
           | Failed res e => Some (NewRetryableError (what +:+ TrimSpace (stderr_of res)) (Some e))
           | Ran out =>
               match Fields (vr_Stdout out) with
               | [] => Some (NewRetryableError (what +:+ "empty output") None)
               | got :: _ =>
                   if EqualFold got (TrimSpace expected) then None
                   else Some (NewInvalidSpecError ("checksum mismatch for " +:+ quote path +:+ ": expected "
                                                   +:+ expected +:+ ", got " +:+ got) None)
               end
           end).

(** A checked file becomes the image. *)
Definition install (v : VirshProvider) (s : libvirtImageSource) (file target : string) : VE :=
  e ← verifyChecksum v file (lis_Checksum s) (lis_ChecksumType s);
  match e with
  | Some e => Ret (Some e)
  | None =>
      e ← convertIntoPool v file target;
      match e with
      | Some e => Ret (Some e)
      | None => _ ← finalizeClonedDisk v target; Ret None
      end
  end.
Definition download_path (poolPath targetName : string) : string :=
  filepath_Join poolPath (".virtrigaud-imageprepare-" +:+ targetName +:+ ".download").
Definition fetch (v : VirshProvider) (s : libvirtImageSource) (poolPath targetName target : string) : VE :=
  if negb (is_empty (lis_Path s)) then install v s (lis_Path s) target
  else
    let tmp := download_path poolPath targetName in
    e ← downloadOnHost v (lis_URL s) tmp;
    match e with
    | Some e => Ret (Some e)
    | None => e ← install v s tmp target; _ ← removeHostFile v tmp; Ret e
    end.

(** The name and the path of the prepared image. *)
Definition imagePrepare (p : Provider) (imageJSON targetName storageHint : string) : PR (string * string) :=
  with_virsh p (fun v =>
    let s := parseLibvirtImageSource imageJSON in
    if is_empty (TrimSpace targetName)
    then Ret (Err (NewInvalidSpecError "ImagePrepare target name is required" None))
    else if is_empty (lis_Path s) && is_empty (lis_URL s)
    then Ret (Err (NewInvalidSpecError "ImagePrepare requires a libvirt image source with a path or url (source.libvirt.path / source.libvirt.url)" None))
    else
      let pool := resolveTargetPool storageHint (lis_StoragePool s) in
      info ← GetPoolInfo v pool;
      match info with
      | Err e => Ret (Err (EWrap ("get storage pool " +:+ quote pool +:+ " info") e))
      | Ok info =>
          if is_empty (pool_Path info)
          then Ret (Err (NewInvalidSpecError ("storage pool " +:+ quote pool
                                              +:+ " has no filesystem path; cannot place image") None))
          else
            let target := targetImagePath (pool_Path info) targetName in
            found ← targetImageExists v target;
            if (found : bool) then Ret (Ok (targetName, target))
            else
              e ← fetch v s (pool_Path info) targetName target;
              Ret (match e with Some e => Err e | None => Ok (targetName, target) end)
      end).
End Images.
