(* ===== verification/LibvirtServer.v ===== *)
(** * LibvirtServer: the gRPC service of the libvirt provider

    Models [internal/providers/libvirt/server.go] and [nfs.go].  Reading the JSON of a
    request into the contract types is a parameter.  The methods that move disks are in
    [LibvirtTransfer].  A server without a provider has the nil interface, whose methods
    panic. *)
From stdpp Require Import base gmap strings list.
From Stdlib Require Import Ascii ZArith.
From S2P Require Import Prelude Contracts K8s Api CoreApi Effects GrpcClient GoLib Storage Utf8 Json Virsh LibvirtDomains GuestAgent LibvirtStorage LibvirtXml Libvirt LibvirtOps LibvirtImage.
#[local] Open Scope Z_scope.

(** [json.Unmarshal] into the contract types, and [json.Marshal] of a map. *)
Class SpecReader := {
  read_class : string -> res VMClass;
  read_image : string -> res VMImage;
  read_networks : string -> res (list NetworkAttachment);
  read_disks : string -> res (list DiskSpec);
  read_placement : string -> res (option Placement);
  read_request : string -> res CreateRequest;
  marshal_info : gmap string string -> option string
}.

(** The class and the image of a request that gives none. *)
Definition no_class : VMClass :=
  {| CPU := 0; MemoryMiB := 0; Firmware := ""; class_DiskDefaults := None; GuestToolsPolicy := "";
     ExtraConfig := ∅; class_PerformanceProfile := None; class_SecurityProfile := None;
     class_ResourceLimits := None |}.
Definition no_image : VMImage := mkVMImage "" "" "" "" "" "".

(** The provider behind the server; [None] is the nil interface. *)
Record Server := mkServer { srv_provider : option Provider }.

Section Server.
Context `{Url : UrlLibrary} `{Unicode : UnicodeTable} `{Json : JsonLibrary} `{Size : SizeFormat} `{Fmt : FmtLibrary}.
Context `{Xml : XmlLibrary} `{Time : TimeFormat} `{CloneReader : CloneClassReader} `{Fold : FoldLibrary}.
Context `{Reader : SpecReader} `{Libs : Libraries} `{Grpc : GrpcLibrary}.
Context (ticks : nat).

(** An error is wrapped, which hides its kind from the status of the call. *)
Definition wrap {A B} (what : string) (f : A -> B) (r : res A) : res B :=
  match r with Ok a => Ok (f a) | Err e => Err (EWrap what e) end.
Definition task_message (taskRef : string) : wire_Task :=
  mkWireTask "" (if is_empty taskRef then None else Some taskRef).
Definition with_provider {A} (s : Server) (k : Provider -> PR A) : PR A :=
  match srv_provider s with
  | None => Ret (Err (ENew "provider not initialized"))
  | Some p => k p
  end.
(** A method of the nil interface. *)
Definition of_interface {A} (s : Server) (k : Provider -> PR A) : PR A :=
  match srv_provider s with
  | None => Crash "nil pointer dereference"
  | Some p => k p
  end.
Definition with_libvirt {A} (s : Server) (k : Provider -> VirshProvider -> PR A) : PR A :=
  match srv_provider s with
  | Some p =>
      match virshProvider p with
      | Some v => k p v
      | None => Ret (Err (ENew "libvirt provider not initialized"))
      end
  | None => Ret (Err (ENew "libvirt provider not initialized"))
  end.

Definition Server_Validate (s : Server) : PR wire_Validate :=
  match srv_provider s with
  | None => Ret (Ok (mkWireValidate true "Provider server is running (provider not yet initialized)"))
  | Some p =>
      e ← Validate p;
      Ret (Ok (match e with
               | Some e => mkWireValidate false (Error e)
               | None => mkWireValidate true "Provider is healthy"
               end))
  end.

(** ** The request to create a machine *)
(** An empty part is left out. *)
Definition part {A} (text what : string) (read : string -> res A) (deflt : A) : res A :=
  if is_empty text then Ok deflt
  else match read text with Ok a => Ok a | Err e => Err (EWrap ("failed to parse " +:+ what +:+ " JSON") e) end.
Definition res_bind {A B} (r : res A) (f : A -> res B) : res B :=
  match r with Ok a => f a | Err e => Err e end.
Definition parseCreateRequest (req : wire_CreateRequest) : res CreateRequest :=
  res_bind (part (w_ClassJson req) "class" read_class no_class) (fun class =>
  res_bind (part (w_ImageJson req) "image" read_image no_image) (fun image =>
  res_bind (part (w_NetworksJson req) "networks" read_networks []) (fun networks =>
  res_bind (part (w_DisksJson req) "disks" read_disks []) (fun disks =>
  res_bind (part (w_PlacementJson req) "placement" read_placement None) (fun placement =>
  Ok (mkCreateRequest (w_Name req) class image networks disks
        (if is_empty (w_UserData req) then None else Some (mkUserData (w_UserData req) ""))
        None placement (w_Tags req))))))).

Definition Server_Create (s : Server) (req : wire_CreateRequest) : PR wire_Task :=
  with_provider s (fun p =>
    match parseCreateRequest req with
    | Err e => Ret (Err (EWrap "failed to parse create request" e))
    | Ok req =>
        r ← Create p req;
        Ret (wrap "failed to create VM"
               (fun resp => mkWireTask (resp_ID resp) (w_Task (task_message (resp_TaskRef resp)))) r)
    end).
Definition Server_Delete (s : Server) (id : string) : PR wire_Task :=
  of_interface s (fun p => r ← Delete p id; Ret (wrap "failed to delete VM" task_message r)).
Definition power_op (op : wire_PowerOp) : option PowerOp :=
  match op with
  | POWER_OP_ON => Some PowerOpOn
  | POWER_OP_OFF => Some PowerOpOff
  | POWER_OP_REBOOT => Some PowerOpReboot
  | POWER_OP_SHUTDOWN_GRACEFUL => Some PowerOpShutdownGraceful
  | POWER_OP_UNSPECIFIED => None
  end.
Definition Server_Power (s : Server) (id : string) (op : wire_PowerOp) : PR wire_Task :=
  match power_op op with
  | None => Ret (Err (ENew "unsupported power operation: POWER_OP_UNSPECIFIED"))
  | Some op =>
      of_interface s (fun p =>
        r ← Power p id op; Ret (wrap "failed to perform power operation" task_message r))
  end.
Definition Server_Reconfigure (s : Server) (id desiredJson : string) : PR wire_Task :=
  match read_request desiredJson with
  | Err e => Ret (Err (EWrap "failed to parse desired configuration" e))
  | Ok desired =>
      of_interface s (fun p =>
        r ← Reconfigure ticks p id desired; Ret (wrap "failed to reconfigure VM" task_message r))
  end.
Definition Server_Describe (s : Server) (id : string) : PR wire_Describe :=
  with_provider s (fun p =>
    r ← Describe p id;
    Ret (wrap "failed to describe VM" (fun d =>
           mkWireDescribe (Exists d) (desc_PowerState d) (IPs d) (ConsoleURL d)
             (if bool_decide (ProviderRaw d = ∅) then "{}" else default "{}" (marshal_info (ProviderRaw d)))) r)).
Definition Server_TaskStatus (s : Server) (task : string) : PR wire_TaskStatus :=
  of_interface s (fun p =>
    r ← IsTaskComplete task;
    Ret (Ok (match r with Ok done => mkWireTaskStatus done "" | Err e => mkWireTaskStatus false (Error e) end))).

(** ** Snapshots, clones and images *)
Definition Server_SnapshotCreate (s : Server) (vmId nameHint description : string) (includeMemory : bool)
    : PR wire_Task :=
  with_libvirt s (fun _ v =>
    r ← snapshot_create (EWrap "failed to get domain state") v vmId nameHint description includeMemory;
    Ret (match r with Ok name => Ok (mkWireTask name None) | Err e => Err e end)).
Definition Server_SnapshotDelete (s : Server) (vmId snapshot : string) : PR wire_Task :=
  with_libvirt s (fun _ v =>
    r ← snapshot_delete v vmId snapshot; Ret (match r with Ok t => Ok (task_message t) | Err e => Err e end)).
Definition Server_SnapshotRevert (s : Server) (vmId snapshot : string) : PR wire_Task :=
  with_libvirt s (fun _ v =>
    r ← snapshot_revert v vmId snapshot; Ret (match r with Ok t => Ok (task_message t) | Err e => Err e end)).
Definition Server_Clone (s : Server) (req : CloneRequest) : PR wire_Task :=
  match srv_provider s with
  | None => Ret (Err (ENew "libvirt provider not initialized"))
  | Some p =>
      r ← Clone p req;
      Ret (wrap "failed to clone VM"
             (fun resp => mkWireTask (clr_TargetVmID resp) (w_Task (task_message (clr_TaskRef resp)))) r)
  end.
Definition Server_ImagePrepare (s : Server) (imageJson targetName storageHint : string) : PR wire_ImagePrepare :=
  with_libvirt s (fun p _ =>
    r ← imagePrepare p imageJson targetName storageHint;
    Ret (wrap "failed to prepare image" (fun i => mkWireImagePrepare i.1 i.2 None) r)).
Definition Server_GetCapabilities : Capabilities :=
  mkCapabilities true true true true true true ["qcow2"; "raw"; "vmdk"] ["virtio"; "e1000"; "rtl8139"]
    true true ["qcow2"; "raw"] ["qcow2"; "raw"; "vmdk"] true
    PVCS3AndNFSExportBackends PVCS3AndNFSImportBackends RelayOnlyTransferModes.
Definition Server_GetDiskInfo (s : Server) (vmId diskId : string) : PR GetDiskInfoResponse :=
  with_provider s (fun p => r ← GetDiskInfo p vmId diskId; Ret (wrap "failed to get disk info" id r)).
Definition Server_ListVMs (s : Server) : PR (list VMInfo) :=
  with_provider s (fun p => r ← ListVMs p; Ret (wrap "failed to list VMs" id r)).

(** ** Disks over NFS *)
Definition over_ssh_only {A} (what : string) (v : VirshProvider) (k : PR A) : PR A :=
  if over_ssh v then k
  else Ret (Err (ENew (what +:+ quote (vp_uri v)))).
Definition nfs_url (what url : string) : res string :=
  let u := TrimSpace url in
  if has_prefix u "nfs://" then Ok u
  else Err (ENew (what +:+ " must be an nfs:// URL, got " +:+ quote u)).
(** A command whose standard error follows the error. *)
Definition qemu_img (what : string) (v : VirshProvider) (args : list string) : VE :=
  r ← runVirshCommand v ("!" :: "qemu-img" :: args);
  Ret (match r with
       | Ran _ => None
       | Failed res e => Some (ENew (what +:+ ": " +:+ Error e +:+ qemuImgStderr res))
       end).
Definition exportDiskToNFS (s : Server) (req : ExportDiskRequest) : PR ExportDiskResponse :=
  with_libvirt s (fun p v =>
    over_ssh_only "nfs export requires an ssh:// libvirt transport (host-side qemu-img → nfs://); got " v (
      match nfs_url "nfs export destination" (exp_DestinationURL req) with
      | Err e => Ret (Err e)
      | Ok url =>
          info ← GetDiskInfo p (exp_VmId req) (exp_DiskId req);
          match info with
          | Err e => Ret (Err (EWrap "failed to resolve source disk info" e))
          | Ok info =>
              if is_empty (gdi_Path info)
              then Ret (Err (ENew ("source disk " +:+ quote (exp_DiskId req) +:+ " has no resolvable host path")))
              else
                e ← qemu_img "host-side qemu-img convert to nfs failed" v
                      ["convert"; "-U"; "-f"; "qcow2"; "-O"; "qcow2"; shellQuote (gdi_Path info); shellQuote url];
                match e with
                | Some e => Ret (Err e)
                | None =>
                    now ← vdo Now;
                    Ret (Ok (mkExportDiskResponse
                               ("export-libvirt-nfs-" +:+ exp_VmId req +:+ "-" +:+ FormatInt (fst (now : Z * string)))
                               "" 0 ""))
                end
          end
      end)).

Definition target_pool (req : ImportDiskRequest) : string :=
  if is_empty (imp_StorageHint req) then "default" else imp_StorageHint req.
Definition target_volume (req : ImportDiskRequest) : VM string :=
  name ← (if is_empty (imp_TargetName req)
          then now ← vdo Now; Ret ("imported-disk-" +:+ FormatInt (fst (now : Z * string)))
          else Ret (imp_TargetName req));
  sanitizeVolumeName name.
Definition pool_for_import (v : VirshProvider) (req : ImportDiskRequest) : PR StoragePool :=
  then_ (EnsureDefaultStoragePool v) "failed to ensure storage pool" (
  info ← GetPoolInfo v (target_pool req);
  Ret (match info with
       | Err e => Err (EWrap ("failed to resolve target pool " +:+ quote (target_pool req)) e)
       | Ok info =>
           if is_empty (pool_Path info)
           then Err (ENew ("target pool " +:+ quote (target_pool req) +:+ " has no resolvable host path"))
           else Ok info
       end)).
Definition importDiskFromNFS (s : Server) (req : ImportDiskRequest) : PR ImportDiskResponse :=
  with_libvirt s (fun _ v =>
    over_ssh_only "nfs import requires an ssh:// libvirt transport (host-side qemu-img from nfs://); got " v (
      match nfs_url "nfs import source" (imp_SourceURL req) with
      | Err e => Ret (Err e)
      | Ok url =>
          pool ← pool_for_import v req;
          match pool with
          | Err e => Ret (Err e)
          | Ok pool =>
              volume ← target_volume req;
              let target := TrimRight is_slash (pool_Path pool) +:+ "/" +:+ volume +:+ ".qcow2" in
              e ← qemu_img "host-side qemu-img convert from nfs failed" v
                    ["convert"; "-f"; "qcow2"; "-O"; "qcow2"; shellQuote url; shellQuote target];
              match e with
              | Some e => Ret (Err e)
              | None =>
                  e ← qemu_img ("qemu-img check failed on imported qcow2 " +:+ target) v ["check"; shellQuote target];
                  match e with
                  | Some e => Ret (Err e)
                  | None =>
                      _ ← attempt v ["pool-refresh"; target_pool req];
                      Ret (Ok (mkImportDiskResponse volume target "" 0 ""))
                  end
              end
          end
      end)).
End Server.
