(* ===== verification/LibvirtProps.v ===== *)
(** * LibvirtProps: what the libvirt provider guarantees

    The processes of a command and its retries, the verification of host keys, the
    definition and the deletion of a machine, the growth of its disk, the room left for
    more processors and memory, and the check of an image before its use. *)
From stdpp Require Import base gmap strings list pretty.
From Stdlib Require Import Ascii ZArith Lia.
From S2P Require Import Prelude Contracts Effects GoLib Utf8 Json Virsh LibvirtDomains GuestAgent LibvirtStorage LibvirtXml Libvirt LibvirtOps LibvirtImage.
#[local] Open Scope Z_scope.

(** ** Processes *)
Abbreviation vevent := (event vcall vanswer).
Definition vev (c : vcall) (a : vanswer c) : vevent := @ev vcall vanswer c a.

(** The process of an event: its arguments and how it ended. *)
Definition process_event (e : vevent) : option (list string * process) :=
  match e with
  | existT (Exec _ argv) p => Some (argv, p)
  | _ => None
  end.
Definition processes (tr : list vevent) : list (list string * process) := omap process_event tr.
Lemma processes_app tr tr' : processes (tr ++ tr') = processes tr ++ processes tr'.
Proof. apply omap_app. Qed.

(** What is run of the arguments of a command. *)
Definition body (args : list string) : list string := match args with "!" :: rest => rest | _ => args end.

(** The value that [ssh] takes for an option: the first one it is given. *)
Fixpoint ssh_option (name : string) (argv : list string) : option string :=
  match argv with
  | "-o" :: kv :: rest => if has_prefix kv (name +:+ "=") then Some (TrimPrefix kv (name +:+ "=")) else ssh_option name rest
  | "-i" :: _ :: rest => ssh_option name rest
  | _ :: rest => ssh_option name rest
  | [] => None
  end.
(** The host has to be known. *)
Definition verified (argv : list string) : Prop :=
  ssh_option "StrictHostKeyChecking" argv = Some "yes" /\ ssh_option "UserKnownHostsFile" argv = Some KnownHostsFile.

(** The last arguments. *)
Definition ends {A} (tail l : list A) : Prop := exists pre, l = pre ++ tail.
Lemma ends_refl {A} (l : list A) : ends l l.
Proof. by exists []. Qed.
Lemma ends_after {A} (t x l : list A) : ends t l -> ends t (x ++ l).
Proof. intros (pre & ->). exists (x ++ pre). apply app_assoc. Qed.
Lemma ends_cons {A} (t : list A) x l : ends t l -> ends t (x :: l).
Proof. intros (pre & ->). by exists (x :: pre). Qed.
Create HintDb virsh.
#[export] Hint Resolve ends_refl ends_after ends_cons : virsh.

(** What stands in front of a command, from its last word back: nothing, or [ssh] with
    the host; and for a command of [virsh] that program, perhaps with its URI. *)
Definition direct (args : list string) : bool := match args with "!" :: _ => true | _ => false end.
Inductive lead : bool -> list string -> Prop :=
  | lead_here : lead true []
  | lead_there host l : contains host "@" = true -> lead true (host :: l)
  | lead_virsh l : lead true l -> lead false ("virsh" :: l)
  | lead_uri uri l : contains uri ":///" = true -> lead true l -> lead false (uri :: "-c" :: "virsh" :: l).
Definition led (args argv : list string) : Prop := exists l, lead (direct args) l /\ argv = rev l ++ body args.

Section Processes.
Context `{Url : UrlLibrary} `{Unicode : UnicodeTable}.

(** The process of a command: on this host, or on the other one through [ssh]. *)
Definition process_of (v : VirshProvider) (args argv : list string) : Prop :=
  led args argv /\ (argv = body args \/ argv = "virsh" :: args \/ (insecure (vp_hostKey v) = false -> verified argv)).
Definition outcome_of (v : VirshProvider) (args : list string) (l : list (list string * process)) (o : outcome ran) : Prop :=
  match o with
  | Done (Ran r) =>
      exists l0 argv p, l = l0 ++ [(argv, p)] /\ p_error p = None /\ vr_Stdout r = p_Stdout p
  | Done (Failed (Some r) _) =>
      exists l0 argv p, l = l0 ++ [(argv, p)] /\ p_error p <> None /\ vr_Stderr r = p_Stderr p
  | _ => True
  end.
Definition one_try (v : VirshProvider) (args : list string) (tr : list vevent) (o : outcome ran) : Prop :=
  (length (processes tr) <= 1)%nat /\ Forall (fun x => process_of v args x.1) (processes tr)
  /\ outcome_of v args (processes tr) o.

Lemma mux_wp Q : (forall on, Q [vev (Getenv EnvDisableSSHMultiplexing) on] (Done
    (if negb (is_true on) then ["-o"; "ControlMaster=auto"; "-o"; "ControlPath=" +:+ sshControlPath;
                   "-o"; "ControlPersist=" +:+ sshControlPersist] else []))) -> wp sshMultiplexOptions Q.
Proof.
  intros H. unfold sshMultiplexOptions, sshMultiplexingEnabled. wp_steps. apply (H r).
Qed.

Definition makes (v : VirshProvider) (args : list string) (p : VM (list string * string)) : Prop :=
  wp p (fun tr o => processes tr = [] /\ match o with Done c => process_of v args c.1 | Panicked _ => True end).

(** Options in front of the host decide, whatever follows them. *)
Lemma verified_options v pre post :
  ssh_option "StrictHostKeyChecking" (pre ++ post) = ssh_option "StrictHostKeyChecking" post ->
  ssh_option "UserKnownHostsFile" (pre ++ post) = ssh_option "UserKnownHostsFile" post ->
  (exists rest, post = sshHostKeyOptions (vp_hostKey v) ++ rest) ->
  insecure (vp_hostKey v) = false -> verified (pre ++ post).
Proof.
  intros H1 H2 (rest & ->) Hs. unfold verified. rewrite H1, H2.
  unfold sshHostKeyOptions, strictHostKeyChecking, knownHostsFile. by rewrite Hs.
Qed.

Lemma host_word u : contains (at_host u) "@" = true.
Proof. unfold at_host. apply contains_app_l, contains_app_r. reflexivity. Qed.
Lemma uri_word raw : remoteVirshConnectURI raw <> "" -> contains (remoteVirshConnectURI raw) ":///" = true.
Proof.
  unfold remoteVirshConnectURI. destruct (url_Parse raw) as [u|e]; [|done]. cbn zeta.
  destruct (_ || _); [done|]. intros _. by apply contains_app_l, contains_app_r.
Qed.

(** What [ssh] runs for a command. *)
Definition remote_of (args remote : list string) : Prop :=
  forall u argv, ends (at_host u :: remote) argv -> led args argv.
Lemma remote_direct args : remote_of ("!" :: args) args.
Proof.
  intros u argv (pre & ->). exists (at_host u :: rev pre). split; [apply lead_there, host_word|].
  cbn. by rewrite rev_involutive, <- app_assoc.
Qed.
Lemma remote_virsh v args :
  body args = args -> direct args = false ->
  remote_of args ("virsh" :: (if is_empty (remoteVirshConnectURI (vp_uri v)) then args
                              else "-c" :: remoteVirshConnectURI (vp_uri v) :: args)).
Proof.
  intros Hb Hd u argv (pre & ->). unfold led. rewrite Hb, Hd.
  pose proof (lead_there _ (rev pre) (host_word u)) as Hl.
  destruct (is_empty _) eqn:He; [|apply is_empty_false in He].
  - exists ("virsh" :: at_host u :: rev pre). split; [by apply lead_virsh|].
    cbn. by rewrite rev_involutive, <- !app_assoc.
  - eexists (_ :: "-c" :: "virsh" :: at_host u :: rev pre). split; [apply lead_uri; [by apply uri_word|done]|].
    cbn. by rewrite rev_involutive, <- !app_assoc.
Qed.

Lemma password_ssh_makes v args u remote : remote_of args remote -> makes v args (password_ssh v u remote).
Proof.
  intros Hr. unfold makes, password_ssh. apply wp_bind. apply mux_wp. intros on. cbn [bind_post wp].
  split; [reflexivity|]. cbn [fst]. split.
  - apply (Hr u). cbn -[at_host]. auto 20 with virsh.
  - right. right.
    apply (verified_options v ["sshpass"; "-e"; "ssh"; "-o"; "PasswordAuthentication=yes"; "-o";
                               "PubkeyAuthentication=no"; "-o"; "LogLevel=ERROR"]); try reflexivity.
    eexists. reflexivity.
Qed.
Lemma key_ssh_makes v args u remote : remote_of args remote -> makes v args (key_ssh v u remote).
Proof.
  intros Hr. unfold makes, key_ssh. apply wp_bind. apply mux_wp. intros on. cbn [bind_post wp].
  split; [reflexivity|]. cbn [fst]. split.
  - apply (Hr u). cbn -[at_host]. auto 20 with virsh.
  - right. right.
    apply (verified_options v ["ssh"; "-i"; resolveSSHKeyFile u; "-o"; "IdentitiesOnly=yes"; "-o";
                               "PasswordAuthentication=no"; "-o"; "PubkeyAuthentication=yes"; "-o"; "LogLevel=ERROR"]);
      try reflexivity.
    eexists. reflexivity.
Qed.

Lemma makes_ret v args c : process_of v args c.1 -> makes v args (Ret c).
Proof. by split. Qed.
Lemma local_process v args : process_of v ("!" :: args) args.
Proof. split; [by exists []; split; [constructor|]|by left]. Qed.
Lemma direct_command_makes v args : makes v ("!" :: args) (direct_command v args).
Proof.
  unfold direct_command, with_url.
  repeat case_match; try (by apply makes_ret, local_process);
    first [apply password_ssh_makes|apply key_ssh_makes|done]; apply remote_direct.
Qed.
Lemma virsh_command_makes v args : body args = args -> direct args = false -> makes v args (virsh_command v args).
Proof.
  intros Hb Hd. unfold virsh_command, with_url.
  destruct (_ && _).
  - destruct (url_Parse _); [|done]. by apply password_ssh_makes, remote_virsh.
  - apply makes_ret. cbn [fst]. split; [|auto]. exists ["virsh"]. rewrite Hb, Hd.
    split; [repeat constructor|done].
Qed.

Lemma run_process_wp v args argv command :
  process_of v args argv -> wp (run_process v argv command) (one_try v args).
Proof.
  intros Hp. unfold run_process. wp_steps.
  split_and!; [done|by constructor|]. cbn. destruct (p_error r) eqn:He; cbn; exists [], argv, r; by rewrite He.
Qed.
Lemma then_run_wp v args p :
  makes v args p -> wp (c ← p; run_process v c.1 c.2) (one_try v args).
Proof.
  intros Hp. apply wp_bind. eapply wp_mono; [exact Hp|]. intros tr [c|w] [Htr Hc]; cbn [bind_post].
  - eapply wp_mono; [apply run_process_wp; exact Hc|]. intros tr' o'. unfold one_try.
    rewrite processes_app, Htr. done.
  - unfold one_try. rewrite Htr. split_and!; [cbn; lia|constructor|done].
Qed.
Lemma execute_wp v args : wp (execute v args) (one_try v args).
Proof.
  unfold execute. repeat case_match; subst;
    try (apply then_run_wp; first [apply direct_command_makes | by apply virsh_command_makes]).
  split_and!; [cbn; lia|constructor|done].
Qed.

Lemma release_quiet v : wp (release v) (fun tr o => processes tr = [] /\ o = Done tt).
Proof. unfold release. destruct (vp_execSem v); wp_steps; [by destruct r|done]. Qed.
Lemma once_wp v args : wp (runVirshCommandOnce v args) (one_try v args).
Proof.
  unfold runVirshCommandOnce. apply wp_bind.
  assert (wp (acquireExecSlot v) (fun tr o => processes tr = [] /\ exists e, o = Done e)) as Ha.
  { unfold acquireExecSlot. destruct (vp_execSem v); wp_steps; split; eauto. }
  eapply wp_mono; [exact Ha|]. intros tr o [Htr (e & ->)]. cbn [bind_post].
  destruct e as [e|]; cbn [wp].
  { unfold one_try. rewrite app_nil_r, Htr. split_and!; [cbn; lia|constructor|done]. }
  apply wp_bind. eapply wp_mono; [apply execute_wp|]. intros tr1 [r|w] Hr; cbn [bind_post].
  2:{ unfold one_try in *. rewrite processes_app, Htr. exact Hr. }
  apply wp_bind. eapply wp_mono; [apply release_quiet|]. intros tr2 o2 [Htr2 ->]. cbn [bind_post wp].
  unfold one_try in *. by rewrite app_nil_r, !processes_app, Htr, Htr2, app_nil_r.
Qed.

(** *** Retries *)
(** What [ssh] prints, in any case of letters, when its connection fails.  It prints the
    second and the third also when the connection is lost while the command runs. *)
Definition connection_message (stderr : string) : Prop :=
  exists m, contains (ToLower stderr) m = true
    /\ m ∈ ["kex_exchange_identification"; "connection closed by remote host"; "connection reset by peer";
            "connection refused"; "connection timed out"; "no route to host"; "ssh: connect to host";
            "temporary failure in name resolution"].
Lemma transient_spec stderr : transientSSHConnectError stderr = true <-> connection_message stderr.
Proof.
  unfold transientSSHConnectError, connection_message. rewrite existsb_exists.
  split; intros (m & H1 & H2); exists m; (split; [|done]) || (split; [done|]); by apply list_elem_of_In.
Qed.

(** A try that failed with such a message. *)
Definition unconnected (x : list string * process) : Prop :=
  p_error x.2 <> None /\ connection_message (p_Stderr x.2).
Definition tries (v : VirshProvider) (args : list string) (n : nat) (tr : list vevent) (o : outcome ran) : Prop :=
  (length (processes tr) <= n)%nat /\ Forall (fun x => process_of v args x.1) (processes tr)
  /\ (forall i x, processes tr !! i = Some x -> (S i < length (processes tr))%nat -> unconnected x)
  /\ outcome_of v args (processes tr) o.

Lemma one_try_tries v args tr o n : one_try v args tr o -> tries v args (S n) tr o.
Proof. intros (Hl & Hf & Ho). split_and!; [lia|done| |done]. intros i x Hi Hlt. lia. Qed.

Lemma transient_empty : transientSSHConnectError "" = false.
Proof. reflexivity. Qed.

Lemma one_try_last v args tr r e :
  one_try v args tr (Done (Failed r e)) -> transientSSHConnectError (stderr_of r) = true ->
  exists x, processes tr = [x] /\ unconnected x /\ process_of v args x.1.
Proof.
  intros (Hl & Hf & Ho) Ht. destruct r as [r|]; [|cbn [stderr_of] in Ht; by rewrite transient_empty in Ht].
  destruct Ho as (l0 & argv & p & Hp & He & Hs). cbn [stderr_of] in Ht. rewrite Hs in Ht. apply transient_spec in Ht.
  destruct l0 as [|y l0]; [|rewrite Hp, length_app in Hl; cbn in Hl; lia].
  cbn in Hp. rewrite Hp in *. apply Forall_cons in Hf as [Hf _]. exists (argv, p). split; [done|split; [by split|exact Hf]].
Qed.

Lemma tries_more v args n tr1 tr2 o x :
  processes tr1 = [x] -> unconnected x -> process_of v args x.1 ->
  tries v args n tr2 o -> tries v args (S n) (tr1 ++ tr2) o.
Proof.
  intros Hx Hu Hp (Hl & Hf & Hr & Ho). unfold tries. rewrite processes_app, Hx. cbn [app length].
  split_and!; [lia|by constructor| |].
  - intros [|i] y; cbn; [by intros [= <-]|]. intros Hi Hlt. apply (Hr i y Hi). lia.
  - destruct o as [[r|[r|] e]|w]; try done; cbn in Ho |- *;
      destruct Ho as (l0 & argv & p & -> & Ho); by exists (x :: l0), argv, p.
Qed.

Lemma retry_wp v args left : forall backoff,
  wp (retry_from left backoff (runVirshCommandOnce v args)) (tries v args (S left)).
Proof.
  induction left as [|left IH]; intros backoff; cbn [retry_from]; apply wp_bind;
    (eapply wp_mono; [apply once_wp|]); intros tr o Ho; destruct o as [[r|res e]|w]; cbn [bind_post];
    try (cbn [wp]; rewrite ?app_nil_r; by apply one_try_tries).
  destruct (transientSSHConnectError (stderr_of res)) eqn:Ht;
    [|cbn [wp]; rewrite app_nil_r; by apply one_try_tries].
  destruct (one_try_last _ _ _ _ _ Ho Ht) as (x & Hx & Hu & Hp).
  wp_step. wp_step. cbn [bind_post]. destruct r.
  - eapply wp_mono; [apply IH|]. intros tr' o' Ht'. eapply tries_more; try done.
  - cbn [wp]. destruct Ho as (Hl & Hf & Ho). apply one_try_tries.
    unfold one_try. rewrite processes_app. cbn. rewrite app_nil_r. done.
Qed.
Lemma command_wp v args : wp (runVirshCommand v args) (tries v args 3).
Proof. apply retry_wp. Qed.

(** The command is given up with such a message only after [n] processes, or when the
    context ended while it waited. *)
Definition patient (n : nat) (tr : list vevent) (o : outcome ran) : Prop :=
  forall r e, o = Done (Failed (Some r) e) -> connection_message (vr_Stderr r) ->
  length (processes tr) = n \/ exists d, vev (Backoff d) false ∈ tr.

Lemma retry_patient v args left : forall backoff,
  wp (retry_from left backoff (runVirshCommandOnce v args)) (patient (S left)).
Proof.
  induction left as [|left IH]; intros backoff; cbn [retry_from]; apply wp_bind;
    (eapply wp_mono; [apply once_wp|]); intros tr o Ho; destruct o as [[r|res e]|w]; cbn [bind_post wp];
    rewrite ?app_nil_r; try (by intros ? ? [=]).
  - intros r e' [= -> ->] _. left. destruct Ho as (Hl & _ & l0 & argv & p & Hp & _).
    rewrite Hp, length_app in *. cbn in *. lia.
  - destruct (transientSSHConnectError (stderr_of res)) eqn:Ht; cbn [wp].
    2:{ rewrite app_nil_r. intros r e' [= -> ->] Hm%transient_spec. cbn [stderr_of] in Ht. congruence. }
    destruct (one_try_last _ _ _ _ _ Ho Ht) as (x & Hx & _). wp_step. wp_step. cbn [bind_post]. destruct r.
    + eapply wp_mono; [apply IH|]. intros tr' o' Hp r e' Heq Hm.
      destruct (Hp r e' Heq Hm) as [Hl|(d & Hd)]; [left|right; exists d; set_solver].
      by rewrite !processes_app, !length_app, Hx, Hl.
    + cbn [wp]. intros r e' _ _. right. exists backoff. set_solver.
Qed.

(** C33. A command of [virsh], or one run on the host, makes at most three processes, each on
    the arguments of the command behind nothing or behind an [ssh] whose host key is
    verified unless the provider opted out.  A further process is only made when the
    previous one failed and printed one of eight messages about a connection (two of which
    also come when the connection is lost after the command was begun); the result is
    that of the last one, and it is a failure with such a message only after three
    processes or when the context ended in a wait. *)
Theorem commands_are_retried_on_connection_errors v args tr o :
  runs (runVirshCommand v args) tr o -> tries v args 3 tr o /\ patient 3 tr o.
Proof. revert tr o. apply wp_runs, wp_and; [apply command_wp|apply retry_patient]. Qed.

(** *** Looking for a command in a run *)
(** The processes whose arguments pass a test. *)
Definition starting (g : list string -> bool) (c : vcall) : bool :=
  match c with Exec _ argv => g argv | _ => false end.
Lemma occurs_starting g tr : occurs (starting g) tr = existsb (fun x => g x.1) (processes tr).
Proof.
  induction tr as [|[c a] tr IH]; [done|]. rewrite occurs_cons, IH.
  destruct c; cbn; try done.
Qed.

(** A test on the last arguments fails for a command. *)
Definition quiet_on (g : list string -> bool) (args : list string) : Prop :=
  forall argv, led args argv -> g argv = false.
Lemma silent_command g v args : quiet_on g args -> silent (starting g) (runVirshCommand v args).
Proof.
  intros Hg. eapply wp_mono; [apply command_wp|]. intros tr o (_ & Hf & _).
  rewrite occurs_starting. apply not_true_iff_false. intros (x & Hx & Hgx)%existsb_exists.
  rewrite Forall_forall in Hf. apply list_elem_of_In in Hx.
  destruct (Hf x Hx) as [Hl _]. by rewrite (Hg _ Hl) in Hgx.
Qed.

(** A process that ended well, with what it printed. *)
Definition done_well (tail : list string) (out : string) (tr : list vevent) : Prop :=
  exists argv p, (argv, p) ∈ processes tr /\ ends tail argv /\ p_error p = None /\ p_Stdout p = out.
Lemma done_well_app_l tail out tr tr' : done_well tail out tr -> done_well tail out (tr ++ tr').
Proof.
  intros (argv & p & Hin & H). exists argv, p. rewrite processes_app. split; [apply elem_of_app; by left|done].
Qed.
Lemma done_well_app_r tail out tr tr' : done_well tail out tr' -> done_well tail out (tr ++ tr').
Proof.
  intros (argv & p & Hin & H). exists argv, p. rewrite processes_app. split; [apply elem_of_app; by right|done].
Qed.

Lemma ran_well v args :
  wp (runVirshCommand v args)
    (fun tr o => match o with Done (Ran r) => done_well (body args) (vr_Stdout r) tr | _ => True end).
Proof.
  eapply wp_mono; [apply command_wp|]. intros tr [[r|r e]|w] (_ & Hf & _ & Ho); try done.
  destruct Ho as (l0 & argv & p & Hp & He & Hs). exists argv, p. rewrite Hp in *.
  apply Forall_app in Hf as [_ Hf]. apply Forall_cons in Hf as [[(l & _ & Hf) _] _].
  split_and!; [apply elem_of_app; right; by left|by exists (rev l)|done|done].
Qed.
Lemma output_wp v args :
  wp (output v args) (fun tr o => match o with Done (Ok out) => done_well (body args) out tr | _ => True end).
Proof.
  unfold output. apply wp_bind. eapply wp_mono; [apply ran_well|].
  intros tr [[r|r e]|w] Ho; cbn; rewrite ?app_nil_r; done.
Qed.
Lemma perform_wp v what args :
  wp (perform v what args) (fun tr o => match o with Done None => exists out, done_well (body args) out tr | _ => True end).
Proof.
  unfold perform. apply wp_bind. eapply wp_mono; [apply output_wp|].
  intros tr [[out|e]|w] Ho; cbn; try done. rewrite app_nil_r. by exists out.
Qed.
Lemma verbose_wp v what args :
  wp (perform_verbose what (runVirshCommand v args))
    (fun tr o => match o with Done None => exists out, done_well (body args) out tr | _ => True end).
Proof.
  unfold perform_verbose. apply wp_bind. eapply wp_mono; [apply ran_well|].
  intros tr [[r|[r|] e]|w] Ho; cbn; try done. rewrite app_nil_r. eauto.
Qed.

Lemma silent_output g v args : quiet_on g args -> silent (starting g) (output v args).
Proof. intros H. unfold output. apply silent_bind; [by apply silent_command|]. intros [r|r e]; apply silent_Ret. Qed.
Lemma silent_attempt g v args : quiet_on g args -> silent (starting g) (attempt v args).
Proof. intros H. unfold attempt. apply silent_bind; [by apply silent_command|]. intros; apply silent_Ret. Qed.
Lemma silent_perform g v what args : quiet_on g args -> silent (starting g) (perform v what args).
Proof. intros H. unfold perform. apply silent_bind; [by apply silent_output|]. intros; apply silent_Ret. Qed.
Lemma silent_verbose g v what args :
  quiet_on g args -> silent (starting g) (perform_verbose what (runVirshCommand v args)).
Proof.
  intros H. unfold perform_verbose. apply silent_bind; [by apply silent_command|].
  intros [r|[r|] e]; [apply silent_Ret..|apply silent_Crash].
Qed.
End Processes.

(** ** The tests

    A definition of a domain, a removal of files, a growth of a block device and a
    conversion of an image, by their last arguments. *)
Definition word_is (l : list string) (i : nat) (w : string) : bool :=
  match l !! i with Some x => String.eqb x w | None => false end.
Definition defines (argv : list string) : bool :=
  let l := rev argv in
  word_is l 1 "define" && (word_is l 2 "virsh" || (word_is l 3 "-c" && word_is l 4 "virsh")).
Definition removes (argv : list string) : bool :=
  let l := rev argv in word_is l 2 "rm" && (word_is l 1 "-f" || word_is l 1 "-rf").
Definition blockresizes (argv : list string) : bool := let l := rev argv in word_is l 3 "blockresize".
Definition converts (argv : list string) : bool := let l := rev argv in word_is l 4 "convert" && word_is l 5 "qemu-img".

(** A word with a character that another one lacks is not it. *)
Lemma word_not x w c : contains x c = true -> contains w c = false -> String.eqb x w = false.
Proof. intros Hx Hw. apply String.eqb_neq. intros ->. congruence. Qed.
Lemma quiet_lead g args :
  (forall l, lead (direct args) l -> g (rev (rev (body args) ++ l)) = false) -> quiet_on g args.
Proof. intros H argv (l & Hl & ->). rewrite <- (H l Hl). by rewrite rev_app_distr, rev_involutive. Qed.
Ltac tell_apart :=
  repeat match goal with
    | H : contains ?x ?c = true |- context [String.eqb ?x ?w] => rewrite (word_not x w c H) by reflexivity
    end.
Ltac quiet :=
  lazymatch goal with
  | |- quiet_on _ _ =>
      apply quiet_lead; intros ? Hlead; cbn [body direct] in *;
      unfold defines, removes, blockresizes, converts; rewrite rev_involutive;
      cbn; rewrite ?andb_false_r; try reflexivity;
      repeat match goal with H : lead _ _ |- _ => inversion H; clear H; subst end;
      cbn; tell_apart; rewrite ?andb_false_r; reflexivity
  end.
#[export] Hint Resolve silent_command silent_output silent_attempt silent_perform silent_verbose : silent.
#[export] Hint Extern 1 (quiet_on _ _) => quiet : silent.

(** The commands that pass a test are only run once [P] holds of what was done. *)
Definition only_after (g : list string -> bool) (P : list vevent -> Prop) (tr : list vevent) : Prop :=
  forall tr1 e tr2 x, tr = tr1 ++ e :: tr2 -> process_event e = Some x -> g x.1 = true -> P tr1.
Definition stable (P : list vevent -> Prop) : Prop := forall tr tr', P tr -> P (tr ++ tr').

Lemma only_after_never g P tr : occurs (starting g) tr = false -> only_after g P tr.
Proof.
  intros Hs tr1 e tr2 x -> Hx Hg. rewrite occurs_app, occurs_cons in Hs.
  apply orb_false_iff in Hs as [_ Hs]. apply orb_false_iff in Hs as [Hs _].
  destruct e as [[] a]; cbn in Hx; try done. injection Hx as <-. cbn in Hs, Hg. congruence.
Qed.
Lemma only_after_later g P tr tr' :
  occurs (starting g) tr = false -> only_after g (fun tr1 => P (tr ++ tr1)) tr' -> only_after g P (tr ++ tr').
Proof.
  intros Hs Hp tr1 e tr2 x Heq Hx Hg. pose proof (only_after_never g (fun _ => False) tr Hs) as Hno.
  apply app_eq_inv in Heq as [([|e' k] & -> & Hk)|(k & -> & Hk)]; cbn in Hk.
  - specialize (Hp [] e tr2 x (eq_sym Hk) Hx Hg). cbv beta in Hp. by rewrite !app_nil_r in Hp.
  - injection Hk as <- _. by destruct (Hno _ _ _ _ eq_refl Hx Hg).
  - by eapply Hp.
Qed.
Lemma only_after_earlier g P tr tr' :
  only_after g P tr -> occurs (starting g) tr' = false -> only_after g P (tr ++ tr').
Proof.
  intros Hp Hs tr1 e tr2 x Heq Hx Hg. pose proof (only_after_never g (fun _ => False) tr' Hs) as Hno.
  apply app_eq_inv in Heq as [([|e' k] & -> & Hk)|(k & -> & Hk)]; cbn in Hk.
  - destruct (Hno [] _ _ _ (eq_sym Hk) Hx Hg).
  - injection Hk as <- _. by eapply Hp.
  - by destruct (Hno _ _ _ _ Hk Hx Hg).
Qed.
Lemma only_after_prefix g P tr tr' :
  stable P -> occurs (starting g) tr = false -> P tr -> only_after g P (tr ++ tr').
Proof. intros HP Hs Hp. apply only_after_later; [done|]. intros tr1 e tr2 x _ _ _. by apply HP. Qed.
Lemma only_after_mono g (P P' : list vevent -> Prop) tr :
  (forall before, P before -> P' before) -> only_after g P tr -> only_after g P' tr.
Proof. intros H Hp tr1 e tr2 x He Hx Hg. eapply H, Hp; eauto. Qed.

Lemma done_well_ends tail tail' out tr : done_well tail out tr -> ends tail' tail -> done_well tail' out tr.
Proof.
  intros (argv & p & Hin & (pre & ->) & H) (pre' & ->). exists (pre ++ pre' ++ tail'), p.
  split_and!; try apply H; [done|]. auto with virsh.
Qed.

Section Storage.
Context `{Url : UrlLibrary} `{Unicode : UnicodeTable} `{Json : JsonLibrary} `{Size : SizeFormat}.
Implicit Types (v : VirshProvider).

Lemma silent_then {A} g (p : VE) what (k : VM (res A)) :
  silent (starting g) p -> silent (starting g) k -> silent (starting g) (then_ p what k).
Proof. intros Hp Hk. unfold then_. apply silent_bind; [done|]. intros [e|]; [apply silent_Ret|done]. Qed.
Hint Resolve silent_then : silent.

Lemma pool_no_define v pool : silent (starting defines) (ensurePoolActive v pool).
Proof. unfold ensurePoolActive. solve_silent. Qed.
Lemma silent_remote g v args :
  quiet_on g ("!" :: "virsh" :: args) -> (forall uri, quiet_on g ("!" :: "virsh" :: "-c" :: uri :: args)) ->
  silent (starting g) (runRemoteVirshCommand v args).
Proof.
  intros H1 H2. unfold runRemoteVirshCommand. apply silent_command.
  destruct (is_empty _); [exact H1|apply H2].
Qed.
Hint Resolve silent_remote pool_no_define : silent.

Lemma default_pool_no_define v : silent (starting defines) (EnsureDefaultStoragePool v).
Proof.
  unfold EnsureDefaultStoragePool, keep_default_pool, createDefaultStoragePool. solve_silent.
Qed.
Lemma own_no_define v path : silent (starting defines) (own_and_label v path).
Proof. unfold own_and_label, own. solve_silent. Qed.
Lemma volume_no_define v pool volume : silent (starting defines) (GetVolumeInfo v pool volume).
Proof. unfold GetVolumeInfo. solve_silent. Qed.
Lemma pool_info_no_define v pool : silent (starting defines) (GetPoolInfo v pool).
Proof. unfold GetPoolInfo. solve_silent. Qed.
Hint Resolve default_pool_no_define own_no_define volume_no_define pool_info_no_define : silent.
Lemma create_volume_no_define v pool volume format size : silent (starting defines) (CreateVolume v pool volume format size).
Proof. unfold CreateVolume. apply silent_then; solve_silent. Qed.
Lemma download_no_define v url volume pool size : silent (starting defines) (DownloadCloudImage v url volume pool size).
Proof. unfold DownloadCloudImage, install_image. apply silent_then; solve_silent. Qed.
Lemma image_file_no_define v source volume pool size :
  silent (starting defines) (CreateVolumeFromImageFile v source volume pool size).
Proof. unfold CreateVolumeFromImageFile, adopt_image, own. apply silent_then; solve_silent. Qed.
Hint Resolve create_volume_no_define download_no_define image_file_no_define : silent.
Lemma create_disk_no_define v req : silent (starting defines) (create_disk v req).
Proof. unfold create_disk, CreateVolumeFromTemplate. solve_silent. Qed.
Lemma cloudinit_no_define v req : silent (starting defines) (prepare_cloudinit v req).
Proof.
  unfold prepare_cloudinit, PrepareCloudInit, writeRemoteFile, createRemoteCloudInitISO.
  repeat first [silent_step | apply silent_then].
Qed.
End Storage.

(** ** Making and deleting a machine *)
Definition lists (name : string) (there : bool) (tr : list vevent) : Prop :=
  exists out, done_well ["list"; "--all"] out tr /\ has_domain name (parseDomainListTable out) = there.
Definition defined (name : string) (tr : list vevent) : Prop :=
  exists out, done_well ["define"; definition_path name] out tr.
Definition undefined (name : string) (tr : list vevent) : Prop :=
  exists out, done_well ["undefine"; name] out tr.
Lemma lists_stable name b : stable (lists name b).
Proof. intros tr tr' (out & H & Hb). exists out. split; [by apply done_well_app_l|done]. Qed.
Lemma undefined_stable name : stable (undefined name).
Proof. intros tr tr' (out & H). exists out. by apply done_well_app_l. Qed.

Section Machines.
Context `{Url : UrlLibrary} `{Unicode : UnicodeTable} `{Json : JsonLibrary} `{Size : SizeFormat}.
Implicit Types (v : VirshProvider).

Lemma listDomains_wp v :
  wp (listDomains v) (fun tr o =>
    match o with Done (Ok l) => exists out, done_well ["list"; "--all"] out tr /\ l = parseDomainListTable out | _ => True end).
Proof.
  unfold listDomains. apply wp_bind. eapply wp_mono; [apply output_wp|].
  intros tr [[out|e]|w] Ho; cbn; rewrite ?app_nil_r; try done. exists out. by split.
Qed.
Lemma defineDomain_wp v name :
  wp (defineDomain v name) (fun tr o => match o with Done None => defined name tr | _ => True end).
Proof.
  unfold defineDomain. apply wp_bind. eapply wp_mono; [apply verbose_wp|].
  intros tr [[e|]|w] Ho; cbn [bind_post]; [done| |done].
  destruct Ho as (out & Ho). apply wp_bind. eapply wp_mono; [apply wp_true|].
  intros tr' [u|w] _; cbn; [|done]. rewrite app_nil_r. exists out. apply done_well_app_l.
  eapply done_well_ends; [exact Ho|]. cbn. destruct (is_empty _); cbn; auto 10 with virsh.
Qed.

(** When a program succeeds with [a], [S a] holds of its run. *)
Definition succeeds {A} (S : A -> list vevent -> Prop) (p : VM (res A)) : Prop :=
  wp p (fun tr o => match o with Done (Ok a) => S a tr | _ => True end).
Lemma succeeds_bind {A B} (S : A -> list vevent -> Prop) (p : VM B) (f : B -> VM (res A)) :
  (forall a tr tr', S a tr' -> S a (tr ++ tr')) -> (forall b, succeeds S (f b)) -> succeeds S (p ≫= f).
Proof.
  intros HS Hf. apply wp_bind. eapply wp_mono; [apply wp_true|]. intros tr [b|w] _; cbn [bind_post]; [|done].
  eapply wp_mono; [apply Hf|]. intros tr' [[a|e]|w]; cbn; auto.
Qed.
Lemma succeeds_err {A} (S : A -> list vevent -> Prop) e : succeeds S (Ret (Err e)).
Proof. done. Qed.
Lemma succeeds_crash {A} (S : A -> list vevent -> Prop) w : succeeds S (Crash w).
Proof. done. Qed.
Lemma succeeds_then {A} (S : A -> list vevent -> Prop) (p : VE) what (k : VM (res A)) :
  (forall a tr tr', S a tr' -> S a (tr ++ tr')) -> succeeds S k -> succeeds S (then_ p what k).
Proof. intros HS Hk. apply succeeds_bind; [done|]. by intros [e|]. Qed.

Definition made (name id : string) (tr : list vevent) : Prop := id = name /\ defined name tr.
Lemma made_app name id tr tr' : made name id tr' -> made name id (tr ++ tr').
Proof. intros [-> (out & H)]. split; [done|]. exists out. by apply done_well_app_r. Qed.
Lemma define_vm_succeeds v req disk iso : succeeds (made (req_Name req)) (define_vm v req disk iso).
Proof.
  unfold define_vm. apply succeeds_bind; [apply made_app|]. intros xml.
  apply succeeds_then; [apply made_app|]. unfold then_. apply wp_bind.
  eapply wp_mono; [apply defineDomain_wp|]. intros tr [[e|]|w] Ho; cbn; try done. by rewrite app_nil_r.
Qed.
Lemma createVM_succeeds v req : succeeds (made (req_Name req)) (createVMWithCloudInit v req).
Proof.
  unfold createVMWithCloudInit. apply succeeds_then; [apply made_app|].
  apply succeeds_bind; [apply made_app|]. intros [disk|e]; [|apply succeeds_err].
  apply succeeds_bind; [apply made_app|]. intros [[iso cleanup]|e]; [|apply succeeds_err].
  apply wp_bind. eapply wp_mono; [apply define_vm_succeeds|]. intros tr [r|w] Hr; cbn [bind_post]; [|done].
  apply wp_bind. eapply wp_mono; [apply wp_true|]. intros tr' [u|w] _; cbn; [|by destruct r].
  destruct r as [id|e]; [|done]. destruct Hr as [-> (out & Hr)]. split; [done|]. exists out.
  rewrite app_nil_r. by apply done_well_app_l.
Qed.

Lemma silent_list g v : quiet_on g ["list"; "--all"] -> silent (starting g) (listDomains v).
Proof. intros H. unfold listDomains. apply silent_bind; [by apply silent_output|]. intros; apply silent_Ret. Qed.
(** What a listing decides. *)
Lemma with_list {A} g v name (k : list VirshDomain -> VM (res A)) err Q :
  quiet_on g ["list"; "--all"] ->
  (forall tr e, occurs (starting g) tr = false -> Q tr (Done (err e))) ->
  (forall tr w, occurs (starting g) tr = false -> Q tr (Panicked w)) ->
  (forall tr l, occurs (starting g) tr = false -> lists name (has_domain name l) tr ->
     wp (k l) (fun tr' => Q (tr ++ tr'))) ->
  wp (domains ← listDomains v; match domains with Err e => Ret (err e) | Ok l => k l end) Q.
Proof.
  intros Hq He Hw Hk. apply wp_bind.
  eapply wp_mono; [apply (wp_and _ _ _ (listDomains_wp v) (silent_list g v Hq))|].
  intros tr [[l|e]|w] [Hl Hs]; cbn [bind_post wp]; rewrite ?app_nil_r; auto.
  apply Hk; [done|]. destruct Hl as (out & Hl & ->). by exists out.
Qed.

(** C31. Creating a machine defines a domain only after a listing in which no domain has
    its name; and the name is returned only when such a domain was listed or its
    definition succeeded. *)
Theorem create_defines_missing_machines p req tr o :
  runs (Create p req) tr o ->
  only_after defines (lists (req_Name req) false) tr
  /\ match o with
     | Done (Ok resp) => resp_ID resp = req_Name req /\ (lists (req_Name req) true tr \/ defined (req_Name req) tr)
     | _ => True
     end.
Proof.
  revert tr o. apply wp_runs. unfold Create, with_virsh. destruct (virshProvider p) as [v|].
  2:{ split; [|done]. by apply only_after_never. }
  apply (with_list defines v (req_Name req)); [quiet|by split; [apply only_after_never|]..|].
  intros tr l Hs Hl. destruct (has_domain _ l) eqn:Hd; cbn [wp].
  { rewrite app_nil_r. split; [by apply only_after_never|]. split; [done|by left]. }
  apply wp_bind. eapply wp_mono; [apply createVM_succeeds|]. intros tr' [[id|e]|w] Ho; cbn [bind_post wp];
    rewrite ?app_nil_r; (split; [apply only_after_prefix; [apply lists_stable|done|done]|]); try done.
  destruct Ho as [-> (out & Ho)]. split; [done|]. right. exists out. by apply done_well_app_r.
Qed.

(** *** Deletion *)
(** A step that a test does not concern. *)
Lemma after_silent {A B} (f : vcall -> bool) (p : VM A) (k : A -> VM B) Q tr0 :
  occurs f tr0 = false -> silent f p ->
  (forall tr w, occurs f tr = false -> Q (tr0 ++ tr) (Panicked w)) ->
  (forall a tr, occurs f (tr0 ++ tr) = false -> wp (k a) (fun tr' => Q ((tr0 ++ tr) ++ tr'))) ->
  wp (p ≫= k) (fun tr => Q (tr0 ++ tr)).
Proof.
  intros H0 Hp Hw Hk. apply wp_bind. eapply wp_mono; [exact Hp|]. intros tr [a|w] Ht; cbn [bind_post].
  - eapply wp_mono; [apply Hk; by rewrite occurs_app, H0|]. intros tr' o. by rewrite app_assoc.
  - by apply Hw.
Qed.
Lemma getDisks_no_rm v id : silent (starting removes) (getDomainDiskPaths v id).
Proof. unfold getDomainDiskPaths. solve_silent. Qed.
Lemma getISO_no_rm v id : silent (starting removes) (getCloudInitISOPath v id).
Proof. unfold getCloudInitISOPath. solve_silent. Qed.
Lemma destroy_no_rm v id : silent (starting removes) (destroyDomain v id).
Proof. unfold destroyDomain. apply silent_perform. quiet. Qed.
Lemma undefine_wp v id :
  wp (undefineDomain v id) (fun tr o =>
    occurs (starting removes) tr = false /\ match o with Done None => undefined id tr | _ => True end).
Proof.
  apply (wp_and _ (fun tr _ => occurs (starting removes) tr = false)).
  - apply silent_perform. quiet.
  - apply perform_wp.
Qed.

(** C34. Deleting a machine removes files from the host only once its domain is known to be
    gone: a listing had no domain of its name, or undefining it succeeded.  Success is
    only reported then. *)
Theorem disks_go_after_their_machine p id tr o :
  runs (Delete p id) tr o ->
  only_after removes (fun before => lists id false before \/ undefined id before) tr
  /\ match o with Done (Ok _) => lists id false tr \/ undefined id tr | _ => True end.
Proof.
  revert tr o. apply wp_runs. unfold Delete, with_virsh. destruct (virshProvider p) as [v|].
  2:{ split; [|done]. by apply only_after_never. }
  assert (stable (fun before => lists id false before \/ undefined id before)) as HP.
  { intros tr tr' [H|H]; [left; by apply lists_stable|right; by apply undefined_stable]. }
  match goal with |- wp _ ?Q => set (post := Q) end.
  apply (with_list removes v id); [quiet|by split; [apply only_after_never|]..|].
  intros tr l Hs Hl. destruct (has_domain id l) eqn:Hd; cbn [negb].
  2:{ apply wp_bind. eapply wp_mono; [apply wp_true|]. intros tr' [u|w] _; cbn [bind_post wp]; rewrite ?app_nil_r.
      - split; [|left; by apply lists_stable]. apply only_after_prefix; auto.
      - split; [|done]. apply only_after_prefix; auto. }
  apply (after_silent (starting removes)); [done|apply getDisks_no_rm|intros t w Ht; split; [apply only_after_never; by rewrite occurs_app, Hs|done]|].
  intros disks tr1 Hs1.
  apply (after_silent (starting removes)); [done|apply getISO_no_rm|intros t w Ht; split; [apply only_after_never; by rewrite occurs_app, Hs1|done]|].
  intros iso tr2 Hs2.
  apply (after_silent (starting removes)); [done|apply destroy_no_rm|intros t w Ht; split; [apply only_after_never; by rewrite occurs_app, Hs2|done]|].
  intros _ tr3 Hs3.
  apply wp_bind. eapply wp_mono; [apply undefine_wp|]. intros tr4 [[e|]|w] [Hs4 Ho]; cbn [bind_post wp].
  1, 3: rewrite ?app_nil_r; split; [apply only_after_never; by rewrite occurs_app, Hs3|done].
  assert (undefined id ((((tr ++ tr1) ++ tr2) ++ tr3) ++ tr4)) as Hu.
  { destruct Ho as (out & Ho). exists out. by apply done_well_app_r. }
  eapply wp_mono; [apply wp_true|]. intros tr5 o _. rewrite app_assoc. split.
  - apply only_after_prefix; [done|by rewrite occurs_app, Hs3|by right].
  - destruct o as [[r|e]|w]; try done. right. by apply undefined_stable.
Qed.
End Machines.

(** ** Host keys *)
(** An answer that was received. *)
Definition answered (c : vcall) (Q : vanswer c -> Prop) (tr : list vevent) : Prop := exists a, vev c a ∈ tr /\ Q a.
Lemma answered_app_l c Q tr tr' : answered c Q tr -> answered c Q (tr ++ tr').
Proof. intros (a & Ha & HQ). exists a. split; [apply elem_of_app; by left|done]. Qed.
Lemma answered_app_r c Q tr tr' : answered c Q tr' -> answered c Q (tr ++ tr').
Proof. intros (a & Ha & HQ). exists a. split; [apply elem_of_app; by right|done]. Qed.
Lemma answered_here c (Q : vanswer c -> Prop) a tr : Q a -> answered c Q (vev c a :: tr).
Proof. intros HQ. exists a. split; [by left|done]. Qed.
Lemma answered_later c Q e tr : answered c Q tr -> answered c Q (e :: tr).
Proof. apply (answered_app_r c Q [e]). Qed.
#[export] Hint Resolve answered_app_l answered_app_r answered_here answered_later : virsh.

(** The verification was turned off; there are keys of known hosts. *)
Definition opted_out : list vevent -> Prop :=
  answered (Getenv EnvInsecureSkipHostKeyVerification) (fun v => is_true v = true).
Definition hosts_known : list vevent -> Prop := answered (FileSize KnownHostsFile) (fun r => exists n, r = Ok n /\ 0 < n).
Definition may_connect (ssh : Prop) (before : list vevent) : Prop := ssh \/ opted_out before \/ hosts_known before.
Lemma may_connect_app_l ssh : stable (may_connect ssh).
Proof. unfold may_connect, opted_out, hosts_known. intros tr tr' [H|[H|H]]; auto with virsh. Qed.
Lemma may_connect_app_r ssh tr tr' : may_connect ssh tr' -> may_connect ssh (tr ++ tr').
Proof. unfold may_connect, opted_out, hosts_known. intros [H|[H|H]]; auto with virsh. Qed.

Section HostKeys.
Context `{Url : UrlLibrary} `{Unicode : UnicodeTable} `{Fmt : FmtLibrary}.
Implicit Types (v : VirshProvider).

(** The address does not go through SSH. *)
Definition address (endpoint : string) : string := if is_empty endpoint then "qemu:///system" else endpoint.
Definition not_ssh (endpoint : string) : Prop :=
  match url_Parse (address endpoint) with Ok u => contains (url_Scheme u) "ssh" = false | Err _ => True end.
(** The query of the address of a connection. *)
Definition verifies_in_query (v : VirshProvider) : Prop :=
  exists u q, vp_uri v = url_String (u <| url_RawQuery := EncodeQuery q |>) /\ q !! "no_verify" = None.

Definition any (argv : list string) : bool := true.
Lemma load_silent : silent (starting any) loadCredentialsFromEnv.
Proof. unfold loadCredentialsFromEnv, or_file. solve_silent. Qed.
Lemma write_config_silent config e l : silent (starting any) (write_config config e l).
Proof. revert e. induction l as [|[dir home] l IH]; intros e; cbn [write_config]; [apply silent_Ret|]. solve_silent. Qed.
Hint Resolve write_config_silent : silent.
Lemma setup_silent endpoint v : silent (starting any) (setupConnection endpoint v).
Proof.
  unfold setupConnection, resolveHostKeyPolicy, ssh_url, writeSSHPrivateKey, verifyKnownHostsPresent, connect,
    createSSHConfig, sshConfigStanza, sshMultiplexingEnabled. solve_silent.
Qed.

Lemma query_Set_no_verify k x (q : Query) : k <> "no_verify" -> query_Set k x q !! "no_verify" = q !! "no_verify".
Proof. intros Hk. unfold query_Set. by apply lookup_insert_ne. Qed.
Lemma present_wp pol host :
  wp (verifyKnownHostsPresent pol host)
    (fun tr o => o = Done None -> insecure pol = true \/ hosts_known tr).
Proof.
  unfold verifyKnownHostsPresent. destruct (insecure pol); [by left|]. wp_steps. intros Ho. right.
  apply answered_here. destruct r as [n|e]; [|done]. destruct (0 <? n) eqn:Hn; [|done]. exists n. split; [done|lia].
Qed.
Lemma ssh_url_wp pol c u :
  wp (ssh_url pol c u) (fun tr o => match o with
    | Done (Ok u') => (insecure pol = true \/ hosts_known tr)
        /\ (insecure pol = false -> exists q, u' = u <| url_RawQuery := EncodeQuery q |> /\ q !! "no_verify" = None)
    | _ => True end).
Proof.
  unfold ssh_url. apply wp_bind. eapply wp_mono; [apply wp_true|]. intros tr [[e|]|w] _; cbn [bind_post]; [done| |done].
  apply wp_bind. eapply wp_mono; [apply present_wp|]. intros tr' [[e|]|w] Hp; cbn; try done.
  rewrite app_nil_r. split.
  - destruct (Hp eq_refl) as [H|H]; [by left|right; unfold hosts_known in *; auto with virsh].
  - intros Hs. eexists. split; [reflexivity|]. destruct (key_given c);
      rewrite !query_Set_no_verify by done; unfold applyURIHostKeyOptions; rewrite Hs; apply lookup_delete_eq.
Qed.
Definition set_up (endpoint : string) (r : VirshProvider * option goerror) (tr : list vevent) : Prop :=
  (insecure (vp_hostKey r.1) = true -> opted_out tr)
  /\ (r.2 = None -> may_connect (not_ssh endpoint) tr
       /\ (not_ssh endpoint \/ insecure (vp_hostKey r.1) = true \/ verifies_in_query r.1)).
Lemma connect_wp v ssh u :
  wp (connect v ssh u) (fun tr o => match o with
    | Done r => vp_hostKey r.1 = vp_hostKey v /\ vp_uri r.1 = url_String u | _ => True end).
Proof.
  unfold connect. wp_step. wp_step. cbn [bind_post]. apply wp_bind. eapply wp_mono; [apply wp_true|].
  intros tr [[more|e]|w] _; cbn [bind_post]; [done| |done]. by destruct (key_given _).
Qed.
Lemma setup_wp endpoint v :
  wp (setupConnection endpoint v) (fun tr o => match o with Done r => set_up endpoint r tr | _ => True end).
Proof.
  unfold setupConnection, resolveHostKeyPolicy. do 3 wp_step. cbn [wp bind_post].
  set (e := vev (Getenv EnvInsecureSkipHostKeyVerification) r).
  assert (forall tr, is_true r = true -> opted_out (e :: tr)) as Hopt.
  { intros tr Hi. by apply answered_here. }
  unfold set_up, not_ssh, address. destruct (url_Parse _) as [u|m]; [|by split; [apply Hopt|]].
  destruct (contains (url_Scheme u) "ssh") eqn:Hssh.
  2:{ eapply wp_mono; [apply connect_wp|]. intros tr [r'|w] Hr; [|done]. destruct Hr as [-> _].
      split; [apply Hopt|]. intros _. by split; left. }
  apply wp_bind. eapply wp_mono; [apply ssh_url_wp|]. intros tr [[u'|m]|w] Hu; cbn [bind_post]; [| |done].
  2:{ cbn. rewrite app_nil_r. split; [apply Hopt|done]. }
  destruct Hu as [Hk Hq]. eapply wp_mono; [apply connect_wp|]. intros tr' [r'|w] Hr; [|done]. destruct Hr as [Hh Hr].
  rewrite Hh. split; [apply Hopt|]. intros _. split.
  - right. destruct Hk as [Hi|Hk]; [left; by apply Hopt|right; unfold hosts_known in *; auto with virsh].
  - right. cbn [insecure vp_hostKey] in *. destruct (is_true r) eqn:Hi; [by left|right].
    destruct (Hq eq_refl) as (q & -> & Hq'). eexists _, q. by split.
Qed.

(** C32. Initializing a provider whose address goes through SSH runs no process before a file
    of known hosts with content was found, unless verification was turned off by the
    environment.  The policy it ends with is the strict one, unless verification was so
    turned off or the provider had it off before; and when the initialization succeeds
    under the strict policy its address carries no request to skip the verification. *)
Theorem hosts_are_verified endpoint v tr r :
  runs (Initialize endpoint v) tr (Done r) ->
  only_after any (may_connect (not_ssh endpoint)) tr
  /\ (insecure (vp_hostKey r.1) = true -> opted_out tr \/ insecure (vp_hostKey v) = true)
  /\ (r.2 = None -> not_ssh endpoint \/ insecure (vp_hostKey r.1) = true \/ verifies_in_query r.1).
Proof.
  revert tr r.
  enough (wp (Initialize endpoint v) (fun tr o =>
    only_after any (may_connect (not_ssh endpoint)) tr /\ match o with
    | Done r => (insecure (vp_hostKey r.1) = true -> opted_out tr \/ insecure (vp_hostKey v) = true)
       /\ (r.2 = None -> not_ssh endpoint \/ insecure (vp_hostKey r.1) = true \/ verifies_in_query r.1)
    | _ => True end)) as H.
  { intros tr r Hr. exact (proj1 (wp_runs _ _) H tr _ Hr). }
  unfold Initialize. apply wp_bind. eapply wp_mono; [apply load_silent|].
  intros tr [[c [e|]]|w] Hs; cbn [bind_post].
  - cbn. rewrite app_nil_r. split; [by apply only_after_never|]. split; [by right|done].
  - apply wp_bind. eapply wp_mono; [apply (wp_and _ _ _ (setup_wp _ _) (setup_silent _ _))|].
    intros tr1 [[v1 e]|w] [Hv Hs1]; cbn [bind_post].
    2:{ split; [apply only_after_never; by rewrite occurs_app, Hs|done]. }
    assert (forall tr', opted_out tr1 -> opted_out (tr ++ tr1 ++ tr')) as Hopt.
    { intros tr' H. unfold opted_out in *. auto with virsh. }
    destruct Hv as [Hi Hok]. cbn [fst snd] in *. destruct e as [e|].
    + cbn. rewrite app_nil_r. split; [apply only_after_never; by rewrite occurs_app, Hs|]. split; [|done].
      intros H. left. rewrite <- (app_nil_r tr1). auto.
    + destruct (Hok eq_refl) as [Hm Hv]. apply wp_bind. eapply wp_mono; [apply wp_true|]. intros tr2 o _.
      assert (only_after any (may_connect (not_ssh endpoint)) (tr ++ tr1 ++ tr2)) as Ho.
      { rewrite app_assoc. apply only_after_prefix; [apply may_connect_app_l|by rewrite occurs_app, Hs|by apply may_connect_app_r]. }
      destruct o as [e|w]; cbn; [|done]. rewrite app_nil_r. split; [exact Ho|]. split; [by left; auto|]. intros _. exact Hv.
  - split; [by apply only_after_never|done].
Qed.
End HostKeys.

(** ** Concrete runs *)
Module DemoLibvirt.
#[export] Instance demo_url : UrlLibrary := {|
  url_Parse s := Ok (if contains s "ssh" then mkURL "qemu+ssh" (Some ("admin", None)) "kvm1" "/system" "" ""
                     else mkURL "qemu" None "" "/system" "" "");
  url_String u := if contains (url_Scheme u) "ssh" then "qemu+ssh://admin@kvm1/system?" +:+ url_RawQuery u else "qemu:///system";
  ParseQuery _ := ∅;
  EncodeQuery q := String.concat "&" ((fun kv => kv.1 +:+ "=" +:+ default "" (head kv.2)) <$> map_to_list q)
|}.
#[export] Instance demo_unicode : UnicodeTable := {| unicode_ToLower r := r |}.
#[export] Instance demo_json : JsonLibrary := {|
  json_Unmarshal s := if String.eqb s "image"
                      then Some (JObj [("source", JObj [("libvirt", JObj [("path", JStr "/iso/base.img");
                                                                         ("checksum", JStr "0123abcd")])])])
                      else None;
  json_problem _ := "invalid"
|}.
#[export] Instance demo_size : SizeFormat := {| format_GiB _ := "0.00" |}.
#[export] Instance demo_fmt : FmtLibrary := {| quote s := "'" +:+ s +:+ "'" |}.

(** A host with the machine "web"; the first command of a run finds no connection. *)
Definition table : string :=
  join_lines [" Id   Name   State"; "----------------------"; " 1    web    running"; ""].
Definition process_ok (out : string) : process := mkProcess 0 out "" None.
Definition unreachable : process := mkProcess 255 "" "ssh: connect to host kvm1 port 22: Connection refused" (Some "exit status 255").
Definition demo_host (c : vcall) (n : nat) : vanswer c * nat :=
  match c with
  | AcquireSlot => (None, n)
  | ReleaseSlot => (tt, n)
  | Exec _ argv =>
      ((if (n =? 0)%nat then unreachable
        else if bool_decide ("--all" ∈ argv) && bool_decide ("list" ∈ argv) then process_ok table
        else if bool_decide ("domblklist" ∈ argv) then
          process_ok (join_lines [" Target   Source"; "------"; " vda   /var/lib/libvirt/images/web.qcow2"])
        else if bool_decide ("domblkinfo" ∈ argv) then process_ok (join_lines ["Capacity:       21474836480"; ""])
        else if bool_decide ("stat" ∈ argv) then mkProcess 1 "" "No such file or directory" (Some "exit status 1")
        else if bool_decide ("pool-dumpxml" ∈ argv) then process_ok ("<path>" +:+ images +:+ "</path>")
        else if bool_decide ("dumpxml" ∈ argv) then process_ok "<source file='/var/lib/libvirt/images/web.qcow2'/>"
        else if bool_decide ("domstate" ∈ argv) then process_ok (String.append "running" (String newline ""))
        else process_ok "0123abcd  file"), S n)
  | Backoff _ => (true, n)
  | Getenv name => ((if String.eqb name "LIBVIRT_USERNAME" then "admin" else ""), n)
  | Environ => ([], n)
  | ReadFile _ => (None, n)
  | FileSize _ => (Ok 512, n)
  | MkdirAll _ _ | WriteFile _ _ _ | Chmod _ _ => (None, n)
  | UnixNano => (7, n)
  | Now => ((7, "1970-01-01T00:00:07Z"), n)
  | RemoveAll _ => (None, n)
  | AwaitSecond => (true, n)
  | RandomBytes k => (Some (repeat 0 k), n)
  end.
Definition trace_of {A} (p : VM A) : list vevent := (exec demo_host p O).1.1.
Definition outcome_of {A} (p : VM A) : outcome A := (exec demo_host p O).1.2.
Lemma demo_runs {A} (p : VM A) : runs p (trace_of p) (outcome_of p).
Proof. apply exec_runs. Qed.
Definition demo_virsh : VirshProvider :=
  mkVirshProvider "qemu+ssh://admin@kvm1/system" (mkCredentials "admin" "" "key") None (mkHostKeyPolicy false) true.
Definition demo_provider : Provider := mkProvider (Some demo_virsh).
Definition demo_class : VMClass :=
  Build_VMClass 2 2048 "" (Some (Build_DiskDefaults "" 40)) "" ∅ None None None.
Definition demo_request (name : string) : CreateRequest :=
  mkCreateRequest name demo_class (mkVMImage "" "" "" "" "" "") [] [] None None None [].

(** The second process lists the machines. *)
Lemma commands_are_retried_on_connection_errors_witness :
  outcome_of (runVirshCommand demo_virsh ["list"; "--all"]) = Done (Ran (mkVirshResult "virsh list --all" 0 table ""))
  /\ tries demo_virsh ["list"; "--all"] 3 (trace_of (runVirshCommand demo_virsh ["list"; "--all"]))
       (outcome_of (runVirshCommand demo_virsh ["list"; "--all"])).
Proof.
  split; [vm_compute; reflexivity|].
  exact (proj1 (commands_are_retried_on_connection_errors demo_virsh ["list"; "--all"] _ _
           (demo_runs (runVirshCommand demo_virsh ["list"; "--all"])))).
Defined.

Lemma create_defines_missing_machines_witness :
  outcome_of (Create demo_provider (demo_request "db")) = Done (Ok (mkCreateResponse "db" ""))
  /\ only_after defines (lists "db" false) (trace_of (Create demo_provider (demo_request "db")))
  /\ (lists "db" true (trace_of (Create demo_provider (demo_request "db")))
      \/ defined "db" (trace_of (Create demo_provider (demo_request "db")))).
Proof.
  assert (outcome_of (Create demo_provider (demo_request "db")) = Done (Ok (mkCreateResponse "db" ""))) as Ho
    by (vm_compute; reflexivity).
  pose proof (create_defines_missing_machines demo_provider (demo_request "db") _ _
                (demo_runs (Create demo_provider (demo_request "db")))) as [H1 H2].
  rewrite Ho in H2. split; [exact Ho|split; [exact H1|apply H2]].
Defined.

Lemma disks_go_after_their_machine_witness :
  occurs (starting removes) (trace_of (Delete demo_provider "web")) = true
  /\ only_after removes (fun before => lists "web" false before \/ undefined "web" before)
       (trace_of (Delete demo_provider "web")).
Proof.
  split; [vm_compute; reflexivity|].
  exact (proj1 (disks_go_after_their_machine demo_provider "web" _ _ (demo_runs (Delete demo_provider "web")))).
Defined.

Lemma hosts_are_verified_witness :
  exists v, outcome_of (Initialize "qemu+ssh://kvm1/system" NewVirshProvider) = Done (v, None)
    /\ insecure (vp_hostKey v) = false /\ verifies_in_query v.
Proof.
  destruct (exec demo_host (Initialize "qemu+ssh://kvm1/system" NewVirshProvider) O) as [[tr o] n] eqn:He.
  assert (runs (Initialize "qemu+ssh://kvm1/system" NewVirshProvider) tr o) as Hr.
  { pose proof (exec_runs demo_host (Initialize "qemu+ssh://kvm1/system" NewVirshProvider) O) as Hr.
    rewrite He in Hr. exact Hr. }
  unfold outcome_of. rewrite He. vm_compute in He. injection He as <- <- <-.
  destruct (hosts_are_verified "qemu+ssh://kvm1/system" NewVirshProvider _ _ Hr) as (_ & _ & H).
  eexists. split; [reflexivity|]. split; [reflexivity|].
  destruct (H eq_refl) as [Hn|[Hi|Hv]]; [|discriminate Hi|exact Hv]. vm_compute in Hn. discriminate Hn.
Defined.
End DemoLibvirt.
