(* ===== verification/LibvirtOpsProps.v ===== *)
(** * LibvirtOpsProps: what the changes of a machine and the preparation of an image guarantee

    The growth of a disk, the room that a definition leaves for more processors and
    memory, and the check of an image before it is converted. *)
From stdpp Require Import base gmap strings list pretty.
From Stdlib Require Import Ascii ZArith Lia.
From S2P Require Import Prelude Contracts Effects GoLib Utf8 Json Virsh LibvirtDomains GuestAgent LibvirtStorage LibvirtXml Libvirt LibvirtOps LibvirtImage LibvirtProps.
#[local] Open Scope Z_scope.

(** ** Growing a disk *)
Section Growth.
Context `{Url : UrlLibrary} `{Unicode : UnicodeTable} `{Json : JsonLibrary} `{Size : SizeFormat} `{Fmt : FmtLibrary}.
Context `{Xml : XmlLibrary} `{Time : TimeFormat} `{CloneReader : CloneClassReader}.
Context (ticks : nat).
Implicit Types (v : VirshProvider).

(** The device was found smaller than what is asked for, by more than the threshold. *)
Definition found_smaller (id target : string) (sizeGB : Z) (before : list vevent) : Prop :=
  exists out current,
    done_well ["domblkinfo"; id; target] out before /\ parseDomblkinfoCapacity out = Ok current
    /\ current + growThresholdBytes < sizeGB * bytesPerGiB.
Lemma found_smaller_app_r id target size tr tr' :
  found_smaller id target size tr' -> found_smaller id target size (tr ++ tr').
Proof. intros (out & c & H & H'). exists out, c. split; [by apply done_well_app_r|done]. Qed.
Lemma found_smaller_stable id target size : stable (found_smaller id target size).
Proof. intros tr tr' (out & c & H & H'). exists out, c. split; [by apply done_well_app_l|done]. Qed.

Lemma state_no_grow v id : silent (starting blockresizes) (getDomainState v id).
Proof. unfold getDomainState. solve_silent. Qed.
Lemma addresses_no_grow v id sources :
  Forall (fun s => s = [] \/ exists w, s = ["--source"; w]) sources ->
  silent (starting blockresizes) (addresses_from v id sources).
Proof.
  induction 1 as [|s rest Hs Hrest IH]; cbn [addresses_from]; [apply silent_Ret|].
  apply silent_bind.
  - apply silent_output. destruct Hs as [->|(w & ->)]; quiet.
  - intros [out|e]; [|exact IH]. destruct (omap _ _); [exact IH|apply silent_Ret].
Qed.
Lemma info_no_grow v id : silent (starting blockresizes) (getDomainInfo v id).
Proof.
  unfold getDomainInfo, enrichDomainInfo, getDomainMemoryStats, getDomainCPUStats, getDomainNetworkInfo,
    getDomainBlockStats, getBlockDeviceStats, getDomainGuestInfo, getDomainIPAddresses.
  assert (silent (starting blockresizes) (addresses_from v id [["--source"; "agent"]; []; ["--source"; "arp"]])).
  { apply addresses_no_grow. repeat apply Forall_cons_2; eauto. }
  solve_silent.
Qed.
Lemma cpu_no_grow v id running info cpu : silent (starting blockresizes) (reconfigure_cpu v id running info cpu).
Proof. unfold reconfigure_cpu. solve_silent. Qed.
Lemma memory_no_grow v id running info m : silent (starting blockresizes) (reconfigure_memory v id running info m).
Proof. unfold reconfigure_memory. solve_silent. Qed.
Lemma resize_no_grow v id size : silent (starting blockresizes) (ResizeVolume v "default" (disk_volume id) size).
Proof. unfold ResizeVolume. apply silent_verbose.
  assert (contains (disk_volume id) "-" = true) by (by apply contains_app_l). quiet.
Qed.

(** A step before those that the test concerns. *)
Lemma only_after_bind {A B} g P (F : A -> list vevent -> Prop) (p : VM A) (k : A -> VM B) :
  (forall tr tr', P tr' -> P (tr ++ tr')) -> silent (starting g) p ->
  wp p (fun tr o => match o with Done a => F a tr | Panicked _ => True end) ->
  (forall a tr, F a tr -> wp (k a) (fun tr' _ => only_after g (fun before => P (tr ++ before)) tr')) ->
  wp (p ≫= k) (fun tr _ => only_after g P tr).
Proof.
  intros HP Hs Hp Hk. apply wp_bind. eapply wp_mono; [apply (wp_and _ _ _ Hs Hp)|].
  intros tr [a|w] [Ht Hf]; cbn [bind_post]; [|by apply only_after_never].
  eapply wp_mono; [by apply Hk|]. intros tr' o Ho. by apply only_after_later.
Qed.
Lemma only_after_skip {A B} g P (p : VM A) (k : A -> VM B) :
  (forall tr tr', P tr' -> P (tr ++ tr')) -> silent (starting g) p ->
  (forall a, wp (k a) (fun tr _ => only_after g P tr)) -> wp (p ≫= k) (fun tr _ => only_after g P tr).
Proof.
  intros HP Hs Hk. apply (only_after_bind _ _ (fun _ _ => True)); [done..| |].
  { eapply wp_mono; [apply wp_true|]. by intros ? [?|?]. }
  intros a tr _. eapply wp_mono; [apply Hk|]. intros tr' o. apply only_after_mono. auto.
Qed.
Lemma only_after_ret {A} g P (a : A) : wp (Ret a : VM A) (fun tr _ => only_after g P tr).
Proof. by apply only_after_never. Qed.

Lemma capacity_in_range ls n : capacity_in ls = Ok n -> n < 2 ^ 63.
Proof.
  induction ls as [|line ls IH]; [done|]. cbn [capacity_in]. destruct (has_prefix _ _); [|exact IH].
  destruct (Fields _) as [|? [|w ?]]; [done|done|]. destruct (ParseInt w 64) as [c|] eqn:Hc; [|done]. intros [= <-].
  assert (forall m, (if (- 2 ^ (64 - 1) <=? m) && (m <? 2 ^ (64 - 1)) then Some m else None) = Some c -> c < 2 ^ 63) as Hr.
  { intros m. destruct (_ && _) eqn:Hm; [|done]. intros [= <-]. change (64 - 1) with 63 in Hm. lia. }
  unfold ParseInt in Hc. destruct w as [|a w]; [done|]. repeat case_match; try done;
    destruct (decimal 0 _) as [m|]; try done; cbn [mbind option_bind] in Hc; by apply Hr in Hc.
Qed.

(** Where the difference of the capacities wraps around, it becomes smaller. *)
Lemma shouldGrowDisk_spec current desired :
  current < 2 ^ 63 -> 0 <= desired -> shouldGrowDisk current desired = true ->
  current + growThresholdBytes < desired.
Proof.
  intros Hc Hd Hg%Z.ltb_lt. unfold to_int64 in Hg.
  pose proof (Z.mod_le (desired - current + 2 ^ 63) (2 ^ 64)). lia.
Qed.

(** *** The command that grows a device *)
(** The commands that pass a test are each run only once [P] holds of its words and of what
    was done. *)
Definition each_after (g : list string -> bool) (P : list string -> list vevent -> Prop) (tr : list vevent) : Prop :=
  forall argv, g argv = true -> only_after (fun a => bool_decide (a = argv)) (P argv) tr.

Lemma silent_exactly {A} g argv (p : VM A) :
  g argv = true -> silent (starting g) p -> silent (starting (fun a => bool_decide (a = argv))) p.
Proof.
  intros Hg Hp. eapply wp_mono; [exact Hp|]. cbn. intros tr o. rewrite !occurs_starting. intros Hs.
  apply not_true_iff_false. intros (x & Hx & He%bool_decide_eq_true)%existsb_exists.
  apply not_true_iff_false in Hs. apply Hs, existsb_exists. exists x. by rewrite He.
Qed.

(** The words of the command: it grows the device [target] to [sizeGB] GiB. *)
Definition grows_to (id target : string) (sizeGB : Z) (argv : list string) : Prop :=
  ends ["blockresize"; id; target; FormatInt sizeGB +:+ "G"] argv.
(** The device is the first of the listed ones that has a disk of the machine. *)
Definition found_primary (id target : string) (before : list vevent) : Prop :=
  exists out, done_well ["domblklist"; id] out before /\ parseDomblklistPrimaryTarget out = Some target.
Definition may_grow (id : string) (sizeGB : Z) (argv : list string) (before : list vevent) : Prop :=
  exists target, grows_to id target sizeGB argv /\ found_primary id target before
    /\ found_smaller id target sizeGB before.
Lemma may_grow_app_r id size argv tr tr' : may_grow id size argv tr' -> may_grow id size argv (tr ++ tr').
Proof.
  intros (t & Ht & (out & Ho & Hp) & H). exists t. split; [done|]. split; [|by apply found_smaller_app_r].
  exists out. split; [by apply done_well_app_r|done].
Qed.

Lemma await_no_grow v polls id pid : silent (starting blockresizes) (await_command v polls id pid).
Proof. induction polls as [|n IH]; cbn [await_command]; [apply silent_Ret|]. solve_silent. Qed.
Lemma guest_no_grow v id target : silent (starting blockresizes) (growGuestFilesystemBestEffort ticks v id target).
Proof.
  unfold growGuestFilesystemBestEffort, fsGrowCommands. cbn [run_in_guest].
  assert (forall c, silent (starting blockresizes) (ExecuteGuestCommand v ticks id c)) as Hexec.
  { intros c. unfold ExecuteGuestCommand, isGuestAgentAvailable. pose proof await_no_grow. solve_silent. }
  unfold isGuestAgentAvailable. solve_silent.
Qed.

(** A command is itself run: the process that is it has its words. *)
Lemma only_its_words v args argv (P : list vevent -> Prop) :
  (ends args argv -> forall tr, P tr) -> body args = args ->
  wp (output v args) (fun tr _ => only_after (fun a => bool_decide (a = argv)) P tr).
Proof.
  intros HP Hb. unfold output. apply wp_bind. eapply wp_mono; [apply command_wp|].
  intros tr o (_ & Hf & _ & _).
  assert (only_after (fun a => bool_decide (a = argv)) P tr) as Ho.
  { intros tr1 e tr2 x -> Hx He%bool_decide_eq_true. apply HP. rewrite Forall_forall in Hf.
    destruct (Hf x) as [(l & _ & Hl) _]; [|rewrite <- He, Hl, Hb; by exists (rev l)].
    unfold processes. rewrite omap_app. apply elem_of_app. right. cbn. rewrite Hx. by left. }
  destruct o as [[r|r e]|w]; cbn [bind_post wp]; rewrite ?app_nil_r; exact Ho.
Qed.

Lemma grow_target_wp v id target size argv (P : list vevent -> Prop) :
  blockresizes argv = true -> (grows_to id target size argv -> forall tr, P tr) ->
  wp (grow_target ticks v id target size) (fun tr _ => only_after (fun a => bool_decide (a = argv)) P tr).
Proof.
  intros Hg HP. unfold grow_target. apply wp_bind.
  eapply wp_mono; [apply (silent_exactly _ _ _ Hg), resize_no_grow|]. intros tr [u|w] Htr; cbn [bind_post];
    [|by apply only_after_never].
  apply wp_bind. eapply wp_mono; [apply (only_its_words v _ argv (fun before => P (tr ++ before))); [auto|reflexivity]|].
  intros tr1 [r|w] H1; cbn [bind_post]; [|by apply only_after_later].
  destruct r as [out|e].
  - apply wp_bind. eapply wp_mono; [apply (silent_exactly _ _ _ Hg), guest_no_grow|]. intros tr2 o Htr2.
    assert (only_after (fun a => bool_decide (a = argv)) P (tr ++ tr1 ++ tr2)) as Ho.
    { apply only_after_later; [done|]. by apply only_after_earlier. }
    destruct o; cbn [bind_post wp]; rewrite ?app_nil_r; exact Ho.
  - cbn [wp]. rewrite app_nil_r. by apply only_after_later.
Qed.

Lemma output_done v args (P : string -> list vevent -> Prop) :
  (forall out tr, done_well (body args) out tr -> P out tr) ->
  wp (output v args) (fun tr o => match o with
    | Done r => match r with Ok out => P out tr | Err _ => True end | Panicked _ => True end).
Proof. intros HP. eapply wp_mono; [apply output_wp|]. intros tr [[]|]; auto. Qed.

Lemma grow_wp v id size argv :
  0 <= size -> blockresizes argv = true ->
  wp (growDiskOnline ticks v id size)
    (fun tr _ => only_after (fun a => bool_decide (a = argv)) (may_grow id size argv) tr).
Proof.
  intros Hsize Hg. unfold growDiskOnline.
  apply (only_after_bind _ _ (fun r tr => match r with Ok out => done_well ["domblklist"; id] out tr | Err _ => True end));
    [apply may_grow_app_r|apply (silent_exactly _ _ _ Hg), silent_output; quiet|by apply output_done|].
  intros [out|e] tr Hl; [|apply only_after_ret].
  destruct (parseDomblklistPrimaryTarget out) as [target|] eqn:Ht; [|apply only_after_ret].
  eapply (wp_mono _ (fun tr' _ => only_after _ (fun before => grows_to id target size argv
                                                  /\ found_smaller id target size before) tr')).
  2:{ intros tr' o. apply only_after_mono. intros before [Hw Hs]. exists target.
      split_and!; [done|exists out; split; [by apply done_well_app_l|done]|by apply found_smaller_app_r]. }
  apply (only_after_bind _ _ (fun r tr => match r with Ok out => done_well ["domblkinfo"; id; target] out tr | Err _ => True end));
    [|apply (silent_exactly _ _ _ Hg), silent_output; quiet|by apply output_done|].
  { intros ? ? [? ?]. split; [done|by apply found_smaller_app_r]. }
  intros [info|e] tr' Hi; [|apply only_after_ret].
  destruct (parseDomblkinfoCapacity info) as [current|e] eqn:Hc; [|apply only_after_ret].
  destruct (shouldGrowDisk _ _) eqn:Hgrow; [|apply only_after_ret].
  apply grow_target_wp; [done|]. intros Hw before. split; [done|].
  apply found_smaller_stable. exists info, current. split_and!; [done..|].
  apply shouldGrowDisk_spec; [by eapply capacity_in_range|unfold bytesPerGiB; lia|done].
Qed.

(** C35. A reconfiguration grows only the disk of the machine, and only upwards: each
    [blockresize] it runs names the machine, the first listed device that has a disk, and
    the size the class asks for in GiB; and it comes after the listing that shows this
    device and after the capacity of the same device was read and found smaller than
    that size, by more than the threshold. *)
Theorem disks_only_grow p id desired tr o :
  runs (Reconfigure ticks p id desired) tr o ->
  each_after blockresizes (fun argv before => exists d,
    class_DiskDefaults (req_Class desired) = Some d /\ may_grow id (dd_SizeGiB d) argv before) tr.
Proof.
  intros Hr argv Hg. revert tr o Hr. apply wp_runs. unfold Reconfigure, with_virsh.
  destruct (virshProvider p) as [v|]; [|apply only_after_ret].
  match goal with |- context [only_after _ ?X] => set (P := X) end.
  assert (forall tr tr', P tr' -> P (tr ++ tr')) as HP.
  { intros tr tr' (d & Hd & H). exists d. split; [done|by apply may_grow_app_r]. }
  assert (forall A (q : VM A), silent (starting blockresizes) q -> silent (starting (fun a => bool_decide (a = argv))) q)
    as Hq by (intros A q; by apply silent_exactly).
  apply only_after_skip; [done|apply Hq, state_no_grow|]. intros [state|e]; [|apply only_after_ret].
  apply only_after_skip; [done|apply Hq, info_no_grow|]. intros [info|e]; [|apply only_after_ret].
  apply only_after_skip; [done|apply Hq, cpu_no_grow|]. intros _.
  apply only_after_skip; [done|apply Hq, memory_no_grow|]. intros _.
  apply wp_bind. eapply (wp_mono _ (fun tr _ => only_after _ P tr)).
  2:{ intros tr [e|w] Ho; [|done]. destruct e; cbn; by rewrite app_nil_r. }
  unfold reconfigure_disk. destruct (class_DiskDefaults _) as [d|] eqn:Hd; [|apply only_after_ret].
  destruct (0 <? dd_SizeGiB d) eqn:Hsize; [|apply only_after_ret]. destruct (String.eqb state "running").
  - apply wp_bind. eapply wp_mono; [apply (grow_wp v id (dd_SizeGiB d) argv); [lia|done]|]. intros tr o Ho.
    assert (only_after (fun a => bool_decide (a = argv)) P tr) as HP'.
    { eapply only_after_mono; [|exact Ho]. intros before H. by exists d. }
    destruct o as [[b|e]|w]; cbn; rewrite ?app_nil_r; done.
  - apply only_after_skip; [done|apply Hq, resize_no_grow|]. intros _. apply only_after_ret.
Qed.
End Growth.

(** ** Room for more processors and memory *)
(** C37. The ceilings of a machine's processors and memory are four times what it starts
    with, at most sixty-four processors, and never less than it starts with, even where
    the product of the processors overflows thirty-two bits. *)
Theorem ceilings_leave_room cpus memMiB :
  memMiB < 2 ^ 61 ->
  computeHotplugCeilingVCPUs cpus = Z.max (Z.max 1 cpus) (Z.min maxHotplugVCPUs (4 * Z.max 1 cpus))
  /\ computeHotplugCeilingMemoryMiB memMiB = 4 * Z.max 1 memMiB.
Proof.
  intros Hm. unfold computeHotplugCeilingVCPUs, computeHotplugCeilingMemoryMiB, maxHotplugVCPUs, hotplugResourceMultiplier.
  assert (forall z, (if z <? 1 then 1 else z) = Z.max 1 z) as Hmax.
  { intros z. destruct (z <? 1) eqn:Hz; lia. }
  rewrite !Hmax. split.
  - destruct (Z.le_gt_cases (Z.max 1 cpus) 64) as [Hle|Hgt].
    + rewrite to_int32_id by lia. assert (Z.max 1 cpus * 4 <=? Z.max 1 cpus = false) as -> by lia.
      destruct (64 <? _) eqn:H64; destruct (_ <? Z.max 1 cpus) eqn:Hlt; lia.
    + repeat match goal with |- context [if ?b then _ else _] => destruct b eqn:? end; lia.
  - assert (to_int64 (Z.max 1 memMiB * 4) = Z.max 1 memMiB * 4) as ->.
    { unfold to_int64. rewrite Z.mod_small by lia. lia. }
    destruct (_ <=? _) eqn:Hc; lia.
Qed.

(** ** The check of an image *)
Definition converts_from (file : string) (argv : list string) : bool :=
  let l := rev argv in
  word_is l 1 file && word_is l 2 "qcow2" && word_is l 3 "-O" && word_is l 4 "convert" && word_is l 5 "qemu-img".

Section Images.
Context `{Url : UrlLibrary} `{Unicode : UnicodeTable} `{Json : JsonLibrary} `{Size : SizeFormat} `{Fmt : FmtLibrary}.
Context `{Fold : FoldLibrary}.
Implicit Types (v : VirshProvider) (s : libvirtImageSource).

(** The file had the digest that the image asks for, if it asks for one. *)
Definition checked s (file : string) (before : list vevent) : Prop :=
  TrimSpace (lis_Checksum s) = ""
  \/ exists tool out got rest, checksumTool (lis_ChecksumType s) = (tool, true)
       /\ done_well [tool; file] out before /\ Fields out = got :: rest
       /\ EqualFold got (TrimSpace (lis_Checksum s)) = true.
Lemma checked_stable s file : stable (checked s file).
Proof.
  intros tr tr' [H|(tool & out & got & rest & Ht & Hd & H)]; [by left|right].
  exists tool, out, got, rest. split_and!; try apply H; [done|by apply done_well_app_l].
Qed.
Lemma checked_app_r s file tr tr' : checked s file tr' -> checked s file (tr ++ tr').
Proof.
  intros [H|(tool & out & got & rest & Ht & Hd & H)]; [by left|right].
  exists tool, out, got, rest. split_and!; try apply H; [done|by apply done_well_app_r].
Qed.
Ltac quiet_image :=
  apply quiet_lead; intros ? Hlead; cbn [body direct] in *; unfold converts_from; rewrite rev_involutive;
  inversion Hlead; subst;
  repeat match goal with H : lead true ?l, _ : context [?l] |- _ => inversion H; clear H; subst end;
  cbn; tell_apart; rewrite ?andb_false_r; reflexivity.
Ltac no_convert := repeat first [silent_step | apply silent_perform; quiet_image | apply silent_output; quiet_image
  | apply silent_attempt; quiet_image | apply silent_command; quiet_image].

Lemma verify_no_convert v file path sum type : silent (starting (converts_from file)) (verifyChecksum v path sum type).
Proof. unfold verifyChecksum. no_convert. Qed.
Lemma verify_wp v s path :
  wp (verifyChecksum v path (lis_Checksum s) (lis_ChecksumType s))
    (fun tr o => match o with Done None => checked s path tr | _ => True end).
Proof.
  unfold verifyChecksum, checked. destruct (is_empty _) eqn:He; [apply is_empty_true in He; by left|].
  destruct (checksumTool _) as [tool known] eqn:Ht. destruct known; cbn [negb]; [|done].
  apply wp_bind. eapply wp_mono; [apply ran_well|]. intros tr [[r|res e]|w] Hr; cbn [bind_post]; [|done..].
  destruct (Fields _) as [|got rest] eqn:Hf; [done|]. destruct (EqualFold _ _) eqn:Hq; [|done].
  cbn [wp]. rewrite app_nil_r. right. by exists tool, (vr_Stdout r), got, rest.
Qed.

Notation guarded s file := (fun tr _ => only_after (converts_from file) (checked s file) tr) (only parsing).
Lemma convert_no_convert v file src target :
  String.eqb src file = false -> silent (starting (converts_from file)) (convertIntoPool v src target).
Proof.
  intros Hne. unfold convertIntoPool, removeHostFile. apply silent_bind; [|intros [r|res e]; no_convert].
  apply silent_command, quiet_lead. intros l Hl. unfold converts_from. rewrite rev_involutive. cbn. by rewrite Hne.
Qed.
Lemma finalize_no_convert v file target : silent (starting (converts_from file)) (finalizeClonedDisk v target).
Proof. unfold finalizeClonedDisk, own_and_label, own. no_convert. Qed.
Lemma install_no_convert v s file src target :
  String.eqb src file = false -> silent (starting (converts_from file)) (install v s src target).
Proof.
  intros Hne. unfold install. apply silent_bind; [apply verify_no_convert|]. intros [e|]; [apply silent_Ret|].
  apply silent_bind; [by apply convert_no_convert|]. intros [e|]; [apply silent_Ret|].
  apply silent_bind; [apply finalize_no_convert|]. intros _. apply silent_Ret.
Qed.
Lemma install_wp v s src file target : wp (install v s src target) (guarded s file).
Proof.
  destruct (String.eqb src file) eqn:Hsf.
  2:{ eapply wp_mono; [by apply install_no_convert|]. intros tr o. apply only_after_never. }
  apply String.eqb_eq in Hsf as <-. unfold install.
  apply (only_after_bind _ _ (fun e tr => e = None -> checked s src tr)); [apply checked_app_r|apply verify_no_convert| |].
  - eapply wp_mono; [apply verify_wp|]. by intros tr [[e|]|w] H.
  - intros [e|] tr Hc; [apply only_after_ret|]. specialize (Hc eq_refl).
    eapply wp_mono; [apply wp_true|]. intros tr' o _ tr1 e tr2 x _ _ _. by apply checked_stable.
Qed.
Lemma remove_no_convert v file path : silent (starting (converts_from file)) (removeHostFile v path).
Proof. unfold removeHostFile. no_convert. Qed.
(** A step after those that the test concerns. *)
Lemma only_after_then {A B} g P (p : VM A) (k : A -> VM B) :
  wp p (fun tr _ => only_after g P tr) -> (forall a, silent (starting g) (k a)) ->
  wp (p ≫= k) (fun tr _ => only_after g P tr).
Proof.
  intros Hp Hk. apply wp_bind. eapply wp_mono; [exact Hp|]. intros tr [a|w] Ho; cbn [bind_post]; [|done].
  eapply wp_mono; [apply Hk|]. intros tr' o. by apply only_after_earlier.
Qed.
Lemma fetch_wp v s pool name file target : wp (fetch v s pool name target) (guarded s file).
Proof.
  unfold fetch. destruct (negb _); [apply install_wp|].
  apply only_after_skip; [apply checked_app_r|unfold downloadOnHost; no_convert|].
  intros [e|]; [apply only_after_ret|]. apply only_after_then; [apply install_wp|].
  intros e. apply silent_bind; [apply remove_no_convert|]. intros _. apply silent_Ret.
Qed.

(** C36. Preparing an image converts a file into the pool only if no digest is given for the
    image, or after the tool of its algorithm printed that digest for this very file. *)
Theorem image_is_checked_before_use p imageJSON targetName storageHint file tr o :
  runs (imagePrepare p imageJSON targetName storageHint) tr o ->
  only_after (converts_from file) (checked (parseLibvirtImageSource imageJSON) file) tr.
Proof.
  revert tr o. apply wp_runs. unfold imagePrepare, with_virsh. destruct (virshProvider p) as [v|]; [|apply only_after_ret].
  destruct (is_empty (TrimSpace targetName)); [apply only_after_ret|].
  destruct (is_empty (lis_Path _) && _); [apply only_after_ret|].
  apply only_after_skip; [apply checked_app_r|unfold GetPoolInfo; no_convert|].
  intros [info|e]; [|apply only_after_ret]. destruct (is_empty (pool_Path info)); [apply only_after_ret|].
  apply only_after_skip; [apply checked_app_r|unfold targetImageExists; no_convert|].
  intros [|]; [apply only_after_ret|].
  apply only_after_then; [apply fetch_wp|]. intros e. apply silent_Ret.
Qed.
End Images.

(** ** Concrete runs *)
Module DemoChanges.
Import DemoLibvirt.
#[export] Instance demo_xml : XmlLibrary := {| xml_Unmarshal _ := Err (ENew "no domain") |}.
#[export] Instance demo_format : TimeFormat := {| format_nano _ := "" |}.
#[export] Instance demo_reader : CloneClassReader := {| read_clone_class _ := None |}.
#[export] Instance demo_fold : FoldLibrary := {| EqualFold := String.eqb |}.

(** A disk of 20 GiB is to have 40. *)
Lemma disks_only_grow_witness :
  occurs (starting blockresizes) (trace_of (Reconfigure 3 demo_provider "web" (demo_request "web"))) = true
  /\ each_after blockresizes (fun argv before => exists d,
       class_DiskDefaults (req_Class (demo_request "web")) = Some d
       /\ may_grow "web" (dd_SizeGiB d) argv before)
       (trace_of (Reconfigure 3 demo_provider "web" (demo_request "web"))).
Proof.
  split; [vm_compute; reflexivity|].
  exact (disks_only_grow 3 demo_provider "web" (demo_request "web") _ _
           (demo_runs (Reconfigure 3 demo_provider "web" (demo_request "web")))).
Defined.

Lemma ceilings_leave_room_witness :
  computeHotplugCeilingVCPUs 24 = 64 /\ computeHotplugCeilingVCPUs 2147483647 = 2147483647
  /\ computeHotplugCeilingMemoryMiB 2048 = 8192.
Proof.
  destruct (ceilings_leave_room 24 2048) as [-> ->]; [lia|].
  destruct (ceilings_leave_room 2147483647 2048) as [-> _]; [lia|]. by vm_compute.
Defined.

(** The image is converted: the host has it, with the digest. *)
Lemma image_is_checked_before_use_witness :
  occurs (starting (converts_from "/iso/base.img")) (trace_of (imagePrepare demo_provider "image" "base" "")) = true
  /\ only_after (converts_from "/iso/base.img") (checked (parseLibvirtImageSource "image") "/iso/base.img")
       (trace_of (imagePrepare demo_provider "image" "base" "")).
Proof.
  split; [vm_compute; reflexivity|].
  exact (image_is_checked_before_use demo_provider "image" "base" "" "/iso/base.img" _ _
           (demo_runs (imagePrepare demo_provider "image" "base" ""))).
Defined.
End DemoChanges.
