(* ===== verification/Transfer.v ===== *)
(** * Transfer: moving disks through staging storage

    Models the data plane of [internal/storage]: the requests of storage.go, the copying,
    checking and describing of files in pvc.go and of objects in s3.go, and the
    image tool of [internal/diskutil].  The client of the object store (minio), SHA-256
    and the scanning of numbers are parameters.  The error types, the callbacks that log
    progress, and the closing of what was opened are left out. *)
From stdpp Require Import base gmap strings list.
From Stdlib Require Import Ascii ZArith QArith.
From S2P Require Import Prelude Contracts K8s Api Effects GoLib NetIP GrpcClient CoreApi MigrationApi JobApi Cluster Storage Utf8 Json Virsh.
#[local] Open Scope Z_scope.

Definition len (s : string) : Z := Z.of_nat (String.length s).

(** ** What a transfer asks of its environment *)
(** A stream: what its reads give in order, a chunk with the error that came with it,
    if any.  After the last one the stream ends. *)
Abbreviation reads := (list (string * option string)).
(** Where bytes are written: to a file of the pod, or into a pipe. *)
Inductive sink := ToFile (path : string) | ToPipe.

Inductive opened := Opened (content : reads) | OpenNotExist (e : string) | OpenError (e : string).
Inductive file_info :=
  | FileInfo (size : Z) (modified : string)
  | InfoNotExist (e : string) | InfoError (e : string).
(** How far [PutObject] read its stream, and what it returned: the size and the ETag. *)
Record put := mkPut { put_read : nat; put_result : result (Z * string) string }.
Record ObjectInfo := mkObjectInfo {
  obj_Size : Z; obj_ETag : string; obj_LastModified : string; obj_ContentType : string
}.
(** The end of a process: the error of running it, and its standard error. *)
Abbreviation ending := (option string * string)%type.

(** A file that is opened is read to its end, so the call answers with all its reads. *)
Inductive xcall :=
  | Pod (c : kcall)
  | Host (c : vcall)
  | OpenFile (path : string)
  | FstatSize (path : string)
  | LookAt (path : string)
  | CreateFile (path : string)
  | Write (w : sink) (chunk : string)
  | Sync (path : string)
  | Combined (env : option (list string)) (argv : list string)   (* both outputs, and the error *)
  (* the object store *)
  | PutObject (bucket key : string) (size partSize : Z) (body : reads)
  | GetObject (bucket key : string)
  | RemoveObject (bucket key : string)
  | StatObject (bucket key : string)
  (* a process at the other end of a pipe *)
  | StartReader (env : option (list string)) (argv : list string)
  | ClosePipe (e : option goerror)
  | WaitReader
  | RunWriter (env : option (list string)) (argv : list string)  (* what it prints, and its end *)
  | BreakPipe.                        (* how it ends when it is no longer read *)
Definition xanswer (c : xcall) : Type :=
  match c with
  | Pod c => kanswer c
  | Host c => vanswer c
  | OpenFile _ => opened
  | FstatSize _ => result Z string
  | LookAt _ => file_info
  | CreateFile _ | Sync _ => option string
  | Write _ _ => Z * option string
  | Combined _ _ => string * option string
  | PutObject _ _ _ _ _ => put
  | GetObject _ _ => result reads string
  | RemoveObject _ _ => option string
  | StatObject _ _ => result ObjectInfo string
  | StartReader _ _ | ClosePipe _ => unit
  | WaitReader | BreakPipe => ending
  | RunWriter _ _ => list string * ending
  end.
Abbreviation XM := (prog xcall xanswer).
Abbreviation xdo := (trigger (E := xcall) (R := xanswer)).
Abbreviation xev := (ev (E := xcall) (R := xanswer)).

(** Programs of the other files as parts of a transfer. *)
Fixpoint host {A} (p : VM A) : XM A :=
  match p with
  | Ret a => Ret a
  | Vis c k => Vis (Host c : xcall) (fun r => host (k r))
  | Crash w => Crash w
  end.
Fixpoint pod {A} (p : KM A) : XM A :=
  match p with
  | Ret a => Ret a
  | Vis c k => Vis (Pod c : xcall) (fun r => pod (k r))
  | Crash w => Crash w
  end.

(** [hex.EncodeToString] of the SHA-256 of some bytes. *)
Class Sha256 := { sha256hex : string -> string }.

(** ** Requests *)
Record UploadRequest := mkUploadRequest {
  up_SourcePath : string; up_DestinationURL : string; up_Reader : option reads;
  up_ContentLength : Z; up_Checksum : string
}.
Record UploadResponse := mkUploadResponse {
  upr_URL : string; upr_Checksum : string; upr_BytesTransferred : Z; upr_ETag : string
}.
Record DownloadRequest := mkDownloadRequest {
  down_SourceURL : string; down_DestinationPath : string; down_Writer : option sink;
  down_VerifyChecksum : bool; down_ExpectedChecksum : string
}.
Record DownloadResponse := mkDownloadResponse {
  downr_BytesTransferred : Z; downr_Checksum : string; downr_ContentLength : Z
}.
Record StreamUploadRequest := mkStreamUploadRequest {
  su_DestinationURL : string; su_Reader : option reads; su_ContentLength : Z
}.
Record StreamDownloadRequest := mkStreamDownloadRequest {
  sd_SourceURL : string; sd_Writer : option sink; sd_ExpectedChecksum : string
}.
Record FileMetadata := mkFileMetadata {
  meta_URL : string; meta_Size : Z; meta_Checksum : string; meta_ETag : string;
  meta_LastModified : string; meta_ContentType : string
}.

(** ** Copying *)
Inductive copy_error := WriteFailed (e : string) | ShortWrite | ReadFailed (e : string).
(** What was written of a chunk; [true] for [io.MultiWriter] with a hash behind the
    writer, which complains about what was not written. *)
Definition write_chunk (multi : bool) (w : sink) (chunk : string) : XM (Z * option string) :=
  r ← xdo (Write w chunk);
  let '(n, e) := (r : Z * option string) in
  Ret (match e with
       | None => if multi && negb (n =? len chunk) then (n, Some "short write") else (n, None)
       | Some _ => (n, e)
       end).
Definition valid_write (chunk : string) (r : Z * option string) : Z * option string :=
  let '(n, e) := r in
  if (n <? 0) || (len chunk <? n) then (0, Some (default "invalid write result" e)) else (n, e).
Definition put_chunk (multi : bool) (w : sink) (chunk : string) : XM (option copy_error) :=
  if is_empty chunk then Ret None
  else
    r ← write_chunk multi w chunk;
    let '(n, e) := valid_write chunk r in
    Ret (match e with
         | Some e => Some (WriteFailed e)
         | None => if n =? len chunk then None else Some ShortWrite
         end).
(** The loop of the uploads and downloads, which is that of [io.Copy]; the bytes that
    were written when it is done. *)
Fixpoint copy (multi : bool) (w : sink) (source : reads) (written : string) : XM (result string copy_error) :=
  match source with
  | [] => Ret (Ok written)
  | (chunk, readError) :: rest =>
      e ← put_chunk multi w chunk;
      match (e : option copy_error) with
      | Some e => Ret (Err e)
      | None =>
          match readError with
          | Some e => Ret (Err (ReadFailed e))
          | None => copy multi w rest (written +:+ chunk)
          end
      end
  end.
(** The error that [io.Copy] returns. *)
Definition copy_message (e : copy_error) : string :=
  match e with WriteFailed m | ReadFailed m => m | ShortWrite => "short write" end.
Definition copy_failed (e : copy_error) : goerror :=
  match e with
  | WriteFailed m => StorageError "failed to write to destination" (Some (ENew m))
  | ShortWrite => StorageError "short write" None
  | ReadFailed m => StorageError "failed to read source" (Some (ENew m))
  end.
(** Reading without writing. *)
Fixpoint read_all (source : reads) : result string string :=
  match source with
  | [] => Ok ""
  | (chunk, Some e) :: _ => Err e
  | (chunk, None) :: rest => match read_all rest with Ok s => Ok (chunk +:+ s) | Err e => Err e end
  end.
(** What the first reads gave. *)
Definition taken (n : nat) (source : reads) : string := foldr (fun r s => fst r +:+ s) "" (take n source).

Definition failed {A} (what : string) (cause : option string) : XM (res A) :=
  Ret (Err (StorageError what (ENew <$> cause))).
(** Go on unless there is an error. *)
Definition unless {A} (p : XM (option string)) (what : string) (k : XM (res A)) : XM (res A) :=
  e ← p;
  match (e : option string) with
  | Some m => failed what (Some m)
  | None => k
  end.
Definition bad_sum {A} (what expected actual : string) : XM (res A) :=
  failed (what +:+ " mismatch: expected=" +:+ expected +:+ " actual=" +:+ actual) None.
Definition mismatch (expected actual : string) : bool := negb (is_empty expected) && negb (String.eqb expected actual).

(** ** Files under a claim *)
Section Files.
Context `{Sum : Sha256}.

Definition make_dir (dir : string) : XM (option string) := xdo (Host (MkdirAll dir 493)).
Definition open_source (req : UploadRequest) : XM (res reads) :=
  if negb (is_empty (up_SourcePath req)) then
    f ← xdo (OpenFile (up_SourcePath req));
    match (f : opened) with
    | OpenNotExist m | OpenError m => failed ("failed to open source file: " +:+ up_SourcePath req) (Some m)
    | Opened content =>
        size ← xdo (FstatSize (up_SourcePath req));
        match (size : result Z string) with
        | Err m => failed "failed to stat source file" (Some m)
        | Ok _ => Ret (Ok content)
        end
    end
  else
    match up_Reader req with
    | Some content => Ret (Ok content)
    | None => failed "either SourcePath or Reader must be provided" None
    end.

(** Writes the destination and compares the sums. *)
Definition store (dest : string) (req : UploadRequest) (source : reads) : XM (res UploadResponse) :=
  unless (xdo (CreateFile dest)) ("failed to create destination file: " +:+ dest) (
    c ← copy true (ToFile dest) source "";
    match (c : result string copy_error) with
    | Err e => Ret (Err (copy_failed e))
    | Ok written =>
        unless (xdo (Sync dest)) "failed to sync file to disk" (
          let checksum := sha256hex written in
          if mismatch (up_Checksum req) checksum then
            _ ← xdo (Pod (Remove dest));
            bad_sum "checksum" (up_Checksum req) checksum
          else Ret (Ok (mkUploadResponse (up_DestinationURL req) checksum (len written) "")))
    end).
Definition PVC_Upload (p : PVCStorage) (req : UploadRequest) : XM (res UploadResponse) :=
  match parsePath p (up_DestinationURL req) with
  | Err e => Ret (Err e)
  | Ok dest =>
      let dir := filepath_Dir dest in
      unless (make_dir dir) ("failed to create destination directory: " +:+ dir) (
        source ← open_source req;
        match (source : res reads) with
        | Err e => Ret (Err e)
        | Ok source => store dest req source
        end)
  end.

Definition open_destination (req : DownloadRequest) : XM (res sink) :=
  if negb (is_empty (down_DestinationPath req)) then
    let dest := down_DestinationPath req in
    let dir := filepath_Dir dest in
    unless (make_dir dir) ("failed to create destination directory: " +:+ dir) (
      unless (xdo (CreateFile dest)) ("failed to create destination file: " +:+ dest) (Ret (Ok (ToFile dest))))
  else
    match down_Writer req with
    | Some w => Ret (Ok w)
    | None => failed "either DestinationPath or Writer must be provided" None
    end.
Definition fetch_to (w : sink) (req : DownloadRequest) (source : reads) (size : Z) : XM (res DownloadResponse) :=
  c ← copy (down_VerifyChecksum req) w source "";
  match (c : result string copy_error) with
  | Err e => Ret (Err (copy_failed e))
  | Ok written =>
      let checksum := if down_VerifyChecksum req then sha256hex written else "" in
      if down_VerifyChecksum req && mismatch (down_ExpectedChecksum req) checksum
      then bad_sum "checksum" (down_ExpectedChecksum req) checksum
      else Ret (Ok (mkDownloadResponse (len written) checksum size))
  end.
Definition PVC_Download (p : PVCStorage) (req : DownloadRequest) : XM (res DownloadResponse) :=
  match parsePath p (down_SourceURL req) with
  | Err e => Ret (Err e)
  | Ok src =>
      f ← xdo (OpenFile src);
      match (f : opened) with
      | OpenNotExist m => failed ("source file not found: " +:+ src) (Some m)
      | OpenError m => failed ("failed to open source file: " +:+ src) (Some m)
      | Opened content =>
          size ← xdo (FstatSize src);
          match (size : result Z string) with
          | Err m => failed "failed to stat source file" (Some m)
          | Ok size =>
              w ← open_destination req;
              match (w : res sink) with
              | Err e => Ret (Err e)
              | Ok w => fetch_to w req content size
              end
          end
      end
  end.

Definition PVC_UploadStream (p : PVCStorage) (req : StreamUploadRequest) : XM (res UploadResponse) :=
  PVC_Upload p (mkUploadRequest "" (su_DestinationURL req) (su_Reader req) (su_ContentLength req) "").
Definition PVC_DownloadStream (p : PVCStorage) (req : StreamDownloadRequest) : XM (res DownloadResponse) :=
  PVC_Download p (mkDownloadRequest (sd_SourceURL req) "" (sd_Writer req)
                    (negb (is_empty (sd_ExpectedChecksum req))) (sd_ExpectedChecksum req)).

Definition PVC_GetMetadata (p : PVCStorage) (url : string) : XM (res FileMetadata) :=
  match parsePath p url with
  | Err e => Ret (Err e)
  | Ok path =>
      info ← xdo (LookAt path);
      match (info : file_info) with
      | InfoNotExist m => failed ("file not found: " +:+ path) (Some m)
      | InfoError m => failed ("failed to stat file: " +:+ path) (Some m)
      | FileInfo size modified =>
          f ← xdo (OpenFile path);
          match (f : opened) with
          | OpenNotExist m | OpenError m => failed "failed to open file for checksum" (Some m)
          | Opened content =>
              match read_all content with
              | Err m => failed "failed to calculate checksum" (Some m)
              | Ok bytes => Ret (Ok (mkFileMetadata url size (sha256hex bytes) "" modified ""))
              end
          end
      end
  end.
Definition PVC_ValidateURL (p : PVCStorage) (url : string) : option goerror :=
  match parsePath p url with Ok _ => None | Err e => Some e end.
End Files.

(** ** Objects *)
(** What the client is made with. *)
Record MinioOptions := mkMinioOptions {
  mo_AccessKeyID : string; mo_SecretAccessKey : string; mo_SessionToken : string;
  mo_Secure : bool; mo_Region : string; mo_PathLookup : bool
}.
(** [minio.New]: its complaint. *)
Class Minio := { minio_New : string -> MinioOptions -> option string }.
Record S3Storage := mkS3Storage {
  s3s_client : string * MinioOptions; s3s_bucket : string; s3s_secure : bool
}.

Section Objects.
Context `{Sum : Sha256} `{Url : UrlLibrary} `{Fmt : FmtLibrary} `{Client : Minio}.

Definition parseS3Endpoint (endpoint : string) : res (string * bool) :=
  if is_empty endpoint then Ok ("s3.amazonaws.com", true)
  else if negb (contains endpoint "://") then Ok (endpoint, true)
  else
    match url_Parse endpoint with
    | Err m => Err (EWrap ("invalid s3 endpoint " +:+ quote endpoint) (ENew m))
    | Ok u =>
        if String.eqb (url_Scheme u) "http" then Ok (Virsh.url_Host u, false)
        else if String.eqb (url_Scheme u) "https" then Ok (Virsh.url_Host u, true)
        else Err (ENew ("unsupported s3 endpoint scheme " +:+ quote (url_Scheme u) +:+ " (use http or https)"))
    end.
Definition invalid {A} (what : string) : res A := Err (StorageError what None).
Definition NewS3Storage (config : StorageConfig) : res S3Storage :=
  match sc_S3 config with
  | None => invalid "s3 storage configuration is required for s3 backend"
  | Some c =>
      if is_empty (s3_Bucket c) then invalid "s3 bucket is required"
      else if is_empty (s3_AccessKeyID c) || is_empty (s3_SecretAccessKey c)
      then invalid "s3 credentials are required (accessKeyID/secretAccessKey)"
      else
        match parseS3Endpoint (s3_Endpoint c) with
        | Err e => invalid (Error e)
        | Ok (endpoint, secure) =>
            let region := if is_empty (s3_Region c) then "us-east-1" else s3_Region c in
            let opts := mkMinioOptions (s3_AccessKeyID c) (s3_SecretAccessKey c) (s3_SessionToken c)
                          secure region (s3_UsePathStyle c) in
            match minio_New endpoint opts with
            | Some m => Err (StorageError "failed to create S3 client" (Some (ENew m)))
            | None => Ok (mkS3Storage (endpoint, opts) (s3_Bucket c) secure)
            end
        end
  end.

Definition parseS3Key (s : S3Storage) (rawURL : string) : res string :=
  let raw := TrimPrefix (TrimSpace rawURL) "s3://" in
  if is_empty raw then invalid "empty s3 URL"
  else
    match Cut "/" raw with
    | Some (first, rest) =>
        if String.eqb first (s3s_bucket s)
        then if is_empty rest then invalid ("s3 URL has no object key: " +:+ rawURL) else Ok rest
        else Ok raw
    | None =>
        if String.eqb raw (s3s_bucket s) then invalid ("s3 URL has no object key: " +:+ rawURL) else Ok raw
    end.
Definition object_url (s : S3Storage) (key : string) : string := "s3://" +:+ s3s_bucket s +:+ "/" +:+ key.
(** An operation on the object a URL names. *)
Definition with_key {A} (s : S3Storage) (url : string) (k : string -> XM (res A)) : XM (res A) :=
  match parseS3Key s url with Err e => Ret (Err e) | Ok key => k key end.

Definition S3_UploadStream (s : S3Storage) (req : StreamUploadRequest) : XM (res UploadResponse) :=
  with_key s (su_DestinationURL req) (fun key =>
    match su_Reader req with
    | None => failed "Reader is required for UploadStream" None
    | Some body =>
        let '(size, partSize) :=
          if su_ContentLength req <=? 0 then (-1, 16 * 1024 * 1024) else (su_ContentLength req, 0) in
        r ← xdo (PutObject (s3s_bucket s) key size partSize body);
        match put_result (r : put) with
        | Err m => failed ("S3 upload failed: " +:+ object_url s key) (Some m)
        | Ok (stored, etag) =>
            Ret (Ok (mkUploadResponse (object_url s key) (sha256hex (taken (put_read r) body)) stored etag))
        end
    end).
Definition S3_DownloadStream (s : S3Storage) (req : StreamDownloadRequest) : XM (res DownloadResponse) :=
  with_key s (sd_SourceURL req) (fun key =>
    match sd_Writer req with
    | None => failed "Writer is required for DownloadStream" None
    | Some w =>
        obj ← xdo (GetObject (s3s_bucket s) key);
        match (obj : result reads string) with
        | Err m => failed ("S3 GetObject failed: " +:+ object_url s key) (Some m)
        | Ok content =>
            c ← copy true w content "";
            match (c : result string copy_error) with
            | Err e => failed ("S3 download failed: " +:+ object_url s key) (Some (copy_message e))
            | Ok written =>
                let checksum := sha256hex written in
                if mismatch (sd_ExpectedChecksum req) checksum
                then bad_sum "S3 object checksum" (sd_ExpectedChecksum req) checksum
                else Ret (Ok (mkDownloadResponse (len written) checksum (len written)))
            end
        end
    end).

Definition S3_Delete (s : S3Storage) (url : string) : XM (option goerror) :=
  match parseS3Key s url with
  | Err e => Ret (Some e)
  | Ok key =>
      e ← xdo (RemoveObject (s3s_bucket s) key);
      Ret ((fun m => StorageError ("S3 delete failed: " +:+ object_url s key) (Some (ENew m)))
             <$> (e : option string))
  end.
Definition S3_Upload (s : S3Storage) (req : UploadRequest) : XM (res UploadResponse) :=
  match up_Reader req with
  | None => failed "S3 Upload requires a Reader (use UploadStream); file-path upload is not supported on the s3 backend" None
  | Some body =>
      r ← S3_UploadStream s (mkStreamUploadRequest (up_DestinationURL req) (Some body) (up_ContentLength req));
      match (r : res UploadResponse) with
      | Err e => Ret (Err e)
      | Ok resp =>
          if mismatch (up_Checksum req) (upr_Checksum resp) then
            _ ← S3_Delete s (upr_URL resp);
            bad_sum "checksum" (up_Checksum req) (upr_Checksum resp)
          else Ret (Ok resp)
      end
  end.
Definition S3_Download (s : S3Storage) (req : DownloadRequest) : XM (res DownloadResponse) :=
  match down_Writer req with
  | None => failed "S3 Download requires a Writer (use DownloadStream); file-path download is not supported on the s3 backend" None
  | Some w =>
      S3_DownloadStream s (mkStreamDownloadRequest (down_SourceURL req) (Some w)
                             (if down_VerifyChecksum req then down_ExpectedChecksum req else ""))
  end.
Definition S3_GetMetadata (s : S3Storage) (url : string) : XM (res FileMetadata) :=
  with_key s url (fun key =>
    r ← xdo (StatObject (s3s_bucket s) key);
    match (r : result ObjectInfo string) with
    | Err m => failed ("S3 stat failed: " +:+ object_url s key) (Some m)
    | Ok info => Ret (Ok (mkFileMetadata (object_url s key) (obj_Size info) "" (obj_ETag info)
                            (obj_LastModified info) (obj_ContentType info)))
    end).
Definition S3_ValidateURL (s : S3Storage) (url : string) : option goerror :=
  match parseS3Key s url with Ok _ => None | Err e => Some e end.

(** ** The interface *)
Inductive StorageBackend := OnPVC (p : PVCStorage) | OnS3 (s : S3Storage).
Definition NewStorage (config : StorageConfig) : XM (res StorageBackend) :=
  if is_empty (sc_Type config) || String.eqb (sc_Type config) "pvc" then
    p ← pod (NewPVCStorage config);
    Ret (match (p : res PVCStorage) with Ok p => Ok (OnPVC p) | Err e => Err e end)
  else if String.eqb (sc_Type config) "s3" then
    Ret (match NewS3Storage config with Ok s => Ok (OnS3 s) | Err e => Err e end)
  else Ret (invalid ("unsupported storage type (supported: 'pvc', 's3'): " +:+ sc_Type config)).
Definition Upload (b : StorageBackend) (req : UploadRequest) : XM (res UploadResponse) :=
  match b with OnPVC p => PVC_Upload p req | OnS3 s => S3_Upload s req end.
Definition Download (b : StorageBackend) (req : DownloadRequest) : XM (res DownloadResponse) :=
  match b with OnPVC p => PVC_Download p req | OnS3 s => S3_Download s req end.
Definition UploadStream (b : StorageBackend) (req : StreamUploadRequest) : XM (res UploadResponse) :=
  match b with OnPVC p => PVC_UploadStream p req | OnS3 s => S3_UploadStream s req end.
Definition DownloadStream (b : StorageBackend) (req : StreamDownloadRequest) : XM (res DownloadResponse) :=
  match b with OnPVC p => PVC_DownloadStream p req | OnS3 s => S3_DownloadStream s req end.
Definition Delete (b : StorageBackend) (url : string) : XM (option goerror) :=
  match b with OnPVC p => pod (PVCStorage_Delete p url) | OnS3 s => S3_Delete s url end.
Definition GetMetadata (b : StorageBackend) (url : string) : XM (res FileMetadata) :=
  match b with OnPVC p => PVC_GetMetadata p url | OnS3 s => S3_GetMetadata s url end.
Definition ValidateURL (b : StorageBackend) (url : string) : option goerror :=
  match b with OnPVC p => PVC_ValidateURL p url | OnS3 s => S3_ValidateURL s url end.
End Objects.

(** ** Images *)
(** [fmt.Sscanf] with [%f%s] and with [%d], [None] when it fails; [unicode.ToUpper]. *)
Class Scanner := {
  scan_size : string -> option (Q * string);
  scan_int : string -> option Z;
  unicode_ToUpper : Z -> Z
}.
Record ConvertOptions := mkConvertOptions {
  co_SourcePath : string; co_DestinationPath : string; co_SourceFormat : string;
  co_DestinationFormat : string; co_Compression : bool; co_Subformat : string
}.
Record InfoResult := mkInfoResult {
  inf_Format : string; inf_VirtualSize : Z; inf_ActualSize : Z; inf_ClusterSize : Z;
  inf_Encrypted : bool; inf_BackingFile : string
}.
#[export] Instance InfoResult_eta : Eta InfoResult := fun r =>
  mkInfoResult (inf_Format r) (inf_VirtualSize r) (inf_ActualSize r) (inf_ClusterSize r)
    (inf_Encrypted r) (inf_BackingFile r).
Record QemuImg := mkQemuImg { BinaryPath : string }.
Definition NewQemuImg : QemuImg := mkQemuImg "qemu-img".

Definition buildConvertArgs (opts : ConvertOptions) : list string :=
  ["convert"; "-p"]
  ++ (if is_empty (co_SourceFormat opts) then [] else ["-f"; co_SourceFormat opts])
  ++ ["-O"; co_DestinationFormat opts]
  ++ (if negb (is_empty (co_Subformat opts)) then ["-o"; "subformat=" +:+ co_Subformat opts]
      else if co_Compression opts then
        if String.eqb (co_DestinationFormat opts) "qcow2" then ["-c"]
        else if String.eqb (co_DestinationFormat opts) "vmdk" then ["-o"; "subformat=streamOptimized"]
        else []
      else [])
  ++ [co_SourcePath opts; co_DestinationPath opts].

(** Arguments must be there. *)
Fixpoint required (l : list (string * string)) : option goerror :=
  match l with
  | [] => None
  | (value, what) :: rest => if is_empty value then Some (ENew (what +:+ " is required")) else required rest
  end.
Definition run_tool (q : QemuImg) (what : string) (args : list string) : XM (res string) :=
  r ← xdo (Combined None (BinaryPath q :: args));
  let '(out, e) := (r : string * option string) in
  Ret (match e with
       | Some m => Err (ENew ("qemu-img " +:+ what +:+ " failed: " +:+ m +:+ ", output: " +:+ out))
       | None => Ok out
       end).
(** The same, when the arguments are in order and the output is not needed. *)
Definition run_checked (q : QemuImg) (wrong : option goerror) (what : string) (args : list string)
    : XM (option goerror) :=
  match wrong with
  | Some e => Ret (Some e)
  | None => r ← run_tool q what args; Ret (match (r : res string) with Ok _ => None | Err e => Some e end)
  end.

Definition Convert (q : QemuImg) (opts : ConvertOptions) : XM (option goerror) :=
  run_checked q (required [(co_SourcePath opts, "source path"); (co_DestinationPath opts, "destination path");
                           (co_DestinationFormat opts, "destination format")])
    "convert" (buildConvertArgs opts).

Definition formatSize (bytes : Z) : string :=
  if 1024 ^ 4 <=? bytes then FormatInt (bytes / 1024 ^ 4) +:+ "T"
  else if 1024 ^ 3 <=? bytes then FormatInt (bytes / 1024 ^ 3) +:+ "G"
  else if 1024 ^ 2 <=? bytes then FormatInt (bytes / 1024 ^ 2) +:+ "M"
  else if 1024 <=? bytes then FormatInt (bytes / 1024) +:+ "K"
  else FormatInt bytes.
Definition positive_size (what : string) (size : Z) : option goerror :=
  if size <=? 0 then Some (ENew (what +:+ " must be positive")) else None.
Definition first_error (a b : option goerror) : option goerror := match a with Some e => Some e | None => b end.
Definition Create (q : QemuImg) (path format : string) (size : Z) : XM (option goerror) :=
  run_checked q (first_error (required [(path, "image path"); (format, "format")]) (positive_size "size" size))
    "create" ["create"; "-f"; format; path; formatSize size].
Definition CreateWithBacking (q : QemuImg) (path format backing backingFormat : string) : XM (option goerror) :=
  run_checked q (required [(path, "image path"); (format, "format"); (backing, "backing path");
                           (backingFormat, "backing format")])
    "create (backing)" ["create"; "-f"; format; "-b"; backing; "-F"; backingFormat; path].
Definition Resize (q : QemuImg) (path : string) (size : Z) : XM (option goerror) :=
  run_checked q (first_error (required [(path, "image path")]) (positive_size "new size" size))
    "resize" ["resize"; path; formatSize size].
Definition CheckImage (q : QemuImg) (path : string) (repair : bool) : XM (option goerror) :=
  run_checked q (required [(path, "image path")]) "check"
    ("check" :: (if repair then ["-r"; "all"] else []) ++ [path]).
Definition IsInstalled (q : QemuImg) : XM bool :=
  r ← xdo (Combined None [BinaryPath q; "--version"]);
  Ret (match snd (r : string * option string) with None => true | Some _ => false end).
Definition GetVersion (q : QemuImg) : XM (res string) :=
  r ← xdo (Combined None [BinaryPath q; "--version"]);
  let '(out, e) := (r : string * option string) in
  Ret (match e with
       | Some m => Err (EWrap "failed to get qemu-img version" (ENew m))
       | None => Ok (TrimSpace (hd "" (lines out)))
       end).

Section Info.
Context `{Scan : Scanner} `{Unicode : UnicodeTable}.
Definition upper_ascii (c : ascii) : ascii :=
  let n := nat_of_ascii c in if (97 <=? n)%nat && (n <=? 122)%nat then ascii_of_nat (n - 32) else c.
Definition ToUpper (s : string) : string :=
  if all_chars is_ascii s then map_chars upper_ascii s else Map unicode_ToUpper s.
Definition parseBytes (s : string) : option Z := scan_int (TrimSpace s).
Definition unit_size (u : string) : option Z :=
  if bool_decide (u ∈ ["K"; "KB"; "KIB"]) then Some 1024
  else if bool_decide (u ∈ ["M"; "MB"; "MIB"]) then Some (1024 ^ 2)
  else if bool_decide (u ∈ ["G"; "GB"; "GIB"]) then Some (1024 ^ 3)
  else if bool_decide (u ∈ ["T"; "TB"; "TIB"]) then Some (1024 ^ 4)
  else None.
(** The first scan fails when nothing follows the number, which is then read again as an
    integer.  The product with a power of two is exact. *)
Definition parseHumanSize (s : string) : option Z :=
  let s := ToUpper (TrimSpace s) in
  match scan_size s with
  | Some (q, unit) => k ← unit_size unit; Some (truncate (Qmult q (inject_Z k)))
  | None => scan_int s
  end.
Definition virtual_size (value : string) : option Z :=
  match Index value "(" with
  | None => None
  | Some i => parseBytes (TrimSuffix (TrimSuffix (TrimSpace (from (i + 1) value)) " bytes)") ")")
  end.
Definition info_line (r : InfoResult) (line : string) : InfoResult :=
  match Cut ":" (TrimSpace line) with
  | None => r
  | Some (key, value) =>
      let key := TrimSpace key in let value := TrimSpace value in
      if String.eqb key "file format" then r <| inf_Format := value |>
      else if String.eqb key "virtual size" then
        match virtual_size value with Some n => r <| inf_VirtualSize := n |> | None => r end
      else if String.eqb key "disk size" then
        match parseHumanSize value with Some n => r <| inf_ActualSize := n |> | None => r end
      else if String.eqb key "cluster_size" then
        match parseBytes value with Some n => r <| inf_ClusterSize := n |> | None => r end
      else if String.eqb key "encrypted" then r <| inf_Encrypted := String.eqb (ToLower value) "yes" |>
      else if String.eqb key "backing file" then r <| inf_BackingFile := value |>
      else r
  end.
Definition parseQemuImgInfo (output : string) : InfoResult :=
  foldl info_line (mkInfoResult "" 0 0 0 false "") (lines output).
Definition Info (q : QemuImg) (path : string) : XM (res InfoResult) :=
  match required [(path, "image path")] with
  | Some e => Ret (Err e)
  | None =>
      r ← run_tool q "info" ["info"; path];
      Ret (match (r : res string) with Ok out => Ok (parseQemuImgInfo out) | Err e => Err e end)
  end.
End Info.
