(* ===== verification/LibvirtTransfer.v ===== *)
(** * LibvirtTransfer: disks of libvirt machines to and from staging storage

    Models [internal/providers/libvirt/s3export.go] and [s3import.go], the disk transfer of
    [provider_virsh.go], and the transfer methods of [server.go] with the copying of a
    file to the host.

    A transfer over S3 couples two parties by a pipe: the storage client, in a goroutine,
    and a process of SSH.  They share only the pipe, so the calls of the goroutine are
    written between the start of the process and the wait for its end; what the process
    does to the pipe meanwhile is in the answers of the writes.  In the other direction
    the process prints until its end, which is what the client reads; [PutObject] of a
    stream of unknown size succeeds only once it has read all of it, so only a failed
    upload leaves the process with a broken pipe. *)
From stdpp Require Import base gmap strings list.
From Stdlib Require Import Ascii ZArith.
From S2P Require Import Prelude Contracts K8s Api CoreApi Effects GrpcClient GoLib NetIP MigrationApi JobApi Cluster Storage Utf8 Json Virsh LibvirtDomains GuestAgent LibvirtStorage LibvirtXml Libvirt LibvirtOps LibvirtImage LibvirtServer Transfer.
#[local] Open Scope Z_scope.

Abbreviation XR A := (XM (res A)).

Section LibvirtTransfer.
Context `{Url : UrlLibrary} `{Unicode : UnicodeTable} `{Json : JsonLibrary} `{Size : SizeFormat} `{Fmt : FmtLibrary}.
Context `{Xml : XmlLibrary} `{Time : TimeFormat} `{Libs : Libraries} `{Grpc : GrpcLibrary} `{Codec : OptionsCodec}.
Context `{Sum : Sha256} `{Client : Minio} `{Scan : Scanner}.

Definition fail {A} (e : goerror) : XR A := Ret (Err e).
(** Go on with the result, or return the error with a prefix. *)
Definition try_ {A B} (what : string) (p : XR A) (k : A -> XR B) : XR B :=
  r ← p;
  match (r : res A) with Ok a => k a | Err e => fail (EWrap what e) end.
Definition seconds : XM Z := now ← xdo (Host Now); Ret (fst (now : Z * string)).
Definition on_libvirt {A} (s : Server) (k : Provider -> VirshProvider -> XR A) : XR A :=
  match srv_provider s with
  | Some p =>
      match virshProvider p with
      | Some v => k p v
      | None => fail (ENew "libvirt provider not initialized")
      end
  | None => fail (ENew "libvirt provider not initialized")
  end.
Definition over_ssh_or {A} (what : string) (v : VirshProvider) (k : XR A) : XR A :=
  if over_ssh v then k else fail (ENew (what +:+ quote (vp_uri v))).
(** The path of the disk on the host. *)
Definition source_path {A} (p : Provider) (req : ExportDiskRequest) (k : string -> XR A) : XR A :=
  try_ "failed to resolve source disk info" (host (GetDiskInfo p (exp_VmId req) (exp_DiskId req))) (fun info =>
    if is_empty (gdi_Path info)
    then fail (ENew ("source disk " +:+ quote (exp_DiskId req) +:+ " has no resolvable host path"))
    else k (gdi_Path info)).
Definition s3_client {A} (what : string) (json : string) (creds : gmap string string)
    (k : StorageBackend -> XR A) : XR A :=
  match S3StorageConfigFromRequest json creds with
  | Err e => fail (EWrap ("invalid s3 " +:+ what +:+ " configuration") e)
  | Ok config => try_ "failed to create s3 client" (NewStorage config) k
  end.

(** ** A process at the end of a pipe *)
Abbreviation command := (option (list string) * list string)%type.
(** Only the side that reads from the pod looks for a private key. *)
Definition ssh_stream (what : string) (with_key : bool) (v : VirshProvider) (remote : string) : VM (res command) :=
  match url_Parse (vp_uri v) with
  | Err m => Ret (Err (EWrap "failed to parse libvirt URI" (ENew m)))
  | Ok u =>
      e ← verifyKnownHostsPresent (vp_hostKey v) (url_Host u);
      match (e : option goerror) with
      | Some e => Ret (Err (EWrap (what +:+ " host-key verification pre-flight failed") e))
      | None =>
          mux ← sshMultiplexOptions;
          let rest := sshHostKeyOptions (vp_hostKey v) ++ mux ++ [at_host u; remote] in
          if has_password v then
            env ← vdo Environ;
            Ret (Ok (Some (env ++ ["SSHPASS=" +:+ Password (vp_credentials v)]),
                     ["sshpass"; "-e"; "ssh"; "-o"; "PasswordAuthentication=yes"; "-o"; "PubkeyAuthentication=no";
                      "-o"; "LogLevel=ERROR"] ++ rest))
          else
            Ret (Ok (vp_env v,
                     ["ssh"; "-o"; "LogLevel=ERROR"]
                     ++ (if with_key && has_key v then sshKeyAuthOptions (resolveSSHKeyFile u) else []) ++ rest))
      end
  end.
Definition stream_error (w : ending) : option goerror :=
  (fun m => ENew (m +:+ " (stderr: " +:+ TrimSpace (snd w) +:+ ")")) <$> fst w.
Definition start_reader (c : res command) : XM unit :=
  match c with Ok (env, argv) => xdo (StartReader env argv) | Err _ => Ret tt end.
Definition await_reader (c : res command) : XM (option goerror) :=
  match c with
  | Err e => Ret (Some e)
  | Ok _ => w ← xdo WaitReader; Ret (stream_error w)
  end.
(** What the process prints, with its error. *)
Definition run_writer (c : res command) : XM (list string * option goerror) :=
  match c with
  | Err e => Ret ([], Some e)
  | Ok (env, argv) =>
      r ← xdo (RunWriter env argv);
      let '(chunks, w) := (r : list string * ending) in
      Ret (chunks, stream_error w)
  end.
Definition error_of {A} (r : res A) : option goerror := match r with Ok _ => None | Err e => Some e end.

(** ** Import over S3 *)
Definition staged_format (format : string) : string :=
  let f := ToLower (TrimSpace format) in if is_empty f then "vmdk" else f.
Definition hostStagePath (poolPath volume format : string) : XM string :=
  now ← seconds;
  Ret (TrimRight is_slash poolPath +:+ "/.virtrigaud-import-" +:+ volume +:+ "-" +:+ FormatInt now +:+ "."
       +:+ (if is_empty format then "vmdk" else format)).

(** Streams the object into a file on the host. *)
Definition stage (v : VirshProvider) (client : StorageBackend) (req : ImportDiskRequest) (path : string)
    : XR DownloadResponse :=
  c ← host (ssh_stream "ssh stdin" true v ("cat > " +:+ shellQuote path));
  _ ← start_reader c;
  dl ← DownloadStream client
         (mkStreamDownloadRequest (imp_SourceURL req) (Some ToPipe) (imp_ExpectedChecksum req));
  _ ← xdo (ClosePipe (error_of dl));
  stageErr ← await_reader c;
  Ret (match (dl : res DownloadResponse) with
       | Err e => Err (EWrap "s3 download/transfer failed during stage" e)
       | Ok resp =>
           match (stageErr : option goerror) with
           | Some e => Err (EWrap ("host-side stage (cat to " +:+ path +:+ ") failed") e)
           | None => Ok resp
           end
       end).
Definition on_host (p : VE) : XM (option goerror) := host p.
(** A staged file becomes a volume of the pool. *)
Definition convert_staged (v : VirshProvider) (req : ImportDiskRequest) (format path target : string) : XM (option goerror) :=
  e ← on_host (qemu_img ("host-side qemu-img convert (" +:+ format +:+ "→qcow2) failed") v
                 ["convert"; "-f"; format; "-O"; "qcow2"; shellQuote path; shellQuote target]);
  match e with
  | Some e => Ret (Some e)
  | None =>
      e ← on_host (qemu_img ("qemu-img check failed on converted qcow2 " +:+ target) v ["check"; shellQuote target]);
      match e with
      | Some e => Ret (Some e)
      | None => _ ← host (attempt v ["pool-refresh"; target_pool req]); Ret None
      end
  end.
(** The staged file is removed however the import ends. *)
Definition import_through (v : VirshProvider) (client : StorageBackend) (req : ImportDiskRequest)
    (format volume path target : string) : XR ImportDiskResponse :=
  r ← stage v client req path;
  r ← match (r : res DownloadResponse) with
      | Err e => fail e
      | Ok dl =>
          e ← convert_staged v req format path target;
          match (e : option goerror) with
          | Some e => fail e
          | None => Ret (Ok (mkImportDiskResponse volume target "" (downr_BytesTransferred dl) (downr_Checksum dl)))
          end
      end;
  _ ← host (removeHostFile v path);
  Ret r.
Definition importDiskFromS3 (s : Server) (req : ImportDiskRequest) : XR ImportDiskResponse :=
  on_libvirt s (fun _ v =>
    over_ssh_or "s3 import requires an ssh:// libvirt transport (host-side qemu-img conversion); got " v (
      s3_client "import" (imp_StorageOptionsJSON req) (imp_Credentials req) (fun client =>
        pool ← host (pool_for_import v req);
        match (pool : res StoragePool) with
        | Err e => fail e
        | Ok pool =>
            volume ← host (target_volume req);
            let poolPath := TrimRight is_slash (pool_Path pool) in
            let format := staged_format (imp_Format req) in
            path ← hostStagePath poolPath volume format;
            import_through v client req format volume path (poolPath +:+ "/" +:+ volume +:+ ".qcow2")
        end))).

(** ** Export over S3 *)
Definition hostExportStagePath (src vmID : string) : XM string :=
  name ← host (sanitizeVolumeName vmID);
  now ← seconds;
  let dir := match rev (Split "/" src) with
             | _ :: (_ :: _ as l) => String.concat "/" (rev l)
             | _ => src
             end in
  Ret (TrimRight is_slash dir +:+ "/.virtrigaud-export-" +:+ name +:+ "-" +:+ FormatInt now +:+ ".qcow2").

Definition piped (chunks : list string) (e : option goerror) : reads :=
  ((fun c => (c, None)) <$> chunks) ++ match e with Some e => [("", Some (Error e))] | None => [] end.
(** Streams a file of the host into an object. *)
Definition stream_up (v : VirshProvider) (client : StorageBackend) (req : ExportDiskRequest) (path : string)
    : XR UploadResponse :=
  c ← host (ssh_stream "ssh stdout" false v ("cat " +:+ shellQuote path));
  printed ← run_writer c;
  let '(chunks, streamErr) := (printed : list string * option goerror) in
  ul ← UploadStream client
         (mkStreamUploadRequest (exp_DestinationURL req) (Some (piped chunks streamErr)) (-1));
  match (ul : res UploadResponse) with
  | Ok resp =>
      match streamErr with
      | Some e => fail (EWrap ("host-side stream (cat " +:+ path +:+ ") failed") e)
      | None => Ret (Ok resp)
      end
  | Err e =>
      streamErr ← match c with
                  | Ok _ => w ← xdo BreakPipe; Ret (stream_error w)
                  | Err e => Ret (Some e)
                  end;
      match (streamErr : option goerror) with
      | Some e' => fail (ENew ("disk export stream failed: s3 upload: " +:+ Error e +:+ " (host-side stream cat "
                               +:+ path +:+ " also failed: " +:+ Error e' +:+ ")"))
      | None => fail (EWrap "s3 upload failed during stream" e)
      end
  end.
Definition flatten_args (src dst : string) : list string :=
  ["convert"; "-U"; "-f"; "qcow2"; "-O"; "qcow2"; shellQuote src; shellQuote dst].
Definition exportDiskToS3 (s : Server) (req : ExportDiskRequest) : XR ExportDiskResponse :=
  on_libvirt s (fun p v =>
    over_ssh_or "s3 export requires an ssh:// libvirt transport (host-side qemu-img flatten + stream); got " v (
      source_path p req (fun src =>
        s3_client "export" (exp_StorageOptionsJSON req) (exp_Credentials req) (fun client =>
          now ← seconds;
          path ← hostExportStagePath src (exp_VmId req);
          e ← on_host (qemu_img "host-side qemu-img flatten (qcow2→standalone qcow2) failed" v (flatten_args src path));
          match (e : option goerror) with
          | Some e => fail e
          | None =>
              ul ← stream_up v client req path;
              _ ← host (removeHostFile v path);
              Ret (match (ul : res UploadResponse) with
                   | Err e => Err e
                   | Ok ul => Ok (mkExportDiskResponse
                                    ("export-libvirt-" +:+ exp_VmId req +:+ "-" +:+ FormatInt now) ""
                                    (upr_BytesTransferred ul) (upr_Checksum ul))
                   end)
          end)))).

(** ** Through a claim *)
Definition claim_storage {A} (url : string) (k : StorageBackend -> XR A) : XR A :=
  match extractPVCNameFromURL url with
  | Err e => fail (EWrap "failed to extract PVC name from URL" e)
  | Ok name =>
      try_ "failed to create storage client"
        (NewStorage (mkStorageConfig "pvc" "" "" ("/mnt/migration-storage/" +:+ name) None)) k
  end.
Definition libvirt_format (format : string) : bool := String.eqb format "qcow2" || String.eqb format "raw".
Definition with_virsh_x {A} (p : Provider) (k : VirshProvider -> XR A) : XR A :=
  match virshProvider p with
  | None => fail (NewRetryableError "virsh provider not initialized" None)
  | Some v => k v
  end.

Definition upload_disk (req : ExportDiskRequest) (exportId path : string) (info : GetDiskInfoResponse)
    : XR ExportDiskResponse :=
  claim_storage (exp_DestinationURL req) (fun client =>
    try_ "failed to upload disk"
      (Upload client (mkUploadRequest path (exp_DestinationURL req) None (gdi_ActualSizeBytes info) ""))
      (fun resp => Ret (Ok (mkExportDiskResponse exportId "" (gdi_ActualSizeBytes info) (upr_Checksum resp))))).
Definition Provider_ExportDisk (p : Provider) (req : ExportDiskRequest) : XR ExportDiskResponse :=
  with_virsh_x p (fun _ =>
    try_ "failed to get disk info" (host (GetDiskInfo p (exp_VmId req) (exp_DiskId req))) (fun info =>
      let format := if is_empty (exp_Format req) then gdi_Format info else exp_Format req in
      if negb (libvirt_format format)
      then fail (ENew ("unsupported export format: " +:+ format +:+ " (libvirt supports qcow2, raw)"))
      else
        now ← seconds;
        let exportId := "export-" +:+ exp_VmId req +:+ "-" +:+ FormatInt now in
        if negb (String.eqb format (gdi_Format info)) || (exp_Compress req && String.eqb format "qcow2") then
          let temp := "/tmp/" +:+ exportId +:+ "." +:+ format in
          e ← Convert NewQemuImg
                (mkConvertOptions (gdi_Path info) temp (gdi_Format info) format (exp_Compress req) "");
          match (e : option goerror) with
          | Some e => fail (EWrap "failed to convert disk format" e)
          | None =>
              r ← upload_disk req exportId temp info;
              _ ← xdo (Pod (Remove temp));
              Ret r
          end
        else upload_disk req exportId (gdi_Path info) info)).

(** The temporary file is of the pod, the command that removes it runs on the host. *)
Definition place_download (v : VirshProvider) (req : ImportDiskRequest) (diskId temp format : string)
    (dl : DownloadResponse) : XR ImportDiskResponse :=
  let path := images +:+ "/" +:+ diskId +:+ "." +:+ format in
  e ← Convert NewQemuImg (mkConvertOptions temp path "" format false "");
  _ ← host (removeHostFile v temp);
  match (e : option goerror) with
  | Some e => fail (EWrap "failed to convert/copy disk" e)
  | None => Ret (Ok (mkImportDiskResponse diskId path "" (downr_ContentLength dl) (downr_Checksum dl)))
  end.
Definition Provider_ImportDisk (p : Provider) (req : ImportDiskRequest) : XR ImportDiskResponse :=
  with_virsh_x p (fun v =>
    e ← on_host (ensurePoolActive v (target_pool req));
    match (e : option goerror) with
    | Some e => fail (EWrap "failed to ensure storage pool" e)
    | None =>
        let format := if is_empty (imp_Format req) then "qcow2" else imp_Format req in
        if negb (libvirt_format format)
        then fail (ENew ("unsupported import format: " +:+ format +:+ " (libvirt supports qcow2, raw)"))
        else
          diskId ← (if is_empty (imp_TargetName req)
                    then now ← seconds; Ret ("imported-disk-" +:+ FormatInt now) else Ret (imp_TargetName req));
          let temp := "/tmp/" +:+ diskId +:+ "-download.img" in
          claim_storage (imp_SourceURL req) (fun client =>
            try_ "failed to download disk"
              (Download client (mkDownloadRequest (imp_SourceURL req) temp None
                                  (imp_VerifyChecksum req) (imp_ExpectedChecksum req)))
              (place_download v req diskId temp format))
    end).

(** ** The service *)
Definition Server_ExportDisk (s : Server) (req : ExportDiskRequest) : XR ExportDiskResponse :=
  match EnsurePVCS3OrNFSBackend (exp_BackendType req) with
  | Some e => fail e
  | None =>
      if String.eqb (exp_BackendType req) BackendNFS then host (exportDiskToNFS s req)
      else
        match EnsureRelayMode (exp_TransferMode req) with
        | Some e => fail e
        | None =>
            if String.eqb (exp_BackendType req) BackendS3 then exportDiskToS3 s req
            else
              match srv_provider s with
              | None => fail (ENew "provider not initialized")
              | Some p => try_ "failed to export disk" (Provider_ExportDisk p req) (fun resp => Ret (Ok resp))
              end
        end
  end.

(** Copies a file of the pod into the pool's directory on the host. *)
Definition copyDiskToRemote (v : VirshProvider) (localPath volume : string) : XR string :=
  let remote := images +:+ "/" +:+ volume +:+ ".qcow2" in
  match url_Parse (vp_uri v) with
  | Err m => fail (EWrap "failed to parse libvirt URI" (ENew m))
  | Ok u =>
      _ ← host (attempt v ["!"; "sudo"; "mkdir"; "-p"; images]);
      e ← on_host (verifyKnownHostsPresent (vp_hostKey v) (url_Host u));
      match (e : option goerror) with
      | Some e => fail (EWrap "libvirt scp host-key verification pre-flight failed" e)
      | None =>
          mux ← host sshMultiplexOptions;
          let opts := sshHostKeyOptions (vp_hostKey v) ++ mux in
          let files := [localPath; at_host u +:+ ":" +:+ remote] in
          env ← (if has_password v
                 then env ← xdo (Host Environ); Ret (Some (env ++ ["SSHPASS=" +:+ Password (vp_credentials v)]))
                 else Ret None);
          r ← xdo (Combined env
                     (if has_password v then ["sshpass"; "-e"; "scp"] ++ opts ++ files
                      else if has_key v then "scp" :: sshKeyAuthOptions (resolveSSHKeyFile u) ++ opts ++ files
                      else "scp" :: opts ++ files));
          let '(out, e) := (r : string * option string) in
          match e with
          | Some m => fail (ENew ("scp failed: " +:+ m +:+ ", output: " +:+ out))
          | None => Ret (Ok remote)
          end
      end
  end.

Definition imported_path (url : string) : res string :=
  if has_prefix url "pvc://" then Ok ("/mnt/migration-storage/" +:+ TrimPrefix url "pvc://")
  else if has_prefix url "file://" then Ok (TrimPrefix url "file://")
  else Err (ENew ("unsupported source URL scheme (expected pvc:// or file://): " +:+ url)).
Definition imported_name (req : ImportDiskRequest) (path : string) : string :=
  if is_empty (imp_TargetName req)
  then TrimSuffix (TrimSuffix (TrimSuffix (default "" (last (Split "/" path))) ".qcow2") ".vmdk") ".raw" +:+ "-imported"
  else imp_TargetName req.
(** The sum of the volume, compared with the expected one; none when it cannot be had. *)
Definition volume_sum (v : VirshProvider) (req : ImportDiskRequest) (path : string) : VM (res string) :=
  if negb (imp_VerifyChecksum req) then Ret (Ok "")
  else
    out ← output v ["!"; "sha256sum"; path];
    Ret (match out with
         | Err _ => Ok ""
         | Ok out =>
             match Fields out with
             | [] => Ok ""
             | checksum :: _ =>
                 if mismatch (imp_ExpectedChecksum req) checksum
                 then Err (ENew ("checksum mismatch: expected " +:+ imp_ExpectedChecksum req +:+ ", got " +:+ checksum))
                 else Ok checksum
             end
         end).
(** A file on the host becomes a volume. *)
Definition import_file (v : VirshProvider) (req : ImportDiskRequest) (volume source : string) : VM (res ImportDiskResponse) :=
  _ ← attempt v ["!"; "qemu-img"; "info"; "--output=json"; source];
  then_ (EnsureDefaultStoragePool v) "failed to ensure storage pool" (
    vol ← CreateVolumeFromImageFile v source volume (target_pool req) 0;
    match vol with
    | Err e => Ret (Err (EWrap "failed to import disk" e))
    | Ok vol =>
        st ← output v ["!"; "stat"; "-c"; "%s"; vol_Path vol];
        let size := match st with Ok out => default 0 (scan_int (TrimSpace out)) | Err _ => 0 end in
        sum ← volume_sum v req (vol_Path vol);
        Ret (match sum with
             | Err e => Err e
             | Ok sum => Ok (mkImportDiskResponse volume (vol_Path vol) "" size sum)
             end)
    end).
Definition importDiskFromPVC (s : Server) (req : ImportDiskRequest) : XR ImportDiskResponse :=
  on_libvirt s (fun _ v =>
    match imported_path (imp_SourceURL req) with
    | Err e => fail e
    | Ok path =>
        st ← xdo (Pod (Stat path));
        match (st : stat) with
        | StatNotExist e | StatError e =>
            fail (ENew ("source disk file not found locally: " +:+ path +:+ " (error: " +:+ Error e +:+ ")"))
        | _ =>
            let volume := imported_name req path in
            if over_ssh v then
              try_ "failed to copy disk to remote host" (copyDiskToRemote v path volume) (fun remote =>
                host (import_file v req volume remote))
            else host (import_file v req volume path)
        end
    end).
Definition Server_ImportDisk (s : Server) (req : ImportDiskRequest) : XR ImportDiskResponse :=
  match EnsurePVCS3OrNFSBackend (imp_BackendType req) with
  | Some e => fail e
  | None =>
      if String.eqb (imp_BackendType req) BackendNFS then host (importDiskFromNFS s req)
      else
        match EnsureRelayMode (imp_TransferMode req) with
        | Some e => fail e
        | None =>
            if String.eqb (imp_BackendType req) BackendS3 then importDiskFromS3 s req else importDiskFromPVC s req
        end
  end.
End LibvirtTransfer.
