(* ===== verification/TransferProps.v ===== *)
(** * TransferProps: what arrives is what was sent

    Disks that are staged in files of a claim come back as they were, and disks that
    libvirt imports over S3 are converted only once their sum was compared. *)
From stdpp Require Import base gmap strings list.
From Stdlib Require Import Ascii ZArith Lia.
From S2P Require Import Prelude Contracts K8s Api CoreApi Effects GrpcClient GrpcClientProps GoLib NetIP MigrationApi JobApi Cluster Storage TraceSpec Utf8 Json Virsh LibvirtDomains GuestAgent LibvirtStorage LibvirtXml Libvirt LibvirtOps LibvirtImage LibvirtServer LibvirtProps LibvirtOpsProps Transfer LibvirtTransfer.
#[local] Open Scope Z_scope.

#[export] Instance sink_eq_dec : EqDecision sink.
Proof. solve_decision. Defined.

(** ** Programs inside programs *)
Abbreviation xevent := (event xcall xanswer).
Definition host_event (x : vevent) : xevent := match x with existT c a => xev (Host c) a end.
Lemma wp_host {A} (p : VM A) Q : wp p (fun tr o => Q (host_event <$> tr) o) -> wp (host p) Q.
Proof.
  revert Q. induction p as [a|c k IH|w]; intros Q; [done| |done]. intros H r. apply IH.
  eapply wp_mono; [apply (H r)|]. done.
Qed.
(** A test of the processes of the host. *)
Definition on_process (g : list string -> bool) (c : xcall) : bool :=
  match c with Host c => starting g c | _ => false end.
Lemma occurs_host (f : xcall -> bool) tr : occurs f (host_event <$> tr) = occurs (fun c => f (Host c)) tr.
Proof. induction tr as [|[c a] tr IH]; [done|]. cbn [fmap list_fmap]. rewrite !occurs_cons. by rewrite IH. Qed.
Lemma silent_host {A} (f : xcall -> bool) (p : VM A) : silent (fun c => f (Host c)) p -> silent f (host p).
Proof. intros H. apply wp_host. eapply wp_mono; [apply H|]. intros tr o Ho. by rewrite occurs_host. Qed.

Lemma occurs_weaken (f g : xcall -> bool) (tr : list xevent) :
  (forall c, g c = true -> f c = true) -> occurs f tr = false -> occurs g tr = false.
Proof.
  intros Hfg. induction tr as [|[c a] tr IH]; [done|]. rewrite !occurs_cons. intros [Hc Ht]%orb_false_iff.
  rewrite IH by done. apply orb_false_iff. split; [|done]. apply not_true_iff_false. intros Hg%Hfg. cbn in *. congruence.
Qed.

(** ** What went into a sink *)
Definition accepted (chunk : string) (r : Z * option string) : bool :=
  bool_decide (r = (len chunk, None)).
(** All that was written, if all of it was taken. *)
Fixpoint delivered (w : sink) (tr : list xevent) : option string :=
  match tr with
  | [] => Some ""
  | existT c a :: tr' =>
      match c return xanswer c -> option string with
      | Write w' chunk => fun r =>
          if bool_decide (w' = w)
          then if accepted chunk r then rest ← delivered w tr'; Some (chunk +:+ rest) else None
          else delivered w tr'
      | _ => fun _ => delivered w tr'
      end a
  end.
Definition is_write (c : xcall) : bool := match c with Write _ _ => true | _ => false end.
Lemma delivered_app w tr tr' :
  delivered w (tr ++ tr') = (a ← delivered w tr; b ← delivered w tr'; Some (a +:+ b)).
Proof.
  induction tr as [|[c a] tr IH]; cbn [app delivered].
  - cbn. by destruct (delivered w tr').
  - destruct c; try exact IH. destruct (bool_decide _); [|exact IH]. destruct (accepted _ _); [|done].
    rewrite IH. destruct (delivered w tr) as [s|]; [|done]. destruct (delivered w tr') as [s'|]; [|done].
    exact (f_equal Some (string_app_assoc chunk s s')).
Qed.
Lemma delivered_silent w tr : occurs is_write tr = false -> delivered w tr = Some "".
Proof.
  induction tr as [|[c a] tr IH]; [done|]. rewrite occurs_cons. intros [Hc Ht]%orb_false_iff.
  destruct c; try (by apply IH). discriminate Hc.
Qed.

Lemma len_positive chunk : is_empty chunk = false -> 0 < len chunk.
Proof. destruct chunk; [done|]. intros _. unfold len. cbn [String.length]. lia. Qed.

Lemma put_chunk_wp multi w chunk :
  wp (put_chunk multi w chunk) (fun tr o =>
    occurs (fun c => negb (is_write c)) tr = false
    /\ match o with Done None => delivered w tr = Some chunk | Done (Some _) => True | Panicked _ => False end).
Proof.
  unfold put_chunk. destruct (is_empty chunk) eqn:He; [by apply is_empty_true in He as ->|].
  wp_step. unfold write_chunk. wp_step. wp_step. cbn in r. destruct r as [n e]. cbn [bind_post wp].
  destruct (valid_write _ _) as [n' e'] eqn:Hv. cbn [wp]. split; [done|].
  destruct e' as [m|]; [done|]. destruct (n' =? len chunk) eqn:Hl; [|done]. apply Z.eqb_eq in Hl as ->.
  assert (n = len chunk /\ e = None) as [-> ->].
  { revert Hv. unfold valid_write. destruct e as [m|]; [by destruct (_ || _)|].
    destruct (multi && _); destruct (_ || _); try done. by intros [= ->]. }
  cbn. rewrite bool_decide_true by done. unfold accepted. rewrite bool_decide_true by done.
  cbn. by rewrite string_app_nil_r.
Qed.
(** A copy that is done has delivered the whole stream. *)
Lemma copy_wp multi w source written :
  wp (copy multi w source written) (fun tr o =>
    occurs (fun c => negb (is_write c)) tr = false
    /\ match o with
       | Done (Ok s) => exists t, s = written +:+ t /\ delivered w tr = Some t /\ read_all source = Ok t
       | Done (Err _) => True
       | Panicked _ => False
       end).
Proof.
  revert written. induction source as [|[chunk readError] rest IH]; intros written; cbn [copy].
  { split; [done|]. exists "". by rewrite string_app_nil_r. }
  apply wp_bind. eapply wp_mono; [apply put_chunk_wp|]. intros tr [[e|]|why] [Hs Ho]; cbn [bind_post]; [| |done].
  { cbn. by rewrite app_nil_r. }
  destruct readError as [m|]; [cbn; by rewrite app_nil_r|].
  eapply wp_mono; [apply IH|]. intros tr' o [Hs' Ho']. rewrite occurs_app, Hs, Hs'. split; [done|].
  destruct o as [[s|e]|why]; try done. destruct Ho' as (t & -> & Hd & Hr).
  exists (chunk +:+ t). rewrite string_app_assoc. split; [done|]. split.
  - by rewrite delivered_app, Ho, Hd.
  - cbn. by rewrite Hr.
Qed.

(** ** Files that work

    What the calls do to the files of the pod when none of them fails: what is opened
    gives its content in pieces of any size. *)
Abbreviation files := (gmap string string).
Definition acts (fs : files) (c : xcall) : xanswer c -> files -> Prop :=
  match c return xanswer c -> files -> Prop with
  | OpenFile path => fun a fs' =>
      fs' = fs /\ match fs !! path with
                  | Some s => exists content, a = Opened content /\ read_all content = Ok s
                  | None => exists e, a = OpenNotExist e
                  end
  | FstatSize path => fun a fs' => fs' = fs /\ a = Ok (len (default "" (fs !! path)))
  | CreateFile path => fun a fs' => a = None /\ fs' = <[path := ""]> fs
  | Write (ToFile path) chunk => fun a fs' =>
      a = (len chunk, None) /\ fs' = <[path := default "" (fs !! path) +:+ chunk]> fs
  | Sync _ => fun a fs' => a = None /\ fs' = fs
  | Host (MkdirAll _ _) => fun a fs' => a = None /\ fs' = fs
  | Pod (Remove path) => fun _ fs' => fs' = delete path fs
  | _ => fun _ fs' => fs' = fs
  end.
Fixpoint follows (fs : files) (tr : list xevent) (fs' : files) : Prop :=
  match tr with
  | [] => fs' = fs
  | existT c a :: tr' => exists fs1, acts fs c a fs1 /\ follows fs1 tr' fs'
  end.
Lemma follows_app fs tr1 tr2 fs' : follows fs (tr1 ++ tr2) fs' -> exists fs1, follows fs tr1 fs1 /\ follows fs1 tr2 fs'.
Proof.
  revert fs. induction tr1 as [|[c a] tr1 IH]; intros fs; cbn; [by exists fs|].
  intros (fs1 & Ha & (fs2 & H1 & H2)%IH). exists fs2. split; [by exists fs1|done].
Qed.

(** Every run on working files ends with a result and files that satisfy [Q]. *)
Definition completes {A} (fs : files) (p : XM A) (Q : A -> files -> Prop) : Prop :=
  forall tr o fs', runs p tr o -> follows fs tr fs' -> exists a, o = Done a /\ Q a fs'.
Lemma completes_ret {A} fs (a : A) (Q : A -> files -> Prop) : Q a fs -> completes fs (Ret a) Q.
Proof. intros H tr o fs' [-> ->] ->. by exists a. Qed.
Lemma completes_call fs c (Q : xanswer c -> files -> Prop) :
  (forall a fs', acts fs c a fs' -> Q a fs') -> completes fs (xdo c) Q.
Proof. intros H tr o fs' (a & tr' & -> & -> & ->) (fs1 & Ha & ->). exists a. auto. Qed.
Lemma completes_bind {A B} fs (p : XM A) (k : A -> XM B) Q :
  completes fs p (fun a fs' => completes fs' (k a) Q) -> completes fs (p ≫= k) Q.
Proof.
  intros H tr o fs' [(tr1 & tr2 & a & -> & Hp & Hk)|(w & Hp & ->)]%runs_bind_inv Hf.
  - apply follows_app in Hf as (fs1 & H1 & H2). destruct (H _ _ _ Hp H1) as (a' & [= <-] & Hk').
    by eapply Hk'.
  - by destruct (H _ _ _ Hp Hf) as (a & [=] & _).
Qed.
Lemma completes_mono {A} fs (p : XM A) (Q Q' : A -> files -> Prop) :
  completes fs p Q -> (forall a fs', Q a fs' -> Q' a fs') -> completes fs p Q'.
Proof. intros H HQ tr o fs' Hr Hf. destruct (H _ _ _ Hr Hf) as (a & -> & Ha). eauto. Qed.
(** A call whose answer the files decide. *)
Lemma completes_step {B} fs c (k : xanswer c -> XM B) Q :
  (forall a fs', acts fs c a fs' -> completes fs' (k a) Q) -> completes fs (xdo c ≫= k) Q.
Proof. intros H. by apply completes_bind, completes_call. Qed.
Lemma completes_unless {A} fs (p : XM (option string)) what (k : XM (res A)) Q :
  completes fs p (fun e fs' => e = None /\ completes fs' k Q) -> completes fs (unless p what k) Q.
Proof. intros H. apply completes_bind. eapply completes_mono; [exact H|]. by intros e fs' [-> Hk]. Qed.
(** A step that cannot fail on working files. *)
Ltac works :=
  lazymatch goal with
  | |- completes _ (unless _ _ _) _ =>
      apply completes_unless;
      lazymatch goal with |- completes ?fs (trigger ?c) ?Q => refine (completes_call fs c Q _) end; intros a fs' Ha; cbn in Ha; destruct Ha as [-> ->]; (split; [done|])
  | |- @completes ?B ?fs (trigger ?c ≫= ?k) ?Q => refine (@completes_step B fs c k Q _); intros a fs' Ha; cbn in Ha; destruct Ha as [-> Ha]
  end.

Lemma copy_completes multi path source written fs before t :
  read_all source = Ok t -> fs !! path = Some before ->
  completes fs (copy multi (ToFile path) source written)
    (fun r fs' => r = Ok (written +:+ t) /\ fs' = <[path := before +:+ t]> fs).
Proof.
  revert written fs before t. induction source as [|[chunk [m|]] rest IH]; intros written fs before t; cbn [read_all copy].
  - intros [= <-] Hp. apply completes_ret. rewrite !string_app_nil_r. by rewrite insert_id.
  - done.
  - destruct (read_all rest) as [t'|e]; [|done]. intros [= <-] Hp. apply completes_bind.
    apply (completes_mono _ _ (fun e fs' => e = None /\ fs' = <[path := before +:+ chunk]> fs)).
    + unfold put_chunk. destruct (is_empty chunk) eqn:He.
      { apply is_empty_true in He as ->. apply completes_ret. rewrite string_app_nil_r. by rewrite insert_id. }
      apply completes_bind. unfold write_chunk. apply completes_step. intros a fs' Ha. cbn in Ha. destruct Ha as [-> ->].
      rewrite Hp. rewrite Z.eqb_refl, andb_false_r. apply completes_ret. unfold valid_write.
      pose proof (len_positive chunk He). assert (len chunk <? 0 = false) as -> by lia. rewrite Z.ltb_irrefl.
      cbn [orb]. rewrite Z.eqb_refl. by apply completes_ret.
    + intros e fs' [-> ->]. eapply completes_mono; [apply (IH _ _ (before +:+ chunk) t'); [done|apply lookup_insert_eq]|].
      intros r fs' [-> ->]. by rewrite !string_app_assoc, insert_insert_eq.
Qed.

Section RoundTrip.
Context `{Sum : Sha256}.

Lemma upload_completes p src url dest size fs bytes :
  parsePath p url = Ok dest -> src <> "" -> src <> dest -> fs !! src = Some bytes ->
  completes fs (PVC_Upload p (mkUploadRequest src url None size ""))
    (fun r fs' => r = Ok (mkUploadResponse url (sha256hex bytes) (len bytes) "") /\ fs' = <[dest := bytes]> fs).
Proof.
  intros Hp Hs Hd Hb. unfold PVC_Upload, open_source, store, make_dir. cbn [up_DestinationURL up_SourcePath up_Checksum]. rewrite Hp.
  apply is_empty_false in Hs as ->. cbn [negb].
  works.
  apply completes_bind. works. rewrite Hb in Ha.
  destruct Ha as (content & -> & Hc). works. subst a.
  apply completes_ret. works. apply completes_bind.
  eapply completes_mono; [apply (copy_completes _ _ _ _ _ "" bytes Hc), lookup_insert_eq|]. intros r fs' [-> ->].
  works.
  cbn [mismatch is_empty negb andb]. apply completes_ret. by rewrite insert_insert_eq.
Qed.
Lemma download_completes p url src target sum fs bytes :
  parsePath p url = Ok src -> target <> "" -> target <> src -> fs !! src = Some bytes ->
  completes fs (PVC_Download p (mkDownloadRequest url target None true sum))
    (fun r fs' => fs' = <[target := bytes]> fs
       /\ if mismatch sum (sha256hex bytes) then exists e, r = Err e
          else r = Ok (mkDownloadResponse (len bytes) (sha256hex bytes) (len bytes))).
Proof.
  intros Hp Ht Hd Hb. unfold PVC_Download, open_destination, fetch_to, make_dir.
  cbn [down_SourceURL down_DestinationPath down_VerifyChecksum down_ExpectedChecksum]. rewrite Hp.
  works. rewrite Hb in Ha.
  destruct Ha as (content & -> & Hc). works. subst a. rewrite Hb.
  apply is_empty_false in Ht as ->. cbn [negb default]. apply completes_bind.
  works.
  works.
  apply completes_ret, completes_bind.
  eapply completes_mono; [apply (copy_completes _ _ _ _ _ "" bytes Hc), lookup_insert_eq|]. intros r fs' [-> ->].
  rewrite insert_insert_eq. cbn [andb String.append]. destruct (mismatch _ _); apply completes_ret; (split; [done|]); by eauto.
Qed.

(** C38. A disk that is uploaded to a claim comes back as it was: on working files the
    upload ends well, stores exactly the bytes of its source and reports their sum; a
    later download that is given this sum writes what is then staged to its target,
    ends well when the sum is that of the staged bytes, in particular when nobody
    touched them, and with an error when it is not. *)
Theorem staged_disks_round_trip p src url dest size fs bytes tr o fs' :
  parsePath p url = Ok dest -> src <> "" -> src <> dest -> fs !! src = Some bytes ->
  runs (PVC_Upload p (mkUploadRequest src url None size "")) tr o -> follows fs tr fs' ->
  let sum := sha256hex bytes in
  o = Done (Ok (mkUploadResponse url sum (len bytes) "")) /\ fs' = <[dest := bytes]> fs
  /\ forall target fs1 found tr1 o1 fs1',
       target <> "" -> target <> dest -> fs1 !! dest = Some found ->
       runs (PVC_Download p (mkDownloadRequest url target None true sum)) tr1 o1 -> follows fs1 tr1 fs1' ->
       fs1' = <[target := found]> fs1
       /\ (sha256hex found = sum -> o1 = Done (Ok (mkDownloadResponse (len found) sum (len found))))
       /\ (sum <> "" -> sha256hex found <> sum -> exists e, o1 = Done (Err e)).
Proof.
  intros Hp Hs Hd Hb Hr Hf. cbn zeta.
  destruct (upload_completes p src url dest size fs bytes Hp Hs Hd Hb _ _ _ Hr Hf) as (r & -> & -> & ->).
  split; [done|]. split; [done|]. intros target fs1 found tr1 o1 fs1' Ht Htd Hf1 Hr1 Hfol.
  destruct (download_completes p url dest target (sha256hex bytes) fs1 found Hp Ht Htd Hf1 _ _ _ Hr1 Hfol) as (r & -> & -> & Hm).
  split; [done|]. unfold mismatch in Hm. split.
  - intros Heq. rewrite Heq, String.eqb_refl, andb_false_r in Hm. by rewrite Hm.
  - intros Hne Hdiff. apply is_empty_false in Hne. rewrite Hne in Hm.
    assert (String.eqb (sha256hex bytes) (sha256hex found) = false) as Hq by (apply String.eqb_neq; congruence).
    rewrite Hq in Hm. cbn in Hm. destruct Hm as (e & ->). by exists e.
Qed.
End RoundTrip.

(** ** Imports over S3 *)
(** A conversion that names the format of its source. *)
Definition converts_staged (argv : list string) : bool :=
  let l := rev argv in
  word_is l 2 "qcow2" && word_is l 3 "-O" && word_is l 5 "-f" && word_is l 6 "convert" && word_is l 7 "qemu-img".
(** What an import over S3 does beside commands of other kinds. *)
Definition notable (c : xcall) : bool :=
  match c with
  | Write _ _ | StartReader _ _ | WaitReader => true
  | _ => on_process converts_staged c
  end.
(** The host has taken everything the client sent, and its sum is the expected one, if
    one is expected. *)
Definition staged (expected : string) `{Sha256} (h : list xevent) : Prop :=
  exists bytes stderr, delivered ToPipe h = Some bytes /\ xev WaitReader (None, stderr) ∈ h
    /\ (expected <> "" -> sha256hex bytes = expected).

Section Imports.
Context `{Url : UrlLibrary} `{Unicode : UnicodeTable} `{Json : JsonLibrary} `{Size : SizeFormat} `{Fmt : FmtLibrary}.
Context `{Xml : XmlLibrary} `{Time : TimeFormat} `{Libs : Libraries} `{Grpc : GrpcLibrary} `{Codec : OptionsCodec}.
Context `{Sum : Sha256} `{Client : Minio} `{Scan : Scanner}.

Ltac quiet_staged :=
  apply quiet_lead; intros ? Hlead; cbn [body direct] in *; unfold converts_staged; rewrite rev_involutive;
  cbn; rewrite ?andb_false_r; try reflexivity;
  repeat match goal with H : lead _ _ |- _ => inversion H; clear H; subst end;
  cbn; tell_apart; rewrite ?andb_false_r; reflexivity.
Ltac no_convert := repeat first [silent_step | apply silent_perform; quiet_staged | apply silent_output; quiet_staged
  | apply silent_attempt; quiet_staged | apply silent_command; quiet_staged].
Lemma pool_no_convert v req : silent (starting converts_staged) (pool_for_import v req).
Proof.
  unfold pool_for_import, then_, EnsureDefaultStoragePool, keep_default_pool, createDefaultStoragePool, ensurePoolActive,
    GetPoolInfo, runRemoteVirshCommand. no_convert.
  apply silent_command. destruct (is_empty _) eqn:He; [quiet_staged|].
  apply is_empty_false, uri_word in He. quiet_staged.
Qed.
Lemma silent_notable {A} (p : VM A) : silent (starting converts_staged) p -> silent notable (host p).
Proof. intros H. apply silent_host. exact H. Qed.
Lemma ssh_stream_quiet what key v remote : silent (starting converts_staged) (ssh_stream what key v remote).
Proof. unfold ssh_stream, verifyKnownHostsPresent, sshMultiplexOptions, sshMultiplexingEnabled. no_convert. Qed.
Lemma names_quiet req : silent (starting converts_staged) (target_volume req).
Proof. unfold target_volume, sanitizeVolumeName. no_convert. Qed.
Lemma remove_quiet v path : silent (starting converts_staged) (removeHostFile v path).
Proof. unfold removeHostFile. no_convert. Qed.

(** A download reads one object and writes it, and delivers what it has the sum of. *)
Definition downloads (c : xcall) : bool := match c with GetObject _ _ | Write _ _ => true | _ => false end.
Lemma download_wp (client : S3Storage) url w expected :
  wp (S3_DownloadStream client (mkStreamDownloadRequest url (Some w) expected)) (fun tr o =>
    occurs (fun c => negb (downloads c)) tr = false
    /\ match o with
       | Done (Ok dl) => exists bytes, delivered w tr = Some bytes /\ downr_Checksum dl = sha256hex bytes
           /\ (expected <> "" -> sha256hex bytes = expected)
       | _ => True
       end).
Proof.
  unfold S3_DownloadStream, with_key. cbn [sd_SourceURL sd_Writer sd_ExpectedChecksum].
  destruct (parseS3Key _ _) as [key|e]; [|done]. wp_step. wp_step. cbn in r. cbn [bind_post].
  destruct r as [content|m]; [|done]. apply wp_bind. eapply wp_mono; [apply copy_wp|].
  intros tr o [Hs Ho]. apply (occurs_weaken _ (fun c => negb (downloads c))) in Hs; [|by intros []].
  assert (forall tr', occurs (fun c => negb (downloads c)) (([xev (GetObject (s3s_bucket client) key) (Ok content)] ++ tr) ++ tr')
            = occurs (fun c => negb (downloads c)) tr') as Hq.
  { intros tr'. by rewrite !occurs_app, Hs. }
  destruct o as [[written|e]|why]; cbn [bind_post]; [| |done].
  - destruct Ho as (t & -> & Hd & _). cbn [String.append]. destruct (mismatch _ _) eqn:Hm; cbn [wp failed bad_sum].
    + split; [by rewrite app_assoc, Hq|done].
    + split; [by rewrite app_assoc, Hq|]. exists t. rewrite !app_nil_r. split_and!; [done..|].
      intros Hne. apply is_empty_false in Hne. unfold mismatch in Hm. rewrite Hne in Hm.
      by apply negb_false_iff, String.eqb_eq in Hm.
  - cbn [wp failed]. split; [by rewrite app_assoc, Hq|done].
Qed.

(** *** What an import did *)
(** A command that ended well on the host. *)
Definition host_done (args : list string) (tr : list xevent) : Prop :=
  exists pre htr post out, tr = pre ++ (host_event <$> htr) ++ post /\ done_well args out htr.
Lemma host_done_app_r args tr tr' : host_done args tr' -> host_done args (tr ++ tr').
Proof. intros (pre & htr & post & out & -> & H). exists (tr ++ pre), htr, post, out. by rewrite <- app_assoc. Qed.
Lemma host_done_app_l args tr tr' : host_done args tr -> host_done args (tr ++ tr').
Proof. intros (pre & htr & post & out & -> & H). exists pre, htr, (post ++ tr'), out. by rewrite <- !app_assoc. Qed.
(** Conversions wait for a staged file; the last command is the one to remove a file that a
    process began to write, whether or not it succeeds; a success is one of a staged file
    and a checked volume. *)
Definition rule (expected : string) (h : list xevent) (x : xevent) : Prop :=
  on_process converts_staged (projT1 x) = true -> staged expected h.
Definition removal_tried (v : VirshProvider) (tr : list xevent) : Prop :=
  forall env argv a, xev (StartReader env argv) a ∈ tr ->
    exists path pre post, last argv = Some ("cat > " +:+ shellQuote path) /\ tr = pre ++ post
      /\ runs (host (removeHostFile v path)) post (Done tt).
Definition arrived (expected : string) (resp : ImportDiskResponse) (tr : list xevent) : Prop :=
  staged expected tr /\ (expected <> "" -> imp_Checksum resp = expected)
  /\ host_done ["qemu-img"; "check"; shellQuote (imp_Path resp)] tr.
Definition imported (expected : string) (v : VirshProvider) (tr : list xevent) (o : outcome (res ImportDiskResponse)) : Prop :=
  conforms (rule expected) [] tr
  /\ match o with
     | Done r => removal_tried v tr /\ (forall resp, r = Ok resp -> arrived expected resp tr)
     | Panicked _ => True
     end.

Lemma notable_writes (tr : list xevent) : occurs notable tr = false -> delivered ToPipe tr = Some "".
Proof. intros H. apply delivered_silent. eapply occurs_weaken; [|exact H]. by intros []. Qed.
Lemma notable_converts (tr : list xevent) : occurs notable tr = false -> occurs (on_process converts_staged) tr = false.
Proof. intros H. eapply occurs_weaken; [|exact H]. by intros []. Qed.
Lemma conforms_quiet expected h (tr : list xevent) : occurs (on_process converts_staged) tr = false -> conforms (rule expected) h tr.
Proof.
  revert h. induction tr as [|x tr IH]; intros h; [done|]. rewrite occurs_cons. intros [Hx Ht]%orb_false_iff.
  split; [|by apply IH]. unfold rule. congruence.
Qed.
Lemma staged_prefix expected (tr tr' : list xevent) : occurs notable tr = false -> staged expected tr' -> staged expected (tr ++ tr').
Proof.
  intros Hn (bytes & e & Hd & Hw & Hs). exists bytes, e. rewrite delivered_app, (notable_writes tr Hn), Hd.
  split_and!; [done|apply elem_of_app; by right|done].
Qed.
(** Commands without interest in front. *)
Lemma imported_prefix expected v tr tr' o : occurs notable tr = false -> imported expected v tr' o -> imported expected v (tr ++ tr') o.
Proof.
  intros Hn [Hc Ho]. split.
  - apply conforms_app. split; [by apply conforms_quiet, notable_converts|].
    eapply conforms_mono; [|exact Hc]. intros t x Hr Hx. apply staged_prefix; [done|by apply Hr].
  - destruct o as [r|w]; [|done]. destruct Ho as [Hr Ha]. split.
    + intros env argv a [Hin|Hin]%elem_of_app.
      { exfalso. by eapply (occurs_false_elem notable (StartReader env argv) a). }
      destruct (Hr env argv a Hin) as (path & pre & post & Hl & -> & Hrun). exists path, (tr ++ pre), post.
      by rewrite <- app_assoc.
    + intros resp Hresp. destruct (Ha resp Hresp) as (Hs & He & Hd). split_and!; [by apply staged_prefix|done|by apply host_done_app_r].
Qed.
Lemma imported_nothing expected v tr (o : outcome (res ImportDiskResponse)) :
  occurs notable tr = false -> (forall resp, o <> Done (Ok resp)) -> imported expected v tr o.
Proof.
  intros Hn Ho. split; [by apply conforms_quiet, notable_converts|]. destruct o as [r|w]; [|done]. split.
  - intros env argv a Hin. exfalso. by eapply (occurs_false_elem notable (StartReader env argv) a).
  - intros resp ->. by destruct (Ho resp).
Qed.
Lemma imported_after {A} expected v (p : XM A) (k : A -> XR ImportDiskResponse) :
  silent notable p -> (forall a, wp (k a) (imported expected v)) -> wp (p ≫= k) (imported expected v).
Proof.
  intros Hp Hk. apply wp_bind. eapply wp_mono; [exact Hp|]. intros tr [a|w] Hn; cbn [bind_post].
  - eapply wp_mono; [apply Hk|]. intros tr' o. by apply imported_prefix.
  - by apply imported_nothing.
Qed.
Lemma imported_error expected v e : wp (fail e) (imported expected v).
Proof. by apply imported_nothing. Qed.

(** *** The staging of an object *)
Definition starts (c : xcall) : bool := match c with StartReader _ _ => true | _ => false end.
Definition starts_for (path : string) (tr : list xevent) : Prop :=
  forall env argv a, xev (StartReader env argv) a ∈ tr -> last argv = Some ("cat > " +:+ shellQuote path).
Lemma starts_none path (tr : list xevent) : occurs starts tr = false -> starts_for path tr.
Proof. intros H env argv a Hin. exfalso. by eapply (occurs_false_elem starts (StartReader env argv) a). Qed.
Lemma starts_app path tr tr' : starts_for path tr -> starts_for path tr' -> starts_for path (tr ++ tr').
Proof. intros H H' env argv a [Hin|Hin]%elem_of_app; eauto. Qed.
Lemma silent_false {A} (p : VM A) : silent (fun _ => false) p.
Proof. apply wp_runs. intros tr o _. induction tr as [|x tr IH]; [done|]. by rewrite occurs_cons. Qed.
Lemma host_quiet (f : xcall -> bool) {A} (p : VM A) : (forall c, f (Host c) = false) -> silent f (host p).
Proof.
  intros Hf. apply silent_host. eapply wp_mono; [apply silent_false|]. intros tr o. cbn. clear o.
  induction tr as [|x tr IH]; [done|]. rewrite !occurs_cons, Hf. intros [_ H]%orb_false_iff. by apply IH.
Qed.
(** Without writes a staged file stays one. *)
Lemma staged_stays expected (tr tr' : list xevent) : occurs is_write tr' = false -> staged expected tr -> staged expected (tr ++ tr').
Proof.
  intros Hn (bytes & e & Hd & Hw & Hs). exists bytes, e.
  rewrite delivered_app, Hd, (delivered_silent _ _ Hn). cbn. rewrite string_app_nil_r.
  split_and!; [done|apply elem_of_app; by left|done].
Qed.
Lemma conforms_staged expected (h tr : list xevent) :
  occurs is_write tr = false -> staged expected h -> conforms (rule expected) h tr.
Proof.
  revert h. induction tr as [|x tr IH]; intros h; [done|]. rewrite occurs_cons. intros [Hx Ht]%orb_false_iff Hs.
  split; [by intros _|]. apply IH; [done|]. apply staged_stays; [|done]. by rewrite occurs_cons, Hx.
Qed.

Lemma ssh_stream_wp what key v remote :
  wp (ssh_stream what key v remote) (fun _ o =>
    match o with Done (Ok c) => last (snd c) = Some remote | _ => True end).
Proof.
  unfold ssh_stream. destruct (url_Parse _) as [u|m]; [|done].
  apply wp_bind. eapply wp_mono; [apply wp_true|]. intros tr [[e|]|w] _; cbn [bind_post]; [done| |done].
  apply wp_bind. eapply wp_mono; [apply wp_true|]. intros tr' [mux|w] _; cbn [bind_post]; [|done].
  assert (forall pre, last (pre ++ sshHostKeyOptions (vp_hostKey v) ++ mux ++ [at_host u; remote]) = Some remote) as Hl.
  { intros pre. rewrite !app_assoc, last_app. done. }
  destruct (has_password v).
  - wp_step. wp_step. cbn [bind_post wp snd]. apply Hl.
  - cbn [wp snd]. rewrite app_assoc. apply Hl.
Qed.
Lemma ssh_host_wp what key v remote :
  wp (host (ssh_stream what key v remote)) (fun tr o =>
    occurs notable tr = false /\ match o with Done (Ok c) => last (snd c) = Some remote | _ => True end).
Proof.
  apply wp_and; [apply silent_notable, ssh_stream_quiet|]. apply wp_host, ssh_stream_wp.
Qed.

Lemma stage_wp v st req path :
  wp (stage v (OnS3 st) req path) (fun tr o =>
    occurs (on_process converts_staged) tr = false /\ starts_for path tr
    /\ match o with
       | Done (Ok dl) => staged (imp_ExpectedChecksum req) tr
                         /\ (imp_ExpectedChecksum req <> "" -> downr_Checksum dl = imp_ExpectedChecksum req)
       | _ => True
       end).
Proof.
  unfold stage. cbn [DownloadStream]. apply wp_bind. eapply wp_mono; [apply ssh_host_wp|].
  intros tr [c|w] [Hn Hc]; cbn [bind_post].
  2:{ split_and!; [by apply notable_converts| |done]. apply starts_none. eapply occurs_weaken; [|exact Hn]. by intros []. }
  assert (starts_for path tr) as Hst.
  { apply starts_none. eapply occurs_weaken; [|exact Hn]. by intros []. }
  apply wp_bind. apply (wp_mono _ (fun tr o => delivered ToPipe tr = Some "" /\ occurs (on_process converts_staged) tr = false /\ starts_for path tr)).
  { destruct c as [[env argv]|e]; [|split_and!; [done..|by apply starts_none]]. cbn [start_reader]. wp_step. split_and!; [done..|].
    intros env' argv' a [[=-> ->]|[]%elem_of_nil]%elem_of_cons. exact Hc. }
  intros tr1 [u|w] (Hd1 & Hn1 & Hs1); cbn [bind_post].
  2:{ rewrite occurs_app, (notable_converts _ Hn), Hn1. split_and!; [done|by apply starts_app|done]. }
  apply wp_bind. eapply wp_mono; [apply download_wp|]. intros tr2 o [Hn2 Ho].
  assert (starts_for path tr2) as Hs2.
  { apply starts_none. eapply occurs_weaken; [|exact Hn2]. by intros []. }
  apply (occurs_weaken _ (on_process converts_staged)) in Hn2; [|by intros []].
  destruct o as [dl|w]; cbn [bind_post].
  2:{ rewrite !occurs_app, (notable_converts _ Hn), Hn1, Hn2. split_and!; [done|auto using starts_app|done]. }
  wp_step. wp_step. cbn [bind_post].
  apply wp_bind. apply (wp_mono _ (fun tr o => occurs (on_process converts_staged) tr = false /\ occurs starts tr = false
     /\ delivered ToPipe tr = Some "" /\ match o with Done None => exists e, xev WaitReader (None, e) ∈ tr | _ => True end)).
  { destruct c as [c|e]; [|done]. cbn [await_reader]. wp_step. wp_step. cbn in r0. destruct r0 as [[m|] e]; [done|].
    split_and!; [done..|]. exists e. by left. }
  intros tr3 [stageErr|w] (Hn3 & Hs3 & Hd3 & Hw); cbn [bind_post wp].
  - rewrite app_nil_r. rewrite !occurs_app, (notable_converts _ Hn), Hn1, Hn2, Hn3. split; [done|].
    apply (starts_none path) in Hs3. split.
    { repeat apply starts_app; try done. by apply starts_none. }
    destruct dl as [dl|e]; [|done]. destruct stageErr as [e|]; [done|].
    destruct Ho as (bytes & Hd & Hsum & Hexp), Hw as (e & Hw). split; [|by rewrite Hsum].
    exists bytes, e. rewrite !delivered_app, (notable_writes _ Hn), Hd1, Hd, Hd3. cbn. rewrite !string_app_nil_r.
    split_and!; [done| |done]. rewrite !elem_of_app. do 3 right. by right.
  - rewrite !occurs_app, (notable_converts _ Hn), Hn1, Hn2, Hn3. split_and!; [done| |done].
    repeat apply starts_app; try done; by apply starts_none.
Qed.

(** *** The whole import *)
Lemma qemu_img_wp what v args :
  wp (host (qemu_img what v args)) (fun tr o =>
    match o with Done None => host_done ("qemu-img" :: args) tr | _ => True end).
Proof.
  apply wp_host. unfold qemu_img. apply wp_bind. eapply wp_mono; [apply ran_well|].
  intros tr [[r|r e]|w] Hr; cbn [bind_post wp]; [|done..].
  rewrite app_nil_r. exists [], tr, [], (vr_Stdout r). by rewrite app_nil_r.
Qed.
Lemma check_quiet what v target : silent (starting converts_staged) (qemu_img what v ["check"; shellQuote target]).
Proof. unfold qemu_img. no_convert. Qed.
Lemma refresh_quiet v pool : silent (starting converts_staged) (attempt v ["pool-refresh"; pool]).
Proof. no_convert. Qed.

Lemma convert_staged_wp v req format path target :
  wp (convert_staged v req format path target) (fun tr o =>
    occurs (fun c => starts c || is_write c) tr = false
    /\ match o with Done None => host_done ["qemu-img"; "check"; shellQuote target] tr | _ => True end).
Proof.
  apply wp_and.
  - change (silent (fun c => starts c || is_write c) (convert_staged v req format path target)).
    unfold convert_staged, on_host. repeat first [silent_step | by apply host_quiet].
  - unfold convert_staged, on_host. apply wp_bind. eapply wp_mono; [apply wp_true|].
    intros tr [[e|]|w] _; cbn [bind_post]; [done| |done].
    apply wp_bind. eapply wp_mono; [apply qemu_img_wp|]. intros tr' [[e|]|w] Hd; cbn [bind_post]; [done| |done].
    apply wp_bind. eapply wp_mono; [apply wp_true|]. intros tr2 [u|w] _; cbn [bind_post wp]; [|done].
    rewrite app_nil_r. by apply host_done_app_r, host_done_app_l.
Qed.

Lemma import_through_wp v st req format volume path target :
  wp (import_through v (OnS3 st) req format volume path target) (imported (imp_ExpectedChecksum req) v).
Proof.
  set (expected := imp_ExpectedChecksum req).
  assert (forall tr, starts_for path tr -> forall tr' resp, runs (host (removeHostFile v path)) tr' (Done tt) ->
            conforms (rule expected) [] tr ->
            (forall dl, resp = Ok dl -> arrived expected dl tr) ->
            imported expected v (tr ++ tr' ++ []) (Done resp)) as Hend.
  { intros tr Hst tr' resp Hr Hc Ha. rewrite app_nil_r.
    pose proof (proj1 (wp_runs _ _) (silent_notable _ (remove_quiet v path)) _ _ Hr) as Hn. cbn beta in Hn.
    split; [|split].
    - apply conforms_app. split; [done|]. by apply conforms_quiet, notable_converts.
    - intros env argv a [Hin|Hin]%elem_of_app; [exists path, tr, tr'; eauto|].
      exfalso. by eapply (occurs_false_elem notable (StartReader env argv) a).
    - intros dl Hdl. destruct (Ha dl Hdl) as ((bytes & e & Hd & Hw & Hs) & He & Hh).
      split_and!; [|done|by apply host_done_app_l].
      apply staged_stays; [eapply occurs_weaken; [|exact Hn]; by intros []|]. by exists bytes, e. }
  unfold import_through. apply wp_bind. eapply wp_mono; [apply stage_wp|]. intros tr o (Hn & Hst & Ho).
  destruct o as [r|w]; cbn [bind_post]; [|split; [by apply conforms_quiet|done]].
  apply wp_bind. apply (wp_mono _ (fun tr1 o => starts_for path tr1 /\ conforms (rule expected) tr tr1
     /\ match o with Done r => forall resp, r = Ok resp -> arrived expected resp (tr ++ tr1) | Panicked _ => True end)).
  { destruct r as [dl|e]; [|split_and!; [by apply starts_none|done..]]. destruct Ho as [Hs He].
    apply wp_bind. eapply wp_mono; [apply convert_staged_wp|]. intros tr1 o [Hs1 Ho].
    assert (occurs starts tr1 = false) as Hns by (eapply occurs_weaken; [|exact Hs1]; by intros []).
    assert (occurs is_write tr1 = false) as Hnw by (eapply occurs_weaken; [|exact Hs1]; by intros []).
    assert (conforms (rule expected) tr tr1) as Hc by (by apply conforms_staged).
    destruct o as [[e|]|w]; cbn [bind_post wp fail]; rewrite ?app_nil_r; (split_and!; [by apply starts_none|done|]); [done| |done].
    intros resp [= <-]. split_and!; [by apply staged_stays|done|by apply host_done_app_r]. }
  intros tr1 [r'|w] (Hst1 & Hc1 & Ha); cbn [bind_post].
  2:{ split; [|done]. apply conforms_app. split; [by apply conforms_quiet|]. exact Hc1. }
  apply wp_bind. eapply wp_mono; [apply wp_runs; by intros tr2 o2 H; exact H|]. intros tr2 [[]|w] Hr; cbn [bind_post wp].
  - rewrite app_assoc. apply Hend; [by apply starts_app|done| |done].
    apply conforms_app. split; [by apply conforms_quiet|]. exact Hc1.
  - split; [|done]. rewrite !conforms_app. split_and!; [by apply conforms_quiet|done|].
    apply conforms_quiet, notable_converts. by apply (proj1 (wp_runs _ _) (silent_notable _ (remove_quiet v path)) _ _ Hr).
Qed.

Lemma s3_client_wp {A} what json creds (k : StorageBackend -> XR A) Q :
  (forall e, wp (fail e) Q) -> (forall st, wp (k (OnS3 st)) Q) -> wp (s3_client what json creds k) Q.
Proof.
  intros He Hk. unfold s3_client, S3StorageConfigFromRequest.
  destruct (ParseStorageOptions json) as [opts|e]; [|apply He]. destruct (is_empty (so_Bucket opts)); [apply He|].
  destruct (_ || _); [apply He|].
  assert (forall config, sc_Type config = BackendS3 -> wp (try_ "failed to create s3 client" (NewStorage config) k) Q) as H; [|by apply H].
  intros config Ht. unfold try_, NewStorage. rewrite Ht.
  change (wp (Ret (match NewS3Storage config with Ok s => Ok (OnS3 s) | Err e => Err e end)
              ≫= fun r => match r with Ok a => k a | Err e => fail (EWrap "failed to create s3 client" e) end) Q).
  destruct (NewS3Storage config) as [st|e]; [apply Hk|apply He].
Qed.
Lemma import_wp s req :
  wp (importDiskFromS3 s req) (fun tr o =>
    match srv_provider s ≫= virshProvider with
    | Some v => imported (imp_ExpectedChecksum req) v tr o
    | None => tr = [] /\ forall resp, o <> Done (Ok resp)
    end).
Proof.
  unfold importDiskFromS3, on_libvirt. destruct (srv_provider s) as [p|]; [|done]. cbn [mbind option_bind].
  destruct (virshProvider p) as [v|]; [|done]. unfold over_ssh_or. destruct (over_ssh v); [|apply imported_error].
  apply s3_client_wp; [intros; apply imported_error|]. intros st.
  apply imported_after; [apply silent_notable, pool_no_convert|]. intros [pool|e]; [|apply imported_error].
  apply imported_after; [apply silent_notable, names_quiet|]. intros volume.
  apply imported_after.
  { unfold hostStagePath, seconds. solve_silent. }
  intros path. apply import_through_wp.
Qed.

(** C39. An import over S3 that is given the sum of the object converts what it staged only
    once the host took every byte the client sent, the process that writes them ended
    well, and the sum of these bytes was the expected one.  When a file was begun on the
    host the last thing that is tried, unless the provider panicked, is to remove it
    with rm -f; whether that succeeds is not looked at, and its path, unlike that of the
    writing, is not quoted for the shell of the host.  A success reports the expected sum
    and a volume that [qemu-img] checked. *)
Theorem s3_imports_are_verified s req tr o :
  imp_BackendType req = BackendS3 ->
  runs (Server_ImportDisk s req) tr o ->
  (forall pre x post, tr = pre ++ x :: post -> on_process converts_staged (projT1 x) = true ->
     staged (imp_ExpectedChecksum req) pre)
  /\ match o with
     | Done r => (forall p v, srv_provider s = Some p -> virshProvider p = Some v -> removal_tried v tr)
                 /\ (forall resp, r = Ok resp -> arrived (imp_ExpectedChecksum req) resp tr)
     | Panicked _ => True
     end.
Proof.
  intros Hb Hr.
  assert (runs (importDiskFromS3 s req) tr o \/ tr = [] /\ exists e, o = Done (Err e)) as [H|[-> (e & ->)]].
  { revert Hr. unfold Server_ImportDisk. rewrite Hb. destruct (EnsurePVCS3OrNFSBackend _) as [e|]; [intros [-> ->]; right; eauto|].
    cbn [String.eqb BackendS3 BackendNFS]. destruct (EnsureRelayMode _) as [e|]; [intros [-> ->]; right; eauto|]. by left. }
  - pose proof (proj1 (wp_runs _ _) (import_wp s req) _ _ H) as Hi. cbn beta in Hi.
    destruct (srv_provider s ≫= virshProvider) as [v|] eqn:Hv.
    + destruct Hi as [Hc Ho]. split; [intros pre x post; apply (conforms_split (rule _) [] tr pre x post Hc)|].
      destruct o as [r|w]; [|done]. destruct Ho as [Hrm Ha]. split; [|done].
      intros p v' Hp Hv'. rewrite Hp in Hv. cbn in Hv. by assert (v' = v) as -> by congruence.
    + destruct Hi as [-> Hne]. split; [by intros [] x post|]. destruct o as [r|w]; [|done]. split.
      * intros p v' Hp Hv'. rewrite Hp in Hv. cbn in Hv. congruence.
      * intros resp ->. by destruct (Hne resp).
  - split; [by intros [] x post|]. split; [|done]. intros p v _ _ env argv a []%elem_of_nil.
Qed.
End Imports.

(** ** Sizes *)
(** A size goes to the image tool in whole units of the largest kind that fits: one and
    a half gibibytes become one. *)
Theorem sizes_are_rounded_down :
  formatSize (3 * 512 * 1024 ^ 2) = "1G" /\ formatSize (1024 ^ 3 - 1) = "1023M".
Proof. split; reflexivity. Qed.

(** ** Concrete runs *)
Module DemoTransfer.
Import DemoLibraries DemoGrpc DemoLibvirt DemoChanges.
#[export] Instance demo_sum : Sha256 := {| sha256hex s := FormatInt (len s) +:+ ":" +:+ s |}.
#[export] Instance demo_minio : Minio := {| minio_New _ _ := None |}.
#[export] Instance demo_scan : Scanner := {| scan_size _ := None; scan_int _ := Some 5; unicode_ToUpper r := r |}.
#[export] Instance demo_codec : OptionsCodec := {|
  json_marshal_options _ := Ok "{}";
  json_unmarshal_options _ := Ok (mkStorageOptions "s3" "disks" "" "" "" false "" "" "" None None)
|}.

(** Files that work, the host of the other runs, and a store with one object. *)
Definition demo_world (c : xcall) (w : files * nat) : xanswer c * (files * nat) :=
  match c return xanswer c * (files * nat) with
  | Pod c => (DemoCluster.idle c, (match c with Remove path => delete path w.1 | _ => w.1 end, w.2))
  | Host c => let '(a, n) := demo_host c w.2 in (a, (w.1, n))
  | OpenFile path => (match w.1 !! path with Some s => Opened [(s, None)] | None => OpenNotExist "no such file" end, w)
  | FstatSize path => (Ok (len (default "" (w.1 !! path))), w)
  | LookAt path => (InfoNotExist "no such file", w)
  | CreateFile path => (None, (<[path := ""]> w.1, w.2))
  | Write (ToFile path) chunk => ((len chunk, None), (<[path := default "" (w.1 !! path) +:+ chunk]> w.1, w.2))
  | Write ToPipe chunk => ((len chunk, None), w)
  | Sync _ => (None, w)
  | Combined _ _ => (("", None), w)
  | PutObject _ _ _ _ body => (mkPut (length body) (Ok (5, "etag")), w)
  | GetObject _ _ => (Ok [("he", None); ("llo", None)], w)
  | RemoveObject _ _ => (None, w)
  | StatObject _ _ => (Err "no such object", w)
  | StartReader _ _ | ClosePipe _ => (tt, w)
  | WaitReader | BreakPipe => ((None, ""), w)
  | RunWriter _ _ => ((["hello"], (None, "")), w)
  end.
Lemma demo_acts c w : acts w.1 c (demo_world c w).1 (demo_world c w).2.1.
Proof.
  destruct c as [c|c|path|path|path|path|[path|] chunk|path|env argv|b k s q body|b k|b k|b k|env argv|e| |env argv|]; cbn; try done.
  - by destruct c.
  - destruct c; cbn; by destruct w.
  - destruct (w.1 !! path) as [s|]; [|by eauto]. split; [done|]. exists [(s, None)]. cbn. by rewrite string_app_nil_r.
Qed.
Lemma demo_follows {A} (p : XM A) w : follows w.1 (exec demo_world p w).1.1 (exec demo_world p w).2.1.
Proof.
  revert w. induction p as [a|c k IH|why]; intros w; [done| |done]. cbn [exec].
  pose proof (demo_acts c w) as Ha. destruct (demo_world c w) as [a w1]. cbn [fst snd] in Ha.
  specialize (IH a w1). destruct (exec demo_world (k a) w1) as [[tr o] w2]. cbn in *. by exists w1.1.
Qed.

Definition demo_claim : PVCStorage := mkPVCStorage (mkStorageConfig "pvc" "" "" "/mnt/c" None) "/mnt/c".
Definition demo_up : XM (res UploadResponse) := PVC_Upload demo_claim (mkUploadRequest "/disk" "pvc://c/x" None 5 "").
Definition demo_down : XM (res DownloadResponse) :=
  PVC_Download demo_claim (mkDownloadRequest "pvc://c/x" "/tmp/x" None true "5:hello").
Definition demo_start : files * nat := ({["/disk" := "hello"]}, 1%nat).
Lemma staged_disks_round_trip_witness :
  let up := exec demo_world demo_up demo_start in
  let down := exec demo_world demo_down up.2 in
  up.1.2 = Done (Ok (mkUploadResponse "pvc://c/x" "5:hello" 5 ""))
  /\ down.1.2 = Done (Ok (mkDownloadResponse 5 "5:hello" 5)) /\ down.2.1 !! "/tmp/x" = Some "hello".
Proof.
  cbn zeta.
  destruct (staged_disks_round_trip demo_claim "/disk" "pvc://c/x" "/mnt/c/x" 5 demo_start.1 "hello" _ _ _
              eq_refl ltac:(done) ltac:(done) eq_refl (exec_runs demo_world demo_up demo_start) (demo_follows demo_up demo_start))
    as (Hup & Hfs & Hdown).
  set (up := exec demo_world demo_up demo_start) in *.
  destruct (Hdown "/tmp/x" up.2.1 "hello" _ _ _ ltac:(done) ltac:(done) ltac:(by rewrite Hfs; apply lookup_insert_eq)
              (exec_runs demo_world demo_down up.2) (demo_follows demo_down up.2)) as (Hfs' & Hok & _).
  split; [exact Hup|]. split; [by apply Hok|]. rewrite Hfs'. apply lookup_insert_eq.
Defined.

Definition demo_import : ImportDiskRequest :=
  mkImportDiskRequest "s3://disks/web.vmdk" "" "vmdk" "web" true "5:hello"
    (<["accessKeyID" := "id"]> {["secretAccessKey" := "key"]}) "s3" "" "{}".
Definition demo_server : Server := mkServer (Some demo_provider).
Definition demo_importing : XR ImportDiskResponse := Server_ImportDisk demo_server demo_import.
Lemma s3_imports_are_verified_witness :
  let run := exec demo_world demo_importing (∅, 1%nat) in
  occurs (on_process converts_staged) run.1.1 = true
  /\ exists resp, run.1.2 = Done (Ok resp) /\ arrived "5:hello" resp run.1.1 /\ removal_tried demo_virsh run.1.1.
Proof.
  cbn zeta. split; [vm_compute; reflexivity|].
  destruct (s3_imports_are_verified demo_server demo_import _ _ eq_refl (exec_runs demo_world demo_importing (∅, 1%nat)))
    as [_ H].
  destruct (exec demo_world demo_importing (∅, 1%nat)) as [[tr o] w] eqn:He. cbn [fst snd] in *.
  assert (exists resp, o = Done (Ok resp)) as (resp & ->).
  { vm_compute in He. injection He as _ <- _. by eexists. }
  exists resp. split; [done|]. destruct H as [Hrm Ha]. split; [by apply Ha|]. by eapply Hrm.
Defined.
End DemoTransfer.
